(** * Tiny16: a shallow embedding of the emulator and the two-pass assembler

    The development follows [src/tiny.cpp]: the [Memory] device with its
    memory-mapped registers, the [CPU] core ([fetch16], [add16], [sub16],
    [push16], [pop16], [exec]) and the [Assembler] ([load], [pass1],
    [pass2]).  Fixed-width C++ integers are integers of [Z] whose
    wrap-around is written out at every conversion; the platform is the
    usual LP64 one ([int] has 32 bits, [long] has 64 bits). *)

From Stdlib Require Import ZArith List Ascii String Lia Bool DecimalString DecimalPos.
From stdpp Require Import base option list gmap strings.

Local Open Scope Z_scope.

(** ** Fixed-width conversions *)

(** [(uint8_t)v], [(uint16_t)v] and [(uint32_t)v]. *)
Definition wrap8 (v : Z) : Z := v mod 256.
Definition wrap16 (v : Z) : Z := v mod 65536.
Definition wrap32 (v : Z) : Z := v mod 4294967296.

(** [(int8_t)v] for [v] an [uint8_t]. *)
Definition sext8 (v : Z) : Z := if v <? 128 then v else v - 256.

(** The conversion of an integer to [bool]. *)
Definition to_bool (v : Z) : bool := negb (v =? 0).

(** ** Observable events

    The C++ code writes characters to [cout] and diagnostics to [cerr].
    The [trace] below records them, together with every address handed to
    [Memory::read8] and [Memory::write8], newest event first. *)

Inductive event : Type :=
| EvRead (addr : Z)                 (* read8(addr) *)
| EvWrite (addr val : Z)            (* write8(addr, val) *)
| EvUart (ch : Z)                   (* cout << ch *)
| EvDiag (opcode : Z) (pc : Z).     (* cerr << "Unknown opcode: " << opcode
                                            << " at PC=0x" << hex << pc *)

(** ** Memory with MMIO *)

Record Memory : Type := mkMemory {
  mem : gmap Z Z;          (* array<uint8_t, 65536>, zero where absent *)
  timer : Z;               (* uint16_t *)
  timercmp : Z;            (* uint16_t *)
  irq_pending : bool;
  trace : list event       (* ghost: what the run has done so far *)
}.

Definition fresh_Memory : Memory :=
  {| mem := ∅; timer := 0; timercmp := 0; irq_pending := false; trace := [] |}.

Definition log (e : event) (m : Memory) : Memory :=
  {| mem := mem m; timer := timer m; timercmp := timercmp m;
     irq_pending := irq_pending m; trace := e :: trace m |}.

Definition set_timer (v : Z) (m : Memory) : Memory :=
  {| mem := mem m; timer := v; timercmp := timercmp m;
     irq_pending := irq_pending m; trace := trace m |}.

Definition set_timercmp (v : Z) (m : Memory) : Memory :=
  {| mem := mem m; timer := timer m; timercmp := v;
     irq_pending := irq_pending m; trace := trace m |}.

Definition set_irq_pending (b : bool) (m : Memory) : Memory :=
  {| mem := mem m; timer := timer m; timercmp := timercmp m;
     irq_pending := b; trace := trace m |}.

Definition set_mem (a v : Z) (m : Memory) : Memory :=
  {| mem := <[a := v]> (mem m); timer := timer m; timercmp := timercmp m;
     irq_pending := irq_pending m; trace := trace m |}.

(** [mem[addr]] *)
Definition cell (m : Memory) (addr : Z) : Z := default 0 (mem m !! addr).

Definition mmio_read (m : Memory) (addr : Z) : Z :=
  match addr with
  | 0xFF00 => 0
  | 0xFF01 => 0xFF
  | 0xFF10 => wrap8 (Z.land (timer m) 0xFF)
  | 0xFF11 => wrap8 (Z.land (Z.shiftr (timer m) 8) 0xFF)
  | 0xFF12 => wrap8 (Z.land (timercmp m) 0xFF)
  | 0xFF13 => wrap8 (Z.land (Z.shiftr (timercmp m) 8) 0xFF)
  | 0xFF14 => if irq_pending m then 1 else 0
  | _ => 0
  end.

Definition mmio_write (m : Memory) (addr val : Z) : Memory :=
  match addr with
  | 0xFF00 => log (EvUart val) m
  | 0xFF10 => set_timer (wrap16 (Z.lor (Z.land (timer m) 0xFF00) val)) m
  | 0xFF11 => set_timer (wrap16 (Z.lor (Z.land (timer m) 0x00FF) (Z.shiftl val 8))) m
  | 0xFF12 => set_timercmp (wrap16 (Z.lor (Z.land (timercmp m) 0xFF00) val)) m
  | 0xFF13 => set_timercmp (wrap16 (Z.lor (Z.land (timercmp m) 0x00FF) (Z.shiftl val 8))) m
  | 0xFF14 => if val =? 1 then set_irq_pending false m else m
  | _ => m
  end.

(** [addr] is an [uint16_t] and [val] an [uint8_t]: callers convert. *)
Definition read8 (m : Memory) (addr : Z) : Z * Memory :=
  let m := log (EvRead addr) m in
  if 0xFF00 <=? addr then (mmio_read m addr, m) else (cell m addr, m).

Definition read16 (m : Memory) (addr : Z) : Z * Memory :=
  let '(lo, m) := read8 m addr in
  let '(hi, m) := read8 m (wrap16 (addr + 1)) in
  (wrap16 (Z.lor (Z.shiftl hi 8) lo), m).

Definition write8 (m : Memory) (addr val : Z) : Memory :=
  let m := log (EvWrite addr val) m in
  if 0xFF00 <=? addr then mmio_write m addr val else set_mem addr val m.

Definition write16 (m : Memory) (addr val : Z) : Memory :=
  let m := write8 m addr (wrap8 (Z.land val 0xFF)) in
  write8 m (wrap16 (addr + 1)) (wrap8 (Z.land (Z.shiftr val 8) 0xFF)).

Definition tick (m : Memory) : Memory :=
  let m := set_timer (wrap16 (timer m + 1)) m in
  if (0 <? timercmp m) && (timercmp m <=? timer m)
  then set_irq_pending true m else m.

(** ** CPU core *)

Record CPU : Type := mkCPU {
  cmem : Memory;           (* Memory &mem *)
  R : list Z;              (* uint16_t R[8] *)
  PC : Z;                  (* uint16_t *)
  ZF : bool; NF : bool; CF : bool; VF : bool;     (* Z, N, C, V *)
  halted : bool
}.

Definition new_CPU (m : Memory) : CPU :=
  {| cmem := m; R := [0; 0; 0; 0; 0; 0; 0; 0x7FFC]; PC := 0;
     ZF := false; NF := false; CF := false; VF := false; halted := false |}.

Definition set_cmem (m : Memory) (c : CPU) : CPU :=
  {| cmem := m; R := R c; PC := PC c; ZF := ZF c; NF := NF c; CF := CF c;
     VF := VF c; halted := halted c |}.

Definition set_R (r : list Z) (c : CPU) : CPU :=
  {| cmem := cmem c; R := r; PC := PC c; ZF := ZF c; NF := NF c; CF := CF c;
     VF := VF c; halted := halted c |}.

Definition set_PC (v : Z) (c : CPU) : CPU :=
  {| cmem := cmem c; R := R c; PC := v; ZF := ZF c; NF := NF c; CF := CF c;
     VF := VF c; halted := halted c |}.

Definition set_ZN (z n : bool) (c : CPU) : CPU :=
  {| cmem := cmem c; R := R c; PC := PC c; ZF := z; NF := n; CF := CF c;
     VF := VF c; halted := halted c |}.

Definition set_C (b : bool) (c : CPU) : CPU :=
  {| cmem := cmem c; R := R c; PC := PC c; ZF := ZF c; NF := NF c; CF := b;
     VF := VF c; halted := halted c |}.

Definition set_V (b : bool) (c : CPU) : CPU :=
  {| cmem := cmem c; R := R c; PC := PC c; ZF := ZF c; NF := NF c; CF := CF c;
     VF := b; halted := halted c |}.

Definition set_halted (b : bool) (c : CPU) : CPU :=
  {| cmem := cmem c; R := R c; PC := PC c; ZF := ZF c; NF := NF c; CF := CF c;
     VF := VF c; halted := b |}.

(** [R[i]] and [R[i] = v]; the index is a three-bit field or the constant 7. *)
Definition reg (c : CPU) (i : Z) : Z := default 0 (R c !! Z.to_nat i).
Definition set_reg (i v : Z) (c : CPU) : CPU := set_R (<[Z.to_nat i := v]> (R c)) c.

Definition fetch16 (c : CPU) : Z * CPU :=
  let '(w, m) := read16 (cmem c) (PC c) in
  (w, set_PC (wrap16 (PC c + 2)) (set_cmem m c)).

Definition setZN (res : Z) (c : CPU) : CPU :=
  set_ZN (res =? 0) (to_bool (Z.land res 0x8000)) c.

(** [C = V = 0] *)
Definition clearCV (c : CPU) : CPU := set_V false (set_C false c).

(** [a] and [b] are [uint16_t]; the result is returned with the new flags. *)
Definition add16 (a b : Z) (c : CPU) : Z * CPU :=
  let w := wrap32 (a + b) in
  let res := wrap16 w in
  let c := set_C (to_bool (Z.land (Z.shiftr w 16) 1)) c in
  let c := set_V (to_bool (Z.land (Z.shiftr
             (Z.land (Z.lnot (Z.lxor a b)) (Z.lxor a res)) 15) 1)) c in
  (res, setZN res c).

(** In [(uint32_t)(~b)] the operand [b] is first promoted to [int], so [~b]
    is the 32-bit complement of [b]. *)
Definition sub16 (a b : Z) (c : CPU) : Z * CPU :=
  let w := wrap32 (a + wrap32 (Z.lnot b) + 1) in
  let res := wrap16 w in
  let c := set_C (to_bool (Z.land (Z.shiftr w 16) 1)) c in
  let c := set_V (to_bool (Z.land (Z.shiftr
             (Z.land (Z.lxor a b) (Z.lxor a res)) 15) 1)) c in
  (res, setZN res c).

Definition push16 (v : Z) (c : CPU) : CPU :=
  let c := set_reg 7 (wrap16 (reg c 7 - 2)) c in
  set_cmem (write16 (cmem c) (reg c 7) v) c.

Definition pop16 (c : CPU) : Z * CPU :=
  let '(v, m) := read16 (cmem c) (reg c 7) in
  let c := set_cmem m c in
  (v, set_reg 7 (wrap16 (reg c 7 + 2)) c).

(** [R[rd] = v; setZN(R[rd]); C = V = 0;] *)
Definition load_reg (rd v : Z) (c : CPU) : CPU :=
  let c := set_reg rd v c in
  clearCV (setZN (reg c rd) c).

(** The five-bit displacement of the short LD/ST forms, sign-extended. *)
Definition simm5_of (insn : Z) : Z :=
  let s := Z.land insn 0x1F in
  if to_bool (Z.land s 0x10) then s - 32 else s.

(** A conditional jump: the target word is fetched, then taken or not. *)
Definition jump_if (cond : CPU -> bool) (c : CPU) : CPU :=
  let '(a, c) := fetch16 c in
  if cond c then set_PC a c else c.

(** The [switch (opcode)] of [CPU::exec]. *)
Definition dispatch (insn opcode rd rs1 imm3 simm8 : Z) (c : CPU) : CPU :=
  match opcode with
  | 0x00 => c
  | 0x01 => set_halted true c
  | 0x02 => let '(w, c) := fetch16 c in load_reg rd w c
  | 0x03 => load_reg rd (reg c rs1) c
  | 0x04 => let '(r, c) := add16 (reg c rd) (reg c rs1) c in set_reg rd r c
  | 0x05 => let '(r, c) := sub16 (reg c rd) (reg c rs1) c in set_reg rd r c
  | 0x06 => load_reg rd (Z.land (reg c rd) (reg c rs1)) c
  | 0x07 => load_reg rd (Z.lor (reg c rd) (reg c rs1)) c
  | 0x08 => load_reg rd (Z.lxor (reg c rd) (reg c rs1)) c
  | 0x09 => load_reg rd (wrap16 (Z.lnot (reg c rd))) c
  | 0x0A =>
      let sh := Z.land imm3 7 in
      let c :=
        if to_bool sh
        then let c := set_C (to_bool (Z.land (Z.shiftr (reg c rd) (16 - sh)) 1)) c in
             set_reg rd (wrap16 (Z.shiftl (reg c rd) sh)) c
        else set_C false c in
      set_V false (setZN (reg c rd) c)
  | 0x0B =>
      let sh := Z.land imm3 7 in
      let c :=
        if to_bool sh
        then let c := set_C (to_bool (Z.land (Z.shiftr (reg c rd) (sh - 1)) 1)) c in
             set_reg rd (wrap16 (Z.shiftr (reg c rd) sh)) c
        else set_C false c in
      set_V false (setZN (reg c rd) c)
  | 0x0C => let '(r, c) := add16 (reg c rd) (wrap16 simm8) c in set_reg rd r c
  | 0x0D => let '(_, c) := sub16 (reg c rd) (wrap16 simm8) c in c
  | 0x0E => let '(_, c) := sub16 (reg c rd) (reg c rs1) c in c
  | 0x0F =>
      let '(addr, c) := fetch16 c in
      let '(v, m) := read16 (cmem c) addr in
      load_reg rd v (set_cmem m c)
  | 0x10 =>
      let '(addr, c) := fetch16 c in
      set_cmem (write16 (cmem c) addr (reg c rs1)) c
  | 0x11 =>
      let '(addr, c) := fetch16 c in
      let '(v, m) := read8 (cmem c) addr in
      load_reg rd v (set_cmem m c)
  | 0x12 =>
      let '(addr, c) := fetch16 c in
      set_cmem (write8 (cmem c) addr (wrap8 (Z.land (reg c rs1) 0xFF))) c
  | 0x13 =>
      let addr := wrap16 (reg c rs1 + simm5_of insn) in
      let '(v, m) := read16 (cmem c) addr in
      load_reg rd v (set_cmem m c)
  | 0x14 =>
      let addr := wrap16 (reg c rd + simm5_of insn) in
      set_cmem (write16 (cmem c) addr (reg c rs1)) c
  | 0x15 => let '(a, c) := fetch16 c in set_PC a c
  | 0x16 => jump_if ZF c
  | 0x17 => jump_if (fun c => negb (ZF c)) c
  | 0x18 => jump_if CF c
  | 0x19 => jump_if NF c
  | 0x1A => let '(a, c) := fetch16 c in set_PC a (push16 (PC c) c)
  | 0x1B => let '(v, c) := pop16 c in set_PC v c
  | 0x1C =>
      let '(a, c) := fetch16 c in
      let '(v, m) := if 0xFF00 <=? a then read8 (cmem c) a else read16 (cmem c) a in
      load_reg rd v (set_cmem m c)
  | 0x1D =>
      let '(a, c) := fetch16 c in
      set_cmem (if 0xFF00 <=? a
                then write8 (cmem c) a (wrap8 (Z.land (reg c rs1) 0xFF))
                else write16 (cmem c) a (reg c rs1)) c
  | _ =>
      let c := set_cmem (log (EvDiag opcode (wrap32 (PC c - 2))) (cmem c)) c in
      set_halted true c
  end.

(** Everything [exec] does to a running CPU before [mem.tick()]. *)
Definition exec_insn (c : CPU) : CPU :=
  let '(insn, c) := fetch16 c in
  let opcode := Z.land (Z.shiftr insn 11) 0x1F in
  let rd := Z.land (Z.shiftr insn 8) 0x07 in
  let rs1 := Z.land (Z.shiftr insn 5) 0x07 in
  let imm3 := Z.land insn 0x07 in
  let imm8 := Z.land insn 0xFF in
  let simm8 := sext8 imm8 in
  dispatch insn opcode rd rs1 imm3 simm8 c.

Definition exec (c : CPU) : CPU :=
  if halted c then c
  else let c := exec_insn c in set_cmem (tick (cmem c)) c.

(** [while (!cpu.halted) cpu.exec();] cut off after [fuel] instructions. *)
Fixpoint run (fuel : nat) (c : CPU) : CPU :=
  match fuel with
  | O => c
  | S k => if halted c then c else run k (exec c)
  end.

(** [loadImage] *)
Fixpoint loadImage_from (m : Memory) (bin : list Z) (base i : Z) : Memory :=
  match bin with
  | [] => m
  | b :: bin' => loadImage_from (write8 m (wrap16 (base + i)) b) bin' base (i + 1)
  end.

Definition loadImage (m : Memory) (bin : list Z) (base : Z) : Memory :=
  loadImage_from m bin base 0.

(** A CPU over a fresh [Memory] into which [prog] was loaded at address 0. *)
Definition cpu_with (prog regs : list Z) (pc : Z) : CPU :=
  set_PC pc (set_R regs (new_CPU (loadImage fresh_Memory prog 0))).

(** ** Well-formed states

    The C++ types bound every field; on [Z] the bounds are a predicate. *)

Definition u8 (v : Z) : Prop := 0 <= v < 256.
Definition u16 (v : Z) : Prop := 0 <= v < 65536.

Definition wf_Memory (m : Memory) : Prop :=
  (forall a v, mem m !! a = Some v -> u8 v) /\ u16 (timer m) /\ u16 (timercmp m).

Definition wf_CPU (c : CPU) : Prop :=
  wf_Memory (cmem c) /\ length (R c) = 8%nat /\ Forall u16 (R c) /\ u16 (PC c).

(** What a well-typed run may log: addresses and values within their types. *)
Definition ev_ok (e : event) : Prop :=
  match e with
  | EvRead a => u16 a
  | EvWrite a v => u16 a /\ u8 v
  | EvUart ch => u8 ch
  | EvDiag op _ => 0 <= op < 32
  end.

(** A write to TIMER_LO, TIMER_HI, TCMP_LO or TCMP_HI. *)
Definition writes_timer (e : event) : bool :=
  match e with
  | EvWrite a _ => (0xFF10 <=? a) && (a <=? 0xFF13)
  | _ => false
  end.

Definition no_timer_write (evs : list event) : Prop :=
  Forall (fun e => writes_timer e = false) evs.

(** [m'] is reached from [m] by reads and writes that logged [evs] (newest
    first): the events are well-typed, only a write to a timer register
    changes [timer] or [timercmp], and no access raises [irq_pending]. *)
Definition mstep (m m' : Memory) (evs : list event) : Prop :=
  trace m' = evs ++ trace m /\
  Forall ev_ok evs /\
  wf_Memory m' /\
  (no_timer_write evs -> timer m' = timer m /\ timercmp m' = timercmp m) /\
  (irq_pending m' = true -> irq_pending m = true).

(** [c'] is a well-formed CPU reached from [c] by a well-typed run. *)
Definition cstep (c c' : CPU) : Prop :=
  wf_CPU c' /\ exists evs, mstep (cmem c) (cmem c') evs.


(** The fields of an instruction word, as [exec] decodes them. *)
Definition opcode_of (insn : Z) : Z := Z.land (Z.shiftr insn 11) 0x1F.

(** The events a run from [c] to [c'] has added to the trace. *)
Definition events_since (c c' : CPU) : list event :=
  take (length (trace (cmem c')) - length (trace (cmem c))) (trace (cmem c')).

(** The memory address an event touches. *)
Definition addr_of (e : event) : option Z :=
  match e with
  | EvRead a => Some a
  | EvWrite a _ => Some a
  | _ => None
  end.

(** Opcodes of the single-word instructions that do not branch, and the two
    opcodes without a case in [exec]. *)
Definition single_word (opcode : Z) : bool :=
  match opcode with
  | 0x00 | 0x01 | 0x03 | 0x04 | 0x05 | 0x06 | 0x07 | 0x08 | 0x09 | 0x0A
  | 0x0B | 0x0C | 0x0D | 0x0E | 0x13 | 0x14 | 0x1E | 0x1F => true
  | _ => false
  end.

(** ** Strings, as the assembler uses them

    A C++ [string] is a [string]; positions and sizes are natural numbers
    where they are in range by construction and integers where the code
    computes them with [size_t] arithmetic. *)

Definition wrap64 (v : Z) : Z := v mod 18446744073709551616.

(** [(int)v] and the clamp of [strtol] to the range of [long]. *)
Definition to_int32 (v : Z) : Z := (v + 2147483648) mod 4294967296 - 2147483648.
Definition clamp_long (v : Z) : Z :=
  Z.max (-9223372036854775808) (Z.min 9223372036854775807 v).

Definition code (c : ascii) : Z := Z.of_N (N_of_ascii c).

Definition ch_tab : ascii := "009"%char.
Definition ch_nl : ascii := "010"%char.
Definition ch_cr : ascii := "013"%char.
Definition ch_nul : ascii := "000"%char.
Definition ch_dquote : ascii := "034"%char.
Definition ch_squote : ascii := "039"%char.
Definition ch_backslash : ascii := "092"%char.

Definition ascii_eqb (a b : ascii) : bool := Ascii.eqb a b.

(** [tolower] in the C locale. *)
Definition tolower (c : ascii) : ascii :=
  if (65 <=? code c) && (code c <=? 90)
  then ascii_of_N (Z.to_N (code c + 32)) else c.

Fixpoint lower (s : string) : string :=
  match s with
  | EmptyString => EmptyString
  | String c s' => String (tolower c) (lower s')
  end.

Definition is_space (c : ascii) : bool :=
  ascii_eqb c " "%char || ascii_eqb c ch_tab || ascii_eqb c ch_cr || ascii_eqb c ch_nl.

(** [isspace] of the C library, which the stream extraction and [strtol]
    use: it also accepts the vertical tab and the form feed. *)
Definition isspace (c : ascii) : bool :=
  is_space c || ascii_eqb c "011"%char || ascii_eqb c "012"%char.

(** The operations of [std::string] that the assembler calls. *)
Module Str.

Definition empty (s : string) : bool :=
  match s with EmptyString => true | _ => false end.

Fixpoint drop_while (p : ascii -> bool) (s : string) : string :=
  match s with
  | EmptyString => EmptyString
  | String c s' => if p c then drop_while p s' else s
  end.

Fixpoint take_while (p : ascii -> bool) (s : string) : string :=
  match s with
  | EmptyString => EmptyString
  | String c s' => if p c then String c (take_while p s') else EmptyString
  end.

(** Drops the trailing characters that satisfy [p]. *)
Fixpoint drop_while_end (p : ascii -> bool) (s : string) : string :=
  match s with
  | EmptyString => EmptyString
  | String c s' =>
      let r := drop_while_end p s' in
      if p c && empty r then EmptyString else String c r
  end.

(** [s.find(c)]; [None] is [npos]. *)
Fixpoint find (c : ascii) (s : string) : option nat :=
  match s with
  | EmptyString => None
  | String d s' => if ascii_eqb d c then Some O else S <$> find c s'
  end.

(** [s.substr(pos)] and [s.substr(pos, n)] for [pos <= s.size()], which
    holds at every call; [n] is a [size_t]. *)
Fixpoint substr_from (pos : nat) (s : string) : string :=
  match pos, s with
  | O, _ => s
  | S k, EmptyString => EmptyString
  | S k, String _ s' => substr_from k s'
  end.

Fixpoint take (n : nat) (s : string) : string :=
  match n, s with
  | O, _ => EmptyString
  | S k, EmptyString => EmptyString
  | S k, String c s' => String c (take k s')
  end.

Definition size (s : string) : nat := String.length s.

Definition substr (pos : nat) (n : Z) (s : string) : string :=
  take (Z.to_nat (Z.min n (Z.of_nat (size s)))) (substr_from pos s).

(** [s.front()], [s.back()] and [s[i]]. *)
Definition front (s : string) : option ascii :=
  match s with EmptyString => None | String c _ => Some c end.

Fixpoint back (s : string) : option ascii :=
  match s with
  | EmptyString => None
  | String c EmptyString => Some c
  | String _ s' => back s'
  end.

Definition char_at (i : nat) (s : string) : option ascii := String.get i s.

(** [low.rfind(p, 0) == 0]: [p] is a prefix of [low]. *)
Definition starts_with (p low : string) : bool := String.prefix p low.

End Str.

Definition trim (s : string) : string :=
  Str.drop_while_end is_space (Str.drop_while is_space s).

(** [o] is the character [c]. *)
Definition is_char (o : option ascii) (c : ascii) : bool :=
  match o with Some d => ascii_eqb d c | None => false end.

(** [splitComma]: the scan keeps the part being built, the bracket depth
    and whether it is inside a quoted string. *)
Fixpoint splitComma_scan (s cur : string) (par : Z) (inStr : bool) : list string :=
  match s with
  | EmptyString => if Str.empty cur then [] else [trim cur]
  | String c s' =>
      let inStr := if ascii_eqb c ch_dquote then negb inStr else inStr in
      let par := if negb inStr && ascii_eqb c "["%char then par + 1 else par in
      let par := if negb inStr && ascii_eqb c "]"%char then par - 1 else par in
      if negb inStr && (par =? 0) && ascii_eqb c ","%char
      then trim cur :: splitComma_scan s' EmptyString par inStr
      else splitComma_scan s' (cur +:+ String c EmptyString) par inStr
  end.

Definition splitComma (s : string) : list string :=
  splitComma_scan s EmptyString 0 false.

(** ** [strtol]

    [c_str] cuts a string at its first NUL.  [strtol s base] gives the
    [long] that was read and what is left at [*end]; when no digit was read
    the value is 0 and [*end] is the start of the string, or the [x] of a
    hexadecimal prefix that no digit follows. *)
Definition c_str (s : string) : string :=
  Str.take_while (fun c => negb (ascii_eqb c ch_nul)) s.

Definition digit_of (base : Z) (c : ascii) : option Z :=
  let n := code c in
  let d := if (48 <=? n) && (n <=? 57) then n - 48
           else if (97 <=? n) && (n <=? 122) then n - 97 + 10
           else if (65 <=? n) && (n <=? 90) then n - 65 + 10
           else 99 in
  if d <? base then Some d else None.

(** Reads digits; gives the value, whether any digit was read, and the rest. *)
Fixpoint read_digits (base : Z) (s : string) (acc : Z) (any : bool) : Z * bool * string :=
  match s with
  | EmptyString => (acc, any, s)
  | String c s' =>
      match digit_of base c with
      | Some d => read_digits base s' (acc * base + d) true
      | None => (acc, any, s)
      end
  end.

Definition strtol (nptr : string) (base : Z) : Z * string :=
  let s := Str.drop_while isspace nptr in
  let '(neg, s) :=
    match s with
    | String "-"%char s' => (true, s')
    | String "+"%char s' => (false, s')
    | _ => (false, s)
    end in
  let '(hexprefix, s) :=
    match s with
    | String "0"%char (String x s') =>
        if (base =? 16) && (ascii_eqb x "x"%char || ascii_eqb x "X"%char)
        then (Some x, s') else (None, s)
    | _ => (None, s)
    end in
  let '(v, any, rest) := read_digits base s 0 false in
  if any then (clamp_long (if neg then - v else v), rest)
  else match hexprefix with
       | Some x => (0, String x s)
       | None => (0, nptr)
       end.

(** ** Assembler *)

(** A [runtime_error] with its message, or a step whose behaviour C++
    leaves undefined (an index past the end of a vector, a read of a
    variable that was never set).  Either ends the assembly. *)
Inductive error : Type :=
| RuntimeError (what : string)
| Undefined (what : string).

Inductive result (A : Type) : Type :=
| Ok (a : A)
| Err (e : error).
Arguments Ok {A} a.
Arguments Err {A} e.

Record Assembler : Type := mkAssembler {
  sym : gmap string Z;               (* unordered_map<string,uint16_t> *)
  bytes : list Z;                    (* vector<uint8_t> *)
  fixups : list (Z * string);        (* vector<pair<int,string>> *)
  org : Z;                           (* uint16_t *)
  lines : list string
}.

Definition set_sym (m : gmap string Z) (A : Assembler) : Assembler :=
  {| sym := m; bytes := bytes A; fixups := fixups A; org := org A; lines := lines A |}.

Definition set_bytes (b : list Z) (A : Assembler) : Assembler :=
  {| sym := sym A; bytes := b; fixups := fixups A; org := org A; lines := lines A |}.

Definition set_fixups (f : list (Z * string)) (A : Assembler) : Assembler :=
  {| sym := sym A; bytes := bytes A; fixups := f; org := org A; lines := lines A |}.

(** The assembler's methods read and write its fields and may throw. *)
Definition asm (A : Type) : Type := Assembler -> result (A * Assembler).

Definition ret {A} (a : A) : asm A := fun st => Ok (a, st).

Definition bind {A B} (m : asm A) (k : A -> asm B) : asm B :=
  fun st => match m st with
            | Ok (a, st') => k a st'
            | Err e => Err e
            end.

(** [runtime_error(what_arg)].  The exception gives its message through
    [what()], a C string that the standard fixes up to [strcmp] with
    [what_arg.c_str()] and that [main] prints with [<<]: the message ends
    at the first NUL byte of [what_arg]. *)
Definition runtime_error (what_arg : string) : error := RuntimeError (c_str what_arg).

Definition throw {A} (what : string) : asm A := fun _ => Err (runtime_error what).
Definition undefined {A} (what : string) : asm A := fun _ => Err (Undefined what).

Notation "'let*' x ':=' m 'in' k" := (bind m (fun x => k))
  (at level 10, x name, m at level 100, k at level 200).
Notation "m ;;; k" := (bind m (fun _ => k))
  (at level 100, k at level 200, right associativity).

Fixpoint for_each {A} (f : A -> asm unit) (l : list A) : asm unit :=
  match l with
  | [] => ret tt
  | a :: l' => f a ;;; for_each f l'
  end.

(** *** Parsing of operands *)

Definition parse_reg (s : string) : option Z :=
  let t := lower s in
  if (Str.size t <? 2)%nat || negb (is_char (Str.char_at 0 t) "r"%char) then None
  else let '(v, rest) := strtol (Str.substr_from 1 (c_str t)) 10 in
       if negb (Str.empty rest) then None
       else if (v <? 0) || (7 <? v) then None
       else Some (to_int32 v).

Definition parse_int (s : string) : option Z :=
  let t := if is_char (Str.front s) "#"%char then Str.substr_from 1 s else s in
  let literal :=
    if (3 <=? Str.size t)%nat && is_char (Str.front t) ch_squote && is_char (Str.back t) ch_squote
    then if (Str.size t =? 3)%nat then code <$> Str.char_at 1 t
         else if (Str.size t =? 4)%nat && is_char (Str.char_at 1 t) ch_backslash
              then match Str.char_at 2 t with
                   | Some c =>
                       if ascii_eqb c "n"%char then Some 10
                       else if ascii_eqb c "t"%char then Some 9
                       else if ascii_eqb c "0"%char then Some 0
                       else Some (code c)
                   | None => None
                   end
              else None
    else None in
  match literal with
  | Some v => Some v
  | None =>
      let base :=
        if (2 <? Str.size t)%nat && is_char (Str.char_at 0 t) "0"%char &&
           (is_char (Str.char_at 1 t) "x"%char || is_char (Str.char_at 1 t) "X"%char)
        then 16 else 10 in
      let '(L, rest) := strtol (c_str t) base in
      if Str.empty rest then Some (to_int32 L) else None
  end.

(** [load]: the fields are cleared and the text is cut into lines the way
    repeated [getline] does. *)
Fixpoint getlines (text : string) : list string :=
  match text with
  | EmptyString => []
  | String c text' =>
      if ascii_eqb c ch_nl then EmptyString :: getlines text'
      else match getlines text' with
           | [] => [String c EmptyString]
           | l :: ls => String c l :: ls
           end
  end.

Definition load (text : string) (A : Assembler) : Assembler :=
  {| sym := ∅; bytes := []; fixups := []; org := 0; lines := getlines text |}.

(** *** Emission *)

Definition emit8 (b : Z) : asm unit :=
  fun st => Ok (tt, set_bytes (bytes st ++ [b]) st).

Definition emit16 (w : Z) : asm unit :=
  emit8 (wrap8 (Z.land w 0xFF)) ;;;
  emit8 (wrap8 (Z.land (Z.shiftr w 8) 0xFF)).

Definition emit_fixup16 (name : string) : asm unit :=
  (fun st => Ok (tt, set_fixups
     (fixups st ++ [(to_int32 (Z.of_nat (length (bytes st))), name)]) st)) ;;;
  emit16 0.

Definition reg_of (tok : string) : asm Z :=
  match parse_reg tok with
  | Some r => ret (wrap16 r)
  | None => throw ("bad register: " +:+ tok)
  end.

(** [parse_addr_token] returns [false] ([None]) or sets its two reference
    parameters: [addr], which the caller had left unset, and [symb]. *)
Definition parse_addr_token (tok : string) : option (option Z * string) :=
  let t := trim tok in
  if (Str.size t <? 3)%nat || negb (is_char (Str.front t) "["%char)
     || negb (is_char (Str.back t) "]"%char)
  then None
  else
    let inner := trim (Str.substr 1 (wrap64 (Z.of_nat (Str.size t) - 2)) t) in
    match parse_int inner with
    | Some v => Some (Some (wrap16 v), EmptyString)
    | None => Some (None, lower inner)
    end.

(** *** What both passes do with a line *)

(** The comment is cut at the first [;] of the line, then the line is
    trimmed. *)
Definition strip_comment (raw : string) : string :=
  trim (match Str.find ";"%char raw with
        | Some sc => Str.substr 0 (Z.of_nat sc) raw
        | None => raw
        end).

(** The body of a [.stringz] operand: [rest] is scanned from its second
    character to the closing quote, with the escapes decoded. *)
Fixpoint stringz_scan (s : string) (esc : bool) : string :=
  match s with
  | EmptyString => EmptyString
  | String c s' =>
      if esc then
        String (if ascii_eqb c "n"%char then ch_nl
                else if ascii_eqb c "t"%char then ch_tab
                else if ascii_eqb c "0"%char then ch_nul
                else c) (stringz_scan s' false)
      else if ascii_eqb c ch_backslash then stringz_scan s' true
      else if ascii_eqb c ch_dquote then EmptyString
      else String c (stringz_scan s' false)
  end.

Definition stringz_body (rest : string) : string :=
  stringz_scan (Str.substr_from 1 rest) false.

(** [stringstream ts(s); ts >> mnemRaw; getline(ts, rest);] *)
Definition split_mnemonic (s : string) : string * string :=
  let s := Str.drop_while isspace s in
  (Str.take_while (fun c => negb (isspace c)) s,
   Str.take_while (fun c => negb (ascii_eqb c ch_nl))
              (Str.drop_while (fun c => negb (isspace c)) s)).

(** *** Pass 1: symbol table and sizes *)

Definition needWide (m : string) : bool :=
  bool_decide (m ∈ ({[ "ldi"; "ldb"; "stb"; "jmp"; "jz"; "jnz"; "jc"; "jn";
                       "call"; "in"; "out" ]} : gset string)).

(** An operand with a [+] in it. *)
Definition has_plus (s : string) : bool :=
  match Str.find "+"%char s with Some _ => true | None => false end.

(** The state of the loop of [pass1] is its local [pc] and the table. *)
Definition pass1_line (raw : string) (pc : Z) (sy : gmap string Z)
  : result (Z * gmap string Z) :=
  let s := strip_comment raw in
  if Str.empty s then Ok (pc, sy)
  else if is_char (Str.back s) ":"%char
  then Ok (pc, <[lower (trim (Str.substr 0 (wrap64 (Z.of_nat (Str.size s) - 1)) s)) := pc]> sy)
  else
    let '(sy, s) :=
      match Str.find ":"%char s with
      | Some colon =>
          (<[lower (trim (Str.substr 0 (Z.of_nat colon) s)) := pc]> sy,
           trim (Str.substr_from (colon + 1) s))
      | None => (sy, s)
      end in
    if Str.empty s then Ok (pc, sy)
    else
      let low := lower s in
      if Str.starts_with ".org" low then
        match parse_int (trim (Str.substr_from 4 s)) with
        | None => Err (runtime_error ".org expects value")
        | Some v => Ok (wrap16 v, sy)
        end
      else if Str.starts_with ".word" low then
        let parts := splitComma (trim (Str.substr_from 5 s)) in
        Ok (fold_left (fun pc _ => wrap16 (pc + 2)) parts pc, sy)
      else if Str.starts_with ".stringz" low then
        let rest := trim (Str.substr_from 8 s) in
        if Str.empty rest || negb (is_char (Str.char_at 0 rest) ch_dquote)
        then Err (runtime_error ".stringz expects string")
        else Ok (wrap16 (pc + wrap16 (Z.of_nat (Str.size (stringz_body rest)) + 1)), sy)
      else
        let '(mnemRaw, rest) := split_mnemonic s in
        let mnem := lower mnemRaw in
        let rest := trim rest in
        if bool_decide (mnem = "ld") || bool_decide (mnem = "st") then
          let parts := splitComma rest in
          if (length parts =? 2)%nat && from_option has_plus false (parts !! 1%nat)
          then Ok (wrap16 (pc + 2), sy)
          else Ok (wrap16 (pc + 4), sy)
        else
          let pc := wrap16 (pc + 2) in
          Ok (if needWide mnem then wrap16 (pc + 2) else pc, sy).

Fixpoint pass1_loop (ls : list string) (pc : Z) (sy : gmap string Z)
  : result (Z * gmap string Z) :=
  match ls with
  | [] => Ok (pc, sy)
  | raw :: ls' =>
      match pass1_line raw pc sy with
      | Ok (pc', sy') => pass1_loop ls' pc' sy'
      | Err e => Err e
      end
  end.

Definition pass1 : asm unit :=
  fun st => match pass1_loop (lines st) (org st) (sym st) with
            | Ok (_, sy) => Ok (tt, set_sym sy st)
            | Err e => Err e
            end.

(** *** Pass 2: emission *)

(** [parts[i]]; past the end of the vector the behaviour is undefined. *)
Definition part (parts : list string) (i : nat) : asm string :=
  match parts !! i with
  | Some p => ret p
  | None => undefined "parts[i] past the end"
  end.

Definition emitRRI (op rd rs1 imm3 : Z) : asm unit :=
  emit16 (wrap16 (Z.lor (Z.lor (Z.lor (Z.shiftl op 11) (Z.shiftl rd 8))
                               (Z.shiftl rs1 5)) (Z.land imm3 0x07))).

Definition emitR (op rd rs1 : Z) : asm unit :=
  emit16 (wrap16 (Z.lor (Z.lor (Z.shiftl op 11) (Z.shiftl rd 8)) (Z.shiftl rs1 5))).

Definition emitRI8 (op rd imm8 : Z) : asm unit :=
  emit16 (wrap16 (Z.lor (Z.lor (Z.shiftl op 11) (Z.shiftl rd 8)) (wrap8 imm8))).

Definition emitW (op rd : Z) : asm unit :=
  emit16 (wrap16 (Z.lor (Z.shiftl op 11) (Z.shiftl rd 8))).

(** [if (parse_int(tok, v)) emit16((uint16_t)v); else emit_fixup16(name);] *)
Definition emit_imm_or_fixup (tok name : string) : asm unit :=
  match parse_int tok with
  | Some v => emit16 (wrap16 v)
  | None => emit_fixup16 name
  end.

(** The operand word of an absolute address: [what] is thrown when the
    token is not of the form [[...]]. *)
Definition emit_addr (tok what : string) : asm unit :=
  match parse_addr_token tok with
  | Some (addr, symb) =>
      if Str.empty symb
      then match addr with
           | Some a => emit16 a
           | None => undefined "addr read before it is set"
           end
      else emit_fixup16 symb
  | None => throw what
  end.

(** [int rd = reg_of(parts[0]); int rs = reg_of(parts[1]); emitR(op, rd, rs);] *)
Definition emit_reg_reg (op : Z) (parts : list string) : asm unit :=
  let* p0 := part parts 0 in
  let* rd := reg_of p0 in
  let* p1 := part parts 1 in
  let* rs := reg_of p1 in
  emitR op (wrap8 rd) (wrap8 rs).

(** SHL and SHR *)
Definition emit_shift (op : Z) (what : string) (parts : list string) : asm unit :=
  let* p0 := part parts 0 in
  let* rd := reg_of p0 in
  let* p1 := part parts 1 in
  match parse_int p1 with
  | Some s => if (s <? 0) || (7 <? s) then throw what
              else emitRRI op (wrap8 rd) 0 (wrap8 s)
  | None => throw what
  end.

(** ADDI and CMPI *)
Definition emit_reg_imm8 (op : Z) (what : string) (parts : list string) : asm unit :=
  let* p0 := part parts 0 in
  let* rd := reg_of p0 in
  let* p1 := part parts 1 in
  match parse_int p1 with
  | Some v => emitRI8 op (wrap8 rd) v
  | None => throw what
  end.

(** The short forms [LD rd, [rb+imm5]] and [ST rs, [rb+imm5]]: [r] is the
    register of the first operand; [st] tells which of the two it is. *)
Definition emit_short (st : bool) (r : Z) (addrTok what1 what2 : string) : asm unit :=
  let inside := trim (Str.substr 1 (wrap64 (Z.of_nat (Str.size addrTok) - 2)) addrTok) in
  match Str.find "+"%char inside with
  | None => throw what1
  | Some plus =>
      let rbS := trim (Str.substr 0 (Z.of_nat plus) inside) in
      let immS := trim (Str.substr_from (plus + 1) inside) in
      let* rb := reg_of rbS in
      match parse_int immS with
      | None => throw what2
      | Some v =>
          let imm5 := Z.land v 0x1F in
          if st
          then emit16 (wrap16 (Z.lor (Z.lor (Z.lor (Z.shiftl 0x14 11) (Z.shiftl rb 8))
                                            (Z.shiftl r 5)) imm5))
          else emit16 (wrap16 (Z.lor (Z.lor (Z.lor (Z.shiftl 0x13 11) (Z.shiftl r 8))
                                            (Z.shiftl rb 5)) imm5))
      end
  end.

(** [M] is the lower-case mnemonic and [parts] the operands of the line. *)
Definition encode_insn (M : string) (parts : list string) : asm unit :=
  if bool_decide (M = "nop") then emit16 0x0000
  else if bool_decide (M = "halt") then emit16 (wrap16 (Z.shiftl 0x01 11))
  else if bool_decide (M = "ldi") then
    if negb (length parts =? 2)%nat then throw "LDI rd, imm16"
    else
      let* p0 := part parts 0 in
      let* rd := reg_of p0 in
      emitW 0x02 (wrap8 rd) ;;;
      let* p1 := part parts 1 in
      emit_imm_or_fixup p1 (lower p1)
  else if bool_decide (M = "mov") then
    if negb (length parts =? 2)%nat then throw "MOV rd, rs"
    else emit_reg_reg 0x03 parts
  else if bool_decide (M = "add") then emit_reg_reg 0x04 parts
  else if bool_decide (M = "sub") then emit_reg_reg 0x05 parts
  else if bool_decide (M = "and") then emit_reg_reg 0x06 parts
  else if bool_decide (M = "or") then emit_reg_reg 0x07 parts
  else if bool_decide (M = "xor") then emit_reg_reg 0x08 parts
  else if bool_decide (M = "not") then
    if negb (length parts =? 1)%nat then throw "NOT rd"
    else
      let* p0 := part parts 0 in
      let* rd := reg_of p0 in
      emitR 0x09 (wrap8 rd) 0
  else if bool_decide (M = "shl") then emit_shift 0x0A "SHL rd, 0..7" parts
  else if bool_decide (M = "shr") then emit_shift 0x0B "SHR rd, 0..7" parts
  else if bool_decide (M = "addi") then emit_reg_imm8 0x0C "ADDI rd, imm8" parts
  else if bool_decide (M = "cmpi") then emit_reg_imm8 0x0D "CMPI rd, imm8" parts
  else if bool_decide (M = "cmp") then emit_reg_reg 0x0E parts
  else if bool_decide (M = "ld") then
    if negb (length parts =? 2)%nat then throw "LD rd, [..]"
    else
      let* p0 := part parts 0 in
      let* rd := reg_of p0 in
      let* addrTok := part parts 1 in
      if has_plus addrTok
      then emit_short false rd addrTok "LD short expects [rb+imm]"
                      "LD short imm must be int"
      else emitW 0x0F (wrap8 rd) ;;; emit_addr addrTok "LD rd, [addr16]"
  else if bool_decide (M = "st") then
    if negb (length parts =? 2)%nat then throw "ST rs, [..]"
    else
      let* p0 := part parts 0 in
      let* rs := reg_of p0 in
      let* addrTok := part parts 1 in
      if has_plus addrTok
      then emit_short true rs addrTok "ST short expects [rb+imm]"
                      "ST short imm must be int"
      else emitW 0x10 (wrap8 rs) ;;; emit_addr addrTok "ST rs, [addr16]"
  else if bool_decide (M = "ldb") then
    if negb (length parts =? 2)%nat then throw "LDB rd, [addr16]"
    else
      let* p0 := part parts 0 in
      let* rd := reg_of p0 in
      emitW 0x11 (wrap8 rd) ;;;
      let* p1 := part parts 1 in
      emit_addr p1 "LDB rd, [addr16]"
  else if bool_decide (M = "stb") then
    if negb (length parts =? 2)%nat then throw "STB rs, [addr16]"
    else
      let* p0 := part parts 0 in
      let* rs := reg_of p0 in
      emitW 0x12 (wrap8 rs) ;;;
      let* p1 := part parts 1 in
      emit_addr p1 "STB rs, [addr16]"
  else if bool_decide (M = "jmp") || bool_decide (M = "jz") || bool_decide (M = "jnz")
          || bool_decide (M = "jc") || bool_decide (M = "jn") then
    let op := if bool_decide (M = "jmp") then 0x15
              else if bool_decide (M = "jz") then 0x16
              else if bool_decide (M = "jnz") then 0x17
              else if bool_decide (M = "jc") then 0x18 else 0x19 in
    emitW op 0 ;;;
    let* p0 := part parts 0 in
    emit_imm_or_fixup p0 (lower p0)
  else if bool_decide (M = "call") then
    emitW 0x1A 0 ;;;
    let* p0 := part parts 0 in
    emit_imm_or_fixup p0 (lower p0)
  else if bool_decide (M = "ret") then emitW 0x1B 0
  else if bool_decide (M = "in") then
    if negb (length parts =? 2)%nat then throw "IN rd, [addr16]"
    else
      let* p0 := part parts 0 in
      let* rd := reg_of p0 in
      emitW 0x1C (wrap8 rd) ;;;
      let* p1 := part parts 1 in
      emit_addr p1 "IN rd, [addr16]"
  else if bool_decide (M = "out") then
    if negb (length parts =? 2)%nat then throw "OUT rs, [addr16]"
    else
      let* p0 := part parts 0 in
      let* rs := reg_of p0 in
      emit16 (wrap16 (Z.lor (Z.lor (Z.shiftl 0x1D 11) (Z.shiftl 0 8)) (Z.shiftl rs 5))) ;;;
      let* p1 := part parts 1 in
      emit_addr p1 "OUT rs, [addr16]"
  else throw ("Unknown mnemonic: " +:+ M).

(** [while (bytes.size() < (size_t)(pc - org)) bytes.push_back(0);] *)
Definition pad_to (pc : Z) : asm unit :=
  fun st =>
    let target := wrap64 (pc - org st) in
    Ok (tt, set_bytes (bytes st ++ replicate (Z.to_nat (target - Z.of_nat (length (bytes st)))) 0) st).

(** One line of the loop of [pass2]; the local [pc] is threaded through. *)
Definition pass2_line (raw : string) (pc : Z) : asm Z :=
  let s := strip_comment raw in
  if Str.empty s then ret pc
  else if is_char (Str.back s) ":"%char then ret pc
  else
    let s := match Str.find ":"%char s with
             | Some colon => trim (Str.substr_from (colon + 1) s)
             | None => s
             end in
    if Str.empty s then ret pc
    else
      let low := lower s in
      if Str.starts_with ".org" low then
        match parse_int (trim (Str.substr_from 4 s)) with
        | Some v => let pc := wrap16 v in pad_to pc ;;; ret pc
        | None => undefined "v read before it is set"
        end
      else if Str.starts_with ".word" low then
        let parts := splitComma (trim (Str.substr_from 5 s)) in
        for_each (fun p => emit_imm_or_fixup p (lower (trim p))) parts ;;; ret pc
      else if Str.starts_with ".stringz" low then
        let rest := trim (Str.substr_from 8 s) in
        for_each (fun c => emit8 (code c)) (list_ascii_of_string (stringz_body rest)) ;;;
        emit8 0 ;;; ret pc
      else
        let '(mnemRaw, rest) := split_mnemonic s in
        let M := lower mnemRaw in
        let rest := trim rest in
        let parts := splitComma rest in
        encode_insn M parts ;;; ret pc.

Fixpoint pass2_loop (ls : list string) (pc : Z) : asm Z :=
  match ls with
  | [] => ret pc
  | raw :: ls' => let* pc' := pass2_line raw pc in pass2_loop ls' pc'
  end.

(** [bytes[off] = a & 0xFF; bytes[off + 1] = (a >> 8) & 0xFF;] for one
    fixup, after the lookup of its symbol. *)
Definition resolve_fixup (fx : Z * string) : asm unit :=
  fun st =>
    let '(off, name) := fx in
    match sym st !! name with
    | None => Err (runtime_error ("undefined label: " +:+ name))
    | Some a =>
        if (0 <=? off) && (off + 1 <? Z.of_nat (length (bytes st)))
        then Ok (tt, set_bytes
                       (<[Z.to_nat (off + 1) := wrap8 (Z.land (Z.shiftr a 8) 0xFF)]>
                          (<[Z.to_nat off := wrap8 (Z.land a 0xFF)]> (bytes st))) st)
        else Err (Undefined "bytes[off] past the end")
    end.

Definition pass2 : asm unit :=
  fun st =>
    let st := set_bytes [] st in
    (pass2_loop (lines st) (org st) ;;;
     (fun st => for_each resolve_fixup (fixups st) st)) st.

(** The [asm] mode of [main], up to the write of the file: the bytes of
    the image, or the error that ended the assembly with no image. *)
Definition new_Assembler : Assembler :=
  {| sym := ∅; bytes := []; fixups := []; org := 0; lines := [] |}.

Definition assemble (text : string) : result (list Z) :=
  match (pass1 ;;; pass2) (load text new_Assembler) with
  | Ok (_, st) => Ok (bytes st)
  | Err e => Err e
  end.

(** *** What a line is, read off the tests both passes make *)

(** The line after its label, if it reaches the directives. *)
Definition statement_of (raw : string) : option string :=
  let s := strip_comment raw in
  if Str.empty s then None
  else if is_char (Str.back s) ":"%char then None
  else
    let s := match Str.find ":"%char s with
             | Some colon => trim (Str.substr_from (colon + 1) s)
             | None => s
             end in
    if Str.empty s then None else Some s.

(** The label a line defines in [pass1]. *)
Definition label_of (raw : string) : option string :=
  let s := strip_comment raw in
  if Str.empty s then None
  else if is_char (Str.back s) ":"%char
  then Some (lower (trim (Str.substr 0 (wrap64 (Z.of_nat (Str.size s) - 1)) s)))
  else match Str.find ":"%char s with
       | Some colon => Some (lower (trim (Str.substr 0 (Z.of_nat colon) s)))
       | None => None
       end.

(** The value of a line that both passes treat as [.org value]. *)
Definition org_value (raw : string) : option Z :=
  match statement_of raw with
  | Some s => if Str.starts_with ".org" (lower s)
              then parse_int (trim (Str.substr_from 4 s)) else None
  | None => None
  end.

Definition is_org_line (raw : string) : bool :=
  match statement_of raw with
  | Some s => Str.starts_with ".org" (lower s)
  | None => false
  end.

(** No [.org] of [ls] asks for an address behind the bytes that [pass2],
    run from [pc] and [st], has emitted when it reaches the directive. *)
Fixpoint orgs_forward (ls : list string) (pc : Z) (st : Assembler) : bool :=
  match ls with
  | [] => true
  | raw :: ls' =>
      match org_value raw with
      | Some v => Z.of_nat (length (bytes st)) <=? wrap16 v - org st
      | None => true
      end &&
      match pass2_line raw pc st with
      | Ok (pc', st') => orgs_forward ls' pc' st'
      | Err _ => true
      end
  end.

(** The size [pass1] gives an instruction. *)
Definition insn_size (mnem : string) (parts : list string) : nat :=
  if bool_decide (mnem = "ld") || bool_decide (mnem = "st")
  then if (length parts =? 2)%nat && from_option has_plus false (parts !! 1%nat)
       then 2 else 4
  else if needWide mnem then 4 else 2.

(** What [pass1] does with the statement of a line, once the label is
    recorded, and what [pass2] does with it. *)
Definition pass1_stmt (s : string) (pc : Z) (sy : gmap string Z)
  : result (Z * gmap string Z) :=
  let low := lower s in
  if Str.starts_with ".org" low then
    match parse_int (trim (Str.substr_from 4 s)) with
    | None => Err (runtime_error ".org expects value")
    | Some v => Ok (wrap16 v, sy)
    end
  else if Str.starts_with ".word" low then
    let parts := splitComma (trim (Str.substr_from 5 s)) in
    Ok (fold_left (fun pc _ => wrap16 (pc + 2)) parts pc, sy)
  else if Str.starts_with ".stringz" low then
    let rest := trim (Str.substr_from 8 s) in
    if Str.empty rest || negb (is_char (Str.char_at 0 rest) ch_dquote)
    then Err (runtime_error ".stringz expects string")
    else Ok (wrap16 (pc + wrap16 (Z.of_nat (Str.size (stringz_body rest)) + 1)), sy)
  else
    let '(mnemRaw, rest) := split_mnemonic s in
    let mnem := lower mnemRaw in
    let rest := trim rest in
    if bool_decide (mnem = "ld") || bool_decide (mnem = "st") then
      let parts := splitComma rest in
      if (length parts =? 2)%nat && from_option has_plus false (parts !! 1%nat)
      then Ok (wrap16 (pc + 2), sy)
      else Ok (wrap16 (pc + 4), sy)
    else
      let pc := wrap16 (pc + 2) in
      Ok (if needWide mnem then wrap16 (pc + 2) else pc, sy).

Definition pass2_stmt (s : string) (pc : Z) : asm Z :=
  let low := lower s in
  if Str.starts_with ".org" low then
    match parse_int (trim (Str.substr_from 4 s)) with
    | Some v => let pc := wrap16 v in pad_to pc ;;; ret pc
    | None => undefined "v read before it is set"
    end
  else if Str.starts_with ".word" low then
    let parts := splitComma (trim (Str.substr_from 5 s)) in
    for_each (fun p => emit_imm_or_fixup p (lower (trim p))) parts ;;; ret pc
  else if Str.starts_with ".stringz" low then
    let rest := trim (Str.substr_from 8 s) in
    for_each (fun c => emit8 (code c)) (list_ascii_of_string (stringz_body rest)) ;;;
    emit8 0 ;;; ret pc
  else
    let '(mnemRaw, rest) := split_mnemonic s in
    let M := lower mnemRaw in
    let rest := trim rest in
    let parts := splitComma rest in
    encode_insn M parts ;;; ret pc.

(** The bytes of a statement that is not [.org]. *)
Definition stmt_size (s : string) : nat :=
  let low := lower s in
  if Str.starts_with ".word" low then
    2 * length (splitComma (trim (Str.substr_from 5 s)))
  else if Str.starts_with ".stringz" low then
    Str.size (stringz_body (trim (Str.substr_from 8 s))) + 1
  else
    let '(mnemRaw, rest) := split_mnemonic s in
    insn_size (lower mnemRaw) (splitComma (trim rest)).

(** *** Fixups and the growth of the image *)

(** The offsets of [fx] start at [lo] or later, each leaves room for its
    two bytes before the next, and the last ends at [hi] or earlier. *)
Fixpoint fix_ok (lo : Z) (fx : list (Z * string)) (hi : Z) : Prop :=
  match fx with
  | [] => lo <= hi
  | (off, _) :: fx' => lo <= off /\ fix_ok (off + 2) fx' hi
  end.

(** [st'] extends [st]: bytes and fixups were appended, and as long as
    the image stays below 2^31 bytes, so that [int] holds every offset,
    the new fixups lie in the new bytes. *)
Definition grows (st st' : Assembler) : Prop :=
  sym st' = sym st /\ org st' = org st /\ lines st' = lines st /\
  exists bs fx,
    bytes st' = bytes st ++ bs /\ fixups st' = fixups st ++ fx /\
    (Z.of_nat (length (bytes st')) < 2147483648 ->
     fix_ok (Z.of_nat (length (bytes st))) fx (Z.of_nat (length (bytes st')))).

(** Whenever [m] returns, it has appended exactly [n] bytes. *)
Definition emits {A} (m : asm A) (n : nat) : Prop :=
  forall st a st', m st = Ok (a, st') ->
    grows st st' /\ length (bytes st') = (length (bytes st) + n)%nat.

(** The first fixup whose symbol the table lacks. *)
Fixpoint first_undefined (sy : gmap string Z) (fx : list (Z * string)) : option string :=
  match fx with
  | [] => None
  | (_, name) :: fx' =>
      match sy !! name with
      | Some _ => first_undefined sy fx'
      | None => Some name
      end
  end.

(** The two passes over given lines, from the state [load] leaves. *)
Definition assemble_lines (ls : list string) : result (list Z * gmap string Z) :=
  match (pass1 ;;; pass2)
          {| sym := ∅; bytes := []; fixups := []; org := 0; lines := ls |} with
  | Ok (_, st) => Ok (bytes st, sym st)
  | Err e => Err e
  end.

(** The assembler after [pass1] and after the loop of [pass2], for a
    source that both accept. *)
Definition after_pass1 (text : string) : Assembler :=
  match pass1 (load text new_Assembler) with
  | Ok (_, A1) => A1
  | Err _ => new_Assembler
  end.

Definition after_loop (text : string) : Z * Assembler :=
  let A1 := after_pass1 text in
  match pass2_loop (lines A1) (org A1) (set_bytes [] A1) with
  | Ok r => r
  | Err _ => (0, A1)
  end.

(** *** Concrete sources *)

(** The directive .stringz with the quoted operand a;b. *)
Definition src_semicolon_in_string : string :=
  ".stringz " +:+ String ch_dquote ("a;b" +:+ String ch_dquote EmptyString).

Definition src_org_backward : string := String.concat (String ch_nl EmptyString)
  ["nop"; ".org 0"].

Definition src_org_forward : string := String.concat (String ch_nl EmptyString)
  ["start: LDI r0, end"; ".org 8"; "end: HALT"].

Definition src_undefined : string := "JMP nowhere".

Definition src_call_ret : string := String.concat (String ch_nl EmptyString)
  ["CALL f"; "HALT"; "f: LDI r0,7"; "RET"].

Definition src_two_orgs : list string := ["nop"; ".org 4"; ".org 8"; "x: .word x"].
Definition src_one_org : list string := ["nop"; ".org 8"; "x: .word x"].

(** *** The passes do not depend on the stored lines

    Two assemblers with the same table, bytes, fixups and origin are taken
    to the same result by everything [pass2] does to a line. *)
Definition same_core (s1 s2 : Assembler) : Prop :=
  sym s1 = sym s2 /\ bytes s1 = bytes s2 /\ fixups s1 = fixups s2 /\ org s1 = org s2.

Definition agree {A} (r1 r2 : result (A * Assembler)) : Prop :=
  match r1, r2 with
  | Ok (a1, s1), Ok (a2, s2) => a1 = a2 /\ same_core s1 s2
  | Err e1, Err e2 => e1 = e2
  | _, _ => False
  end.

Definition frames {A} (m : asm A) : Prop :=
  forall s1 s2, same_core s1 s2 -> agree (m s1) (m s2).

(** ** The fields of an instruction word

    [exec] cuts the fetched word into [opcode], [rd], [rs1], [imm3], [imm8]
    and the sign-extended [simm8]; [opcode_of] is above. *)
Definition rd_of (insn : Z) : Z := Z.land (Z.shiftr insn 8) 0x07.
Definition rs1_of (insn : Z) : Z := Z.land (Z.shiftr insn 5) 0x07.
Definition imm3_of (insn : Z) : Z := Z.land insn 0x07.
Definition imm8_of (insn : Z) : Z := Z.land insn 0xFF.
Definition simm8_of (insn : Z) : Z := sext8 (imm8_of insn).

(** [(int16_t)v] for [v] an [uint16_t]. *)
Definition to_int16 (v : Z) : Z := if v <? 32768 then v else v - 65536.

(** The word the two bytes [lo] and [hi] make, low byte first. *)
Definition word_le (lo hi : Z) : Z := hi * 256 + lo.

(** The operand word of a two-word instruction at [PC c]. *)
Definition operand_of (c : CPU) : Z := fst (fetch16 (snd (fetch16 c))).

(** ** [dumpMemory]

    The text goes to [cout]; here it is returned line by line, with the
    memory, whose trace has the reads. *)

(** A number as [cout << hex << setw(w) << setfill('0')] prints it; the
    values printed are an [uint32_t] and a byte, of at most eight digits. *)
Definition hex_digit (d : Z) : ascii :=
  if d <? 10 then ascii_of_N (Z.to_N (48 + d)) else ascii_of_N (Z.to_N (87 + d)).

Fixpoint hex_digits (n : nat) (v : Z) (acc : string) : string :=
  match n with
  | O => acc
  | S k =>
      let acc := String (hex_digit (v mod 16)) acc in
      if v / 16 =? 0 then acc else hex_digits k (v / 16) acc
  end.

Definition hex (w : nat) (v : Z) : string :=
  let s := hex_digits 8 v EmptyString in
  string_of_list_ascii (replicate (w - Str.size s) "0"%char) +:+ s.

(** [for (int i = 0; i < 16 && a + i <= a1; ++i)]: one byte is read and
    printed in each round; [k] counts the rounds that are left. *)
Fixpoint dump_cells (k : nat) (m : Memory) (a a1 i : Z) : string * Memory :=
  match k with
  | O => (EmptyString, m)
  | S k' =>
      if (i <? 16) && (wrap32 (a + i) <=? a1)
      then let '(v, m) := read8 m (wrap16 (wrap32 (a + i))) in
           let '(s, m) := dump_cells k' m a a1 (i + 1) in
           ((hex 2 v +:+ " ") +:+ s, m)
      else (EmptyString, m)
  end.

(** [for (uint32_t a = a0; a <= a1; a += 16)], for at most [fuel] rows. *)
Fixpoint dump_rows (fuel : nat) (m : Memory) (a a1 : Z) : list string * Memory :=
  match fuel with
  | O => ([], m)
  | S k =>
      if a <=? a1
      then let '(s, m) := dump_cells 16 m a a1 0 in
           let '(ls, m) := dump_rows k m (wrap32 (a + 16)) a1 in
           (((hex 4 a +:+ ": ") +:+ s) :: ls, m)
      else ([], m)
  end.

(** Sixteen addresses a row and 65536 addresses make at most 4096 rows; the
    loop ends by its own test before the count below runs out. *)
Definition dumpMemory (m : Memory) (a0 a1 : Z) : list string * Memory :=
  dump_rows 4097 m a0 a1.

(** ** [src/factorial.c] *)

Definition in_int (v : Z) : bool := (-2147483648 <=? v) && (v <=? 2147483647).
Definition in_long_long (v : Z) : bool :=
  (-9223372036854775808 <=? v) && (v <=? 9223372036854775807).

(** [long long factorial(int n)].  An overflow of [n - 1] in [int] or of
    the product in [long long] is undefined; [depth] bounds the nesting of
    the calls, and [None] says that it did not suffice. *)
Fixpoint factorial (depth : nat) (n : Z) : option (result Z) :=
  match depth with
  | O => None
  | S k =>
      if (n =? 0) || (n =? 1) then Some (Ok 1)
      else if negb (in_int (n - 1))
      then Some (Err (Undefined "n - 1 overflows int"))
      else match factorial k (n - 1) with
           | Some (Ok r) =>
               if in_long_long (n * r) then Some (Ok (n * r))
               else Some (Err (Undefined "n * factorial(n - 1) overflows long long"))
           | Some (Err e) => Some (Err e)
           | None => None
           end
  end.

(** [printf] of a [%d] or [%lld] argument. *)
Definition dec (v : Z) : string := NilZero.string_of_int (Z.to_int v).

(** [main] of [factorial.c]: [scanned] is the number [scanf] stored in
    [num], if it stored one; the result is the text printed. *)
Definition factorial_main (depth : nat) (scanned : option Z) : option (result string) :=
  match scanned with
  | None => Some (Err (Undefined "num read before it is set"))
  | Some num =>
      if num <? 0
      then Some (Ok ("Enter a number: Factorial is not defined for negative numbers."
                       +:+ String ch_nl EmptyString))
      else match factorial depth num with
           | Some (Ok r) =>
               Some (Ok (((("Enter a number: Factorial of " +:+ dec num) +:+ " = ")
                            +:+ dec r) +:+ String ch_nl EmptyString))
           | Some (Err e) => Some (Err e)
           | None => None
           end
  end.

(** ** More concrete states *)

(** A memory with the word 0x1234 at 0x2000 and the timer at 0x0102. *)
Definition mem_sample : Memory :=
  set_timer 0x0102 (write16 fresh_Memory 0x2000 0x1234).

(** Whether the jump with this opcode is taken: JMP always, JZ, JNZ, JC and
    JN on their flag. *)
Definition jump_taken (opcode : Z) (c : CPU) : bool :=
  match opcode with
  | 0x15 => true
  | 0x16 => ZF c
  | 0x17 => negb (ZF c)
  | 0x18 => CF c
  | 0x19 => NF c
  | _ => false
  end.

(** The register an instruction may write: [rd] for the instructions that
    compute or load a value, R7 for CALL and RET, none for the others. *)
Definition written_reg (insn : Z) : option Z :=
  match opcode_of insn with
  | 0x02 | 0x03 | 0x04 | 0x05 | 0x06 | 0x07 | 0x08 | 0x09 | 0x0A | 0x0B | 0x0C
  | 0x0F | 0x11 | 0x13 | 0x1C => Some (rd_of insn)
  | 0x1A | 0x1B => Some 7
  | _ => None
  end.

(** A CPU that has the word [w] at its PC 0 and [w2] behind it. *)
Definition cpu_at (w w2 : Z) (regs : list Z) : CPU :=
  cpu_with [w mod 256; w / 256; w2 mod 256; w2 / 256] regs 0.

(** The registers of a CPU that was just made. *)
Definition regs_init : list Z := [0; 0; 0; 0; 0; 0; 0; 0x7FFC].

(** ** Instructions as text

    Errors and results are compared by [bool_decide] where a statement is
    checked for every register or every immediate of a range. *)
#[global] Instance error_eq_dec : EqDecision error.
Proof. solve_decision. Defined.

#[global] Instance result_eq_dec {A} `{EqDecision A} : EqDecision (result A).
Proof. solve_decision. Defined.

(** The mnemonics with two register operands and their opcodes, as the
    chain of tests in [pass2] has them. *)
Definition reg_reg_mnemonics : list (string * Z) :=
  [("mov", 0x03); ("add", 0x04); ("sub", 0x05); ("and", 0x06); ("or", 0x07);
   ("xor", 0x08); ("cmp", 0x0E)].

(** The mnemonics with one address operand, a number or a label. *)
Definition jump_mnemonics : list (string * Z) :=
  [("jmp", 0x15); ("jz", 0x16); ("jnz", 0x17); ("jc", 0x18); ("jn", 0x19);
   ("call", 0x1A)].

(** The source line of an instruction with the operands [a] and [b]. *)
Definition insn_text (M a b : string) : string :=
  ((M +:+ " ") +:+ a) +:+ (", " +:+ b).

(** The register [n] as the source names it. *)
Definition reg_name (n : Z) : string := "r" +:+ dec n.

(** The one-line source [text] assembles to the single word [w]. *)
Definition assembles_to (text : string) (w : Z) : Prop :=
  assemble text = Ok [w mod 256; w / 256].

(** [M rd, rs] assembles to a word that [exec] decodes as the opcode [op]
    with the registers [d] and [s]. *)
Definition decodes_reg_reg (M : string) (op d s : Z) : Prop :=
  let w := op * 2048 + d * 256 + s * 32 in
  assembles_to (insn_text M (reg_name d) (reg_name s)) w /\
  opcode_of w = op /\ rd_of w = d /\ rs1_of w = s.

(** [M rd, #v] for a signed byte [v]. *)
Definition decodes_imm8 (M : string) (op d v : Z) : Prop :=
  let w := op * 2048 + d * 256 + v mod 256 in
  assembles_to (insn_text M (reg_name d) ("#" +:+ dec v)) w /\
  opcode_of w = op /\ rd_of w = d /\ simm8_of w = v.

(** [M rd, n] for a shift count [n]. *)
Definition decodes_shift (M : string) (op d n : Z) : Prop :=
  let w := op * 2048 + d * 256 + n in
  assembles_to (insn_text M (reg_name d) (dec n)) w /\
  opcode_of w = op /\ rd_of w = d /\ imm3_of w = n.

(** The operand [[rb+v]] of the short forms. *)
Definition short_operand (rb v : Z) : string :=
  ((("[" +:+ reg_name rb) +:+ "+") +:+ dec v) +:+ "]".

(** [LD r, [rb+v]] and [ST r, [rb+v]]: [exec] finds the base register in
    [rs1] for LD and in [rd] for ST, and the other register in the other
    field. *)
Definition decodes_short_ld (r rb v : Z) : Prop :=
  let w := 0x13 * 2048 + r * 256 + rb * 32 + v mod 32 in
  assembles_to (insn_text "ld" (reg_name r) (short_operand rb v)) w /\
  opcode_of w = 0x13 /\ rd_of w = r /\ rs1_of w = rb /\ simm5_of w = v.

Definition decodes_short_st (r rb v : Z) : Prop :=
  let w := 0x14 * 2048 + rb * 256 + r * 32 + v mod 32 in
  assembles_to (insn_text "st" (reg_name r) (short_operand rb v)) w /\
  opcode_of w = 0x14 /\ rd_of w = rb /\ rs1_of w = r /\ simm5_of w = v.

#[global] Instance assembles_to_dec text w : Decision (assembles_to text w).
Proof. unfold assembles_to. apply _. Defined.

#[global] Instance decodes_reg_reg_dec M op d s : Decision (decodes_reg_reg M op d s).
Proof. unfold decodes_reg_reg. cbv zeta. apply _. Defined.

#[global] Instance decodes_imm8_dec M op d v : Decision (decodes_imm8 M op d v).
Proof. unfold decodes_imm8. cbv zeta. apply _. Defined.

#[global] Instance decodes_shift_dec M op d n : Decision (decodes_shift M op d n).
Proof. unfold decodes_shift. cbv zeta. apply _. Defined.

#[global] Instance decodes_short_ld_dec r rb v : Decision (decodes_short_ld r rb v).
Proof. unfold decodes_short_ld. cbv zeta. apply _. Defined.

#[global] Instance decodes_short_st_dec r rb v : Decision (decodes_short_st r rb v).
Proof. unfold decodes_short_st. cbv zeta. apply _. Defined.

(** A string of blanks only, as [trim] understands blanks. *)
Definition blank (s : string) : bool := forallb is_space (list_ascii_of_string s).

(** ** Decimal notation *)

(** A decimal digit. *)
Definition is_digit (c : ascii) : bool := (48 <=? code c) && (code c <=? 57).

(** The number a sequence of decimal digits denotes, from [acc] on. *)
Fixpoint uint_val (u : Decimal.uint) (acc : Z) : Z :=
  match u with
  | Decimal.Nil => acc
  | Decimal.D0 l => uint_val l (acc * 10 + 0)
  | Decimal.D1 l => uint_val l (acc * 10 + 1)
  | Decimal.D2 l => uint_val l (acc * 10 + 2)
  | Decimal.D3 l => uint_val l (acc * 10 + 3)
  | Decimal.D4 l => uint_val l (acc * 10 + 4)
  | Decimal.D5 l => uint_val l (acc * 10 + 5)
  | Decimal.D6 l => uint_val l (acc * 10 + 6)
  | Decimal.D7 l => uint_val l (acc * 10 + 7)
  | Decimal.D8 l => uint_val l (acc * 10 + 8)
  | Decimal.D9 l => uint_val l (acc * 10 + 9)
  end.

(** The source text of a character literal. *)
Definition char_literal (c : ascii) : string :=
  String ch_squote (String c (String ch_squote EmptyString)).

Definition escape_literal (c : ascii) : string :=
  String ch_squote (String ch_backslash (String c (String ch_squote EmptyString))).

(** The mnemonics [pass2] has a case for. *)
Definition known_mnemonics : list string :=
  ["nop"; "halt"; "ldi"; "mov"; "add"; "sub"; "and"; "or"; "xor"; "not"; "shl";
   "shr"; "addi"; "cmpi"; "cmp"; "ld"; "st"; "ldb"; "stb"; "jmp"; "jz"; "jnz";
   "jc"; "jn"; "call"; "ret"; "in"; "out"].

(** The mnemonics whose case checks the number of operands, with the
    number it asks for and the message it throws; and the mnemonics whose
    case reads [parts[0]] and [parts[1]] unchecked. *)
Definition counted_mnemonics : list (string * nat * string) :=
  [("ldi", 2%nat, "LDI rd, imm16"); ("mov", 2%nat, "MOV rd, rs");
   ("not", 1%nat, "NOT rd"); ("ld", 2%nat, "LD rd, [..]");
   ("st", 2%nat, "ST rs, [..]"); ("ldb", 2%nat, "LDB rd, [addr16]");
   ("stb", 2%nat, "STB rs, [addr16]"); ("in", 2%nat, "IN rd, [addr16]");
   ("out", 2%nat, "OUT rs, [addr16]")].

Definition uncounted_mnemonics : list string :=
  ["add"; "sub"; "and"; "or"; "xor"; "shl"; "shr"; "addi"; "cmpi"; "cmp"].

(** A source with a label, an instruction that pass 1 takes for one word
    whatever its mnemonic, and a directive. *)
Definition src_labels : list string :=
  ["Start: nop"; "frob r1"; "Data: .word 1, 2"; "END:"].

(** The factorial of [k], as an integer. *)
Fixpoint zfact (k : nat) : Z :=
  match k with
  | O => 1
  | S k' => Z.of_nat k * zfact k'
  end.

(** ** The text of a dump *)

(** The memory after reads of the addresses [bs], in this order. *)
Definition log_reads (m : Memory) (bs : list Z) : Memory :=
  fold_left (fun m b => log (EvRead b) m) bs m.

(** The bytes at the addresses [bs], two hexadecimal digits and a space
    each; and the row of a dump that starts at [a] and goes up to [a1] or
    for sixteen bytes. *)
Definition cells_text (m : Memory) (bs : list Z) : string :=
  fold_right (fun b s => (hex 2 (fst (read8 m b)) +:+ " ") +:+ s) EmptyString bs.

Definition dump_row_text (m : Memory) (a a1 : Z) : string :=
  (hex 4 a +:+ ": ") +:+ cells_text m (seqZ a (Z.min 16 (a1 - a + 1))).

(** ** Operands that name a symbol *)

(** The mnemonic, in lower case, and the operands of a line that reaches
    the instructions of [pass2]: a line with a statement that is none of
    the three directives. *)
Definition insn_of (raw : string) : option (string * list string) :=
  match statement_of raw with
  | Some s =>
      let low := lower s in
      if Str.starts_with ".org" low || Str.starts_with ".word" low
         || Str.starts_with ".stringz" low
      then None
      else let '(mnemRaw, rest) := split_mnemonic s in
           Some (lower mnemRaw, splitComma (trim rest))
  | None => None
  end.

(** The operands of a line that [pass2] takes for [.word]. *)
Definition word_operands (raw : string) : option (list string) :=
  match statement_of raw with
  | Some s =>
      let low := lower s in
      if Str.starts_with ".org" low then None
      else if Str.starts_with ".word" low
      then Some (splitComma (trim (Str.substr_from 5 s)))
      else None
  | None => None
  end.

(** The mnemonics whose second operand is an absolute address between
    brackets; LD and ST take the short form instead when the operand holds
    a [+]. *)
Definition address_mnemonics : list string := ["ld"; "st"; "ldb"; "stb"; "in"; "out"].

(** The instruction [M] with the operands [parts] names the symbol [name]:
    as the target of a jump or of CALL, as the immediate of LDI, or between
    the brackets of an absolute address.  The operand is not a number for
    [parse_int], and the symbol is its text in lower case. *)
Inductive operand_symbol (M : string) (parts : list string) (name : string) : Prop :=
| jump_target (op : Z) (tok : string) (more : list string) :
    (M, op) ∈ jump_mnemonics -> parts = tok :: more ->
    parse_int tok = None -> name = lower tok ->
    operand_symbol M parts name
| ldi_immediate (p0 tok : string) :
    M = "ldi" -> parts = [p0; tok] ->
    parse_int tok = None -> name = lower tok ->
    operand_symbol M parts name
| absolute_address (p0 tok inner : string) :
    M ∈ address_mnemonics -> parts = [p0; tok] ->
    (M = "ld" \/ M = "st" -> has_plus tok = false) ->
    trim tok = "[" +:+ inner +:+ "]" ->
    parse_int (trim inner) = None -> name = lower (trim inner) ->
    operand_symbol M parts name.

(** The line [raw] has an operand that names the symbol [name]: an operand
    of its instruction, or an operand of [.word] that is not a number. *)
Definition names_symbol (raw name : string) : Prop :=
  (exists M parts, insn_of raw = Some (M, parts) /\ operand_symbol M parts name) \/
  (exists parts tok,
     word_operands raw = Some parts /\ tok ∈ parts /\
     parse_int tok = None /\ name = lower (trim tok)).

(** A jump to a label that no line defines, followed by a mnemonic that
    [pass2] does not know. *)
Definition src_undefined_then_unknown : string :=
  String.concat (String ch_nl EmptyString) ["JMP nowhere"; "frob r1"].

(** Every kind of operand that names a symbol, with all symbols defined. *)
Definition src_all_operands : string :=
  String.concat (String ch_nl EmptyString)
    ["start: LDI r0, Buf"; "LD r1, [buf]"; "CALL f"; "HALT"; "f: RET";
     "buf: .word start, 7"].

(** An [.org] that goes back behind two instructions, and a label after it. *)
Definition src_org_back_label : string :=
  String.concat (String ch_nl EmptyString) ["nop"; "nop"; ".org 0"; "x: jmp x"].

(** [m] records no fixup; and the fixups [fx] name exactly the symbols
    that satisfy [P]. *)
Definition keeps_fixups {A} (m : asm A) : Prop :=
  forall st a st', m st = Ok (a, st') -> fixups st' = fixups st.

Definition fixups_name (fx : list (Z * string)) (P : string -> Prop) : Prop :=
  forall name, (exists off, (off, name) ∈ fx) <-> P name.

(** The mnemonics with an operand that can name a symbol. *)
Definition symbol_mnemonics : list string :=
  ["jmp"; "jz"; "jnz"; "jc"; "jn"; "call"; "ldi"; "ld"; "st"; "ldb"; "stb"; "in"; "out"].

(** ** Concrete machines *)

(** [ADD r0, r1] is the word 0x2020 and [SUB r0, r1] the word 0x2820. *)
Definition cpu_add : CPU := cpu_with [0x20; 0x20] [0xFFFF; 1; 0; 0; 0; 0; 0; 0x7FFC] 0.
Definition cpu_sub : CPU := cpu_with [0x20; 0x28] [0x8000; 1; 0; 0; 0; 0; 0; 0x7FFC] 0.

(** The word fetched at 0xFFFF has its low byte from the unmapped MMIO
    address 0xFFFF (zero) and its high byte from [mem[0]]: with 0xF8 there
    the opcode is 0x1F. *)
Definition cpu_bad_opcode : CPU := cpu_with [0xF8] [0; 0; 0; 0; 0; 0; 0; 0x7FFC] 0xFFFF.

(** [CALL 4] at 0 and [RET] at 4, with the stack pointer inside the MMIO
    window (0xFF02) or in RAM (the initial 0x7FFC). *)
Definition call_ret_prog : list Z := [0x00; 0xD0; 0x04; 0x00; 0x00; 0xD8].
Definition cpu_call_mmio : CPU := cpu_with call_ret_prog [0; 0; 0; 0; 0; 0; 0; 0xFF02] 0.
Definition cpu_call_ram : CPU := cpu_with call_ret_prog [0; 0; 0; 0; 0; 0; 0; 0x7FFC] 0.

(** [OUT r7, [0xFF10]] stores the low byte of R7 into TIMER_LO. *)
Definition cpu_timer_write : CPU := cpu_with [0xE0; 0xE8; 0x10; 0xFF] [0; 0; 0; 0; 0; 0; 0; 0x7FFC] 0.

(** Three [NOP]s, with the compare register set to 2 before the run. *)
Definition cpu_nops : CPU :=
  set_cmem (set_timercmp 2 (loadImage fresh_Memory [0; 0; 0; 0; 0; 0] 0))
           (new_CPU fresh_Memory).

(** ** Sources run end to end

    [run_source] is the [run] mode of [main]: assemble, load the image at
    address 0, start at PC 0, and execute until the halt (here for at most
    [fuel] instructions). *)
Definition run_source (text : string) (fuel : nat) : result CPU :=
  match assemble text with
  | Ok bin => Ok (run fuel (new_CPU (loadImage fresh_Memory bin 0)))
  | Err e => Err e
  end.

(** The bytes a run has sent to the UART, oldest first. *)
Definition uart_output (c : CPU) : list Z :=
  omap (fun e => match e with EvUart ch => Some ch | _ => None end)
       (rev (trace (cmem c))).

(** The little-endian word the memory array holds at [a]. *)
Definition word_at (c : CPU) (a : Z) : Z :=
  Z.lor (Z.shiftl (cell (cmem c) (a + 1)) 8) (cell (cmem c) a).

Definition src_short_forms : string := String.concat (String ch_nl EmptyString)
  ["LDI r0,0x1234"; "LDI r1,0x2000"; "ST r0,[r1+0]"; "LD r2,[r1+0]"; "HALT"].

Definition src_branch_on_zero : string := String.concat (String ch_nl EmptyString)
  ["LDI r0,1"; "CMPI r0,1"; "JZ eq"; "HALT"; "eq: LDI r0,0"; "HALT"].

Definition src_hi : string := String.concat (String ch_nl EmptyString)
  ["; two characters to the UART"; ".org 0x0000"; "start:";
   "  LDI r0, 72      ; the letter H"; "  OUT r0, [0xFF00]";
   "  LDI r0, 105     ; the letter i"; "  OUT r0, [0xFF00]"; "  HALT"].

Definition src_fib : string := String.concat (String ch_nl EmptyString)
  [".org 0x0100"; "start:"; "  LDI r0, 0      ; a = 0"; "  LDI r1, 1      ; b = 1";
   "  LDI r2, 10     ; count"; "  LDI r3, buf    ; pointer to buffer"; "";
   "loop:"; "  ST  r0, [r3+0] ; store a"; "  ADDI r3, #2    ; advance pointer";
   "  MOV r4, r1     ; temp = b"; "  ADD r1, r0     ; b = a + b";
   "  MOV r0, r4     ; a = old b"; ""; "  ADDI r2, #-1"; "  JNZ loop"; "";
   "  HALT"; ""; "buf:"; "  .word 0,0,0,0,0,0,0,0,0,0"].
(** ** Arithmetic of the conversions *)

Lemma wrap8_u8 v : u8 (wrap8 v).
Proof. unfold u8, wrap8. apply Z.mod_pos_bound. lia. Qed.

Lemma wrap16_u16 v : u16 (wrap16 v).
Proof. unfold u16, wrap16. apply Z.mod_pos_bound. lia. Qed.

Lemma wrap16_id v : u16 v -> wrap16 v = v.
Proof. unfold u16, wrap16. intros H. apply Z.mod_small. lia. Qed.

Lemma wrap8_id v : u8 v -> wrap8 v = v.
Proof. unfold u8, wrap8. intros H. apply Z.mod_small. lia. Qed.

Lemma u8_u16 v : u8 v -> u16 v.
Proof. unfold u8, u16. lia. Qed.

Lemma land_mask_bound v k : 0 <= k -> 0 <= Z.land v (Z.ones k) < 2 ^ k.
Proof. intros Hk. rewrite Z.land_ones by lia. apply Z.mod_pos_bound. lia. Qed.

Lemma land_7_bound v : 0 <= Z.land v 7 < 8.
Proof. apply (land_mask_bound v 3). lia. Qed.

Lemma land_1F_bound v : 0 <= Z.land v 0x1F < 32.
Proof. apply (land_mask_bound v 5). lia. Qed.

Lemma land_FF_u8 v : u8 (Z.land v 0xFF).
Proof. apply (land_mask_bound v 8). lia. Qed.

Lemma lor_u16 a b : u16 a -> u16 b -> u16 (Z.lor a b).
Proof.
  unfold u16. intros Ha Hb.
  assert (H0 : 0 <= Z.lor a b) by (apply Z.lor_nonneg; lia).
  split; [exact H0|].
  destruct (Z.eq_dec (Z.lor a b) 0) as [->|Hne]; [lia|].
  change 65536 with (2 ^ 16). apply Z.log2_lt_pow2; [lia|].
  rewrite Z.log2_lor by lia.
  assert (Z.log2 a < 16).
  { destruct (Z.eq_dec a 0) as [->|]; [reflexivity|apply Z.log2_lt_pow2; lia]. }
  assert (Z.log2 b < 16).
  { destruct (Z.eq_dec b 0) as [->|]; [reflexivity|apply Z.log2_lt_pow2; lia]. }
  lia.
Qed.

Lemma lxor_u16 a b : u16 a -> u16 b -> u16 (Z.lxor a b).
Proof.
  unfold u16. intros Ha Hb.
  assert (H0 : 0 <= Z.lxor a b) by (apply Z.lxor_nonneg; lia).
  split; [exact H0|].
  destruct (Z.eq_dec (Z.lxor a b) 0) as [->|Hne]; [lia|].
  change 65536 with (2 ^ 16). apply Z.log2_lt_pow2; [lia|].
  pose proof (Z.log2_lxor a b ltac:(lia) ltac:(lia)).
  assert (Z.log2 a < 16).
  { destruct (Z.eq_dec a 0) as [->|]; [reflexivity|apply Z.log2_lt_pow2; lia]. }
  assert (Z.log2 b < 16).
  { destruct (Z.eq_dec b 0) as [->|]; [reflexivity|apply Z.log2_lt_pow2; lia]. }
  lia.
Qed.

Lemma land_u16 a b : u16 a -> u16 b -> u16 (Z.land a b).
Proof.
  unfold u16. intros Ha Hb.
  assert (H0 : 0 <= Z.land a b) by (apply Z.land_nonneg; lia).
  split; [exact H0|].
  destruct (Z.eq_dec (Z.land a b) 0) as [->|Hne]; [lia|].
  change 65536 with (2 ^ 16). apply Z.log2_lt_pow2; [lia|].
  pose proof (Z.log2_land a b ltac:(lia) ltac:(lia)).
  assert (Z.log2 a < 16).
  { destruct (Z.eq_dec a 0) as [->|]; [reflexivity|apply Z.log2_lt_pow2; lia]. }
  lia.
Qed.

(** ** Steps of the memory device *)

Ltac mstep_split := unfold mstep; split; [|split; [|split; [|split]]].

Lemma mstep_refl m : wf_Memory m -> mstep m m [].
Proof.
  intros H. mstep_split; simpl; auto.
Qed.

Lemma mstep_trans m1 m2 m3 e1 e2 :
  mstep m1 m2 e1 -> mstep m2 m3 e2 -> mstep m1 m3 (e2 ++ e1).
Proof.
  intros (T1 & O1 & W1 & K1 & I1) (T2 & O2 & W2 & K2 & I2).
  mstep_split; auto.
  - rewrite T2, T1. now rewrite app_assoc.
  - apply Forall_app; auto.
  - intros H. apply Forall_app in H as [H2 H1].
    destruct (K1 H1), (K2 H2). split; congruence.
Qed.

Lemma mstep_log e m : wf_Memory m -> ev_ok e -> mstep m (log e m) [e].
Proof.
  intros H He. mstep_split; simpl; auto.
Qed.

Lemma cell_u8 m a : wf_Memory m -> u8 (cell m a).
Proof.
  intros (Hm & _). unfold cell.
  destruct (mem m !! a) as [v|] eqn:E; simpl; [eauto|unfold u8; lia].
Qed.

Lemma mmio_read_u8 m a : u8 (mmio_read m a).
Proof.
  assert (u8 0) by (unfold u8; lia). assert (u8 255) by (unfold u8; lia).
  assert (u8 1) by (unfold u8; lia).
  unfold mmio_read.
  repeat match goal with
         | |- u8 (match ?x with _ => _ end) => destruct x
         end; auto using wrap8_u8.
Qed.

Lemma read8_step m a :
  wf_Memory m -> u16 a ->
  u8 (fst (read8 m a)) /\ mstep m (snd (read8 m a)) [EvRead a].
Proof.
  intros Hm Ha. unfold read8.
  destruct (0xFF00 <=? a); simpl.
  - split; [apply mmio_read_u8|]. now apply mstep_log.
  - split; [apply (cell_u8 (log (EvRead a) m)); auto|]. now apply mstep_log.
Qed.

Lemma read16_step m a :
  wf_Memory m -> u16 a ->
  u16 (fst (read16 m a)) /\ exists evs, mstep m (snd (read16 m a)) evs.
Proof.
  intros Hm Ha. unfold read16.
  destruct (read8_step m a Hm Ha) as [_ S1].
  destruct (read8 m a) as [lo m1]; simpl in S1.
  assert (Hm1 : wf_Memory m1) by apply S1.
  destruct (read8_step m1 (wrap16 (a + 1)) Hm1 (wrap16_u16 _)) as [_ S2].
  destruct (read8 m1 (wrap16 (a + 1))) as [hi m2]; simpl in *.
  split; [apply wrap16_u16|]. eexists. eapply mstep_trans; eauto.
Qed.

Lemma mmio_write_other m a v :
  a <> 0xFF00 -> a <> 0xFF10 -> a <> 0xFF11 -> a <> 0xFF12 -> a <> 0xFF13 ->
  a <> 0xFF14 -> mmio_write m a v = m.
Proof.
  intros. unfold mmio_write.
  repeat match goal with
         | |- match ?x with _ => _ end = _ => destruct x; try reflexivity
         end; congruence.
Qed.

Lemma mmio_write_step m a v :
  wf_Memory m -> u16 a -> u8 v ->
  exists evs, mstep m (mmio_write (log (EvWrite a v) m) a v) evs.
Proof.
  intros Hm Ha Hv.
  assert (Hok : ev_ok (EvWrite a v)) by (split; auto).
  pose proof Hm as (Hc & Ht & Htc).
  destruct (Z.eq_dec a 0xFF00) as [->|N0].
  { exists [EvUart v; EvWrite 0xFF00 v]. mstep_split; simpl; auto. }
  exists [EvWrite a v].
  assert (Hw : a = 0xFF10 \/ a = 0xFF11 \/ a = 0xFF12 \/ a = 0xFF13 ->
          ~ no_timer_write [EvWrite a v]).
  { intros Hor Hn. inversion Hn as [|? ? Hx]; subst. simpl in Hx. lia. }
  destruct (Z.eq_dec a 0xFF10) as [E|N1].
  { mstep_split;
      [subst; simpl; auto .. |intros Hn; exfalso; apply Hw; auto|subst; simpl; auto].
    split; [|split]; simpl; auto using wrap16_u16. }
  destruct (Z.eq_dec a 0xFF11) as [E|N2].
  { mstep_split;
      [subst; simpl; auto .. |intros Hn; exfalso; apply Hw; auto|subst; simpl; auto].
    split; [|split]; simpl; auto using wrap16_u16. }
  destruct (Z.eq_dec a 0xFF12) as [E|N3].
  { mstep_split;
      [subst; simpl; auto .. |intros Hn; exfalso; apply Hw; auto|subst; simpl; auto].
    split; [|split]; simpl; auto using wrap16_u16. }
  destruct (Z.eq_dec a 0xFF13) as [E|N4].
  { mstep_split;
      [subst; simpl; auto .. |intros Hn; exfalso; apply Hw; auto|subst; simpl; auto].
    split; [|split]; simpl; auto using wrap16_u16. }
  destruct (Z.eq_dec a 0xFF14) as [->|N5].
  { simpl. destruct (v =? 1); mstep_split; simpl; auto; discriminate. }
  rewrite mmio_write_other by assumption. now apply mstep_log.
Qed.

Lemma write8_step m a v :
  wf_Memory m -> u16 a -> u8 v -> exists evs, mstep m (write8 m a v) evs.
Proof.
  intros Hm Ha Hv. unfold write8.
  destruct (0xFF00 <=? a).
  - now apply mmio_write_step.
  - exists [EvWrite a v]. destruct Hm as (Hc & Ht & Htc).
    mstep_split; simpl; auto.
    + constructor; [split; auto|constructor].
    + split; [|split]; simpl; auto.
      intros a' v'. rewrite lookup_insert. case_decide; [|apply Hc].
      intros [= <-]. exact Hv.
Qed.

Lemma write16_step m a v :
  wf_Memory m -> u16 a -> exists evs, mstep m (write16 m a v) evs.
Proof.
  intros Hm Ha. unfold write16.
  destruct (write8_step m a (wrap8 (Z.land v 255)) Hm Ha (wrap8_u8 _)) as (e1 & S1).
  assert (Hm1 : wf_Memory (write8 m a (wrap8 (Z.land v 255)))) by apply S1.
  destruct (write8_step _ (wrap16 (a + 1)) (wrap8 (Z.land (Z.shiftr v 8) 255))
              Hm1 (wrap16_u16 _) (wrap8_u8 _)) as (e2 & S2).
  eexists. eapply mstep_trans; eauto.
Qed.

(** ** Steps of the CPU *)

Lemma cstep_refl c : wf_CPU c -> cstep c c.
Proof.
  intros H. split; [exact H|]. exists []. apply mstep_refl, H.
Qed.

Lemma cstep_wf c0 c : cstep c0 c -> wf_CPU c.
Proof. now intros [H _]. Qed.

Lemma reg_u16 c i : wf_CPU c -> u16 (reg c i).
Proof.
  intros (_ & _ & HR & _). unfold reg.
  destruct (R c !! Z.to_nat i) as [v|] eqn:E; simpl.
  - eapply Forall_lookup_1; eauto.
  - unfold u16; lia.
Qed.

Lemma step_pure c0 c c' :
  cmem c' = cmem c -> length (R c') = 8%nat -> Forall u16 (R c') -> u16 (PC c') ->
  cstep c0 c -> cstep c0 c'.
Proof.
  intros Em HL HR HP [(Hm & _) (evs & S)]. split.
  - split; [rewrite Em; exact Hm|auto].
  - exists evs. now rewrite Em.
Qed.

Lemma step_set_PC c0 c v : u16 v -> cstep c0 c -> cstep c0 (set_PC v c).
Proof. intros Hv S. apply (step_pure c0 c); auto; apply S. Qed.

Lemma step_set_reg c0 c i v : u16 v -> cstep c0 c -> cstep c0 (set_reg i v c).
Proof.
  intros Hv S. pose proof (cstep_wf _ _ S) as (_ & HL & HR & HP).
  apply (step_pure c0 c); simpl; auto.
  - now rewrite length_insert.
  - now apply Forall_insert.
Qed.

Lemma step_set_ZN c0 c z n : cstep c0 c -> cstep c0 (set_ZN z n c).
Proof. intros S. apply (step_pure c0 c); auto; apply S. Qed.

Lemma step_set_C c0 c b : cstep c0 c -> cstep c0 (set_C b c).
Proof. intros S. apply (step_pure c0 c); auto; apply S. Qed.

Lemma step_set_V c0 c b : cstep c0 c -> cstep c0 (set_V b c).
Proof. intros S. apply (step_pure c0 c); auto; apply S. Qed.

Lemma step_set_halted c0 c b : cstep c0 c -> cstep c0 (set_halted b c).
Proof. intros S. apply (step_pure c0 c); auto; apply S. Qed.

Lemma step_setZN c0 c v : cstep c0 c -> cstep c0 (setZN v c).
Proof. apply step_set_ZN. Qed.

Lemma step_clearCV c0 c : cstep c0 c -> cstep c0 (clearCV c).
Proof. intros S. now apply step_set_V, step_set_C. Qed.

Lemma step_load_reg c0 c rd v : u16 v -> cstep c0 c -> cstep c0 (load_reg rd v c).
Proof.
  intros Hv S. unfold load_reg. now apply step_clearCV, step_setZN, step_set_reg.
Qed.

Lemma step_set_cmem c0 c m :
  cstep c0 c -> (exists evs, mstep (cmem c) m evs) -> cstep c0 (set_cmem m c).
Proof.
  intros [(Hm & Hr) (e1 & S1)] (e2 & S2). split.
  - split; [apply S2|exact Hr].
  - eexists. simpl. eapply mstep_trans; eauto.
Qed.

Lemma step_read8 c0 c a :
  cstep c0 c -> u16 a ->
  u16 (fst (read8 (cmem c) a)) /\ cstep c0 (set_cmem (snd (read8 (cmem c) a)) c).
Proof.
  intros S Ha. pose proof (cstep_wf _ _ S) as (Hm & _).
  destruct (read8_step (cmem c) a Hm Ha) as [Hv Hs].
  split; [now apply u8_u16|]. apply step_set_cmem; eauto.
Qed.

Lemma step_read16 c0 c a :
  cstep c0 c -> u16 a ->
  u16 (fst (read16 (cmem c) a)) /\ cstep c0 (set_cmem (snd (read16 (cmem c) a)) c).
Proof.
  intros S Ha. pose proof (cstep_wf _ _ S) as (Hm & _).
  destruct (read16_step (cmem c) a Hm Ha) as [Hv Hs].
  split; [assumption|]. now apply step_set_cmem.
Qed.

Lemma step_write8 c0 c a v :
  cstep c0 c -> u16 a -> u8 v -> cstep c0 (set_cmem (write8 (cmem c) a v) c).
Proof.
  intros S Ha Hv. pose proof (cstep_wf _ _ S) as (Hm & _).
  apply step_set_cmem; [assumption|]. now apply write8_step.
Qed.

Lemma step_write16 c0 c a v :
  cstep c0 c -> u16 a -> cstep c0 (set_cmem (write16 (cmem c) a v) c).
Proof.
  intros S Ha. pose proof (cstep_wf _ _ S) as (Hm & _).
  apply step_set_cmem; [assumption|]. now apply write16_step.
Qed.

Lemma step_fetch16 c0 c :
  cstep c0 c -> u16 (fst (fetch16 c)) /\ cstep c0 (snd (fetch16 c)).
Proof.
  intros S. pose proof (cstep_wf _ _ S) as (_ & _ & _ & HP).
  destruct (step_read16 c0 c (PC c) S HP) as [Hv Hs].
  unfold fetch16. destruct (read16 (cmem c) (PC c)) as [w m]; simpl in *.
  split; [assumption|]. apply step_set_PC; [apply wrap16_u16|assumption].
Qed.

Lemma step_add16 c0 c a b :
  cstep c0 c -> u16 (fst (add16 a b c)) /\ cstep c0 (snd (add16 a b c)).
Proof.
  intros S. unfold add16; simpl. split; [apply wrap16_u16|].
  now apply step_setZN, step_set_V, step_set_C.
Qed.

Lemma step_sub16 c0 c a b :
  cstep c0 c -> u16 (fst (sub16 a b c)) /\ cstep c0 (snd (sub16 a b c)).
Proof.
  intros S. unfold sub16; simpl. split; [apply wrap16_u16|].
  now apply step_setZN, step_set_V, step_set_C.
Qed.

Lemma step_push16 c0 c v : cstep c0 c -> cstep c0 (push16 v c).
Proof.
  intros S. unfold push16.
  assert (S1 : cstep c0 (set_reg 7 (wrap16 (reg c 7 - 2)) c))
    by (apply step_set_reg; [apply wrap16_u16|assumption]).
  apply step_write16; [assumption|]. apply reg_u16. eapply cstep_wf; eauto.
Qed.

Lemma step_pop16 c0 c :
  cstep c0 c -> u16 (fst (pop16 c)) /\ cstep c0 (snd (pop16 c)).
Proof.
  intros S. unfold pop16.
  destruct (step_read16 c0 c (reg c 7) S) as [Hv Hs].
  { apply reg_u16. eapply cstep_wf; eauto. }
  destruct (read16 (cmem c) (reg c 7)) as [v m]; simpl in *.
  split; [assumption|]. apply step_set_reg; [apply wrap16_u16|assumption].
Qed.

Lemma step_jump_if c0 c cond : cstep c0 c -> cstep c0 (jump_if cond c).
Proof.
  intros S. unfold jump_if. destruct (step_fetch16 c0 c S) as [Hv Hs].
  destruct (fetch16 c) as [a c1]; simpl in *.
  destruct (cond c1); [now apply step_set_PC|assumption].
Qed.

(** Splits [let '(x, y) := e in _] in the goal, with the step lemma of [e]. *)
Ltac split_step lem :=
  match goal with
  | S : cstep ?c0 ?c |- context [let '(_, _) := ?e in _] =>
      let Hv := fresh "Hv" in
      let Hs := fresh "Hs" in
      destruct (lem c0 c) as [Hv Hs]; [assumption ..|];
      destruct e; simpl in Hv, Hs
  end.

Lemma dispatch_step insn opcode rd rs1 imm3 simm8 c0 c :
  0 <= opcode < 32 -> cstep c0 c ->
  cstep c0 (dispatch insn opcode rd rs1 imm3 simm8 c).
Proof.
  intros Hop S. pose proof (cstep_wf _ _ S) as Hwf.
  pose proof (reg_u16 c rd Hwf) as Hrd. pose proof (reg_u16 c rs1 Hwf) as Hrs.
  assert (Hcases : opcode = 0 \/ opcode = 1 \/ opcode = 2 \/ opcode = 3 \/
    opcode = 4 \/ opcode = 5 \/ opcode = 6 \/ opcode = 7 \/ opcode = 8 \/
    opcode = 9 \/ opcode = 10 \/ opcode = 11 \/ opcode = 12 \/ opcode = 13 \/
    opcode = 14 \/ opcode = 15 \/ opcode = 16 \/ opcode = 17 \/ opcode = 18 \/
    opcode = 19 \/ opcode = 20 \/ opcode = 21 \/ opcode = 22 \/ opcode = 23 \/
    opcode = 24 \/ opcode = 25 \/ opcode = 26 \/ opcode = 27 \/ opcode = 28 \/
    opcode = 29 \/ opcode = 30 \/ opcode = 31) by lia.
  repeat (destruct Hcases as [->|Hcases]); [..|subst opcode]; cbn [dispatch].
  - (* NOP *) assumption.
  - (* HALT *) now apply step_set_halted.
  - (* LDI *) split_step step_fetch16. now apply step_load_reg.
  - (* MOV *) now apply step_load_reg.
  - (* ADD *) split_step (fun c0 c => step_add16 c0 c (reg c rd) (reg c rs1)).
    now apply step_set_reg.
  - (* SUB *) split_step (fun c0 c => step_sub16 c0 c (reg c rd) (reg c rs1)).
    now apply step_set_reg.
  - (* AND *) apply step_load_reg; [now apply land_u16|assumption].
  - (* OR *) apply step_load_reg; [now apply lor_u16|assumption].
  - (* XOR *) apply step_load_reg; [now apply lxor_u16|assumption].
  - (* NOT *) apply step_load_reg; [apply wrap16_u16|assumption].
  - (* SHL *) apply step_set_V, step_setZN.
    destruct (to_bool _); [|now apply step_set_C].
    apply step_set_reg; [apply wrap16_u16|now apply step_set_C].
  - (* SHR *) apply step_set_V, step_setZN.
    destruct (to_bool _); [|now apply step_set_C].
    apply step_set_reg; [apply wrap16_u16|now apply step_set_C].
  - (* ADDI *) split_step (fun c0 c => step_add16 c0 c (reg c rd) (wrap16 simm8)).
    now apply step_set_reg.
  - (* CMPI *) split_step (fun c0 c => step_sub16 c0 c (reg c rd) (wrap16 simm8)).
    assumption.
  - (* CMP *) split_step (fun c0 c => step_sub16 c0 c (reg c rd) (reg c rs1)).
    assumption.
  - (* LD *) split_step step_fetch16.
    destruct (step_read16 c0 c1 z Hs Hv) as [Hv' Hs'].
    destruct (read16 (cmem c1) z); simpl in *. now apply step_load_reg.
  - (* ST *) split_step step_fetch16. now apply step_write16.
  - (* LDB *) split_step step_fetch16.
    destruct (step_read8 c0 c1 z Hs Hv) as [Hv' Hs'].
    destruct (read8 (cmem c1) z); simpl in *. now apply step_load_reg.
  - (* STB *) split_step step_fetch16.
    apply step_write8; [assumption..|apply wrap8_u8].
  - (* LD short *)
    destruct (step_read16 c0 c _ S (wrap16_u16 (reg c rs1 + simm5_of insn)))
      as [Hv' Hs'].
    destruct (read16 (cmem c) _); simpl in *. now apply step_load_reg.
  - (* ST short *) apply step_write16; [assumption|apply wrap16_u16].
  - (* JMP *) split_step step_fetch16. now apply step_set_PC.
  - (* JZ *) now apply step_jump_if.
  - (* JNZ *) now apply step_jump_if.
  - (* JC *) now apply step_jump_if.
  - (* JN *) now apply step_jump_if.
  - (* CALL *) split_step step_fetch16.
    apply step_set_PC; [assumption|]. now apply step_push16.
  - (* RET *) split_step step_pop16. now apply step_set_PC.
  - (* IN *) split_step step_fetch16.
    destruct (0xFF00 <=? z).
    + destruct (step_read8 c0 c1 z Hs Hv) as [Hv' Hs'].
      destruct (read8 (cmem c1) z); simpl in *. now apply step_load_reg.
    + destruct (step_read16 c0 c1 z Hs Hv) as [Hv' Hs'].
      destruct (read16 (cmem c1) z); simpl in *. now apply step_load_reg.
  - (* OUT *) split_step step_fetch16.
    destruct (0xFF00 <=? z).
    + apply step_write8; [assumption..|apply wrap8_u8].
    + now apply step_write16.
  - (* 0x1E *) apply step_set_halted, step_set_cmem; [assumption|].
    eexists. apply mstep_log; [apply Hwf|]. simpl. lia.
  - (* 0x1F *) apply step_set_halted, step_set_cmem; [assumption|].
    eexists. apply mstep_log; [apply Hwf|]. simpl. lia.
Qed.

(** ** One instruction *)

Lemma opcode_of_bound insn : 0 <= opcode_of insn < 32.
Proof. apply land_1F_bound. Qed.

Lemma exec_insn_step c : wf_CPU c -> cstep c (exec_insn c).
Proof.
  intros Hwf. unfold exec_insn.
  destruct (step_fetch16 c c (cstep_refl c Hwf)) as [Hv Hs].
  destruct (fetch16 c) as [insn c1]; simpl in *.
  apply dispatch_step; [apply land_1F_bound|assumption].
Qed.

Lemma wf_tick m : wf_Memory m -> wf_Memory (tick m).
Proof.
  intros (Hc & Ht & Htc). unfold tick. simpl.
  destruct (_ && _); (split; [|split]); simpl; auto using wrap16_u16.
Qed.

Lemma exec_running c :
  halted c = false ->
  exec c = set_cmem (tick (cmem (exec_insn c))) (exec_insn c).
Proof. intros H. unfold exec. now rewrite H. Qed.

Lemma exec_halted c : halted c = true -> exec c = c.
Proof. intros H. unfold exec. now rewrite H. Qed.

Lemma wf_exec c : wf_CPU c -> wf_CPU (exec c).
Proof.
  intros Hwf. unfold exec. destruct (halted c); [assumption|].
  destruct (exec_insn_step c Hwf) as [(Hm & Hr) _].
  split; [now apply wf_tick|exact Hr].
Qed.

Lemma wf_iter_exec n c : wf_CPU c -> wf_CPU (Nat.iter n exec c).
Proof. intros H. induction n; simpl; auto using wf_exec. Qed.

Lemma trace_tick m : trace (tick m) = trace m.
Proof. unfold tick. simpl. now destruct (_ && _). Qed.

Lemma events_since_app c c' evs :
  trace (cmem c') = evs ++ trace (cmem c) -> events_since c c' = evs.
Proof.
  intros E. unfold events_since. rewrite E, length_app.
  replace (length evs + length (trace (cmem c)) - length (trace (cmem c)))%nat
    with (length evs) by lia.
  now rewrite take_app_length.
Qed.

(** The events of one [exec]: well-typed, and unless one of them writes a
    timer register the instruction itself leaves [timer] and [timercmp]
    alone, so that only [tick] advances the timer; and only [tick] raises
    [irq_pending]. *)
Lemma exec_events c :
  wf_CPU c -> halted c = false ->
  trace (cmem (exec c)) = events_since c (exec c) ++ trace (cmem c) /\
  Forall ev_ok (events_since c (exec c)) /\
  (no_timer_write (events_since c (exec c)) ->
   timer (cmem (exec_insn c)) = timer (cmem c) /\
   timercmp (cmem (exec_insn c)) = timercmp (cmem c)) /\
  (irq_pending (cmem (exec_insn c)) = true -> irq_pending (cmem c) = true).
Proof.
  intros Hwf Hrun.
  destruct (exec_insn_step c Hwf) as [_ (evs & T & O & _ & K & I)].
  assert (E : trace (cmem (exec c)) = evs ++ trace (cmem c)).
  { rewrite exec_running by assumption. simpl. now rewrite trace_tick. }
  rewrite (events_since_app _ _ _ E). auto.
Qed.

Lemma exec_events_halted c : halted c = true -> events_since c (exec c) = [].
Proof.
  intros H. rewrite exec_halted by assumption. now apply events_since_app.
Qed.

(** The instructions of [single_word] leave the PC where the fetch put it. *)
Lemma dispatch_PC_single insn opcode rd rs1 imm3 simm8 c :
  single_word opcode = true ->
  PC (dispatch insn opcode rd rs1 imm3 simm8 c) = PC c.
Proof.
  intros H.
  assert (Hcases : opcode = 0 \/ opcode = 1 \/ opcode = 3 \/
    opcode = 4 \/ opcode = 5 \/ opcode = 6 \/ opcode = 7 \/ opcode = 8 \/
    opcode = 9 \/ opcode = 10 \/ opcode = 11 \/ opcode = 12 \/ opcode = 13 \/
    opcode = 14 \/ opcode = 19 \/ opcode = 20 \/ opcode = 30 \/ opcode = 31).
  { unfold single_word in H.
    repeat match type of H with
           | match ?x with _ => _ end = _ => destruct x; try discriminate H
           end; lia. }
  repeat (destruct Hcases as [->|Hcases]); [..|subst opcode]; cbn [dispatch];
    try reflexivity.
  - (* SHL *) now destruct (to_bool _).
  - (* SHR *) now destruct (to_bool _).
  - (* LD short *) now destruct (read16 _ _).
Qed.

Lemma exec_PC_single c :
  halted c = false ->
  single_word (opcode_of (fst (fetch16 c))) = true ->
  PC (exec c) = wrap16 (PC c + 2).
Proof.
  intros Hrun Hop. rewrite exec_running by assumption. simpl.
  unfold exec_insn. unfold fetch16 in *.
  destruct (read16 (cmem c) (PC c)) as [insn m]; simpl in *.
  now rewrite dispatch_PC_single.
Qed.

(** A fetch at 0xFFFE reads the two unmapped MMIO bytes: the word is 0. *)
Lemma fetch16_FFFE c : PC c = 0xFFFE -> fst (fetch16 c) = 0.
Proof.
  intros H. unfold fetch16, read16, read8. rewrite H. reflexivity.
Qed.

(** ** Flags of ADD and SUB *)

Lemma add16_carry_is_bit16 a b c :
  u16 a -> u16 b -> CF (snd (add16 a b c)) = Z.testbit (a + b) 16.
Proof.
  unfold u16. intros Ha Hb.
  pose proof (Z.testbit_spec' (a + b) 16 ltac:(lia)) as Hb2z.
  destruct (Z.testbit (a + b) 16); simpl in Hb2z;
    unfold add16, wrap32; cbn [snd CF setZN set_ZN set_V set_C]; unfold to_bool;
    rewrite Z.mod_small by lia;
    change 1 with (Z.ones 1); rewrite Z.land_ones by lia;
    rewrite Z.shiftr_div_pow2 by lia; change (2 ^ 1) with 2;
    now rewrite <- Hb2z.
Qed.

(** [sub16] adds the 32-bit complement of [b]: bit 16 of the sum is set
    exactly when the subtraction borrows. *)
Lemma sub16_carry_is_borrow a b c :
  u16 a -> u16 b -> CF (snd (sub16 a b c)) = (a <? b).
Proof.
  unfold u16. intros Ha Hb. unfold sub16; simpl. unfold to_bool, wrap32.
  unfold Z.lnot, Z.pred.
  replace ((- b + -1) mod 4294967296) with (4294967295 - b).
  2:{ apply Z.mod_unique with (-1); lia. }
  rewrite Z.shiftr_div_pow2 by lia. change (2 ^ 16) with 65536.
  destruct (a <? b) eqn:E.
  - apply Z.ltb_lt in E.
    rewrite Z.mod_small by lia.
    replace ((a + (4294967295 - b) + 1) / 65536) with 65535.
    2:{ apply Z.div_unique with (65536 + a - b); lia. }
    reflexivity.
  - apply Z.ltb_ge in E.
    replace ((a + (4294967295 - b) + 1) mod 4294967296) with (a - b).
    2:{ apply Z.mod_unique with 1; lia. }
    rewrite Z.div_small by lia. reflexivity.
Qed.

Lemma sub16_result a b c : u16 a -> u16 b -> fst (sub16 a b c) = wrap16 (a - b).
Proof.
  unfold u16. intros Ha Hb. unfold sub16, wrap32, wrap16; simpl.
  unfold Z.lnot, Z.pred.
  replace ((- b + -1) mod 4294967296) with (4294967295 - b).
  2:{ apply Z.mod_unique with (-1); lia. }
  rewrite Z.mod_mod_divide by (exists 65536; reflexivity).
  replace (a + (4294967295 - b) + 1) with (a - b + 65536 * 65536) by lia.
  now rewrite Z.mod_add by lia.
Qed.

(** C1 (the code differs): ADD of 0xFFFF and 0x0001 gives 0x0000 with Z=1,
    N=0, C=1, V=0 as claimed, C being bit 16 of the sum.  SUB of 0x8000 and
    0x0001 gives 0x7FFF with Z=0, N=0, V=1 as claimed, V being
    ((a^b) & (a^result)) >> 15 -- but C is 0, not 1: the carry the code
    computes for a subtraction is the borrow, not its complement. *)
Theorem C1_sub_carry_is_borrow_not_its_complement :
  (reg cpu_add 0 = 0xFFFF /\ reg cpu_add 1 = 0x0001 /\
   opcode_of (fst (fetch16 cpu_add)) = 0x04 /\
   reg (exec cpu_add) 0 = 0x0000 /\
   ZF (exec cpu_add) = true /\ NF (exec cpu_add) = false /\
   CF (exec cpu_add) = true /\ VF (exec cpu_add) = false /\
   CF (exec cpu_add) = Z.testbit (0xFFFF + 0x0001) 16) /\
  (reg cpu_sub 0 = 0x8000 /\ reg cpu_sub 1 = 0x0001 /\
   opcode_of (fst (fetch16 cpu_sub)) = 0x05 /\
   reg (exec cpu_sub) 0 = 0x7FFF /\
   ZF (exec cpu_sub) = false /\ NF (exec cpu_sub) = false /\
   CF (exec cpu_sub) = false /\ VF (exec cpu_sub) = true /\
   VF (exec cpu_sub) =
     to_bool (Z.land (Z.shiftr (Z.land (Z.lxor 0x8000 0x0001)
                                       (Z.lxor 0x8000 0x7FFF)) 15) 1)).
Proof. vm_compute. repeat split. Qed.

(** ** Unknown opcodes *)

Lemma mem_read8 m a : mem (snd (read8 m a)) = mem m.
Proof. unfold read8. now destruct (0xFF00 <=? a). Qed.

Lemma mem_read16 m a : mem (snd (read16 m a)) = mem m.
Proof.
  unfold read16. pose proof (mem_read8 m a) as H1.
  destruct (read8 m a) as [lo m1]; simpl in H1.
  pose proof (mem_read8 m1 (wrap16 (a + 1))) as H2.
  destruct (read8 m1 (wrap16 (a + 1))) as [hi m2]; simpl in *. congruence.
Qed.

Lemma fetch16_fields c :
  mem (cmem (snd (fetch16 c))) = mem (cmem c) /\
  R (snd (fetch16 c)) = R c /\
  PC (snd (fetch16 c)) = wrap16 (PC c + 2) /\
  halted (snd (fetch16 c)) = halted c.
Proof.
  unfold fetch16. pose proof (mem_read16 (cmem c) (PC c)) as H.
  destruct (read16 (cmem c) (PC c)) as [w m]; simpl in *. auto.
Qed.

Lemma mem_tick m : mem (tick m) = mem m.
Proof. unfold tick. simpl. now destruct (_ && _). Qed.

(** What [exec] does with an opcode that has no case: it halts, logs the
    opcode and the 32-bit value of [PC - 2], and touches neither the memory
    array nor the registers. *)
Lemma exec_unknown_opcode c :
  halted c = false ->
  opcode_of (fst (fetch16 c)) = 0x1E \/ opcode_of (fst (fetch16 c)) = 0x1F ->
  halted (exec c) = true /\
  mem (cmem (exec c)) = mem (cmem c) /\
  R (exec c) = R c /\
  hd_error (trace (cmem (exec c))) =
    Some (EvDiag (opcode_of (fst (fetch16 c))) (wrap32 (wrap16 (PC c + 2) - 2))).
Proof.
  intros Hrun Hop. rewrite exec_running by assumption.
  unfold exec_insn. destruct (fetch16_fields c) as (Hm & HR & HP & _).
  unfold opcode_of in *.
  destruct (fetch16 c) as [insn c1]; simpl in *.
  set (op := Z.land (Z.shiftr insn 11) 31) in *.
  destruct Hop as [E|E]; rewrite E; cbn [dispatch]; simpl;
    rewrite mem_tick, trace_tick; simpl; rewrite HP; auto.
Qed.

(** The logged value is the address of the instruction, except when the
    fetch wrapped the PC around. *)
Lemma diag_pc_below_wrap pc : 0 <= pc <= 0xFFFD -> wrap32 (wrap16 (pc + 2) - 2) = pc.
Proof.
  intros H. unfold wrap16, wrap32. rewrite (Z.mod_small (pc + 2)) by lia.
  rewrite Z.mod_small; lia.
Qed.

(** C7 (the code differs): the instruction word fetched at PC = 0xFFFF with
    0xF8 in the first memory byte has opcode 0x1F.  Executing it halts the
    CPU and changes neither the memory array nor the registers, as claimed,
    but the diagnostic shows 0xFFFFFFFF where the claim has the PC, 0xFFFF:
    [PC - 2] is evaluated on [int] after the PC has wrapped to 1. *)
Theorem C7_unknown_opcode_diagnostic_at_wraparound :
  PC cpu_bad_opcode = 0xFFFF /\
  opcode_of (fst (fetch16 cpu_bad_opcode)) = 0x1F /\
  halted (exec cpu_bad_opcode) = true /\
  mem (cmem (exec cpu_bad_opcode)) = mem (cmem cpu_bad_opcode) /\
  R (exec cpu_bad_opcode) = R cpu_bad_opcode /\
  hd_error (trace (cmem (exec cpu_bad_opcode))) = Some (EvDiag 0x1F 0xFFFFFFFF).
Proof. vm_compute. repeat split. Qed.

(** ** Wrap-around of the PC and of R7; addresses of the accesses *)

Lemma reg_set_reg_eq c i v :
  (Z.to_nat i < length (R c))%nat -> reg (set_reg i v c) i = v.
Proof.
  intros H. unfold reg, set_reg; simpl. now rewrite list_lookup_insert_eq.
Qed.

Lemma reg_push16 v c :
  length (R c) = 8%nat -> reg (push16 v c) 7 = wrap16 (reg c 7 - 2).
Proof.
  intros HL.
  change (reg (push16 v c) 7) with (reg (set_reg 7 (wrap16 (reg c 7 - 2)) c) 7).
  apply reg_set_reg_eq. rewrite HL. simpl. lia.
Qed.

Lemma reg_pop16 c :
  length (R c) = 8%nat -> reg (snd (pop16 c)) 7 = wrap16 (reg c 7 + 2).
Proof.
  intros HL. unfold pop16. destruct (read16 (cmem c) (reg c 7)) as [v m].
  cbn [snd].
  change (reg (set_cmem m c) 7) with (reg c 7).
  apply reg_set_reg_eq. simpl. rewrite HL. simpl. lia.
Qed.

Lemma iter_exec_events n c :
  wf_CPU c ->
  trace (cmem (Nat.iter n exec c)) =
    events_since c (Nat.iter n exec c) ++ trace (cmem c) /\
  Forall ev_ok (events_since c (Nat.iter n exec c)).
Proof.
  intros Hwf. induction n as [|n [IHt IHo]]; simpl.
  - rewrite (events_since_app c c []) by reflexivity. auto.
  - set (c' := Nat.iter n exec c) in *.
    assert (Hwf' : wf_CPU c') by now apply wf_iter_exec.
    destruct (halted c') eqn:Hh.
    + rewrite exec_halted by assumption. auto.
    + destruct (exec_events c' Hwf' Hh) as (T & O & _).
      assert (E : trace (cmem (exec c')) =
                  (events_since c' (exec c') ++ events_since c c') ++ trace (cmem c)).
      { rewrite T, IHt at 1. now rewrite app_assoc. }
      rewrite (events_since_app _ _ _ E). split; [exact E|].
      apply Forall_app; auto.
Qed.

Lemma ev_ok_addr e a : ev_ok e -> addr_of e = Some a -> 0 <= a <= 0xFFFF.
Proof.
  destruct e; simpl; try discriminate; unfold u16.
  - intros H [= <-]. lia.
  - intros [H _] [= <-]. lia.
Qed.

(** C9: every advance of the PC and every adjustment of R7 is taken modulo
    2^16 -- by a fetch, by a push, by a pop, and by a whole single-word
    instruction that does not branch, so that after an instruction at
    0xFFFE the PC is 0x0000 -- and after any number of instructions the PC
    and the registers are 16-bit values and every address the CPU has handed
    to the memory lies within 0..0xFFFF. *)
Theorem C9_pc_and_r7_wrap_accesses_in_range (c : CPU) (n : nat) :
  wf_CPU c ->
  PC (snd (fetch16 c)) = (PC c + 2) mod 65536 /\
  (forall v, reg (push16 v c) 7 = (reg c 7 - 2) mod 65536) /\
  reg (snd (pop16 c)) 7 = (reg c 7 + 2) mod 65536 /\
  (halted c = false -> single_word (opcode_of (fst (fetch16 c))) = true ->
   PC (exec c) = (PC c + 2) mod 65536) /\
  (halted c = false -> PC c = 0xFFFE -> PC (exec c) = 0x0000) /\
  0 <= PC (Nat.iter n exec c) <= 0xFFFF /\
  Forall (fun r => 0 <= r <= 0xFFFF) (R (Nat.iter n exec c)) /\
  (forall e a, e ∈ events_since c (Nat.iter n exec c) ->
               addr_of e = Some a -> 0 <= a <= 0xFFFF).
Proof.
  intros Hwf. pose proof Hwf as (_ & HL & _ & _).
  split; [apply fetch16_fields|].
  split; [intros v; now apply reg_push16|].
  split; [now apply reg_pop16|].
  split; [apply exec_PC_single|].
  split.
  { intros Hrun HPC. rewrite exec_PC_single; auto.
    - rewrite HPC. reflexivity.
    - now rewrite fetch16_FFFE. }
  pose proof (wf_iter_exec n c Hwf) as (_ & _ & HR & HP).
  split; [unfold u16 in HP; lia|].
  split.
  { eapply Forall_impl; [exact HR|]. unfold u16. intros; lia. }
  intros e a He Ha. destruct (iter_exec_events n c Hwf) as [_ O].
  rewrite Forall_forall in O. eapply ev_ok_addr; eauto.
Qed.

(** Concrete machines are well-formed. *)

Lemma wf_fresh_Memory : wf_Memory fresh_Memory.
Proof.
  split; [|split]; simpl; unfold u16; try lia.
  intros a v. rewrite lookup_empty. discriminate.
Qed.

Lemma wf_loadImage_from bin : forall m base i,
  wf_Memory m -> Forall u8 bin -> wf_Memory (loadImage_from m bin base i).
Proof.
  induction bin as [|b bin IH]; intros m base i Hm Hb; simpl; [assumption|].
  inversion Hb; subst. apply IH; [|assumption].
  destruct (write8_step m (wrap16 (base + i)) b Hm (wrap16_u16 _)) as (evs & S);
    [assumption|apply S].
Qed.

Lemma wf_cpu_with prog regs pc :
  Forall u8 prog -> length regs = 8%nat -> Forall u16 regs -> u16 pc ->
  wf_CPU (cpu_with prog regs pc).
Proof.
  intros Hp HL HR Hpc. split; [|split; [|split]]; simpl; auto.
  apply wf_loadImage_from; [apply wf_fresh_Memory|assumption].
Qed.

Ltac wf_concrete :=
  apply wf_cpu_with; [repeat constructor; unfold u8; lia | reflexivity
                     | repeat constructor; unfold u16; lia | unfold u16; lia].

Lemma wf_cpu_call_ram : wf_CPU cpu_call_ram.
Proof. wf_concrete. Qed.

(** C9 (witness): the machine with [CALL 4] at address 0 and [RET] at
    address 4, run for two instructions. *)
Lemma C9_witness :
  wf_CPU cpu_call_ram /\
  PC (snd (fetch16 cpu_call_ram)) = (PC cpu_call_ram + 2) mod 65536 /\
  0 <= PC (Nat.iter 2 exec cpu_call_ram) <= 0xFFFF /\
  (forall e a, e ∈ events_since cpu_call_ram (Nat.iter 2 exec cpu_call_ram) ->
               addr_of e = Some a -> 0 <= a <= 0xFFFF).
Proof.
  split; [exact wf_cpu_call_ram|].
  destruct (C9_pc_and_r7_wrap_accesses_in_range cpu_call_ram 2 wf_cpu_call_ram)
    as (H1 & _ & _ & _ & _ & H6 & _ & H8).
  split; [exact H1|]. split; [exact H6|exact H8].
Defined.

(** ** CALL and RET *)

Lemma testbit_u16_high v n : u16 v -> 16 <= n -> Z.testbit v n = false.
Proof.
  unfold u16. intros Hv Hn. rewrite <- (Z.mod_small v (2 ^ 16)) by (simpl; lia).
  apply Z.mod_pow2_bits_high. lia.
Qed.

(** The two bytes [write16] stores, read back by [read16], give the word. *)
Lemma word_of_bytes v :
  u16 v ->
  wrap16 (Z.lor (Z.shiftl (wrap8 (Z.land (Z.shiftr v 8) 0xFF)) 8)
                (wrap8 (Z.land v 0xFF))) = v.
Proof.
  intros Hv. rewrite !wrap8_id by apply land_FF_u8.
  assert (E : Z.lor (Z.shiftl (Z.land (Z.shiftr v 8) 0xFF) 8) (Z.land v 0xFF) = v).
  { apply Z.bits_inj'. intros n Hn.
    rewrite Z.lor_spec, Z.land_spec, Z.shiftl_spec by lia.
    change 255 with (Z.ones 8).
    destruct (Z.ltb_spec n 8).
    - rewrite (Z.testbit_neg_r _ (n - 8)) by lia.
      rewrite Z.testbit_ones_nonneg by lia.
      replace (n <? 8) with true by (symmetry; apply Z.ltb_lt; lia).
      simpl. now rewrite andb_true_r.
    - rewrite Z.land_spec, Z.shiftr_spec by lia.
      rewrite !Z.testbit_ones_nonneg by lia.
      replace (n - 8 + 8) with n by lia.
      replace (n <? 8) with false by (symmetry; apply Z.ltb_ge; lia).
      rewrite andb_false_r, orb_false_r.
      destruct (Z.ltb_spec (n - 8) 8); [now rewrite andb_true_r|].
      rewrite andb_false_r. symmetry. apply testbit_u16_high; [assumption|lia]. }
  rewrite E. now apply wrap16_id.
Qed.

Lemma read16_ram m a :
  0 <= a <= 0xFEFE ->
  fst (read16 m a) = wrap16 (Z.lor (Z.shiftl (cell m (a + 1)) 8) (cell m a)).
Proof.
  intros Ha. unfold read16, read8.
  replace (0xFF00 <=? a) with false by (symmetry; apply Z.leb_gt; lia).
  replace (wrap16 (a + 1)) with (a + 1) by (symmetry; apply wrap16_id; unfold u16; lia).
  replace (0xFF00 <=? a + 1) with false by (symmetry; apply Z.leb_gt; lia).
  reflexivity.
Qed.

Lemma cells_write16_ram m a v :
  0 <= a <= 0xFEFE ->
  cell (write16 m a v) a = wrap8 (Z.land v 0xFF) /\
  cell (write16 m a v) (a + 1) = wrap8 (Z.land (Z.shiftr v 8) 0xFF).
Proof.
  intros Ha. unfold write16, write8.
  replace (0xFF00 <=? a) with false by (symmetry; apply Z.leb_gt; lia).
  replace (wrap16 (a + 1)) with (a + 1) by (symmetry; apply wrap16_id; unfold u16; lia).
  replace (0xFF00 <=? a + 1) with false by (symmetry; apply Z.leb_gt; lia).
  unfold cell; simpl. split.
  - rewrite lookup_insert_ne by lia. now rewrite lookup_insert_eq.
  - now rewrite lookup_insert_eq.
Qed.

Lemma cell_tick m a : cell (tick m) a = cell m a.
Proof. unfold cell. now rewrite mem_tick. Qed.

(** CALL: the target becomes the PC, R7 drops by two, and the word pushed
    is the PC after the two fetches. *)
Lemma exec_CALL c :
  halted c = false -> length (R c) = 8%nat ->
  opcode_of (fst (fetch16 c)) = 0x1A ->
  PC (exec c) = fst (fetch16 (snd (fetch16 c))) /\
  reg (exec c) 7 = wrap16 (reg c 7 - 2) /\
  (wrap16 (reg c 7 - 2) <= 0xFEFE ->
   cell (cmem (exec c)) (wrap16 (reg c 7 - 2)) =
     wrap8 (Z.land (wrap16 (wrap16 (PC c + 2) + 2)) 0xFF) /\
   cell (cmem (exec c)) (wrap16 (reg c 7 - 2) + 1) =
     wrap8 (Z.land (Z.shiftr (wrap16 (wrap16 (PC c + 2) + 2)) 8) 0xFF)).
Proof.
  intros Hrun HL Hop. rewrite exec_running by assumption.
  unfold exec_insn, opcode_of in *.
  destruct (fetch16_fields c) as (_ & HR1 & HP1 & _).
  destruct (fetch16 c) as [insn c1]; simpl in Hop, HR1, HP1.
  rewrite Hop. cbn [dispatch snd fst].
  destruct (fetch16_fields c1) as (_ & HR2 & HP2 & _).
  destruct (fetch16 c1) as [T c2]; simpl in HR2, HP2. cbn [fst].
  assert (HR : R c2 = R c) by congruence.
  assert (Hreg : reg c2 7 = reg c 7) by (unfold reg; now rewrite HR).
  assert (HL2 : length (R c2) = 8%nat) by congruence.
  split; [reflexivity|]. split.
  - change (reg (push16 (PC c2) c2) 7 = wrap16 (reg c 7 - 2)).
    rewrite reg_push16 by assumption. now rewrite Hreg.
  - intros Hsp. cbn [cmem set_cmem set_PC]. rewrite !cell_tick.
    assert (Hsp0 : 0 <= wrap16 (reg c 7 - 2)) by apply wrap16_u16.
    unfold push16. cbn [cmem set_cmem].
    rewrite reg_set_reg_eq by (rewrite HL2; simpl; lia).
    change (cmem (set_reg 7 (wrap16 (reg c2 7 - 2)) c2)) with (cmem c2).
    rewrite Hreg, HP2, HP1. apply cells_write16_ram. lia.
Qed.

(** RET: the word at R7 becomes the PC and R7 rises by two. *)
Lemma exec_RET c :
  halted c = false -> length (R c) = 8%nat ->
  opcode_of (fst (fetch16 c)) = 0x1B ->
  0 <= reg c 7 <= 0xFEFE ->
  PC (exec c) = wrap16 (Z.lor (Z.shiftl (cell (cmem c) (reg c 7 + 1)) 8)
                              (cell (cmem c) (reg c 7))) /\
  reg (exec c) 7 = wrap16 (reg c 7 + 2).
Proof.
  intros Hrun HL Hop Hsp. rewrite exec_running by assumption.
  unfold exec_insn, opcode_of in *.
  destruct (fetch16_fields c) as (Hm1 & HR1 & _ & _).
  destruct (fetch16 c) as [insn c1]; simpl in Hop, HR1, Hm1.
  rewrite Hop. cbn [dispatch].
  assert (Hreg : reg c1 7 = reg c 7) by (unfold reg; now rewrite HR1).
  assert (HL1 : length (R c1) = 8%nat) by congruence.
  pose proof (read16_ram (cmem c1) (reg c1 7)) as Hrd.
  pose proof (reg_pop16 c1 HL1) as Hpop.
  unfold pop16 in *.
  destruct (read16 (cmem c1) (reg c1 7)) as [v m]; cbn [fst snd] in *.
  split.
  - cbn [PC set_cmem set_PC]. rewrite Hrd by lia.
    unfold cell. now rewrite Hm1, Hreg.
  - change (reg (set_reg 7 (wrap16 (reg (set_cmem m c1) 7 + 2)) (set_cmem m c1)) 7
            = wrap16 (reg c 7 + 2)).
    rewrite Hpop. now rewrite Hreg.
Qed.

(** C5 (amended): provided the two bytes of the stack slot below R7 lie in
    RAM (below 0xFF00), CALL T sets the PC to T, decrements R7 by 2 modulo
    2^16 and stores there, low byte first, the address after the CALL's
    four bytes; and RET, executed in any later state with that R7 and those
    two bytes, sets the PC to the address after the CALL and R7 to its value
    before the CALL. *)
Theorem C5_call_then_ret_in_ram (c c' : CPU) (T : Z) :
  wf_CPU c -> halted c = false ->
  opcode_of (fst (fetch16 c)) = 0x1A ->
  fst (fetch16 (snd (fetch16 c))) = T ->
  (reg c 7 - 2) mod 65536 <= 0xFEFE ->
  let sp := (reg c 7 - 2) mod 65536 in
  let ret := (PC c + 4) mod 65536 in
  (PC (exec c) = T /\ reg (exec c) 7 = sp /\
   cell (cmem (exec c)) sp = ret mod 256 /\
   cell (cmem (exec c)) (sp + 1) = ret / 256) /\
  (halted c' = false -> length (R c') = 8%nat ->
   opcode_of (fst (fetch16 c')) = 0x1B ->
   reg c' 7 = sp ->
   cell (cmem c') sp = cell (cmem (exec c)) sp ->
   cell (cmem c') (sp + 1) = cell (cmem (exec c)) (sp + 1) ->
   PC (exec c') = ret /\ reg (exec c') 7 = reg c 7).
Proof.
  intros Hwf Hrun Hop HT Hsp sp ret.
  pose proof Hwf as (_ & HL & _ & HPC).
  pose proof (reg_u16 c 7 Hwf) as Hr7.
  destruct (exec_CALL c Hrun HL Hop) as (E1 & E2 & E3).
  change (wrap16 (reg c 7 - 2)) with sp in E2, E3.
  destruct (E3 Hsp) as [E4 E5].
  assert (Hret : wrap16 (wrap16 (PC c + 2) + 2) = ret).
  { unfold wrap16, ret. rewrite Zplus_mod_idemp_l. f_equal. lia. }
  rewrite Hret in E4, E5.
  assert (Hru : u16 ret) by apply wrap16_u16.
  assert (Hsp0 : 0 <= sp) by apply wrap16_u16.
  split.
  - split; [congruence|]. split; [exact E2|]. split.
    + rewrite E4. unfold wrap8. change 255 with (Z.ones 8).
      rewrite Z.land_ones by lia. change (2 ^ 8) with 256. apply Z.mod_mod. lia.
    + rewrite E5. unfold wrap8. change 255 with (Z.ones 8).
      rewrite Z.land_ones, Z.shiftr_div_pow2 by lia. change (2 ^ 8) with 256.
      rewrite Z.mod_mod by lia. apply Z.mod_small.
      unfold u16 in Hru. split; [apply Z.div_pos; lia|].
      apply Z.div_lt_upper_bound; lia.
  - intros Hrun' HL' Hop' Hr7' Hc1 Hc2.
    destruct (exec_RET c' Hrun' HL' Hop') as [P1 P2]; [rewrite Hr7'; lia|].
    rewrite P1, P2, Hr7'. rewrite Hc1, Hc2.
    rewrite E4, E5. split; [now apply word_of_bytes|].
    unfold sp, wrap16. rewrite Zplus_mod_idemp_l.
    replace (reg c 7 - 2 + 2) with (reg c 7) by lia. now apply Z.mod_small.
Qed.

(** C5 (counterexample): with R7 = 0xFF02 the stack slot is the MMIO pair
    0xFF00/0xFF01.  [CALL 4] at address 0 is followed at once by the [RET]
    at address 4, so nothing in between touches R7 or the stack, and yet
    the PC after RET is 0xFF00, not the address 4 after the CALL. *)
Lemma C5_counterexample_stack_in_mmio :
  halted cpu_call_mmio = false /\
  opcode_of (fst (fetch16 cpu_call_mmio)) = 0x1A /\
  fst (fetch16 (snd (fetch16 cpu_call_mmio))) = 4 /\
  PC (exec cpu_call_mmio) = 4 /\
  halted (exec cpu_call_mmio) = false /\
  opcode_of (fst (fetch16 (exec cpu_call_mmio))) = 0x1B /\
  PC (exec (exec cpu_call_mmio)) = 0xFF00 /\
  PC (exec (exec cpu_call_mmio)) <> (PC cpu_call_mmio + 4) mod 65536.
Proof. vm_compute. repeat split; discriminate. Qed.

(** C5 (witness): the same program with the initial stack pointer
    0x7FFC: the word 4 is pushed at 0x7FFA and popped again. *)
Lemma C5_witness :
  PC (exec cpu_call_ram) = 4 /\
  reg (exec cpu_call_ram) 7 = 0x7FFA /\
  PC (exec (exec cpu_call_ram)) = 4 /\
  reg (exec (exec cpu_call_ram)) 7 = 0x7FFC.
Proof.
  destruct (C5_call_then_ret_in_ram cpu_call_ram (exec cpu_call_ram) 4)
    as [(H1 & H2 & _) H3].
  - exact wf_cpu_call_ram.
  - reflexivity.
  - reflexivity.
  - reflexivity.
  - vm_compute. discriminate.
  - destruct H3 as [H4 H5]; try reflexivity.
    split; [exact H1|]. split; [exact H2|]. split; [exact H4|exact H5].
Defined.

(** ** The timer *)

Lemma tick_fields m :
  timer (tick m) = wrap16 (timer m + 1) /\
  timercmp (tick m) = timercmp m /\
  irq_pending (tick m) =
    ((0 <? timercmp m) && (timercmp m <=? wrap16 (timer m + 1)) || irq_pending m).
Proof.
  unfold tick. simpl. destruct (_ && _); simpl; auto.
Qed.

(** C4 (amended): in a run from a Memory whose timer is 0, whose
    [irq_pending] is clear and whose compare register holds K, in which no
    retired instruction writes TIMER_LO, TIMER_HI, TCMP_LO or TCMP_HI, the
    timer after N retired instructions is N modulo 2^16; for K > 0
    [irq_pending] is still clear after fewer than K instructions and is set
    by the tick of instruction number K; for K = 0 it stays clear. *)
Theorem C4_timer_counts_retired_instructions (c : CPU) (K : Z) (N : nat) :
  wf_CPU c ->
  timer (cmem c) = 0 -> irq_pending (cmem c) = false -> timercmp (cmem c) = K ->
  (forall i, (i < N)%nat ->
     halted (Nat.iter i exec c) = false /\
     no_timer_write (events_since (Nat.iter i exec c) (exec (Nat.iter i exec c)))) ->
  timer (cmem (Nat.iter N exec c)) = Z.of_nat N mod 65536 /\
  (Z.of_nat N < K -> irq_pending (cmem (Nat.iter N exec c)) = false) /\
  (0 < K -> Z.of_nat N = K -> irq_pending (cmem (Nat.iter N exec c)) = true) /\
  (K = 0 -> irq_pending (cmem (Nat.iter N exec c)) = false).
Proof.
  intros Hwf Ht Hi Hk Hq.
  assert (HK : u16 K) by (rewrite <- Hk; apply Hwf).
  assert (Inv : timer (cmem (Nat.iter N exec c)) = Z.of_nat N mod 65536 /\
                timercmp (cmem (Nat.iter N exec c)) = K /\
                (Z.of_nat N < K \/ K = 0 ->
                 irq_pending (cmem (Nat.iter N exec c)) = false) /\
                (0 < K -> Z.of_nat N = K ->
                 irq_pending (cmem (Nat.iter N exec c)) = true)).
  { induction N as [|N IH].
    - simpl. rewrite Ht. repeat split; auto. intros; lia.
    - destruct IH as (It & Ik & Ii & _); [intros i Hlt; apply Hq; lia|].
      destruct (Hq N ltac:(lia)) as [Hrun Hquiet].
      change (Nat.iter (S N) exec c) with (exec (Nat.iter N exec c)).
      set (c' := Nat.iter N exec c) in *.
      assert (Hwf' : wf_CPU c') by now apply wf_iter_exec.
      destruct (exec_events c' Hwf' Hrun) as (_ & _ & Hkeep & Hirq).
      destruct (Hkeep Hquiet) as [Kt Kc].
      rewrite exec_running by assumption. cbn [cmem set_cmem].
      destruct (tick_fields (cmem (exec_insn c'))) as (Tt & Tc & Ti).
      rewrite Tt, Tc, Ti, Kt, Kc, It, Ik.
      assert (Et : wrap16 (Z.of_nat N mod 65536 + 1) = Z.of_nat (S N) mod 65536).
      { unfold wrap16. rewrite Zplus_mod_idemp_l. f_equal. lia. }
      rewrite Et. unfold u16 in HK.
      split; [reflexivity|]. split; [reflexivity|]. split.
      + intros Hlt.
        assert (Hold : irq_pending (cmem (exec_insn c')) = false).
        { destruct (irq_pending (cmem (exec_insn c'))) eqn:E; [|reflexivity].
          rewrite <- (Ii ltac:(lia)). symmetry. now apply Hirq. }
        rewrite Hold, orb_false_r. apply andb_false_iff.
        destruct Hlt as [Hlt| ->]; [right|left; reflexivity].
        apply Z.leb_gt. rewrite Z.mod_small; lia.
      + intros HK0 HN. apply orb_true_iff. left. apply andb_true_iff. split.
        * now apply Z.ltb_lt.
        * apply Z.leb_le. rewrite Z.mod_small; lia. }
  destruct Inv as (I1 & _ & I3 & I4). repeat split; auto.
Qed.

(** C4 (counterexample): on a fresh Memory, [OUT r7, [0xFF10]] stores 0xFC
    into TIMER_LO; after this one retired instruction the timer is 0xFD,
    not 1. *)
Lemma C4_counterexample_program_writes_timer :
  timer (cmem cpu_timer_write) = 0 /\
  halted cpu_timer_write = false /\
  timer (cmem (Nat.iter 1 exec cpu_timer_write)) = 0xFD /\
  timer (cmem (Nat.iter 1 exec cpu_timer_write)) <> 1 mod 65536.
Proof. vm_compute. repeat split; discriminate. Qed.

Lemma wf_cpu_nops : wf_CPU cpu_nops.
Proof.
  split; [|split; [|split]]; simpl.
  - split; [|split]; simpl.
    + apply (wf_loadImage_from [0; 0; 0; 0; 0; 0] fresh_Memory 0 0 wf_fresh_Memory).
      repeat constructor; unfold u8; lia.
    + apply (wf_loadImage_from [0; 0; 0; 0; 0; 0] fresh_Memory 0 0 wf_fresh_Memory).
      repeat constructor; unfold u8; lia.
    + unfold u16; lia.
  - reflexivity.
  - repeat constructor; unfold u16; lia.
  - unfold u16; lia.
Qed.

(** C4 (witness): three [NOP]s with the compare register at 2: the
    interrupt is raised by the second instruction, not by the first. *)
Lemma C4_witness :
  timer (cmem (Nat.iter 2 exec cpu_nops)) = 2 /\
  irq_pending (cmem (Nat.iter 1 exec cpu_nops)) = false /\
  irq_pending (cmem (Nat.iter 2 exec cpu_nops)) = true.
Proof.
  assert (Q : forall i, (i < 2)%nat ->
     halted (Nat.iter i exec cpu_nops) = false /\
     no_timer_write (events_since (Nat.iter i exec cpu_nops)
                                  (exec (Nat.iter i exec cpu_nops)))).
  { intros i Hi.
    assert (Hc : i = 0%nat \/ i = 1%nat) by lia.
    destruct Hc as [-> | ->]; (split; [reflexivity|vm_compute; repeat constructor]). }
  assert (Q1 : forall i, (i < 1)%nat ->
     halted (Nat.iter i exec cpu_nops) = false /\
     no_timer_write (events_since (Nat.iter i exec cpu_nops)
                                  (exec (Nat.iter i exec cpu_nops)))).
  { intros i Hi. apply Q. lia. }
  destruct (C4_timer_counts_retired_instructions cpu_nops 2 2 wf_cpu_nops
              eq_refl eq_refl eq_refl Q) as (H1 & _ & H3 & _).
  destruct (C4_timer_counts_retired_instructions cpu_nops 2 1 wf_cpu_nops
              eq_refl eq_refl eq_refl Q1) as (_ & H2 & _).
  split; [exact H1|]. split; [apply H2; simpl; lia|apply H3; simpl; lia].
Defined.

(** ** The assembler: growth of the image *)

Lemma fix_ok_le fx : forall lo hi, fix_ok lo fx hi -> lo <= hi.
Proof.
  induction fx as [|[off name] fx IH]; simpl; intros lo hi H; [exact H|].
  destruct H as [H1 H2]. apply IH in H2. lia.
Qed.

Lemma fix_ok_weaken fx : forall lo lo' hi hi',
  lo' <= lo -> hi <= hi' -> fix_ok lo fx hi -> fix_ok lo' fx hi'.
Proof.
  induction fx as [|[off name] fx IH]; simpl; intros lo lo' hi hi' Hlo Hhi H; [lia|].
  destruct H as [H1 H2]. split; [lia|]. eapply IH; [| |exact H2]; lia.
Qed.

Lemma fix_ok_app fx1 : forall lo mid fx2 hi,
  fix_ok lo fx1 mid -> fix_ok mid fx2 hi -> fix_ok lo (fx1 ++ fx2) hi.
Proof.
  induction fx1 as [|[off name] fx1 IH]; simpl; intros lo mid fx2 hi H1 H2.
  - eapply fix_ok_weaken; [| |exact H2]; lia.
  - destruct H1 as [H1 H1']. split; [exact H1|]. eapply IH; eauto.
Qed.

Ltac grows_split :=
  unfold grows; split; [try reflexivity|split; [try reflexivity|split; [try reflexivity|]]].

Lemma grows_refl st : grows st st.
Proof.
  grows_split. exists [], []. rewrite !app_nil_r.
  split; [reflexivity|]. split; [reflexivity|]. simpl. lia.
Qed.

Lemma grows_length st st' : grows st st' -> (length (bytes st) <= length (bytes st'))%nat.
Proof.
  intros (_ & _ & _ & bs & fx & Hb & _). rewrite Hb, length_app. lia.
Qed.

Lemma grows_trans st1 st2 st3 : grows st1 st2 -> grows st2 st3 -> grows st1 st3.
Proof.
  intros G1 G2. pose proof (grows_length _ _ G1) as L1.
  pose proof (grows_length _ _ G2) as L2.
  destruct G1 as (S1 & O1 & N1 & bs1 & fx1 & B1 & F1 & K1).
  destruct G2 as (S2 & O2 & N2 & bs2 & fx2 & B2 & F2 & K2).
  split; [congruence|]. split; [congruence|]. split; [congruence|].
  exists (bs1 ++ bs2), (fx1 ++ fx2).
  split; [rewrite B2, B1; now rewrite app_assoc|].
  split; [rewrite F2, F1; now rewrite app_assoc|].
  intros Hlt. eapply fix_ok_app; [apply K1; lia|apply K2; lia].
Qed.

Lemma emits_ret {A} (a : A) : emits (ret a) 0.
Proof.
  intros st a' st' [= <- <-]. split; [apply grows_refl|lia].
Qed.

Lemma emits_throw {A} what n : emits (@throw A what) n.
Proof. intros st a st' H. discriminate H. Qed.

Lemma emits_undefined {A} what n : emits (@undefined A what) n.
Proof. intros st a st' H. discriminate H. Qed.

Lemma emits_bind {A B} (m : asm A) (k : A -> asm B) n1 n2 :
  emits m n1 -> (forall a, emits (k a) n2) -> emits (bind m k) (n1 + n2).
Proof.
  intros Hm Hk st b st' H. unfold bind in H.
  destruct (m st) as [[a st1]|e] eqn:E; [|discriminate].
  destruct (Hm _ _ _ E) as [G1 L1]. destruct (Hk a _ _ _ H) as [G2 L2].
  split; [eapply grows_trans; eauto|lia].
Qed.

Lemma emits_eq {A} (m : asm A) n n' : n = n' -> emits m n -> emits m n'.
Proof. now intros ->. Qed.

Lemma emits_emit8 b : emits (emit8 b) 1.
Proof.
  intros st a st' [= <- <-]. split.
  - grows_split. exists (b :: nil), nil. simpl. rewrite app_nil_r.
    split; [reflexivity|]. split; [reflexivity|].
    intros _. rewrite length_app. simpl. lia.
  - simpl. rewrite length_app. reflexivity.
Qed.

Lemma emits_emit16 w : emits (emit16 w) 2.
Proof.
  unfold emit16. apply (emits_bind _ _ 1%nat 1%nat); [apply emits_emit8|].
  intros _. apply emits_emit8.
Qed.

Lemma to_int32_small v : 0 <= v < 2147483648 -> to_int32 v = v.
Proof.
  intros H. unfold to_int32. rewrite Z.mod_small; lia.
Qed.

Lemma emit16_run w st :
  emit16 w st =
  Ok (tt, set_bytes (bytes st ++ [wrap8 (Z.land w 0xFF);
                                  wrap8 (Z.land (Z.shiftr w 8) 0xFF)]) st).
Proof.
  unfold emit16, bind, emit8. simpl. now rewrite <- app_assoc.
Qed.

Lemma emits_emit_fixup16 name : emits (emit_fixup16 name) 2.
Proof.
  unfold emit_fixup16. intros st a st' H. unfold bind in H.
  rewrite emit16_run in H. injection H as <- <-. simpl. split.
  - grows_split.
    exists [wrap8 (Z.land 0 255); wrap8 (Z.land (Z.shiftr 0 8) 255)],
           [(to_int32 (Z.of_nat (length (bytes st))), name)].
    split; [reflexivity|]. split; [reflexivity|].
    cbn [bytes set_bytes set_fixups]. rewrite length_app. simpl. intros Hlt.
    assert (Hs : 0 <= Z.of_nat (length (bytes st)) < 2147483648) by lia.
    rewrite (to_int32_small _ Hs). lia.
  - cbn [bytes set_bytes set_fixups]. now rewrite length_app.
Qed.

Lemma emits_reg_of tok : emits (reg_of tok) 0.
Proof.
  unfold reg_of. destruct (parse_reg tok); [apply emits_ret|apply emits_throw].
Qed.

Lemma emits_part parts i : emits (part parts i) 0.
Proof.
  unfold part. destruct (parts !! i); [apply emits_ret|apply emits_undefined].
Qed.

Lemma emits_for_each {A} (f : A -> asm unit) n l :
  (forall a, emits (f a) n) -> emits (for_each f l) (n * length l).
Proof.
  intros Hf. induction l as [|a l IH]; simpl.
  - rewrite Nat.mul_0_r. apply emits_ret.
  - eapply emits_eq; [|apply (emits_bind _ _ n (n * length l)%nat); [apply Hf|intros _; exact IH]].
    lia.
Qed.

Create HintDb emits.
#[global] Hint Resolve emits_ret emits_emit8 emits_emit16 emits_emit_fixup16
  emits_reg_of emits_part : emits.
#[global] Hint Extern 1 (emits (throw _) _) => apply emits_throw : emits.
#[global] Hint Extern 1 (emits (undefined _) _) => apply emits_undefined : emits.

(** Splits a goal [emits (bind m k) n] with the sizes [n1] and [n2]. *)
Ltac emits_seq n1 n2 :=
  apply (emits_bind _ _ n1 n2); [auto with emits|intros ?].

Lemma emits_emitRRI op rd rs1 imm3 : emits (emitRRI op rd rs1 imm3) 2.
Proof. apply emits_emit16. Qed.

Lemma emits_emitR op rd rs1 : emits (emitR op rd rs1) 2.
Proof. apply emits_emit16. Qed.

Lemma emits_emitRI8 op rd imm8 : emits (emitRI8 op rd imm8) 2.
Proof. apply emits_emit16. Qed.

Lemma emits_emitW op rd : emits (emitW op rd) 2.
Proof. apply emits_emit16. Qed.

#[global] Hint Resolve emits_emitRRI emits_emitR emits_emitRI8 emits_emitW : emits.

Lemma emits_emit_imm_or_fixup tok name : emits (emit_imm_or_fixup tok name) 2.
Proof. unfold emit_imm_or_fixup. destruct (parse_int tok); auto with emits. Qed.

Lemma emits_emit_addr tok what : emits (emit_addr tok what) 2.
Proof.
  unfold emit_addr. destruct (parse_addr_token tok) as [[addr symb]|]; auto with emits.
  destruct (Str.empty symb); auto with emits. destruct addr; auto with emits.
Qed.

#[global] Hint Resolve emits_emit_imm_or_fixup emits_emit_addr : emits.

Lemma emits_emit_reg_reg op parts : emits (emit_reg_reg op parts) 2.
Proof.
  unfold emit_reg_reg. emits_seq 0%nat 2%nat. emits_seq 0%nat 2%nat.
  emits_seq 0%nat 2%nat. emits_seq 0%nat 2%nat. auto with emits.
Qed.

Lemma emits_emit_shift op what parts : emits (emit_shift op what parts) 2.
Proof.
  unfold emit_shift. emits_seq 0%nat 2%nat. emits_seq 0%nat 2%nat.
  emits_seq 0%nat 2%nat. destruct (parse_int _); auto with emits.
  destruct (_ || _); auto with emits.
Qed.

Lemma emits_emit_reg_imm8 op what parts : emits (emit_reg_imm8 op what parts) 2.
Proof.
  unfold emit_reg_imm8. emits_seq 0%nat 2%nat. emits_seq 0%nat 2%nat.
  emits_seq 0%nat 2%nat. destruct (parse_int _); auto with emits.
Qed.

Lemma emits_emit_short st r addrTok what1 what2 :
  emits (emit_short st r addrTok what1 what2) 2.
Proof.
  unfold emit_short. destruct (Str.find _ _); auto with emits.
  emits_seq 0%nat 2%nat. destruct (parse_int _); auto with emits.
  destruct st; auto with emits.
Qed.

#[global] Hint Resolve emits_emit_reg_reg emits_emit_shift emits_emit_reg_imm8
  emits_emit_short : emits.

(** ** The size of every instruction *)

Lemma emits_bind_ret {A B} (a : A) (k : A -> asm B) n :
  emits (k a) n -> emits (bind (ret a) k) n.
Proof. intros H st b st' E. exact (H st b st' E). Qed.

Lemma emits_bind_undefined {A B} what (k : A -> asm B) n :
  emits (bind (undefined what) k) n.
Proof. intros st b st' E. discriminate E. Qed.

(** One step of a proof that a sequence of emissions has a given size: the
    first action of a sequence emits nothing or one word. *)
Ltac emits_step :=
  match goal with
  | |- emits (bind _ _) ?n =>
      first [ apply (emits_bind _ _ 0%nat n); [solve [auto with emits]|intros ?]
            | apply (emits_bind _ _ 2%nat 2%nat); [solve [auto with emits]|intros ?]
            | apply (emits_bind _ _ 2%nat 0%nat); [solve [auto with emits]|intros ?] ]
  | |- emits (if ?b then _ else _) _ => destruct b
  | |- emits (match ?x with _ => _ end) _ => destruct x
  | |- _ => solve [auto with emits]
  end.

Ltac emits_auto := repeat emits_step.

(** The size of an instruction other than LD and ST. *)
Ltac size_is M parts k :=
  replace (insn_size M parts) with k by (vm_compute; reflexivity).

Lemma emits_ld_st (st : bool) op parts what0 what1 what2 what3 :
  emits
    (if negb (length parts =? 2)%nat then throw what0
     else
       let* p0 := part parts 0 in
       let* r := reg_of p0 in
       let* addrTok := part parts 1 in
       if has_plus addrTok
       then emit_short st r addrTok what1 what2
       else emitW op (wrap8 r) ;;; emit_addr addrTok what3)
    (if (length parts =? 2)%nat && from_option has_plus false (parts !! 1%nat)
     then 2 else 4).
Proof.
  destruct (length parts =? 2)%nat; cbn [negb andb]; [|apply emits_throw].
  emits_step. emits_step. unfold part at 1.
  destruct (parts !! 1%nat) as [addrTok|]; cbn [from_option];
    [|apply emits_bind_undefined].
  apply emits_bind_ret. destruct (has_plus addrTok); emits_auto.
Qed.

Lemma emits_encode_insn M parts : emits (encode_insn M parts) (insn_size M parts).
Proof.
  unfold encode_insn.
  case_bool_decide; [subst M; size_is "nop" parts 2%nat; emits_auto|].
  case_bool_decide; [subst M; size_is "halt" parts 2%nat; emits_auto|].
  case_bool_decide; [subst M; size_is "ldi" parts 4%nat; emits_auto|].
  case_bool_decide; [subst M; size_is "mov" parts 2%nat; emits_auto|].
  case_bool_decide; [subst M; size_is "add" parts 2%nat; emits_auto|].
  case_bool_decide; [subst M; size_is "sub" parts 2%nat; emits_auto|].
  case_bool_decide; [subst M; size_is "and" parts 2%nat; emits_auto|].
  case_bool_decide; [subst M; size_is "or" parts 2%nat; emits_auto|].
  case_bool_decide; [subst M; size_is "xor" parts 2%nat; emits_auto|].
  case_bool_decide; [subst M; size_is "not" parts 2%nat; emits_auto|].
  case_bool_decide; [subst M; size_is "shl" parts 2%nat; emits_auto|].
  case_bool_decide; [subst M; size_is "shr" parts 2%nat; emits_auto|].
  case_bool_decide; [subst M; size_is "addi" parts 2%nat; emits_auto|].
  case_bool_decide; [subst M; size_is "cmpi" parts 2%nat; emits_auto|].
  case_bool_decide; [subst M; size_is "cmp" parts 2%nat; emits_auto|].
  case_bool_decide; [subst M; apply emits_ld_st|].
  case_bool_decide; [subst M; apply emits_ld_st|].
  case_bool_decide; [subst M; size_is "ldb" parts 4%nat; emits_auto|].
  case_bool_decide; [subst M; size_is "stb" parts 4%nat; emits_auto|].
  case_bool_decide;
    [subst M; size_is "jmp" parts 4%nat; cbn [orb]; emits_auto|].
  case_bool_decide;
    [subst M; size_is "jz" parts 4%nat; cbn [orb]; emits_auto|].
  case_bool_decide;
    [subst M; size_is "jnz" parts 4%nat; cbn [orb]; emits_auto|].
  case_bool_decide;
    [subst M; size_is "jc" parts 4%nat; cbn [orb]; emits_auto|].
  case_bool_decide;
    [subst M; size_is "jn" parts 4%nat; cbn [orb]; emits_auto|].
  cbn [orb].
  case_bool_decide; [subst M; size_is "call" parts 4%nat; emits_auto|].
  case_bool_decide; [subst M; size_is "ret" parts 2%nat; emits_auto|].
  case_bool_decide; [subst M; size_is "in" parts 4%nat; emits_auto|].
  case_bool_decide; [subst M; size_is "out" parts 4%nat; emits_auto|].
  apply emits_throw.
Qed.

(** ** Lines *)

Lemma pass1_line_stmt raw pc sy :
  pass1_line raw pc sy =
  let sy' := match label_of raw with Some l => <[l := pc]> sy | None => sy end in
  match statement_of raw with
  | Some s => pass1_stmt s pc sy'
  | None => Ok (pc, sy')
  end.
Proof.
  unfold pass1_line, label_of, statement_of, pass1_stmt.
  destruct (Str.empty (strip_comment raw)); [reflexivity|].
  destruct (is_char (Str.back (strip_comment raw)) ":"); [reflexivity|].
  destruct (Str.find ":" (strip_comment raw)); simpl;
    (destruct (Str.empty _); reflexivity).
Qed.

Lemma pass2_line_stmt raw pc :
  pass2_line raw pc =
  match statement_of raw with
  | Some s => pass2_stmt s pc
  | None => ret pc
  end.
Proof.
  unfold pass2_line, statement_of, pass2_stmt.
  destruct (Str.empty (strip_comment raw)); [reflexivity|].
  destruct (is_char (Str.back (strip_comment raw)) ":"); [reflexivity|].
  destruct (Str.empty _); reflexivity.
Qed.

Lemma org_value_org_line raw v : org_value raw = Some v -> is_org_line raw = true.
Proof.
  unfold org_value, is_org_line. destruct (statement_of raw); [|discriminate].
  now destruct (Str.starts_with _ _).
Qed.

(** [pass1] on a statement that is not [.org]: the PC advances by the
    size of the statement, modulo 2^16. *)
Lemma fold_pc_words {A} (parts : list A) : forall pc,
  u16 pc ->
  fold_left (fun pc _ => wrap16 (pc + 2)) parts pc = wrap16 (pc + 2 * Z.of_nat (length parts)).
Proof.
  induction parts as [|p parts IH]; intros pc Hpc; simpl fold_left.
  - simpl. rewrite Z.add_0_r. symmetry. now apply wrap16_id.
  - rewrite IH by apply wrap16_u16. unfold wrap16.
    rewrite Zplus_mod_idemp_l. apply (f_equal (fun x => x mod 65536)).
    simpl length. lia.
Qed.

Lemma pass1_stmt_size s pc sy pc' sy' :
  u16 pc -> Str.starts_with ".org" (lower s) = false ->
  pass1_stmt s pc sy = Ok (pc', sy') ->
  pc' = wrap16 (pc + Z.of_nat (stmt_size s)) /\ sy' = sy.
Proof.
  intros Hpc Horg. unfold pass1_stmt, stmt_size. rewrite Horg.
  set (parts := splitComma (trim (Str.substr_from 5 s))).
  set (rest := trim (Str.substr_from 8 s)).
  destruct (Str.starts_with ".word" (lower s)).
  { intros [= <- <-]. split; [|reflexivity]. rewrite fold_pc_words by assumption.
    apply (f_equal wrap16). lia. }
  destruct (Str.starts_with ".stringz" (lower s)).
  { destruct (_ || _); [discriminate|]. intros [= <- <-]. split; [|reflexivity].
    unfold wrap16. rewrite Zplus_mod_idemp_r. apply (f_equal (fun x => x mod 65536)).
    unfold Str.size. lia. }
  destruct (split_mnemonic s) as [mnemRaw rest']. unfold insn_size.
  destruct (bool_decide (lower mnemRaw = "ld") || bool_decide (lower mnemRaw = "st")).
  { destruct (_ && _); intros [= <- <-]; auto. }
  intros [= <- <-]. split; [|reflexivity].
  destruct (needWide (lower mnemRaw)); [|reflexivity].
  unfold wrap16. rewrite Zplus_mod_idemp_l.
  apply (f_equal (fun x => x mod 65536)). lia.
Qed.

Lemma length_chars s : length (list_ascii_of_string s) = Str.size s.
Proof. induction s as [|c s IH]; simpl; [reflexivity|now rewrite IH]. Qed.

(** [pass2] on a statement that is not [.org] emits that many bytes. *)
Lemma pass2_stmt_size s pc :
  Str.starts_with ".org" (lower s) = false -> emits (pass2_stmt s pc) (stmt_size s).
Proof.
  intros Horg. unfold pass2_stmt, stmt_size. rewrite Horg.
  destruct (Str.starts_with ".word" (lower s)).
  { eapply emits_eq; [|eapply emits_bind;
                        [apply emits_for_each; intros; apply emits_emit_imm_or_fixup
                        |intros; apply emits_ret]].
    lia. }
  destruct (Str.starts_with ".stringz" (lower s)).
  { eapply emits_eq; [|eapply emits_bind;
                        [apply emits_for_each; intros; apply emits_emit8
                        |intros; eapply emits_bind;
                           [apply emits_emit8|intros; apply emits_ret]]].
    rewrite length_chars. lia. }
  destruct (split_mnemonic s) as [mnemRaw rest].
  eapply emits_eq; [|eapply emits_bind;
                      [apply emits_encode_insn|intros; apply emits_ret]].
  lia.
Qed.

Lemma pass2_stmt_pc s pc st pc' st' :
  Str.starts_with ".org" (lower s) = false ->
  pass2_stmt s pc st = Ok (pc', st') -> pc' = pc.
Proof.
  intros Horg. unfold pass2_stmt. rewrite Horg.
  destruct (Str.starts_with ".word" (lower s)).
  { unfold bind. destruct (for_each _ _ st) as [[? ?]|]; [|discriminate].
    now intros [= <- _]. }
  destruct (Str.starts_with ".stringz" (lower s)).
  { unfold bind. destruct (for_each _ _ st) as [[? ?]|]; [|discriminate].
    simpl. now intros [= <- _]. }
  destruct (split_mnemonic s) as [mnemRaw rest].
  unfold bind. destruct (encode_insn _ _ st) as [[? ?]|]; [|discriminate].
  now intros [= <- _].
Qed.

(** [pad_to]: zero bytes up to the target, none when it lies behind. *)
Lemma pad_to_run pc st :
  pad_to pc st =
  Ok (tt, set_bytes (bytes st ++
            replicate (Z.to_nat (wrap64 (pc - org st) - Z.of_nat (length (bytes st)))) 0) st).
Proof. reflexivity. Qed.

Lemma grows_pad_to pc st a st' : pad_to pc st = Ok (a, st') -> grows st st'.
Proof.
  rewrite pad_to_run. intros [= <- <-]. grows_split.
  eexists _, []. split; [reflexivity|]. split; [simpl; now rewrite app_nil_r|].
  intros _. simpl. rewrite length_app. lia.
Qed.

Lemma pass2_stmt_org s pc v :
  Str.starts_with ".org" (lower s) = true ->
  parse_int (trim (Str.substr_from 4 s)) = Some v ->
  pass2_stmt s pc = (pad_to (wrap16 v) ;;; ret (wrap16 v)).
Proof. intros H1 H2. unfold pass2_stmt. now rewrite H1, H2. Qed.

Lemma pass2_line_org raw pc v :
  org_value raw = Some v ->
  pass2_line raw pc = (pad_to (wrap16 v) ;;; ret (wrap16 v)).
Proof.
  unfold org_value. rewrite pass2_line_stmt.
  destruct (statement_of raw) as [s|]; [|discriminate].
  destruct (Str.starts_with ".org" (lower s)) eqn:E; [|discriminate].
  intros H. now apply pass2_stmt_org.
Qed.

Lemma pass2_line_grows raw pc st pc' st' :
  pass2_line raw pc st = Ok (pc', st') -> grows st st'.
Proof.
  rewrite pass2_line_stmt.
  destruct (statement_of raw) as [s|]; [|intros [= _ <-]; apply grows_refl].
  destruct (Str.starts_with ".org" (lower s)) eqn:E.
  - unfold pass2_stmt. rewrite E.
    destruct (parse_int _); [|discriminate].
    unfold bind. rewrite pad_to_run. intros [= _ <-].
    eapply grows_pad_to. apply pad_to_run.
  - intros H. now apply (pass2_stmt_size s pc E st pc' st').
Qed.

Lemma pass2_loop_grows ls : forall pc st pc' st',
  pass2_loop ls pc st = Ok (pc', st') -> grows st st'.
Proof.
  induction ls as [|raw ls IH]; simpl; intros pc st pc' st'.
  - intros [= _ <-]. apply grows_refl.
  - unfold bind. destruct (pass2_line raw pc st) as [[pc1 st1]|] eqn:E; [|discriminate].
    intros H. eapply grows_trans; [eapply pass2_line_grows; eauto|eapply IH; eauto].
Qed.

(** ** The two passes agree on the layout *)

Lemma pass1_loop_app l1 l2 pc sy :
  pass1_loop (l1 ++ l2) pc sy =
  match pass1_loop l1 pc sy with
  | Ok (pc', sy') => pass1_loop l2 pc' sy'
  | Err e => Err e
  end.
Proof.
  revert pc sy. induction l1 as [|raw l1 IH]; intros pc sy; simpl; [reflexivity|].
  destruct (pass1_line raw pc sy) as [[pc1 sy1]|]; [apply IH|reflexivity].
Qed.

Lemma pass2_loop_app l1 l2 pc st :
  pass2_loop (l1 ++ l2) pc st =
  match pass2_loop l1 pc st with
  | Ok (pc', st') => pass2_loop l2 pc' st'
  | Err e => Err e
  end.
Proof.
  revert pc st. induction l1 as [|raw l1 IH]; intros pc st; simpl; [reflexivity|].
  unfold bind. destruct (pass2_line raw pc st) as [[pc1 st1]|]; [apply IH|reflexivity].
Qed.

Lemma orgs_forward_app l1 l2 pc st :
  orgs_forward (l1 ++ l2) pc st = true -> orgs_forward l1 pc st = true.
Proof.
  revert pc st. induction l1 as [|raw l1 IH]; intros pc st; simpl; [reflexivity|].
  intros H. apply andb_true_iff in H as [H1 H2]. apply andb_true_iff. split; [exact H1|].
  destruct (pass2_line raw pc st) as [[pc1 st1]|]; [now apply IH|reflexivity].
Qed.

Lemma wrap16_add_l a b : wrap16 (wrap16 a + b) = wrap16 (a + b).
Proof. unfold wrap16. now rewrite Zplus_mod_idemp_l. Qed.

(** One line keeps the PC of [pass1] equal to the size of the image of
    [pass2] plus the origin, modulo 2^16, unless it is an [.org] that asks
    for an address behind the bytes already emitted. *)
Lemma two_pass_line raw pc1 sy pc2 st pc1' sy' pc2' st' :
  u16 (org st) ->
  pc1 = wrap16 (Z.of_nat (length (bytes st)) + org st) ->
  pass1_line raw pc1 sy = Ok (pc1', sy') ->
  pass2_line raw pc2 st = Ok (pc2', st') ->
  (forall v, org_value raw = Some v ->
             Z.of_nat (length (bytes st)) <= wrap16 v - org st) ->
  pc1' = wrap16 (Z.of_nat (length (bytes st')) + org st') /\ org st' = org st.
Proof.
  intros Horg Hpc P1 P2 Hfwd.
  assert (Hu : u16 pc1) by (rewrite Hpc; apply wrap16_u16).
  rewrite pass1_line_stmt in P1. rewrite pass2_line_stmt in P2.
  unfold org_value in Hfwd. cbn zeta in P1.
  destruct (statement_of raw) as [s|].
  2:{ injection P1 as <- _. injection P2 as _ <-. auto. }
  destruct (Str.starts_with ".org" (lower s)) eqn:E.
  - unfold pass1_stmt in P1. rewrite E in P1.
    destruct (parse_int (trim (Str.substr_from 4 s))) as [v|] eqn:Ev; [|discriminate].
    injection P1 as <- _.
    rewrite (pass2_stmt_org s pc2 v E Ev) in P2. unfold bind in P2.
    rewrite pad_to_run in P2. injection P2 as _ <-.
    specialize (Hfwd v eq_refl).
    pose proof (wrap16_u16 v) as Hv. unfold u16 in Hv, Horg.
    cbn [bytes org set_bytes]. split; [|reflexivity].
    rewrite length_app, length_replicate.
    assert (Hw : wrap64 (wrap16 v - org st) = wrap16 v - org st)
      by (unfold wrap64; apply Z.mod_small; lia).
    rewrite Hw.
    replace (Z.of_nat (length (bytes st) +
               Z.to_nat (wrap16 v - org st - Z.of_nat (length (bytes st)))) + org st)
      with (wrap16 v) by lia.
    symmetry. apply wrap16_id. exact Hv.
  - destruct (pass1_stmt_size s pc1 _ pc1' sy' Hu E P1) as [-> _].
    destruct (pass2_stmt_size s pc2 E st pc2' st' P2) as [(_ & Ho & _) HL].
    split; [|exact Ho]. rewrite HL, Ho, Hpc, wrap16_add_l.
    apply (f_equal wrap16). lia.
Qed.

Lemma two_pass_loop ls : forall pc1 sy pc2 st pc1' sy' pc2' st',
  u16 (org st) ->
  pc1 = wrap16 (Z.of_nat (length (bytes st)) + org st) ->
  pass1_loop ls pc1 sy = Ok (pc1', sy') ->
  pass2_loop ls pc2 st = Ok (pc2', st') ->
  orgs_forward ls pc2 st = true ->
  pc1' = wrap16 (Z.of_nat (length (bytes st')) + org st') /\ org st' = org st.
Proof.
  induction ls as [|raw ls IH]; intros pc1 sy pc2 st pc1' sy' pc2' st' Ho Hpc P1 P2 F.
  - injection P1 as <- _. injection P2 as _ <-. auto.
  - simpl in P1, P2, F. unfold bind in P2.
    destruct (pass1_line raw pc1 sy) as [[pc1a sya]|] eqn:E1; [|discriminate].
    destruct (pass2_line raw pc2 st) as [[pc2a sta]|] eqn:E2; [|discriminate].
    apply andb_true_iff in F as [F1 F2].
    destruct (two_pass_line raw pc1 sy pc2 st pc1a sya pc2a sta Ho Hpc E1 E2)
      as [Hpc' Ho'].
    { intros v Hv. rewrite Hv in F1. now apply Z.leb_le. }
    destruct (IH pc1a sya pc2a sta pc1' sy' pc2' st') as [H1 H2]; auto.
    + now rewrite Ho'.
    + split; [exact H1|congruence].
Qed.

Lemma pass1_line_label raw pc sy pc' sy' lab :
  pass1_line raw pc sy = Ok (pc', sy') -> label_of raw = Some lab ->
  sy' !! lab = Some pc.
Proof.
  rewrite pass1_line_stmt. intros H Hl. rewrite Hl in H. cbn zeta in H.
  assert (E : sy' = <[lab := pc]> sy).
  { destruct (statement_of raw) as [s|]; [|now injection H as _ <-].
    unfold pass1_stmt in H.
    repeat match type of H with
           | (if ?b then _ else _) = _ => destruct b
           | match ?x with _ => _ end = _ => destruct x
           end; try discriminate; now injection H as _ <-. }
  rewrite E. apply lookup_insert_eq.
Qed.

(** C2 (amended): for every input both passes accept in which no [.org]
    asks for an address behind the bytes already emitted, the PC at the end
    of pass 1 equals the final size of the image plus the origin, modulo
    2^16; and the address pass 1 records for the label of a line is, modulo
    2^16, the origin plus the size of the image when pass 2 reaches that
    line. *)
Theorem C2_two_pass_consistency (A : Assembler) (pc1 pc2 : Z)
    (sy : gmap string Z) (st : Assembler) :
  u16 (org A) ->
  pass1_loop (lines A) (org A) (sym A) = Ok (pc1, sy) ->
  pass2_loop (lines A) (org A) (set_bytes [] A) = Ok (pc2, st) ->
  orgs_forward (lines A) (org A) (set_bytes [] A) = true ->
  pc1 = (Z.of_nat (length (bytes st)) + org A) mod 65536 /\
  (forall pre raw post lab,
     lines A = pre ++ raw :: post -> label_of raw = Some lab ->
     exists pcp syp pc2p stp pcr syr,
       pass1_loop pre (org A) (sym A) = Ok (pcp, syp) /\
       pass2_loop pre (org A) (set_bytes [] A) = Ok (pc2p, stp) /\
       pass1_line raw pcp syp = Ok (pcr, syr) /\
       syr !! lab = Some ((Z.of_nat (length (bytes stp)) + org A) mod 65536)).
Proof.
  intros Ho P1 P2 F.
  assert (H0 : org A = wrap16 (Z.of_nat (length (bytes (set_bytes [] A)))
                               + org (set_bytes [] A))).
  { simpl. symmetry. now apply wrap16_id. }
  split.
  - destruct (two_pass_loop (lines A) (org A) (sym A) (org A) (set_bytes [] A)
                pc1 sy pc2 st Ho H0 P1 P2 F) as [H1 H2].
    rewrite H1, H2. reflexivity.
  - intros pre raw post lab Hl Hlab. rewrite Hl in P1, P2, F.
    rewrite pass1_loop_app in P1. rewrite pass2_loop_app in P2.
    apply orgs_forward_app in F.
    destruct (pass1_loop pre (org A) (sym A)) as [[pcp syp]|] eqn:E1; [|discriminate].
    destruct (pass2_loop pre (org A) (set_bytes [] A)) as [[pc2p stp]|] eqn:E2;
      [|discriminate].
    simpl in P1.
    destruct (pass1_line raw pcp syp) as [[pcr syr]|] eqn:E3; [|discriminate].
    exists pcp, syp, pc2p, stp, pcr, syr.
    split; [reflexivity|]. split; [reflexivity|]. split; [exact E3|].
    destruct (two_pass_loop pre (org A) (sym A) (org A) (set_bytes [] A)
                pcp syp pc2p stp Ho H0 E1 E2 F) as [H1 H2].
    rewrite (pass1_line_label _ _ _ _ _ _ E3 Hlab). rewrite H1, H2. reflexivity.
Qed.

(** C2 (counterexample): both passes accept [nop] followed by [.org 0].
    Pass 1 ends with its PC at 0, while pass 2 has emitted the two bytes of
    the [nop] and the origin is 0. *)
Lemma C2_counterexample_org_backward :
  pass1_loop (lines (load src_org_backward new_Assembler))
             (org (load src_org_backward new_Assembler))
             (sym (load src_org_backward new_Assembler)) = Ok (0, ∅) /\
  assemble src_org_backward = Ok [0; 0] /\
  (exists st,
     pass2_loop (lines (load src_org_backward new_Assembler))
                (org (load src_org_backward new_Assembler))
                (set_bytes [] (load src_org_backward new_Assembler)) = Ok (0, st) /\
     0 <> Z.of_nat (length (bytes st)) + org (load src_org_backward new_Assembler)).
Proof.
  split; [vm_compute; reflexivity|]. split; [vm_compute; reflexivity|].
  eexists. split; [vm_compute; reflexivity|]. vm_compute. discriminate.
Qed.

(** C2 (witness): a four-byte instruction, [.org 8] and a two-byte
    instruction: pass 1 ends at 10, the size of the image. *)
Lemma C2_witness :
  exists pc1 sy pc2 st,
    pass1_loop (lines (load src_org_forward new_Assembler))
               (org (load src_org_forward new_Assembler))
               (sym (load src_org_forward new_Assembler)) = Ok (pc1, sy) /\
    pass2_loop (lines (load src_org_forward new_Assembler))
               (org (load src_org_forward new_Assembler))
               (set_bytes [] (load src_org_forward new_Assembler)) = Ok (pc2, st) /\
    pc1 = 10 /\
    pc1 = (Z.of_nat (length (bytes st)) + org (load src_org_forward new_Assembler))
            mod 65536.
Proof.
  set (A := load src_org_forward new_Assembler).
  destruct (pass1_loop (lines A) (org A) (sym A)) as [[pc1 sy]|] eqn:E1;
    [|vm_compute in E1; discriminate E1].
  destruct (pass2_loop (lines A) (org A) (set_bytes [] A)) as [[pc2 st]|] eqn:E2;
    [|vm_compute in E2; discriminate E2].
  exists pc1, sy, pc2, st. split; [reflexivity|]. split; [reflexivity|].
  split; [vm_compute in E1; now injection E1 as <- _|].
  apply (C2_two_pass_consistency A pc1 pc2 sy st).
  - vm_compute. split; [discriminate|reflexivity].
  - exact E1.
  - exact E2.
  - vm_compute. reflexivity.
Defined.

(** ** Resolution of the fixups *)

Lemma lo_byte a : wrap8 (Z.land a 0xFF) = a mod 256.
Proof.
  unfold wrap8. change 255 with (Z.ones 8). rewrite Z.land_ones by lia.
  change (2 ^ 8) with 256. apply Z.mod_mod. lia.
Qed.

Lemma hi_byte a : wrap8 (Z.land (Z.shiftr a 8) 0xFF) = a / 256 mod 256.
Proof.
  unfold wrap8. change 255 with (Z.ones 8).
  rewrite Z.land_ones, Z.shiftr_div_pow2 by lia.
  change (2 ^ 8) with 256. apply Z.mod_mod. lia.
Qed.

Lemma first_undefined_None sy fx :
  first_undefined sy fx = None <->
  forall off name, (off, name) ∈ fx -> is_Some (sy !! name).
Proof.
  induction fx as [|[off0 name0] fx IH]; simpl.
  - split; [intros _ off name H; inversion H|reflexivity].
  - destruct (sy !! name0) as [a|] eqn:E.
    + rewrite IH. split.
      * intros H off name Hin. apply elem_of_cons in Hin as [[= -> ->]|Hin]; eauto.
      * intros H off name Hin. apply (H off name). now right.
    + split; [discriminate|]. intros H.
      destruct (H off0 name0 ltac:(left)) as [a Ha]. congruence.
Qed.

Lemma first_undefined_Some sy fx name :
  first_undefined sy fx = Some name ->
  (exists off, (off, name) ∈ fx) /\ sy !! name = None.
Proof.
  induction fx as [|[off0 name0] fx IH]; simpl; [discriminate|].
  destruct (sy !! name0) as [a|] eqn:E.
  - intros H. destruct (IH H) as [[off Hin] Hn]. split; [|exact Hn].
    exists off. now right.
  - intros [= <-]. split; [|exact E]. exists off0. left.
Qed.

Lemma resolve_fixup_run off name a st :
  sym st !! name = Some a ->
  0 <= off -> off + 1 < Z.of_nat (length (bytes st)) ->
  resolve_fixup (off, name) st =
  Ok (tt, set_bytes (<[Z.to_nat (off + 1) := wrap8 (Z.land (Z.shiftr a 8) 0xFF)]>
                       (<[Z.to_nat off := wrap8 (Z.land a 0xFF)]> (bytes st))) st).
Proof.
  intros Hs H0 H1. unfold resolve_fixup. rewrite Hs.
  replace (0 <=? off) with true by (symmetry; now apply Z.leb_le).
  replace (off + 1 <? Z.of_nat (length (bytes st))) with true
    by (symmetry; now apply Z.ltb_lt).
  reflexivity.
Qed.

(** With every symbol defined the loop patches each fixup in turn; a later
    fixup never touches the bytes of an earlier one. *)
Lemma resolve_all fx : forall st lo,
  0 <= lo -> fix_ok lo fx (Z.of_nat (length (bytes st))) ->
  first_undefined (sym st) fx = None ->
  exists st',
    for_each resolve_fixup fx st = Ok (tt, st') /\
    sym st' = sym st /\ org st' = org st /\ fixups st' = fixups st /\
    length (bytes st') = length (bytes st) /\
    (forall i : nat, Z.of_nat i < lo -> bytes st' !! i = bytes st !! i) /\
    (forall off name, (off, name) ∈ fx ->
       exists a, sym st !! name = Some a /\
                 bytes st' !! Z.to_nat off = Some (a mod 256) /\
                 bytes st' !! Z.to_nat (off + 1) = Some (a / 256 mod 256)).
Proof.
  induction fx as [|[off name] fx IH]; intros st lo Hlo Hok Hdef.
  - exists st. simpl. repeat split; auto. intros off name H. inversion H.
  - simpl in Hok, Hdef. destruct Hok as [Hoff Hok].
    pose proof (fix_ok_le _ _ _ Hok) as Hhi.
    destruct (sym st !! name) as [a|] eqn:Ea; [|discriminate].
    cbn [for_each]. unfold bind.
    rewrite (resolve_fixup_run off name a st Ea) by lia.
    set (st1 := set_bytes _ st).
    assert (HL1 : length (bytes st1) = length (bytes st))
      by (unfold st1; simpl; now rewrite !length_insert).
    destruct (IH st1 (off + 2)) as (st' & R & S & O & F & L & Keep & Patched).
    { lia. } { now rewrite HL1. } { exact Hdef. }
    exists st'. split; [exact R|]. split; [exact S|]. split; [exact O|].
    split; [exact F|]. split; [congruence|]. split.
    + intros i Hi. rewrite Keep by lia. unfold st1; simpl.
      rewrite !list_lookup_insert_ne by lia. reflexivity.
    + intros off' name' Hin. apply elem_of_cons in Hin as [[= -> ->]|Hin].
      * exists a. split; [exact Ea|]. split.
        -- rewrite Keep by lia. unfold st1; simpl.
           rewrite list_lookup_insert_ne by lia.
           rewrite list_lookup_insert_eq by lia. now rewrite lo_byte.
        -- rewrite Keep by lia. unfold st1; simpl.
           rewrite list_lookup_insert_eq by (rewrite length_insert; lia).
           now rewrite hi_byte.
      * destruct (Patched off' name' Hin) as (a' & Ha' & P1 & P2).
        exists a'. auto.
Qed.

(** With a symbol missing the loop throws at the first such fixup. *)
Lemma resolve_undefined fx : forall st lo name,
  0 <= lo -> fix_ok lo fx (Z.of_nat (length (bytes st))) ->
  first_undefined (sym st) fx = Some name ->
  for_each resolve_fixup fx st = Err (runtime_error ("undefined label: " +:+ name)).
Proof.
  induction fx as [|[off name0] fx IH]; intros st lo name Hlo Hok Hdef;
    [discriminate|].
  simpl in Hok, Hdef. destruct Hok as [Hoff Hok].
  pose proof (fix_ok_le _ _ _ Hok) as Hhi.
  cbn [for_each]. unfold bind.
  destruct (sym st !! name0) as [a|] eqn:Ea.
  - rewrite (resolve_fixup_run off name0 a st Ea) by lia.
    set (st1 := set_bytes _ st).
    apply (IH st1 (off + 2)); [lia| |exact Hdef].
    unfold st1; simpl. now rewrite !length_insert.
  - injection Hdef as <-. unfold resolve_fixup. now rewrite Ea.
Qed.

Lemma pass1_fields st st' :
  pass1 st = Ok (tt, st') ->
  bytes st' = bytes st /\ fixups st' = fixups st /\ org st' = org st /\
  lines st' = lines st.
Proof.
  unfold pass1. destruct (pass1_loop _ _ _) as [[pc sy]|]; [|discriminate].
  intros [= <-]. auto.
Qed.

(** A resolution that succeeds has found every symbol. *)
Lemma resolve_ok_defined fx : forall st r,
  for_each resolve_fixup fx st = Ok r ->
  forall off name, (off, name) ∈ fx -> is_Some (sym st !! name).
Proof.
  induction fx as [|[off0 name0] fx IH]; intros st r H off name Hin;
    [inversion Hin|].
  cbn [for_each] in H. unfold bind in H.
  destruct (resolve_fixup (off0, name0) st) as [[[] st1]|] eqn:E; [|discriminate].
  assert (Hs : sym st1 = sym st /\ is_Some (sym st !! name0)).
  { unfold resolve_fixup in E. destruct (sym st !! name0) as [a|]; [|discriminate].
    destruct (_ && _); [|discriminate]. injection E as <-. eauto. }
  destruct Hs as [Hs Hd].
  apply elem_of_cons in Hin as [[= -> ->]|Hin]; [exact Hd|].
  rewrite <- Hs. eapply IH; eauto.
Qed.

(** ** Independence of the stored lines *)

Lemma frames_ret {A} (a : A) : frames (ret a).
Proof. intros s1 s2 H. simpl. auto. Qed.

Lemma frames_throw {A} what : frames (@throw A what).
Proof. intros s1 s2 H. reflexivity. Qed.

Lemma frames_undefined {A} what : frames (@undefined A what).
Proof. intros s1 s2 H. reflexivity. Qed.

Lemma frames_bind {A B} (m : asm A) (k : A -> asm B) :
  frames m -> (forall a, frames (k a)) -> frames (bind m k).
Proof.
  intros Hm Hk s1 s2 H. unfold bind. specialize (Hm s1 s2 H). unfold agree in Hm.
  destruct (m s1) as [[a1 t1]|e1], (m s2) as [[a2 t2]|e2]; try contradiction.
  - destruct Hm as [<- Ht]. now apply Hk.
  - exact Hm.
Qed.

Lemma frames_emit8 b : frames (emit8 b).
Proof.
  intros s1 s2 (H1 & H2 & H3 & H4). simpl. repeat split; simpl; congruence.
Qed.

Lemma frames_emit16 w : frames (emit16 w).
Proof. apply frames_bind; [apply frames_emit8|intros _; apply frames_emit8]. Qed.

Lemma frames_emit_fixup16 name : frames (emit_fixup16 name).
Proof.
  apply frames_bind; [|intros _; apply frames_emit16].
  intros s1 s2 (H1 & H2 & H3 & H4). simpl. repeat split; simpl; congruence.
Qed.

Lemma frames_reg_of tok : frames (reg_of tok).
Proof.
  unfold reg_of. destruct (parse_reg tok); [apply frames_ret|apply frames_throw].
Qed.

Lemma frames_part parts i : frames (part parts i).
Proof.
  unfold part. destruct (parts !! i); [apply frames_ret|apply frames_undefined].
Qed.

Lemma frames_for_each {A} (f : A -> asm unit) l :
  (forall a, frames (f a)) -> frames (for_each f l).
Proof.
  intros Hf. induction l as [|a l IH]; simpl; [apply frames_ret|].
  apply frames_bind; [apply Hf|intros _; exact IH].
Qed.

Lemma frames_pad_to pc : frames (pad_to pc).
Proof.
  intros s1 s2 (H1 & H2 & H3 & H4). rewrite !pad_to_run. simpl.
  repeat split; simpl; congruence.
Qed.

Lemma frames_resolve_fixup fx : frames (resolve_fixup fx).
Proof.
  intros s1 s2 (H1 & H2 & H3 & H4). unfold resolve_fixup. destruct fx as [off name].
  rewrite H1, H2. destruct (sym s2 !! name); [|reflexivity].
  destruct (_ && _); [|reflexivity]. simpl. repeat split; simpl; congruence.
Qed.

Lemma frames_emitRRI op rd rs1 imm3 : frames (emitRRI op rd rs1 imm3).
Proof. apply frames_emit16. Qed.

Lemma frames_emitR op rd rs1 : frames (emitR op rd rs1).
Proof. apply frames_emit16. Qed.

Lemma frames_emitRI8 op rd imm8 : frames (emitRI8 op rd imm8).
Proof. apply frames_emit16. Qed.

Lemma frames_emitW op rd : frames (emitW op rd).
Proof. apply frames_emit16. Qed.

Create HintDb frames.
#[global] Hint Resolve frames_ret frames_emit8 frames_emit16 frames_emit_fixup16
  frames_reg_of frames_part frames_pad_to frames_emitRRI frames_emitR
  frames_emitRI8 frames_emitW : frames.
#[global] Hint Extern 1 (frames (throw _)) => apply frames_throw : frames.
#[global] Hint Extern 1 (frames (undefined _)) => apply frames_undefined : frames.

Ltac frames_step :=
  match goal with
  | |- frames (bind _ _) => apply frames_bind; [|intros ?]
  | |- frames (if ?b then _ else _) => destruct b
  | |- frames (match ?x with _ => _ end) => destruct x
  | |- _ => solve [auto with frames]
  end.

Ltac frames_auto := repeat frames_step.

Lemma frames_emit_imm_or_fixup tok name : frames (emit_imm_or_fixup tok name).
Proof. unfold emit_imm_or_fixup. frames_auto. Qed.

Lemma frames_emit_addr tok what : frames (emit_addr tok what).
Proof. unfold emit_addr. frames_auto. Qed.

Lemma frames_emit_reg_reg op parts : frames (emit_reg_reg op parts).
Proof. unfold emit_reg_reg. frames_auto. Qed.

Lemma frames_emit_shift op what parts : frames (emit_shift op what parts).
Proof. unfold emit_shift. frames_auto. Qed.

Lemma frames_emit_reg_imm8 op what parts : frames (emit_reg_imm8 op what parts).
Proof. unfold emit_reg_imm8. frames_auto. Qed.

Lemma frames_emit_short st r addrTok what1 what2 :
  frames (emit_short st r addrTok what1 what2).
Proof. unfold emit_short. frames_auto. Qed.

#[global] Hint Resolve frames_emit_imm_or_fixup frames_emit_addr frames_emit_reg_reg
  frames_emit_shift frames_emit_reg_imm8 frames_emit_short : frames.

Lemma frames_encode_insn M parts : frames (encode_insn M parts).
Proof. unfold encode_insn. frames_auto. Qed.

Lemma frames_pass2_stmt s pc : frames (pass2_stmt s pc).
Proof.
  unfold pass2_stmt.
  destruct (Str.starts_with ".org" (lower s)); [frames_auto|].
  destruct (Str.starts_with ".word" (lower s)).
  { apply frames_bind; [|intros; apply frames_ret].
    apply frames_for_each. intros. apply frames_emit_imm_or_fixup. }
  destruct (Str.starts_with ".stringz" (lower s)).
  { apply frames_bind; [apply frames_for_each; intros; apply frames_emit8|].
    intros. frames_auto. }
  destruct (split_mnemonic s).
  apply frames_bind; [apply frames_encode_insn|intros; apply frames_ret].
Qed.

Lemma frames_pass2_line raw pc : frames (pass2_line raw pc).
Proof.
  intros s1 s2 H. rewrite pass2_line_stmt.
  destruct (statement_of raw); [now apply frames_pass2_stmt|now apply frames_ret].
Qed.

Lemma frames_pass2_loop ls : forall pc, frames (pass2_loop ls pc).
Proof.
  induction ls as [|raw ls IH]; intros pc; simpl; [apply frames_ret|].
  apply frames_bind; [apply frames_pass2_line|intros; apply IH].
Qed.

(** ** The origin and [.org] *)

Lemma assemble_lines_loops ls :
  assemble_lines ls =
  match pass1_loop ls 0 ∅ with
  | Err e => Err e
  | Ok (_, sy) =>
      match pass2_loop ls 0 (mkAssembler sy [] [] 0 ls) with
      | Err e => Err e
      | Ok (_, st) =>
          match for_each resolve_fixup (fixups st) st with
          | Ok (_, st') => Ok (bytes st', sym st')
          | Err e => Err e
          end
      end
  end.
Proof.
  unfold assemble_lines, bind, pass1. cbn [lines org sym].
  destruct (pass1_loop ls 0 ∅) as [[pc sy]|]; [|reflexivity].
  unfold pass2, bind. cbn [lines org set_bytes set_sym bytes fixups sym].
  destruct (pass2_loop ls 0 _) as [[pc2 st]|]; [|reflexivity].
  destruct (for_each resolve_fixup (fixups st) st) as [[[] st']|]; reflexivity.
Qed.

Lemma assemble_from_lines text :
  assemble text =
  match assemble_lines (getlines text) with
  | Ok (b, _) => Ok b
  | Err e => Err e
  end.
Proof.
  unfold assemble, assemble_lines, load.
  destruct ((pass1 ;;; pass2) _) as [[[] st]|]; reflexivity.
Qed.

Lemma pass1_line_org raw pc sy v :
  org_value raw = Some v -> label_of raw = None ->
  pass1_line raw pc sy = Ok (wrap16 v, sy).
Proof.
  unfold org_value. rewrite pass1_line_stmt. intros Hv ->. cbn zeta.
  destruct (statement_of raw) as [s|]; [|discriminate].
  destruct (Str.starts_with ".org" (lower s)) eqn:E; [|discriminate].
  unfold pass1_stmt. now rewrite E, Hv.
Qed.

(** What [pass2] does on an [.org] line when the origin is 0. *)
Lemma pass2_line_org_run raw pc st v :
  org_value raw = Some v -> org st = 0 ->
  pass2_line raw pc st =
  Ok (wrap16 v,
      set_bytes (bytes st ++
        replicate (Z.to_nat (wrap16 v - Z.of_nat (length (bytes st)))) 0) st).
Proof.
  intros Hv Ho. rewrite (pass2_line_org raw pc v Hv). unfold bind.
  rewrite pad_to_run, Ho, Z.sub_0_r.
  assert (Hw : wrap64 (wrap16 v) = wrap16 v).
  { pose proof (wrap16_u16 v) as H. unfold u16 in H. unfold wrap64.
    apply Z.mod_small. lia. }
  now rewrite Hw.
Qed.

Lemma agree_bind {A B} (r1 r2 : result (A * Assembler)) (k : A -> asm B) :
  agree r1 r2 -> (forall a, frames (k a)) ->
  agree (match r1 with Ok (a, s) => k a s | Err e => Err e end)
        (match r2 with Ok (a, s) => k a s | Err e => Err e end).
Proof.
  intros H Hk. unfold agree in H.
  destruct r1 as [[a1 s1]|e1], r2 as [[a2 s2]|e2]; try contradiction.
  - destruct H as [<- Hs]. now apply Hk.
  - exact H.
Qed.

Lemma agree_image {A} (r1 r2 : result (A * Assembler)) :
  agree r1 r2 ->
  match r1 with Ok (_, s) => Ok (bytes s, sym s) | Err e => Err e end =
  match r2 with Ok (_, s) => Ok (bytes s, sym s) | Err e => Err e end.
Proof.
  unfold agree. destruct r1 as [[a1 s1]|e1], r2 as [[a2 s2]|e2]; try contradiction.
  - intros [_ (H1 & H2 & _)]. now rewrite H1, H2.
  - now intros ->.
Qed.



Lemma pass2_org st st' : pass2 st = Ok (tt, st') -> org st' = org st.
Proof.
  unfold pass2, bind. cbn [lines org set_bytes].
  destruct (pass2_loop _ _ _) as [[pc t]|] eqn:E; [|discriminate].
  destruct (pass2_loop_grows _ _ _ _ _ E) as (_ & O & _). simpl in O.
  intros H. rewrite <- O. clear E O.
  revert H. generalize (fixups t) as fx. intros fx. revert t.
  induction fx as [|[off name] fx IH]; intros t; simpl.
  - now intros [= <-].
  - unfold bind, resolve_fixup at 1.
    destruct (sym t !! name); [|discriminate].
    destruct (_ && _); [|discriminate]. intros H. now rewrite (IH _ H).
Qed.

(** ** Comments *)

Lemma size_app a b : Str.size (a +:+ b) = (Str.size a + Str.size b)%nat.
Proof. induction a as [|c a IH]; simpl; [reflexivity|]. unfold Str.size in *. simpl. now rewrite IH. Qed.

Lemma take_app_size a b : Str.take (Str.size a) (a +:+ b) = a.
Proof. induction a as [|c a IH]; simpl; [reflexivity|]. unfold Str.size in *. simpl. now rewrite IH. Qed.

Lemma find_first c a b :
  Str.find c a = None -> Str.find c (a +:+ String c b) = Some (Str.size a).
Proof.
  induction a as [|d a IH]; simpl.
  - intros _. unfold ascii_eqb. now rewrite Ascii.eqb_refl.
  - destruct (ascii_eqb d c); [discriminate|].
    destruct (Str.find c a); [discriminate|]. intros _. now rewrite IH.
Qed.

Lemma strip_comment_cut a b :
  Str.find ";"%char a = None -> strip_comment (a +:+ String ";"%char b) = trim a.
Proof.
  intros H. unfold strip_comment. rewrite (find_first _ a b H).
  unfold Str.substr. cbn [Str.substr_from]. rewrite size_app.
  replace (Z.to_nat (Z.min (Z.of_nat (Str.size a))
                           (Z.of_nat (Str.size a + Str.size (String ";"%char b)))))
    with (Str.size a) by lia.
  now rewrite take_app_size.
Qed.

Lemma strip_comment_none a : Str.find ";"%char a = None -> strip_comment a = trim a.
Proof. intros H. unfold strip_comment. now rewrite H. Qed.

(** C3 (amended): the first [;] of a line starts the comment wherever it
    stands, inside a quoted string or not: a line [a;b] in which [a] has no
    [;] is stripped to the trimmed [a], and each pass treats it exactly as
    it treats the line [a]. *)
Theorem C3_comment_from_first_semicolon (a b : string) (pc : Z) (sy : gmap string Z) :
  Str.find ";"%char a = None ->
  strip_comment (a +:+ String ";"%char b) = trim a /\
  strip_comment a = trim a /\
  pass1_line (a +:+ String ";"%char b) pc sy = pass1_line a pc sy /\
  pass2_line (a +:+ String ";"%char b) pc = pass2_line a pc.
Proof.
  intros H. pose proof (strip_comment_cut a b H) as H1.
  pose proof (strip_comment_none a H) as H2.
  split; [exact H1|]. split; [exact H2|]. split.
  - unfold pass1_line. now rewrite H1, H2.
  - unfold pass2_line. now rewrite H1, H2.
Qed.

(** C3 (counterexample): in the line made of .stringz and the quoted
    string a;b the semicolon stands between the quotes, and still everything
    from it on is discarded: the line is stripped to .stringz, the opening
    quote and a, and assembles to the byte of a and the final zero, not to
    the bytes of a;b. *)
Lemma C3_counterexample_semicolon_in_string :
  strip_comment src_semicolon_in_string = ".stringz " +:+ String ch_dquote "a" /\
  assemble src_semicolon_in_string = Ok [97; 0] /\
  assemble src_semicolon_in_string <> Ok [97; 59; 98; 0].
Proof.
  split; [vm_compute; reflexivity|]. split; [vm_compute; reflexivity|].
  vm_compute. discriminate.
Qed.

(** C3 (witness): the line of the counterexample, cut at its
    semicolon. *)
Lemma C3_witness :
  strip_comment ((".stringz " +:+ String ch_dquote "a") +:+
                 String ";"%char ("b" +:+ String ch_dquote EmptyString))
    = ".stringz " +:+ String ch_dquote "a" /\
  pass2_line ((".stringz " +:+ String ch_dquote "a") +:+
              String ";"%char ("b" +:+ String ch_dquote EmptyString)) 0
    = pass2_line (".stringz " +:+ String ch_dquote "a") 0.
Proof.
  destruct (C3_comment_from_first_semicolon
              (".stringz " +:+ String ch_dquote "a")
              ("b" +:+ String ch_dquote EmptyString) 0 ∅) as (H1 & _ & _ & H4).
  - vm_compute. reflexivity.
  - split; [rewrite H1; vm_compute; reflexivity|exact H4].
Defined.

(** ** The embedding on whole programs

    The sources below are assembled by [assemble] and executed by [exec]:
    the image, the registers, the memory and the UART output are the ones
    the program produces. *)

Example call_ret_runs :
  exists c, run_source src_call_ret 10 = Ok c /\
            halted c = true /\ reg c 0 = 7 /\ reg c 7 = 0x7FFC.
Proof. eexists. split; [vm_compute; reflexivity|]. vm_compute. repeat split. Qed.

Example short_forms_run :
  exists c, run_source src_short_forms 10 = Ok c /\
            halted c = true /\ word_at c 0x2000 = 0x1234 /\ reg c 2 = 0x1234.
Proof. eexists. split; [vm_compute; reflexivity|]. vm_compute. repeat split. Qed.

Example branch_on_zero_runs :
  exists c, run_source src_branch_on_zero 10 = Ok c /\
            halted c = true /\ reg c 0 = 0.
Proof. eexists. split; [vm_compute; reflexivity|]. vm_compute. repeat split. Qed.

Example uart_runs :
  exists c, run_source src_hi 10 = Ok c /\
            halted c = true /\ uart_output c = [72; 105].
Proof. eexists. split; [vm_compute; reflexivity|]. vm_compute. repeat split. Qed.

(** The buffer of the Fibonacci example, after the 128 [NOP]s of the zero
    padding below 0x0100 and the ten rounds of the loop. *)
Example fibonacci_runs :
  exists c, run_source src_fib 300 = Ok c /\
            halted c = true /\
            map (fun i => word_at c (0x0122 + 2 * i)) (seqZ 0 10)
              = [0; 1; 1; 2; 3; 5; 8; 13; 21; 34].
Proof. eexists. split; [vm_compute; reflexivity|]. vm_compute. repeat split. Qed.

(** ** Bits of the fixed-width values *)

Lemma testbit_wrap16 x n : Z.testbit (wrap16 x) n = (n <? 16) && Z.testbit x n.
Proof. unfold wrap16. change 65536 with (2 ^ 16). apply Z.testbit_mod_pow2. lia. Qed.

Lemma testbit_wrap8 x n : Z.testbit (wrap8 x) n = (n <? 8) && Z.testbit x n.
Proof. unfold wrap8. change 256 with (2 ^ 8). apply Z.testbit_mod_pow2. lia. Qed.

Lemma testbit_FF n : 0 <= n -> Z.testbit 0xFF n = (n <? 8).
Proof. intros Hn. change 255 with (Z.ones 8). apply Z.testbit_ones_nonneg; lia. Qed.

Lemma testbit_FF00 n : 0 <= n -> Z.testbit 0xFF00 n = (8 <=? n) && (n <? 16).
Proof.
  intros Hn. change 0xFF00 with (Z.shiftl (Z.ones 8) 8).
  rewrite Z.shiftl_spec by lia.
  destruct (Z.leb_spec 8 n).
  - rewrite Z.testbit_ones_nonneg by lia. simpl.
    destruct (Z.ltb_spec (n - 8) 8), (Z.ltb_spec n 16); (reflexivity || lia).
  - now rewrite Z.testbit_neg_r by lia.
Qed.

Lemma testbit_u8_high v n : u8 v -> 8 <= n -> Z.testbit v n = false.
Proof.
  unfold u8. intros Hv Hn. rewrite <- (Z.mod_small v (2 ^ 8)) by (simpl; lia).
  apply Z.mod_pow2_bits_high. lia.
Qed.

(** Two bytes side by side: the bitwise word is the arithmetic one. *)
Lemma lor_shiftl_bytes lo hi : u8 lo -> Z.lor (Z.shiftl hi 8) lo = word_le lo hi.
Proof.
  intros Hlo. unfold word_le.
  assert (E : Z.land (Z.shiftl hi 8) lo = 0).
  { apply Z.bits_inj'. intros n Hn. rewrite Z.land_spec, Z.bits_0.
    destruct (Z.ltb_spec n 8).
    - now rewrite Z.shiftl_spec_low by lia.
    - rewrite (testbit_u8_high lo) by (assumption || lia). apply andb_false_r. }
  pose proof (Z.add_lor_land (Z.shiftl hi 8) lo) as H.
  rewrite E, Z.shiftl_mul_pow2 in H by lia.
  rewrite Z.shiftl_mul_pow2 by lia. change (2 ^ 8) with 256 in *. lia.
Qed.

Lemma word_le_u16 lo hi : u8 lo -> u8 hi -> u16 (word_le lo hi).
Proof. unfold u8, u16, word_le. lia. Qed.

Lemma word_le_bytes v : u16 v -> word_le (v mod 256) (v / 256) = v.
Proof. unfold word_le. intros _. pose proof (Z.div_mod v 256). lia. Qed.

Lemma div_256_u8 v : u16 v -> u8 (v / 256).
Proof.
  unfold u8, u16. intros Hv. split; [apply Z.div_pos; lia|].
  apply Z.div_lt_upper_bound; lia.
Qed.

Lemma mod_256_u8 v : u8 (v mod 256).
Proof. unfold u8. apply Z.mod_pos_bound. lia. Qed.

(** The byte that replaces the low or the high half of a 16-bit register,
    as [mmio_write] does for the timer and its compare value. *)
Lemma replace_low_byte t b :
  u8 b -> wrap16 (Z.lor (Z.land t 0xFF00) b) = word_le b (t / 256 mod 256).
Proof.
  intros Hb. rewrite <- lor_shiftl_bytes by assumption.
  apply Z.bits_inj'. intros n Hn.
  rewrite testbit_wrap16, !Z.lor_spec, Z.land_spec, testbit_FF00 by lia.
  destruct (Z.ltb_spec n 16), (Z.leb_spec 8 n); simpl.
  - rewrite Z.shiftl_spec by lia. change 256 with (2 ^ 8).
    rewrite Z.testbit_mod_pow2, <- Z.shiftr_div_pow2, Z.shiftr_spec by lia.
    replace (n - 8 + 8) with n by lia.
    replace (n - 8 <? 8) with true by (symmetry; apply Z.ltb_lt; lia).
    now rewrite andb_true_r.
  - rewrite Z.shiftl_spec_low by lia. now rewrite andb_false_r.
  - rewrite Z.shiftl_spec by lia. change 256 with (2 ^ 8).
    rewrite Z.testbit_mod_pow2 by lia.
    replace (n - 8 <? 8) with false by (symmetry; apply Z.ltb_ge; lia).
    rewrite (testbit_u8_high b) by (assumption || lia). reflexivity.
  - lia.
Qed.

Lemma replace_high_byte t b :
  u8 b -> wrap16 (Z.lor (Z.land t 0x00FF) (Z.shiftl b 8)) = word_le (t mod 256) b.
Proof.
  intros Hb. rewrite <- lor_shiftl_bytes by apply mod_256_u8.
  apply Z.bits_inj'. intros n Hn.
  rewrite testbit_wrap16, !Z.lor_spec, Z.land_spec, testbit_FF by lia.
  change 256 with (2 ^ 8). rewrite Z.testbit_mod_pow2 by lia.
  destruct (Z.ltb_spec n 16), (Z.ltb_spec n 8); simpl;
    rewrite ?andb_true_r, ?andb_false_r, ?orb_false_r; try lia.
  - apply orb_comm.
  - reflexivity.
  - rewrite Z.shiftl_spec by lia. symmetry. apply testbit_u8_high; [assumption|lia].
Qed.

(** A property that a computation confirms for every number below [n]. *)
Lemma forall_range (P : Z -> bool) (n : Z) :
  forallb P (seqZ 0 n) = true -> forall s, 0 <= s < n -> P s = true.
Proof.
  intros H s Hs. rewrite forallb_forall in H. apply H.
  apply list_elem_of_In, elem_of_seqZ. lia.
Qed.

Lemma forall_range_from (P : Z -> bool) (lo n : Z) :
  forallb P (seqZ lo n) = true -> forall s, lo <= s < lo + n -> P s = true.
Proof.
  intros H s Hs. rewrite forallb_forall in H. apply H.
  apply list_elem_of_In, elem_of_seqZ. lia.
Qed.

(** ** The memory device: RAM below 0xFF00, registers above *)

Lemma write8_ram m a v :
  a < 0xFF00 -> write8 m a v = set_mem a v (log (EvWrite a v) m).
Proof.
  intros Ha. unfold write8.
  now replace (0xFF00 <=? a) with false by (symmetry; apply Z.leb_gt; lia).
Qed.

Lemma write8_mmio m a v :
  0xFF00 <= a -> write8 m a v = mmio_write (log (EvWrite a v) m) a v.
Proof.
  intros Ha. unfold write8.
  now replace (0xFF00 <=? a) with true by (symmetry; apply Z.leb_le; lia).
Qed.

Lemma read8_ram m a : a < 0xFF00 -> read8 m a = (cell m a, log (EvRead a) m).
Proof.
  intros Ha. unfold read8.
  now replace (0xFF00 <=? a) with false by (symmetry; apply Z.leb_gt; lia).
Qed.

Lemma read8_mmio m a :
  0xFF00 <= a -> read8 m a = (mmio_read m a, log (EvRead a) m).
Proof.
  intros Ha. unfold read8.
  now replace (0xFF00 <=? a) with true by (symmetry; apply Z.leb_le; lia).
Qed.

Lemma cell_set_mem m a v b :
  cell (set_mem a v m) b = if decide (a = b) then v else cell m b.
Proof. unfold cell, set_mem; simpl. rewrite lookup_insert. now case_decide. Qed.

Lemma cell_log e m a : cell (log e m) a = cell m a.
Proof. reflexivity. Qed.

Ltac cells := repeat (rewrite cell_log || rewrite cell_set_mem).

(** The six addresses that [mmio_write] has a case for, and the rest. *)
Ltac mmio_cases a :=
  destruct (Z.eq_dec a 0xFF00) as [->|?];
  [|destruct (Z.eq_dec a 0xFF10) as [->|?];
    [|destruct (Z.eq_dec a 0xFF11) as [->|?];
      [|destruct (Z.eq_dec a 0xFF12) as [->|?];
        [|destruct (Z.eq_dec a 0xFF13) as [->|?];
          [|destruct (Z.eq_dec a 0xFF14) as [->|?];
            [|rewrite ?mmio_write_other by assumption]]]]]].

Lemma mem_mmio_write m a v : mem (mmio_write m a v) = mem m.
Proof. mmio_cases a; try reflexivity. simpl. now destruct (v =? 1). Qed.

Lemma trace_write8 m a v :
  trace (write8 m a v) =
    (if a =? 0xFF00 then [EvUart v] else []) ++ EvWrite a v :: trace m.
Proof.
  unfold write8. destruct (0xFF00 <=? a) eqn:E.
  - mmio_cases a; try reflexivity.
    + simpl. now destruct (v =? 1).
    + replace (a =? 0xFF00) with false by (symmetry; apply Z.eqb_neq; lia).
      reflexivity.
  - apply Z.leb_gt in E.
    replace (a =? 0xFF00) with false by (symmetry; apply Z.eqb_neq; lia).
    reflexivity.
Qed.

Lemma write16_ram m a v :
  0 <= a <= 0xFEFE ->
  write16 m a v =
    set_mem (a + 1) (v / 256 mod 256)
      (log (EvWrite (a + 1) (v / 256 mod 256))
         (set_mem a (v mod 256) (log (EvWrite a (v mod 256)) m))).
Proof.
  intros Ha. unfold write16.
  replace (wrap16 (a + 1)) with (a + 1)
    by (symmetry; apply wrap16_id; unfold u16; lia).
  rewrite lo_byte, hi_byte.
  rewrite (write8_ram m a) by lia. now rewrite write8_ram by lia.
Qed.

Lemma write16_ram_other m a v b :
  0 <= a <= 0xFEFE -> b <> a -> b <> a + 1 -> cell (write16 m a v) b = cell m b.
Proof.
  intros Ha N0 N1. rewrite write16_ram by exact Ha. cells.
  repeat case_decide; lia || reflexivity.
Qed.

(** X1: a 16-bit store to RAM followed by a 16-bit load from the same
    address gives the stored value back.  The store changes the two cells
    it names and no other, leaves the timer, its compare value and the
    interrupt flag alone, and prints nothing. *)
Theorem ram_word_round_trip (m : Memory) (a v : Z) :
  0 <= a <= 0xFEFE -> u16 v ->
  fst (read16 (write16 m a v) a) = v /\
  cell (write16 m a v) a = v mod 256 /\
  cell (write16 m a v) (a + 1) = v / 256 /\
  (forall b, b <> a -> b <> a + 1 -> cell (write16 m a v) b = cell m b) /\
  timer (write16 m a v) = timer m /\
  timercmp (write16 m a v) = timercmp m /\
  irq_pending (write16 m a v) = irq_pending m /\
  trace (write16 m a v) =
    [EvWrite (a + 1) (v / 256); EvWrite a (v mod 256)] ++ trace m.
Proof.
  intros Ha Hv.
  assert (Hhi : wrap8 (Z.land (Z.shiftr v 8) 0xFF) = v / 256).
  { rewrite hi_byte. apply Z.mod_small. apply div_256_u8. exact Hv. }
  destruct (cells_write16_ram m a v Ha) as [C0 C1].
  rewrite lo_byte in C0. rewrite Hhi in C1.
  split; [|split; [exact C0|split; [exact C1|]]].
  - rewrite read16_ram by exact Ha. rewrite C0, C1.
    rewrite lor_shiftl_bytes by apply mod_256_u8.
    rewrite word_le_bytes by exact Hv. now apply wrap16_id.
  - split; [intros b N0 N1; now apply write16_ram_other|].
    rewrite write16_ram by exact Ha.
    rewrite (Z.mod_small (v / 256)) by (apply div_256_u8; exact Hv).
    repeat split.
Qed.

Lemma ram_word_round_trip_witness :
  fst (read16 (write16 fresh_Memory 0x2000 0x1234) 0x2000) = 0x1234 /\
  cell (write16 fresh_Memory 0x2000 0x1234) 0x2000 = 0x34.
Proof.
  destruct (ram_word_round_trip fresh_Memory 0x2000 0x1234) as (H1 & H2 & _).
  - lia.
  - unfold u16. lia.
  - split; [exact H1|exact H2].
Defined.

(** X2: at the two addresses where a word does not fit, a 16-bit store
    does not come back.  At 0xFEFF the low byte goes to the last cell of
    RAM and the high byte to the UART, which prints it; the load gives the
    low byte alone.  At 0xFFFF the low byte is dropped by the unmapped
    address and the high byte wraps around to address 0. *)
Theorem word_store_at_the_top_of_memory (m : Memory) (v : Z) :
  u16 v ->
  (cell (write16 m 0xFEFF v) 0xFEFF = v mod 256 /\
   trace (write16 m 0xFEFF v) =
     [EvUart (v / 256); EvWrite 0xFF00 (v / 256); EvWrite 0xFEFF (v mod 256)]
       ++ trace m /\
   fst (read16 (write16 m 0xFEFF v) 0xFEFF) = v mod 256) /\
  (cell (write16 m 0xFFFF v) 0 = v / 256 /\
   trace (write16 m 0xFFFF v) =
     [EvWrite 0 (v / 256); EvWrite 0xFFFF (v mod 256)] ++ trace m /\
   fst (read16 (write16 m 0xFFFF v) 0xFFFF) = v / 256 * 256).
Proof.
  intros Hv.
  assert (Hhi : wrap8 (Z.land (Z.shiftr v 8) 0xFF) = v / 256).
  { rewrite hi_byte. apply Z.mod_small. apply div_256_u8. exact Hv. }
  pose proof (div_256_u8 v Hv) as Hd. pose proof (mod_256_u8 v) as Hm.
  unfold write16, read16. rewrite lo_byte, Hhi.
  change (wrap16 (0xFEFF + 1)) with 0xFF00. change (wrap16 (0xFFFF + 1)) with 0.
  split.
  - rewrite (write8_ram m 0xFEFF) by lia. rewrite write8_mmio by lia.
    rewrite read8_ram by lia. rewrite read8_mmio by lia.
    cbn [fst snd mmio_write mmio_read]. cells.
    case_decide; [|lia].
    repeat split. change (Z.shiftl 0 8) with 0. rewrite Z.lor_0_l.
    apply wrap16_id. now apply u8_u16.
  - rewrite (write8_mmio m 0xFFFF) by lia.
    rewrite mmio_write_other by lia. rewrite write8_ram by lia.
    rewrite read8_mmio by lia. rewrite read8_ram by lia.
    cbn [fst snd]. cells. case_decide; [|lia].
    repeat split. change (mmio_read _ 65535) with 0. rewrite Z.lor_0_r.
    rewrite Z.shiftl_mul_pow2 by lia. apply wrap16_id.
    unfold u8 in Hd. unfold u16. change (2 ^ 8) with 256. lia.
Qed.

Lemma word_store_at_the_top_of_memory_witness :
  fst (read16 (write16 fresh_Memory 0xFEFF 0x1234) 0xFEFF) = 0x34 /\
  fst (read16 (write16 fresh_Memory 0xFFFF 0x1234) 0xFFFF) = 0x1200.
Proof.
  destruct (word_store_at_the_top_of_memory fresh_Memory 0x1234)
    as [(_ & _ & H1) (_ & _ & H2)].
  - unfold u16. lia.
  - split; [exact H1|exact H2].
Defined.

Lemma word_le_mod lo hi : u8 lo -> word_le lo hi mod 256 = lo.
Proof.
  unfold u8, word_le. intros H. rewrite Z.add_comm, Z.mod_add by lia.
  now apply Z.mod_small.
Qed.

Lemma word_le_div lo hi : u8 lo -> word_le lo hi / 256 = hi.
Proof.
  unfold u8, word_le. intros H. rewrite Z.add_comm, Z.div_add by lia.
  rewrite Z.div_small by lia. reflexivity.
Qed.

(** The bytes at 0xFF10 and 0xFF11 (or 0xFF12 and 0xFF13) read as a word. *)
Lemma read16_register t :
  u16 t ->
  wrap16 (Z.lor (Z.shiftl (wrap8 (Z.land (Z.shiftr t 8) 0xFF)) 8)
                (wrap8 (Z.land t 0xFF))) = t.
Proof. apply word_of_bytes. Qed.

Lemma write16_timer m v :
  u16 v ->
  timer (write16 m 0xFF10 v) = v /\
  timercmp (write16 m 0xFF10 v) = timercmp m /\
  timercmp (write16 m 0xFF12 v) = v /\
  timer (write16 m 0xFF12 v) = timer m.
Proof.
  intros Hv.
  assert (Hhi : wrap8 (Z.land (Z.shiftr v 8) 0xFF) = v / 256).
  { rewrite hi_byte. apply Z.mod_small. apply div_256_u8. exact Hv. }
  pose proof (div_256_u8 v Hv) as Hd. pose proof (mod_256_u8 v) as Hm.
  unfold write16. rewrite lo_byte, Hhi.
  change (wrap16 (0xFF10 + 1)) with 0xFF11. change (wrap16 (0xFF12 + 1)) with 0xFF13.
  rewrite !(write8_mmio _ _ _) by lia.
  cbn [mmio_write log set_timer set_timercmp timer timercmp].
  rewrite !replace_low_byte by assumption.
  rewrite !replace_high_byte by assumption.
  rewrite !word_le_mod by assumption.
  rewrite word_le_bytes by assumption. repeat split.
Qed.

(** X3: the timer and its compare value are 16-bit registers behind two
    byte addresses each.  A 16-bit store to 0xFF10 sets the timer to the
    stored value and a 16-bit load reads it back; 0xFF12 does the same for
    the compare value; neither store touches the other register.  A single
    byte written to one half keeps the other half. *)
Theorem timer_registers_round_trip (m : Memory) (v : Z) :
  u16 v ->
  (timer (write16 m 0xFF10 v) = v /\
   fst (read16 (write16 m 0xFF10 v) 0xFF10) = v /\
   timercmp (write16 m 0xFF10 v) = timercmp m) /\
  (timercmp (write16 m 0xFF12 v) = v /\
   fst (read16 (write16 m 0xFF12 v) 0xFF12) = v /\
   timer (write16 m 0xFF12 v) = timer m) /\
  (forall b, u8 b ->
     timer (write8 m 0xFF10 b) = timer m / 256 mod 256 * 256 + b /\
     timer (write8 m 0xFF11 b) = b * 256 + timer m mod 256 /\
     timercmp (write8 m 0xFF12 b) = timercmp m / 256 mod 256 * 256 + b /\
     timercmp (write8 m 0xFF13 b) = b * 256 + timercmp m mod 256).
Proof.
  intros Hv. destruct (write16_timer m v Hv) as (T1 & T2 & T3 & T4).
  split; [|split].
  - split; [exact T1|split; [|exact T2]].
    unfold read16. rewrite read8_mmio by lia.
    change (wrap16 (0xFF10 + 1)) with 0xFF11. rewrite read8_mmio by lia.
    cbn [fst snd mmio_read log timer]. rewrite T1. now apply read16_register.
  - split; [exact T3|split; [|exact T4]].
    unfold read16. rewrite read8_mmio by lia.
    change (wrap16 (0xFF12 + 1)) with 0xFF13. rewrite read8_mmio by lia.
    cbn [fst snd mmio_read log timercmp]. rewrite T3. now apply read16_register.
  - intros b Hb. rewrite !write8_mmio by lia.
    cbn [mmio_write log set_timer set_timercmp timer timercmp].
    rewrite !replace_low_byte, !replace_high_byte by assumption.
    unfold word_le. repeat split.
Qed.

Lemma timer_registers_round_trip_witness :
  timer (write16 fresh_Memory 0xFF10 0x1234) = 0x1234 /\
  fst (read16 (write16 fresh_Memory 0xFF12 0x1234) 0xFF12) = 0x1234 /\
  timer (write8 mem_sample 0xFF10 0xFF) = 0x01FF.
Proof.
  assert (H16 : u16 0x1234) by (unfold u16; lia).
  assert (H0 : u16 0) by (unfold u16; lia).
  assert (H8 : u8 0xFF) by (unfold u8; lia).
  destruct (timer_registers_round_trip fresh_Memory 0x1234 H16)
    as ((H1 & _) & (_ & H2 & _) & _).
  destruct (timer_registers_round_trip mem_sample 0 H0) as (_ & _ & H).
  destruct (H 0xFF H8) as (H3 & _).
  split; [exact H1|split; [exact H2|exact H3]].
Defined.

(** X4: the device registers and the RAM do not overlap.  A byte written
    at 0xFF00 or above never reaches the memory array; a byte written below
    0xFF00 changes one cell and neither the timer, the compare value nor the
    interrupt flag.  A write prints a character exactly when its address is
    0xFF00, and then the byte written.  A read changes nothing.  The
    interrupt flag reads as 0 or 1 at 0xFF14, a write of the byte 1 to
    0xFF14 clears it, and every other write -- another value, or another
    address -- leaves it as it is: no write raises it. *)
Theorem device_and_ram_are_separate (m : Memory) (a v : Z) :
  (0xFF00 <= a -> mem (write8 m a v) = mem m) /\
  (a < 0xFF00 ->
     cell (write8 m a v) a = v /\
     (forall b, b <> a -> cell (write8 m a v) b = cell m b) /\
     timer (write8 m a v) = timer m /\
     timercmp (write8 m a v) = timercmp m /\
     irq_pending (write8 m a v) = irq_pending m) /\
  trace (write8 m a v) =
    (if a =? 0xFF00 then [EvUart v] else []) ++ EvWrite a v :: trace m /\
  (mem (snd (read8 m a)) = mem m /\
   timer (snd (read8 m a)) = timer m /\
   timercmp (snd (read8 m a)) = timercmp m /\
   irq_pending (snd (read8 m a)) = irq_pending m /\
   trace (snd (read8 m a)) = EvRead a :: trace m) /\
  fst (read8 m 0xFF14) = (if irq_pending m then 1 else 0) /\
  irq_pending (write8 m 0xFF14 1) = false /\
  (~ (a = 0xFF14 /\ v = 1) -> irq_pending (write8 m a v) = irq_pending m).
Proof.
  split; [|split; [|split; [|split; [|split; [|split]]]]].
  - intros Ha. rewrite write8_mmio by exact Ha. now rewrite mem_mmio_write.
  - intros Ha. rewrite write8_ram by exact Ha. repeat split.
    + cells. now case_decide.
    + intros b Hb. cells. case_decide; [congruence|reflexivity].
  - apply trace_write8.
  - unfold read8. destruct (0xFF00 <=? a); repeat split.
  - reflexivity.
  - reflexivity.
  - intros Hav. unfold write8. destruct (0xFF00 <=? a); [|reflexivity].
    mmio_cases a; try reflexivity.
    simpl. destruct (Z.eqb_spec v 1); [|reflexivity]. exfalso. apply Hav. now split.
Qed.

(** ** The flags of [add16] and [sub16] *)

(** [(x >> k) & 1], read as a flag, is bit [k] of [x]. *)
Lemma to_bool_bit x k : 0 <= k -> to_bool (Z.land (Z.shiftr x k) 1) = Z.testbit x k.
Proof.
  intros Hk. unfold to_bool.
  change 1 with (Z.ones 1). rewrite Z.land_ones by lia.
  rewrite Z.shiftr_div_pow2 by lia. change (2 ^ 1) with 2.
  pose proof (Z.testbit_spec' x k Hk) as H. rewrite <- H.
  now destruct (Z.testbit x k).
Qed.

Lemma testbit_15 x : u16 x -> Z.testbit x 15 = (32768 <=? x).
Proof.
  unfold u16. intros Hx.
  pose proof (Z.testbit_spec' x 15 ltac:(lia)) as H. change (2 ^ 15) with 32768 in H.
  destruct (Z.leb_spec 32768 x).
  - replace (x / 32768) with 1 in H by (apply Z.div_unique with (x - 32768); lia).
    now destruct (Z.testbit x 15).
  - rewrite Z.div_small in H by lia. now destruct (Z.testbit x 15).
Qed.

Lemma to_bool_sign x : u16 x -> to_bool (Z.land x 0x8000) = (32768 <=? x).
Proof.
  intros Hx. rewrite <- testbit_15 by exact Hx.
  replace (Z.land x 0x8000) with (Z.shiftl (Z.land (Z.shiftr x 15) 1) 15).
  - rewrite <- to_bool_bit by lia. unfold to_bool.
    rewrite Z.shiftl_mul_pow2 by lia.
    destruct (Z.eqb_spec (Z.land (Z.shiftr x 15) 1) 0) as [->|N]; [reflexivity|].
    destruct (Z.eqb_spec (Z.land (Z.shiftr x 15) 1 * 2 ^ 15) 0); [lia|reflexivity].
  - apply Z.bits_inj'. intros n Hn.
    rewrite Z.land_spec. change 0x8000 with (Z.shiftl 1 15).
    destruct (Z.ltb_spec n 15).
    + rewrite !Z.shiftl_spec_low by lia. now rewrite andb_false_r.
    + rewrite !Z.shiftl_spec by lia. rewrite Z.land_spec, Z.shiftr_spec by lia.
      replace (n - 15 + 15) with n by lia. reflexivity.
Qed.

(** The fields [add16] and [sub16] leave alone. *)
Lemma add16_frame a b c :
  R (snd (add16 a b c)) = R c /\ PC (snd (add16 a b c)) = PC c /\
  cmem (snd (add16 a b c)) = cmem c /\ halted (snd (add16 a b c)) = halted c.
Proof. repeat split. Qed.

Lemma sub16_frame a b c :
  R (snd (sub16 a b c)) = R c /\ PC (snd (sub16 a b c)) = PC c /\
  cmem (snd (sub16 a b c)) = cmem c /\ halted (snd (sub16 a b c)) = halted c.
Proof. repeat split. Qed.

Lemma add16_result a b c : u16 a -> u16 b -> fst (add16 a b c) = wrap16 (a + b).
Proof.
  unfold u16. intros Ha Hb. unfold add16, wrap32; cbn [fst].
  now rewrite Z.mod_small by lia.
Qed.

Lemma add16_V a b c :
  u16 a -> u16 b ->
  VF (snd (add16 a b c)) =
    negb (xorb (32768 <=? a) (32768 <=? b)) &&
    xorb (32768 <=? a) (32768 <=? wrap16 (a + b)).
Proof.
  intros Ha Hb. pose proof (add16_result a b c Ha Hb) as Hr.
  unfold add16 in *. cbn [fst snd VF setZN set_ZN set_V] in *. rewrite Hr.
  rewrite to_bool_bit by lia.
  rewrite Z.land_spec, Z.lnot_spec, !Z.lxor_spec by lia.
  rewrite !testbit_15 by (assumption || apply wrap16_u16). reflexivity.
Qed.

Lemma sub16_V a b c :
  u16 a -> u16 b ->
  VF (snd (sub16 a b c)) =
    xorb (32768 <=? a) (32768 <=? b) &&
    xorb (32768 <=? a) (32768 <=? wrap16 (a - b)).
Proof.
  intros Ha Hb. pose proof (sub16_result a b c Ha Hb) as Hr.
  unfold sub16 in *. cbn [fst snd VF setZN set_ZN set_V] in *. rewrite Hr.
  rewrite to_bool_bit by lia.
  rewrite Z.land_spec, !Z.lxor_spec.
  rewrite !testbit_15 by (assumption || apply wrap16_u16). reflexivity.
Qed.

Lemma setZN_flags res c :
  u16 res ->
  ZF (setZN res c) = (res =? 0) /\ NF (setZN res c) = (32768 <=? res).
Proof. intros H. unfold setZN; cbn [ZF NF set_ZN]. now rewrite to_bool_sign. Qed.

Lemma add16_C a b c :
  u16 a -> u16 b -> CF (snd (add16 a b c)) = (65536 <=? a + b).
Proof.
  intros Ha Hb. rewrite add16_carry_is_bit16 by assumption. unfold u16 in *.
  pose proof (Z.testbit_spec' (a + b) 16 ltac:(lia)) as H.
  change (2 ^ 16) with 65536 in H.
  destruct (Z.leb_spec 65536 (a + b)).
  - replace ((a + b) / 65536) with 1 in H
      by (apply Z.div_unique with (a + b - 65536); lia).
    now destruct (Z.testbit (a + b) 16).
  - rewrite Z.div_small in H by lia. now destruct (Z.testbit (a + b) 16).
Qed.

Lemma add16_ZN a b c :
  u16 a -> u16 b ->
  ZF (snd (add16 a b c)) = (wrap16 (a + b) =? 0) /\
  NF (snd (add16 a b c)) = (32768 <=? wrap16 (a + b)).
Proof.
  intros Ha Hb. pose proof (add16_result a b c Ha Hb) as Hr.
  rewrite <- Hr. unfold add16; cbn [fst snd]. apply setZN_flags.
  unfold add16 in Hr; cbn [fst] in Hr. rewrite Hr. apply wrap16_u16.
Qed.

Lemma sub16_ZN a b c :
  u16 a -> u16 b ->
  ZF (snd (sub16 a b c)) = (wrap16 (a - b) =? 0) /\
  NF (snd (sub16 a b c)) = (32768 <=? wrap16 (a - b)).
Proof.
  intros Ha Hb. pose proof (sub16_result a b c Ha Hb) as Hr.
  rewrite <- Hr. unfold sub16; cbn [fst snd]. apply setZN_flags.
  unfold sub16 in Hr; cbn [fst] in Hr. rewrite Hr. apply wrap16_u16.
Qed.

Lemma wrap16_sub_zero a b : u16 a -> u16 b -> (wrap16 (a - b) =? 0) = (a =? b).
Proof.
  unfold u16, wrap16. intros Ha Hb.
  destruct (Z.eqb_spec a b) as [->|N].
  - now rewrite Z.sub_diag.
  - apply Z.eqb_neq. intros H. apply Z.mod_divide in H; [|lia].
    destruct H as [k Hk]. lia.
Qed.

Ltac flag_cases :=
  repeat match goal with
         | |- context [Z.leb ?x ?y] => destruct (Z.leb_spec x y)
         | |- context [Z.ltb ?x ?y] => destruct (Z.ltb_spec x y)
         | |- context [Z.eqb ?x ?y] => destruct (Z.eqb_spec x y)
         end.

Lemma add16_spec (a b : Z) (c : CPU) :
  u16 a -> u16 b ->
  fst (add16 a b c) = (a + b) mod 65536 /\
  (CF (snd (add16 a b c)) = true <-> 65536 <= a + b) /\
  (ZF (snd (add16 a b c)) = true <-> (a + b) mod 65536 = 0) /\
  (NF (snd (add16 a b c)) = true <-> to_int16 ((a + b) mod 65536) < 0) /\
  (VF (snd (add16 a b c)) = true <->
     to_int16 a + to_int16 b < -32768 \/ 32767 < to_int16 a + to_int16 b) /\
  R (snd (add16 a b c)) = R c /\ PC (snd (add16 a b c)) = PC c /\
  cmem (snd (add16 a b c)) = cmem c.
Proof.
  intros Ha Hb.
  pose proof (add16_result a b c Ha Hb) as Hr.
  pose proof (add16_V a b c Ha Hb) as HV.
  pose proof (add16_C a b c Ha Hb) as HC.
  destruct (add16_ZN a b c Ha Hb) as [HZ HN].
  rewrite Hr, HC, HZ, HN, HV. clear Hr HC HZ HN HV.
  unfold u16 in *. unfold wrap16.
  assert (Hm : (a + b) mod 65536 = a + b \/ (a + b) mod 65536 = a + b - 65536).
  { destruct (Z.lt_ge_cases (a + b) 65536).
    - left. apply Z.mod_small. lia.
    - right. symmetry. apply Z.mod_unique with 1; lia. }
  pose proof (Z.mod_pos_bound (a + b) 65536 ltac:(lia)) as Hb16.
  set (r := (a + b) mod 65536) in *. clearbody r.
  unfold to_int16.
  repeat split; try reflexivity; flag_cases; simpl; intros;
    try discriminate; try reflexivity; try lia.
Qed.

Lemma sub16_spec (a b : Z) (c : CPU) :
  u16 a -> u16 b ->
  fst (sub16 a b c) = (a - b) mod 65536 /\
  (CF (snd (sub16 a b c)) = true <-> a < b) /\
  (ZF (snd (sub16 a b c)) = true <-> a = b) /\
  (NF (snd (sub16 a b c)) = true <-> to_int16 ((a - b) mod 65536) < 0) /\
  (VF (snd (sub16 a b c)) = true <->
     to_int16 a - to_int16 b < -32768 \/ 32767 < to_int16 a - to_int16 b) /\
  R (snd (sub16 a b c)) = R c /\ PC (snd (sub16 a b c)) = PC c /\
  cmem (snd (sub16 a b c)) = cmem c.
Proof.
  intros Ha Hb.
  pose proof (sub16_result a b c Ha Hb) as Hr.
  pose proof (sub16_V a b c Ha Hb) as HV.
  pose proof (sub16_carry_is_borrow a b c Ha Hb) as HC.
  destruct (sub16_ZN a b c Ha Hb) as [HZ HN].
  rewrite Hr, HC, HZ, HN, HV. clear Hr HC HZ HN HV.
  unfold u16 in *. unfold wrap16.
  assert (Hm : (a - b) mod 65536 = a - b \/ (a - b) mod 65536 = a - b + 65536).
  { destruct (Z.lt_ge_cases (a - b) 0).
    - right. symmetry. apply Z.mod_unique with (-1); lia.
    - left. apply Z.mod_small. lia. }
  pose proof (Z.mod_pos_bound (a - b) 65536 ltac:(lia)) as Hb16.
  set (r := (a - b) mod 65536) in *. clearbody r.
  unfold to_int16.
  repeat split; try reflexivity; flag_cases; simpl; intros;
    try discriminate; try reflexivity; try lia.
Qed.

(** X5: [add16] and [sub16] on two 16-bit operands.  The result is the
    sum, or the difference, modulo 2^16.  After [add16] C is the carry out
    of bit 15; after [sub16] C is set exactly when the subtraction borrows,
    that is when the first operand is below the second.  Z says that the
    result is zero (after [sub16]: that the operands are equal); N that the
    result is negative as a signed 16-bit number; V that the sum, or the
    difference, of the operands read as signed 16-bit numbers does not fit
    in 16 bits.  Registers, PC and memory are left alone. *)
Theorem add16_and_sub16_flags (a b : Z) (c : CPU) :
  u16 a -> u16 b ->
  (fst (add16 a b c) = (a + b) mod 65536 /\
   (CF (snd (add16 a b c)) = true <-> 65536 <= a + b) /\
   (ZF (snd (add16 a b c)) = true <-> (a + b) mod 65536 = 0) /\
   (NF (snd (add16 a b c)) = true <-> to_int16 ((a + b) mod 65536) < 0) /\
   (VF (snd (add16 a b c)) = true <->
      to_int16 a + to_int16 b < -32768 \/ 32767 < to_int16 a + to_int16 b) /\
   R (snd (add16 a b c)) = R c /\ PC (snd (add16 a b c)) = PC c /\
   cmem (snd (add16 a b c)) = cmem c) /\
  (fst (sub16 a b c) = (a - b) mod 65536 /\
   (CF (snd (sub16 a b c)) = true <-> a < b) /\
   (ZF (snd (sub16 a b c)) = true <-> a = b) /\
   (NF (snd (sub16 a b c)) = true <-> to_int16 ((a - b) mod 65536) < 0) /\
   (VF (snd (sub16 a b c)) = true <->
      to_int16 a - to_int16 b < -32768 \/ 32767 < to_int16 a - to_int16 b) /\
   R (snd (sub16 a b c)) = R c /\ PC (snd (sub16 a b c)) = PC c /\
   cmem (snd (sub16 a b c)) = cmem c).
Proof.
  intros Ha Hb. split; [now apply add16_spec|now apply sub16_spec].
Qed.

Lemma add16_and_sub16_flags_witness :
  fst (add16 0x7FFF 1 (new_CPU fresh_Memory)) = 0x8000 /\
  (VF (snd (add16 0x7FFF 1 (new_CPU fresh_Memory))) = true <->
     to_int16 0x7FFF + to_int16 1 < -32768 \/ 32767 < to_int16 0x7FFF + to_int16 1) /\
  fst (sub16 0x7FFF 1 (new_CPU fresh_Memory)) = 0x7FFE /\
  (CF (snd (sub16 0x7FFF 1 (new_CPU fresh_Memory))) = true <-> 0x7FFF < 1).
Proof.
  assert (Ha : u16 0x7FFF) by (unfold u16; lia).
  assert (Hb : u16 1) by (unfold u16; lia).
  destruct (add16_and_sub16_flags 0x7FFF 1 (new_CPU fresh_Memory) Ha Hb)
    as ((H1 & _ & _ & _ & H5 & _) & (H6 & H7 & _)).
  split; [exact H1|split; [exact H5|split; [exact H6|exact H7]]].
Defined.

(** ** What single instructions do *)

Lemma exec_decode c :
  halted c = false ->
  exec c =
    let insn := fst (fetch16 c) in
    let d := dispatch insn (opcode_of insn) (rd_of insn) (rs1_of insn)
                      (imm3_of insn) (simm8_of insn) (snd (fetch16 c)) in
    set_cmem (tick (cmem d)) d.
Proof.
  intros H. unfold exec, exec_insn. rewrite H.
  destruct (fetch16 c) as [insn c1]. reflexivity.
Qed.

Lemma fetch16_flags c :
  ZF (snd (fetch16 c)) = ZF c /\ NF (snd (fetch16 c)) = NF c /\
  CF (snd (fetch16 c)) = CF c /\ VF (snd (fetch16 c)) = VF c.
Proof. unfold fetch16. destruct (read16 _ _). repeat split. Qed.

Lemma wrap16_add_2_2 pc : wrap16 (wrap16 (pc + 2) + 2) = wrap16 (pc + 4).
Proof.
  unfold wrap16. rewrite Z.add_mod_idemp_l by lia. f_equal. lia.
Qed.

(** The state behind the two fetches of a two-word instruction. *)
Lemma fetch16_twice c :
  let c2 := snd (fetch16 (snd (fetch16 c))) in
  mem (cmem c2) = mem (cmem c) /\ R c2 = R c /\ PC c2 = wrap16 (PC c + 4) /\
  halted c2 = halted c /\
  ZF c2 = ZF c /\ NF c2 = NF c /\ CF c2 = CF c /\ VF c2 = VF c.
Proof.
  cbv zeta.
  destruct (fetch16_fields c) as (M1 & R1 & P1 & H1).
  destruct (fetch16_flags c) as (Z1 & N1 & C1 & V1).
  destruct (fetch16_fields (snd (fetch16 c))) as (M2 & R2 & P2 & H2).
  destruct (fetch16_flags (snd (fetch16 c))) as (Z2 & N2 & C2 & V2).
  rewrite P1, wrap16_add_2_2 in P2.
  repeat split; congruence.
Qed.

(** X6: the five jumps.  JMP always, and JZ, JNZ, JC and JN when their
    flag says so, continue at the operand word; otherwise execution goes on
    behind the two words of the instruction.  No jump changes a register, a
    flag or a memory cell. *)
Theorem jumps_follow_their_flag (c : CPU) :
  halted c = false ->
  0x15 <= opcode_of (fst (fetch16 c)) <= 0x19 ->
  PC (exec c) =
    (if jump_taken (opcode_of (fst (fetch16 c))) c
     then operand_of c else (PC c + 4) mod 65536) /\
  R (exec c) = R c /\
  ZF (exec c) = ZF c /\ NF (exec c) = NF c /\
  CF (exec c) = CF c /\ VF (exec c) = VF c /\
  mem (cmem (exec c)) = mem (cmem c) /\
  halted (exec c) = false.
Proof.
  intros Hrun Hop. rewrite exec_decode by exact Hrun. cbv zeta.
  destruct (fetch16_twice c) as (M2 & R2 & P2 & H2 & Z2 & N2 & C2 & V2).
  cbv zeta in *. unfold operand_of. unfold wrap16 in P2.
  destruct (fetch16 c) as [insn c1]. cbn [fst snd] in *.
  remember (opcode_of insn) as op eqn:Eop.
  assert (Hcases : op = 0x15 \/ op = 0x16 \/ op = 0x17 \/ op = 0x18 \/ op = 0x19)
    by lia.
  clear Hop Eop.
  destruct Hcases as [->|[->|[->|[->| ->]]]];
    cbn [dispatch jump_taken]; unfold jump_if;
    destruct (fetch16 c1) as [a c2]; cbn [fst snd] in *;
    rewrite ?Z2, ?N2, ?C2, ?V2;
    repeat match goal with
           | |- context [if ?b then _ else _] => destruct b
           end;
    cbn [PC R ZF NF CF VF cmem halted set_PC set_cmem negb];
    rewrite ?mem_tick; repeat split; congruence.
Qed.

Lemma jumps_follow_their_flag_witness :
  PC (exec (cpu_at 0xA800 0x0010 regs_init)) = 0x0010 /\
  PC (exec (cpu_at 0xB000 0x0010 regs_init)) = 4.
Proof.
  destruct (jumps_follow_their_flag (cpu_at 0xA800 0x0010 regs_init))
    as (H1 & _); [reflexivity|vm_compute; split; discriminate|].
  destruct (jumps_follow_their_flag (cpu_at 0xB000 0x0010 regs_init))
    as (H2 & _); [reflexivity|vm_compute; split; discriminate|].
  split; [exact H1|exact H2].
Defined.

(** *** Registers *)

Lemma rd_of_bound insn : 0 <= rd_of insn < 8.
Proof. apply land_7_bound. Qed.

Lemma rs1_of_bound insn : 0 <= rs1_of insn < 8.
Proof. apply land_7_bound. Qed.

Lemma imm3_of_bound insn : 0 <= imm3_of insn < 8.
Proof. apply land_7_bound. Qed.

Lemma reg_set_reg c i v j :
  length (R c) = 8%nat -> 0 <= i < 8 -> 0 <= j ->
  reg (set_reg i v c) j = if decide (i = j) then v else reg c j.
Proof.
  intros HL Hi Hj. unfold reg, set_reg; cbn [R set_R].
  case_decide as E.
  - subst j. rewrite list_lookup_insert_eq by lia. reflexivity.
  - rewrite list_lookup_insert_ne by lia. reflexivity.
Qed.

Lemma reg_same_R c c' i : R c' = R c -> reg c' i = reg c i.
Proof. unfold reg. now intros ->. Qed.

Lemma length_R_set_reg c i v : length (R (set_reg i v c)) = length (R c).
Proof. unfold set_reg; cbn [R set_R]. apply length_insert. Qed.

Lemma shiftl_mod r sh : 0 <= sh -> wrap16 (Z.shiftl r sh) = (r * 2 ^ sh) mod 65536.
Proof. intros H. unfold wrap16. now rewrite Z.shiftl_mul_pow2. Qed.

Lemma shiftr_div r sh : u16 r -> 0 <= sh -> wrap16 (Z.shiftr r sh) = r / 2 ^ sh.
Proof.
  unfold u16. intros Hr H. rewrite Z.shiftr_div_pow2 by lia. apply wrap16_id.
  unfold u16. split; [apply Z.div_pos; lia|].
  apply Z.le_lt_trans with r; [|lia].
  apply Z.div_le_upper_bound; [lia|]. 
  assert (1 <= 2 ^ sh) by (apply (Z.pow_le_mono_r 2 0 sh); lia). nia.
Qed.

(** Unfolds the updates of the CPU record down to its fields. *)
Ltac cpu_simpl :=
  unfold reg, load_reg, clearCV, setZN, set_reg, set_cmem, set_R, set_PC,
    set_ZN, set_C, set_V, set_halted;
  cbn [cmem R PC ZF NF CF VF halted].

(** The state in which a one-word instruction is dispatched. *)
Lemma fetch16_once c :
  let c1 := snd (fetch16 c) in
  mem (cmem c1) = mem (cmem c) /\ R c1 = R c /\ PC c1 = wrap16 (PC c + 2) /\
  halted c1 = halted c /\
  ZF c1 = ZF c /\ NF c1 = NF c /\ CF c1 = CF c /\ VF c1 = VF c.
Proof.
  cbv zeta.
  destruct (fetch16_fields c) as (M1 & R1 & P1 & H1).
  destruct (fetch16_flags c) as (Z1 & N1 & C1 & V1).
  repeat split; assumption.
Qed.

(** X7: the shifts.  SHL rd, n gives R[rd] * 2^n modulo 2^16 and SHR rd, n
    gives R[rd] / 2^n, for n from 0 to 7; C receives the last bit shifted
    out (bit 16 - n for SHL, bit n - 1 for SHR) and is cleared when n is 0;
    V is cleared, Z and N describe the result, and no other register and no
    memory cell changes. *)
Theorem shifts_move_bits_through_carry (c : CPU) :
  wf_CPU c -> halted c = false ->
  opcode_of (fst (fetch16 c)) = 0x0A \/ opcode_of (fst (fetch16 c)) = 0x0B ->
  let insn := fst (fetch16 c) in
  let rd := rd_of insn in
  let n := imm3_of insn in
  0 <= n <= 7 /\
  reg (exec c) rd =
    (if opcode_of insn =? 0x0A then (reg c rd * 2 ^ n) mod 65536
     else reg c rd / 2 ^ n) /\
  CF (exec c) =
    (0 <? n) && Z.testbit (reg c rd) (if opcode_of insn =? 0x0A then 16 - n else n - 1) /\
  VF (exec c) = false /\
  ZF (exec c) = (reg (exec c) rd =? 0) /\
  NF (exec c) = (32768 <=? reg (exec c) rd) /\
  (forall j, 0 <= j -> j <> rd -> reg (exec c) j = reg c j) /\
  PC (exec c) = (PC c + 2) mod 65536 /\
  mem (cmem (exec c)) = mem (cmem c).
Proof.
  intros Hwf Hrun Hop. cbv zeta.
  rewrite exec_decode by exact Hrun. cbv zeta.
  destruct (fetch16_once c) as (M1 & R1 & P1 & _). cbv zeta in *.
  pose proof Hwf as (_ & HL & _ & _).
  set (insn := fst (fetch16 c)) in *.
  set (c1 := snd (fetch16 c)) in *.
  pose proof (rd_of_bound insn) as Hrd. pose proof (imm3_of_bound insn) as Hn.
  assert (HL1 : length (R c1) = 8%nat) by congruence.
  assert (Hr : forall j, reg c1 j = reg c j) by (intros j; now apply reg_same_R).
  pose proof (reg_u16 c (rd_of insn) Hwf) as Hu.
  assert (Hsh : Z.land (imm3_of insn) 7 = imm3_of insn).
  { unfold imm3_of. rewrite <- Z.land_assoc. reflexivity. }
  split; [lia|].
  assert (Hne : forall (v : Z) j, 0 <= j -> j <> rd_of insn ->
            default 0 (<[Z.to_nat (rd_of insn) := v]> (R c) !! Z.to_nat j)
            = default 0 (R c !! Z.to_nat j)).
  { intros v j Hj Hjr. rewrite list_lookup_insert_ne by lia. reflexivity. }
  assert (Heq : forall v : Z,
            default 0 (<[Z.to_nat (rd_of insn) := v]> (R c) !! Z.to_nat (rd_of insn)) = v).
  { intros v. rewrite list_lookup_insert_eq by lia. reflexivity. }
  unfold u16 in Hu. unfold reg in Hu |- *.
  destruct Hop as [Hop|Hop]; rewrite Hop; cbn [dispatch Z.eqb Pos.eqb]; rewrite Hsh;
    unfold to_bool;
    (destruct (Z.eqb_spec (imm3_of insn) 0) as [E0|N0]; cbn [negb];
     [rewrite E0; replace (0 <? 0) with false by reflexivity
     |replace (0 <? imm3_of insn) with true by (symmetry; apply Z.ltb_lt; lia)];
     cbn [andb]; cpu_simpl; rewrite ?mem_tick, ?R1, ?Heq;
     fold (to_bool (Z.land (Z.shiftr (default 0 (R c !! Z.to_nat (rd_of insn)))
                                     (16 - imm3_of insn)) 1));
     fold (to_bool (Z.land (Z.shiftr (default 0 (R c !! Z.to_nat (rd_of insn)))
                                     (imm3_of insn - 1)) 1));
     rewrite ?to_bool_bit by lia;
     set (r := default 0 (R c !! Z.to_nat (rd_of insn))) in *).
  - rewrite Z.mul_1_r, Z.mod_small by exact Hu.
    rewrite (to_bool_sign r) by exact Hu. repeat split; assumption.
  - rewrite shiftl_mod by lia.
    rewrite (to_bool_sign ((r * 2 ^ imm3_of insn) mod 65536)) by apply wrap16_u16.
    repeat split; try assumption. intros j Hj Hjr. now apply Hne.
  - change (2 ^ 0) with 1. rewrite Z.div_1_r.
    rewrite (to_bool_sign r) by exact Hu. repeat split; assumption.
  - rewrite shiftr_div by (exact Hu || lia).
    assert (Hq : u16 (r / 2 ^ imm3_of insn)).
    { rewrite <- shiftr_div by (exact Hu || lia). apply wrap16_u16. }
    rewrite (to_bool_sign (r / 2 ^ imm3_of insn)) by exact Hq.
    repeat split; try assumption. intros j Hj Hjr. now apply Hne.
Qed.

Lemma wf_cpu_at w w2 regs :
  u16 w -> u16 w2 -> length regs = 8%nat -> Forall u16 regs ->
  wf_CPU (cpu_at w w2 regs).
Proof.
  intros Hw Hw2 HL HR. apply wf_cpu_with; try assumption; [|unfold u16; lia].
  repeat constructor; (apply mod_256_u8 || now apply div_256_u8).
Qed.

Lemma wf_regs_init : length regs_init = 8%nat /\ Forall u16 regs_init.
Proof. split; [reflexivity|]. repeat constructor; unfold u16; lia. Qed.

Lemma shifts_move_bits_through_carry_witness :
  reg (exec (cpu_at 0x5103 0 [0; 0x3001; 0; 0; 0; 0; 0; 0x7FFC])) 1 = 0x8008 /\
  CF (exec (cpu_at 0x5103 0 [0; 0x3001; 0; 0; 0; 0; 0; 0x7FFC])) = true.
Proof.
  assert (Hwf : wf_CPU (cpu_at 0x5103 0 [0; 0x3001; 0; 0; 0; 0; 0; 0x7FFC])).
  { apply wf_cpu_at; [unfold u16; lia|unfold u16; lia|reflexivity|].
    repeat constructor; unfold u16; lia. }
  destruct (shifts_move_bits_through_carry _ Hwf) as (_ & H1 & H2 & _);
    [reflexivity|left; reflexivity|].
  split; [exact H1|exact H2].
Defined.

Lemma simm8_of_bound insn : -128 <= simm8_of insn <= 127.
Proof.
  unfold simm8_of, imm8_of, sext8. pose proof (land_FF_u8 insn) as H.
  unfold u8 in H. destruct (Z.ltb_spec (Z.land insn 255) 128); lia.
Qed.

Lemma wrap16_add_wrap16 a k : wrap16 (a + wrap16 k) = (a + k) mod 65536.
Proof. unfold wrap16. now rewrite Z.add_mod_idemp_r by lia. Qed.

Lemma wrap16_sub_wrap16 a k : wrap16 (a - wrap16 k) = (a - k) mod 65536.
Proof. unfold wrap16. now rewrite Zminus_mod_idemp_r. Qed.

(** X8: ADD rd, rs adds R[rs] to R[rd]; ADDI rd, imm8 adds the immediate,
    which is a signed byte from -128 to 127: the new R[rd] is the sum
    modulo 2^16.  Z and N describe the result, C is the carry of the
    unsigned addition (of R[rd] and the 16-bit pattern of the second
    operand), and V is set exactly when the sum of the two operands, read
    as signed numbers, does not fit in 16 bits.  No other register and no
    memory cell changes, and the PC moves on by one word. *)
Theorem add_and_addi (c : CPU) :
  wf_CPU c -> halted c = false ->
  opcode_of (fst (fetch16 c)) = 0x04 \/ opcode_of (fst (fetch16 c)) = 0x0C ->
  let insn := fst (fetch16 c) in
  let rd := rd_of insn in
  let b := if opcode_of insn =? 0x04 then reg c (rs1_of insn) else simm8_of insn in
  let sb := if opcode_of insn =? 0x04 then to_int16 (reg c (rs1_of insn))
            else simm8_of insn in
  -128 <= simm8_of insn <= 127 /\
  reg (exec c) rd = (reg c rd + b) mod 65536 /\
  ZF (exec c) = (reg (exec c) rd =? 0) /\
  NF (exec c) = (32768 <=? reg (exec c) rd) /\
  CF (exec c) = (65536 <=? reg c rd + b mod 65536) /\
  (VF (exec c) = true <->
     to_int16 (reg c rd) + sb < -32768 \/ 32767 < to_int16 (reg c rd) + sb) /\
  (forall j, 0 <= j -> j <> rd -> reg (exec c) j = reg c j) /\
  PC (exec c) = (PC c + 2) mod 65536 /\
  mem (cmem (exec c)) = mem (cmem c).
Proof.
  intros Hwf Hrun Hop. cbv zeta.
  split; [apply simm8_of_bound|].
  rewrite exec_decode by exact Hrun. cbv zeta.
  destruct (fetch16_once c) as (M1 & R1 & P1 & _). cbv zeta in *.
  pose proof Hwf as (_ & HL & _ & _).
  set (insn := fst (fetch16 c)) in *.
  set (c1 := snd (fetch16 c)) in *.
  pose proof (rd_of_bound insn) as Hrd.
  assert (Hr : forall j, reg c1 j = reg c j) by (intros j; now apply reg_same_R).
  pose proof (reg_u16 c (rd_of insn) Hwf) as Hu.
  pose proof (reg_u16 c (rs1_of insn) Hwf) as Hs.
  set (B := if opcode_of insn =? 0x04 then reg c (rs1_of insn)
            else wrap16 (simm8_of insn)).
  assert (HB : u16 B).
  { unfold B. destruct (opcode_of insn =? 4); [exact Hs|apply wrap16_u16]. }
  assert (HD : dispatch insn (opcode_of insn) (rd_of insn) (rs1_of insn)
                 (imm3_of insn) (simm8_of insn) c1
               = set_reg (rd_of insn) (fst (add16 (reg c (rd_of insn)) B c1))
                         (snd (add16 (reg c (rd_of insn)) B c1))).
  { unfold B. destruct Hop as [Hop|Hop]; rewrite Hop; cbn [dispatch Z.eqb Pos.eqb];
      rewrite !Hr; now destruct (add16 _ _ c1). }
  rewrite HD. clear HD.
  pose proof (add16_result (reg c (rd_of insn)) B c1 Hu HB) as Hres.
  pose proof (add16_C (reg c (rd_of insn)) B c1 Hu HB) as HC.
  destruct (add16_ZN (reg c (rd_of insn)) B c1 Hu HB) as [HZ HN].
  destruct (add16_frame (reg c (rd_of insn)) B c1) as (FR & FP & FM & _).
  destruct (add16_spec (reg c (rd_of insn)) B c1 Hu HB) as (_ & _ & _ & _ & HV & _).
  assert (HsB : to_int16 B =
                if opcode_of insn =? 4 then to_int16 (reg c (rs1_of insn))
                else simm8_of insn).
  { unfold B. destruct (opcode_of insn =? 4); [reflexivity|].
    pose proof (simm8_of_bound insn) as Hi. unfold to_int16, wrap16.
    destruct (Z.le_gt_cases 0 (simm8_of insn)).
    - rewrite Z.mod_small by lia.
      destruct (Z.ltb_spec (simm8_of insn) 32768); lia.
    - replace (simm8_of insn mod 65536) with (simm8_of insn + 65536)
        by (apply Z.mod_unique with (-1); lia).
      destruct (Z.ltb_spec (simm8_of insn + 65536) 32768); lia. }
  rewrite HsB in HV.
  destruct (add16 (reg c (rd_of insn)) B c1) as [r c2]. cbn [fst snd] in *.
  assert (HBm : B mod 65536 =
                (if opcode_of insn =? 4 then reg c (rs1_of insn)
                 else simm8_of insn) mod 65536).
  { unfold B. destruct (opcode_of insn =? 4); [reflexivity|].
    unfold wrap16. apply Z.mod_mod. lia. }
  assert (Hsum : r = (reg c (rd_of insn) +
                      (if opcode_of insn =? 4 then reg c (rs1_of insn)
                       else simm8_of insn)) mod 65536).
  { rewrite Hres. unfold wrap16.
    rewrite <- (Z.add_mod_idemp_r _ B), HBm, Z.add_mod_idemp_r by lia. reflexivity. }
  assert (Hreg : reg (set_cmem (tick (cmem (set_reg (rd_of insn) r c2)))
                               (set_reg (rd_of insn) r c2)) (rd_of insn) = r).
  { change (reg (set_reg (rd_of insn) r c2) (rd_of insn) = r).
    apply reg_set_reg_eq. rewrite FR, R1, HL. lia. }
  rewrite Hreg.
  split; [exact Hsum|]. rewrite <- Hres in HZ, HN.
  split; [exact HZ|]. split; [exact HN|].
  split.
  { change (CF c2 = (65536 <=? reg c (rd_of insn) +
              (if opcode_of insn =? 4 then reg c (rs1_of insn)
               else simm8_of insn) mod 65536)).
    rewrite HC, <- HBm. f_equal. f_equal. symmetry. now apply Z.mod_small. }
  split; [exact HV|].
  split.
  - intros j Hj Hjr.
    change (reg (set_reg (rd_of insn) r c2) j = reg c j).
    rewrite reg_set_reg by (rewrite ?FR, ?R1; assumption || lia).
    case_decide; [lia|]. rewrite <- Hr. apply reg_same_R. exact FR.
  - cpu_simpl. rewrite mem_tick, FP, FM. split; assumption.
Qed.

Lemma add_and_addi_witness :
  reg (exec (cpu_at 0x6201 0 [0; 0; 0x7FFF; 0; 0; 0; 0; 0x7FFC])) 2 = 0x8000 /\
  CF (exec (cpu_at 0x6201 0 [0; 0; 0x7FFF; 0; 0; 0; 0; 0x7FFC])) = false /\
  VF (exec (cpu_at 0x6201 0 [0; 0; 0x7FFF; 0; 0; 0; 0; 0x7FFC])) = true.
Proof.
  assert (Hwf : wf_CPU (cpu_at 0x6201 0 [0; 0; 0x7FFF; 0; 0; 0; 0; 0x7FFC])).
  { apply wf_cpu_at; [unfold u16; lia|unfold u16; lia|reflexivity|].
    repeat constructor; unfold u16; lia. }
  destruct (add_and_addi _ Hwf) as (_ & H1 & _ & _ & H2 & H3 & _);
    [reflexivity|right; reflexivity|].
  split; [exact H1|split; [exact H2|]].
  apply H3. right. vm_compute. reflexivity.
Defined.

(** X9: SUB rd, rs, CMP rd, rs and CMPI rd, imm8 subtract the second
    operand (for CMPI the 16-bit pattern of the signed byte) from R[rd]:
    Z is set exactly when the two are equal and C exactly when R[rd] is the
    smaller one as an unsigned number.  SUB stores the difference modulo
    2^16 in R[rd]; CMP and CMPI change no register at all. *)
Theorem sub_cmp_and_cmpi (c : CPU) :
  wf_CPU c -> halted c = false ->
  opcode_of (fst (fetch16 c)) = 0x05 \/ opcode_of (fst (fetch16 c)) = 0x0D \/
  opcode_of (fst (fetch16 c)) = 0x0E ->
  let insn := fst (fetch16 c) in
  let rd := rd_of insn in
  let b := if opcode_of insn =? 0x0D then simm8_of insn mod 65536
           else reg c (rs1_of insn) in
  (ZF (exec c) = true <-> reg c rd = b) /\
  (CF (exec c) = true <-> reg c rd < b) /\
  NF (exec c) = (32768 <=? (reg c rd - b) mod 65536) /\
  (if opcode_of insn =? 0x05
   then reg (exec c) rd = (reg c rd - b) mod 65536 /\
        forall j, 0 <= j -> j <> rd -> reg (exec c) j = reg c j
   else R (exec c) = R c) /\
  PC (exec c) = (PC c + 2) mod 65536 /\
  mem (cmem (exec c)) = mem (cmem c).
Proof.
  intros Hwf Hrun Hop. cbv zeta.
  rewrite exec_decode by exact Hrun. cbv zeta.
  destruct (fetch16_once c) as (M1 & R1 & P1 & _). cbv zeta in *.
  pose proof Hwf as (_ & HL & _ & _).
  set (insn := fst (fetch16 c)) in *.
  set (c1 := snd (fetch16 c)) in *.
  pose proof (rd_of_bound insn) as Hrd.
  assert (Hr : forall j, reg c1 j = reg c j) by (intros j; now apply reg_same_R).
  pose proof (reg_u16 c (rd_of insn) Hwf) as Hu.
  pose proof (reg_u16 c (rs1_of insn) Hwf) as Hs.
  set (B := if opcode_of insn =? 0x0D then simm8_of insn mod 65536
            else reg c (rs1_of insn)).
  assert (HB : u16 B).
  { unfold B. destruct (opcode_of insn =? 13); [apply wrap16_u16|exact Hs]. }
  set (s := sub16 (reg c (rd_of insn)) B c1).
  assert (HD : dispatch insn (opcode_of insn) (rd_of insn) (rs1_of insn)
                 (imm3_of insn) (simm8_of insn) c1
               = if opcode_of insn =? 0x05
                 then set_reg (rd_of insn) (fst s) (snd s) else snd s).
  { unfold s, B. destruct Hop as [Hop|[Hop|Hop]]; rewrite Hop;
      cbn [dispatch Z.eqb Pos.eqb]; rewrite !Hr;
      fold (wrap16 (simm8_of insn)); now destruct (sub16 _ _ c1). }
  rewrite HD. clear HD.
  pose proof (sub16_result (reg c (rd_of insn)) B c1 Hu HB) as Hres.
  pose proof (sub16_carry_is_borrow (reg c (rd_of insn)) B c1 Hu HB) as HC.
  destruct (sub16_ZN (reg c (rd_of insn)) B c1 Hu HB) as [HZ HN].
  destruct (sub16_frame (reg c (rd_of insn)) B c1) as (FR & FP & FM & _).
  rewrite wrap16_sub_zero in HZ by assumption.
  fold s in Hres, HC, HZ, HN, FR, FP, FM.
  destruct s as [r c2]. cbn [fst snd] in *.
  assert (Hflags : forall d : CPU,
            d = (if opcode_of insn =? 5 then set_reg (rd_of insn) r c2 else c2) ->
            ZF (set_cmem (tick (cmem d)) d) = ZF c2 /\
            CF (set_cmem (tick (cmem d)) d) = CF c2 /\
            NF (set_cmem (tick (cmem d)) d) = NF c2 /\
            PC (set_cmem (tick (cmem d)) d) = PC c2 /\
            mem (cmem (set_cmem (tick (cmem d)) d)) = mem (cmem c2)).
  { intros d ->. destruct (opcode_of insn =? 5); cpu_simpl; rewrite mem_tick;
      repeat split. }
  destruct (Hflags _ eq_refl) as (EZ & EC & EN & EP & EM).
  rewrite EZ, EC, EN, EP, EM, HZ, HC, HN. clear Hflags EZ EC EN EP EM.
  split; [apply Z.eqb_eq|]. split; [apply Z.ltb_lt|]. split; [reflexivity|].
  split; [|rewrite FP, FM; split; assumption].
  destruct (opcode_of insn =? 5).
  - split.
    + change (reg (set_reg (rd_of insn) r c2) (rd_of insn) = (reg c (rd_of insn) - B) mod 65536).
      rewrite reg_set_reg_eq by (rewrite FR, R1, HL; lia). exact Hres.
    + intros j Hj Hjr.
      change (reg (set_reg (rd_of insn) r c2) j = reg c j).
      rewrite reg_set_reg by (rewrite ?FR, ?R1; assumption || lia).
      case_decide; [lia|]. rewrite <- Hr. apply reg_same_R. exact FR.
  - cpu_simpl. congruence.
Qed.

Lemma sub_cmp_and_cmpi_witness :
  (ZF (exec (cpu_at 0x6A05 0 [0; 0; 5; 0; 0; 0; 0; 0x7FFC])) = true <-> 5 = 5) /\
  R (exec (cpu_at 0x6A05 0 [0; 0; 5; 0; 0; 0; 0; 0x7FFC])) =
    [0; 0; 5; 0; 0; 0; 0; 0x7FFC].
Proof.
  assert (Hwf : wf_CPU (cpu_at 0x6A05 0 [0; 0; 5; 0; 0; 0; 0; 0x7FFC])).
  { apply wf_cpu_at; [unfold u16; lia|unfold u16; lia|reflexivity|].
    repeat constructor; unfold u16; lia. }
  destruct (sub_cmp_and_cmpi _ Hwf) as (H1 & _ & _ & H2 & _);
    [reflexivity|right; left; reflexivity|].
  split; [exact H1|exact H2].
Defined.

(** *** Loads and stores *)

Lemma simm5_of_bound insn : -16 <= simm5_of insn <= 15.
Proof.
  unfold simm5_of. pose proof (land_1F_bound insn) as H.
  set (s := Z.land insn 31) in *. clearbody s.
  pose proof (forall_range
    (fun s => Bool.eqb (to_bool (Z.land s 16)) (16 <=? s)) 32 eq_refl s H) as E.
  apply Bool.eqb_prop in E. rewrite E.
  destruct (Z.leb_spec 16 s); lia.
Qed.

Lemma cell_same_mem m m' a : mem m' = mem m -> cell m' a = cell m a.
Proof. unfold cell. now intros ->. Qed.

Lemma word_at_u16 c a : wf_Memory (cmem c) -> u16 (word_at c a).
Proof.
  intros Hm. unfold word_at. rewrite lor_shiftl_bytes by now apply cell_u8.
  apply word_le_u16; now apply cell_u8.
Qed.

Lemma read16_word_at c m a :
  wf_Memory (cmem c) -> mem m = mem (cmem c) -> 0 <= a <= 0xFEFE ->
  fst (read16 m a) = word_at c a.
Proof.
  intros Hm E Ha. rewrite read16_ram by exact Ha.
  rewrite !(cell_same_mem (cmem c) m) by exact E.
  apply wrap16_id. now apply word_at_u16.
Qed.

(** X10: the short forms LD rd, [rb+d] and ST rs, [rb+d].  The
    displacement d is a signed five-bit number from -16 to 15, and the
    address is R[rb] + d modulo 2^16.  When the two bytes at the address lie
    in RAM, LD sets R[rd] to the word stored there, sets Z and N by that
    word and clears C and V, and changes no other register and no memory
    cell; ST stores R[rs] there, low byte first, and changes no other cell,
    no register and no flag. *)
Theorem short_load_and_store (c : CPU) :
  wf_CPU c -> halted c = false ->
  opcode_of (fst (fetch16 c)) = 0x13 \/ opcode_of (fst (fetch16 c)) = 0x14 ->
  let insn := fst (fetch16 c) in
  let d := simm5_of insn in
  let base := if opcode_of insn =? 0x13 then reg c (rs1_of insn)
              else reg c (rd_of insn) in
  let addr := (base + d) mod 65536 in
  -16 <= d <= 15 /\
  PC (exec c) = (PC c + 2) mod 65536 /\
  (addr <= 0xFEFE ->
   if opcode_of insn =? 0x13
   then reg (exec c) (rd_of insn) = word_at c addr /\
        (forall j, 0 <= j -> j <> rd_of insn -> reg (exec c) j = reg c j) /\
        mem (cmem (exec c)) = mem (cmem c) /\
        ZF (exec c) = (word_at c addr =? 0) /\
        NF (exec c) = (32768 <=? word_at c addr) /\
        CF (exec c) = false /\ VF (exec c) = false
   else word_at (exec c) addr = reg c (rs1_of insn) /\
        (forall b, b <> addr -> b <> addr + 1 ->
           cell (cmem (exec c)) b = cell (cmem c) b) /\
        R (exec c) = R c /\
        ZF (exec c) = ZF c /\ NF (exec c) = NF c /\
        CF (exec c) = CF c /\ VF (exec c) = VF c).
Proof.
  intros Hwf Hrun Hop. cbv zeta.
  split; [apply simm5_of_bound|].
  rewrite exec_decode by exact Hrun. cbv zeta.
  destruct (fetch16_once c) as (M1 & R1 & P1 & _ & FZ & FN & FC & FV). cbv zeta in *.
  pose proof Hwf as (Hm & HL & _ & _).
  set (insn := fst (fetch16 c)) in *.
  set (c1 := snd (fetch16 c)) in *.
  pose proof (rd_of_bound insn) as Hrd.
  assert (Hr : forall j, reg c1 j = reg c j) by (intros j; now apply reg_same_R).
  destruct Hop as [Hop|Hop]; rewrite Hop; cbn [dispatch Z.eqb Pos.eqb]; rewrite !Hr;
    fold (wrap16 (reg c (rs1_of insn) + simm5_of insn));
    fold (wrap16 (reg c (rd_of insn) + simm5_of insn)).
  - set (addr := wrap16 (reg c (rs1_of insn) + simm5_of insn)).
    pose proof (wrap16_u16 (reg c (rs1_of insn) + simm5_of insn)) as Ha.
    fold addr in Ha. unfold u16 in Ha.
    pose proof (read16_word_at c (cmem c1) addr Hm M1) as Hw.
    pose proof (mem_read16 (cmem c1) addr) as Hmem.
    destruct (read16 (cmem c1) addr) as [v m]. cbn [fst snd] in *.
    split; [cpu_simpl; exact P1|].
    intros Hram. rewrite Hw by lia.
    assert (Hset : reg (set_reg (rd_of insn) (word_at c addr) (set_cmem m c1))
                       (rd_of insn) = word_at c addr).
    { apply reg_set_reg_eq. cbn [set_cmem R]. rewrite R1, HL. lia. }
    split; [|split; [|split; [|split; [|split; [|split]]]]].
    + change (reg (set_reg (rd_of insn) (word_at c addr) c1) (rd_of insn)
              = word_at c addr).
      apply reg_set_reg_eq. rewrite R1, HL. lia.
    + intros j Hj Hjr.
      change (reg (set_reg (rd_of insn) (word_at c addr) c1) j = reg c j).
      rewrite reg_set_reg by (rewrite ?R1; assumption || lia).
      case_decide; [lia|]. apply Hr.
    + cpu_simpl. rewrite mem_tick. congruence.
    + unfold load_reg. cbv zeta. rewrite Hset. reflexivity.
    + unfold load_reg. cbv zeta. rewrite Hset.
      change (to_bool (Z.land (word_at c addr) 0x8000) = (32768 <=? word_at c addr)).
      apply to_bool_sign. now apply word_at_u16.
    + reflexivity.
    + reflexivity.
  - set (addr := wrap16 (reg c (rd_of insn) + simm5_of insn)).
    pose proof (wrap16_u16 (reg c (rd_of insn) + simm5_of insn)) as Ha.
    fold addr in Ha. unfold u16 in Ha.
    split; [cpu_simpl; exact P1|].
    intros Hram. split; [|split; [|split; [|repeat split; assumption]]].
    + unfold word_at. cpu_simpl. rewrite !cell_tick.
      destruct (cells_write16_ram (cmem c1) addr (reg c (rs1_of insn)))
        as [C0 C1]; [lia|].
      fold (reg c (rs1_of insn)) in C0, C1 |- *. rewrite C0, C1.
      pose proof (word_of_bytes (reg c (rs1_of insn)) (reg_u16 c _ Hwf)) as Hwb.
      rewrite <- (wrap16_id (Z.lor _ _)); [exact Hwb|].
      rewrite lor_shiftl_bytes by apply wrap8_u8.
      apply word_le_u16; apply wrap8_u8.
    + intros b N0 N1. cpu_simpl. rewrite cell_tick.
      fold (reg c (rs1_of insn)).
      rewrite write16_ram_other by (assumption || lia).
      now apply cell_same_mem.
    + cpu_simpl. exact R1.
Qed.

Lemma short_load_and_store_witness :
  word_at (exec (cpu_at 0xA11E 0 [0x1234; 0x2002; 0; 0; 0; 0; 0; 0x7FFC])) 0x2000
    = 0x1234 /\
  reg (exec (cpu_at 0x9A20 0 [0; 0x2000; 7; 0; 0; 0; 0; 0x7FFC])) 2 = 0 /\
  ZF (exec (cpu_at 0x9A20 0 [0; 0x2000; 7; 0; 0; 0; 0; 0x7FFC])) = true.
Proof.
  assert (Hwf : wf_CPU (cpu_at 0xA11E 0 [0x1234; 0x2002; 0; 0; 0; 0; 0; 0x7FFC])).
  { apply wf_cpu_at; [unfold u16; lia|unfold u16; lia|reflexivity|].
    repeat constructor; unfold u16; lia. }
  destruct (short_load_and_store _ Hwf) as (_ & _ & H);
    [reflexivity|right; reflexivity|].
  assert (Hram : (0x2002 + -2) mod 65536 <= 0xFEFE) by (vm_compute; discriminate).
  split; [exact (proj1 (H Hram))|].
  assert (Hwf2 : wf_CPU (cpu_at 0x9A20 0 [0; 0x2000; 7; 0; 0; 0; 0; 0x7FFC])).
  { apply wf_cpu_at; [unfold u16; lia|unfold u16; lia|reflexivity|].
    repeat constructor; unfold u16; lia. }
  destruct (short_load_and_store _ Hwf2) as (_ & _ & H2);
    [reflexivity|left; reflexivity|].
  assert (Hram2 : (0x2000 + 0) mod 65536 <= 0xFEFE) by (vm_compute; discriminate).
  destruct (H2 Hram2) as (L1 & _ & _ & L2 & _).
  split; [exact L1|exact L2].
Defined.

(** *** IN and OUT on the device addresses *)

Lemma read8_cmem m a : snd (read8 m a) = log (EvRead a) m.
Proof. unfold read8. now destruct (0xFF00 <=? a). Qed.

Lemma fetch16_cmem c :
  cmem (snd (fetch16 c)) =
    log (EvRead (wrap16 (PC c + 1))) (log (EvRead (PC c)) (cmem c)).
Proof.
  unfold fetch16, read16.
  pose proof (read8_cmem (cmem c) (PC c)) as H1.
  destruct (read8 (cmem c) (PC c)) as [lo m1]. cbn [snd] in H1. subst m1.
  pose proof (read8_cmem (log (EvRead (PC c)) (cmem c)) (wrap16 (PC c + 1))) as H2.
  destruct (read8 _ (wrap16 (PC c + 1))) as [hi m2]. cbn [snd] in H2. now subst m2.
Qed.

Lemma mmio_read_log e m a : mmio_read (log e m) a = mmio_read m a.
Proof. reflexivity. Qed.

(** What a run has sent to the UART, given the events it has added. *)
Lemma uart_output_app c c' evs :
  trace (cmem c') = evs ++ trace (cmem c) ->
  uart_output c' =
    uart_output c ++
    omap (fun e => match e with EvUart ch => Some ch | _ => None end) (rev evs).
Proof.
  intros H. unfold uart_output. rewrite H, rev_app_distr. apply omap_app.
Qed.

(** X11: IN and OUT with an operand at 0xFF00 or above move one byte.
    OUT rs, [a] writes the low byte of R[rs] to the device: at 0xFF00 the
    UART prints exactly that byte, at any other device address nothing is
    printed.  IN rd, [a] sets R[rd] to the byte the device register holds,
    zero-extended.  Neither changes the memory array, and OUT changes no
    register. *)
Theorem in_and_out_move_one_byte (c : CPU) :
  wf_CPU c -> halted c = false ->
  opcode_of (fst (fetch16 c)) = 0x1C \/ opcode_of (fst (fetch16 c)) = 0x1D ->
  0xFF00 <= operand_of c ->
  let insn := fst (fetch16 c) in
  let a := operand_of c in
  (if opcode_of insn =? 0x1D
   then uart_output (exec c) =
          uart_output c ++ (if a =? 0xFF00 then [reg c (rs1_of insn) mod 256] else []) /\
        R (exec c) = R c
   else reg (exec c) (rd_of insn) = mmio_read (cmem c) a /\
        0 <= reg (exec c) (rd_of insn) <= 255 /\
        (forall j, 0 <= j -> j <> rd_of insn -> reg (exec c) j = reg c j) /\
        uart_output (exec c) = uart_output c) /\
  mem (cmem (exec c)) = mem (cmem c) /\
  PC (exec c) = (PC c + 4) mod 65536.
Proof.
  intros Hwf Hrun Hop Ha. cbv zeta.
  rewrite exec_decode by exact Hrun. cbv zeta.
  destruct (fetch16_twice c) as (M2 & R2 & P2 & _). cbv zeta in *.
  pose proof (fetch16_cmem c) as T1.
  pose proof (fetch16_cmem (snd (fetch16 c))) as T2. rewrite T1 in T2.
  unfold operand_of in *.
  pose proof Hwf as (Hm & HL & _ & _).
  set (insn := fst (fetch16 c)) in *.
  set (c1 := snd (fetch16 c)) in *.
  pose proof (rd_of_bound insn) as Hrd.
  set (a := fst (fetch16 c1)) in *.
  set (c2 := snd (fetch16 c1)) in *.
  assert (Hr : forall j, reg c2 j = reg c j) by (intros j; now apply reg_same_R).
  assert (Hge : (0xFF00 <=? a) = true) by (apply Z.leb_le; exact Ha).
  assert (HD : dispatch insn (opcode_of insn) (rd_of insn) (rs1_of insn)
                 (imm3_of insn) (simm8_of insn) c1
               = if opcode_of insn =? 0x1D
                 then set_cmem (write8 (cmem c2) a (reg c (rs1_of insn) mod 256)) c2
                 else load_reg (rd_of insn) (mmio_read (cmem c) a)
                        (set_cmem (log (EvRead a) (cmem c2)) c2)).
  { destruct Hop as [Hop|Hop]; rewrite Hop; cbn [dispatch Z.eqb Pos.eqb];
      fold c1; destruct (fetch16 c1) as [a' c2'] eqn:E; subst a c2; cbn [fst snd] in *;
      rewrite Hge.
    - rewrite read8_mmio by exact Ha. rewrite T2. reflexivity.
    - rewrite lo_byte, Hr. reflexivity. }
  rewrite HD. clear HD.
  destruct (opcode_of insn =? 29).
  - split; [split|].
    + rewrite (uart_output_app c _
        ((if a =? 0xFF00 then [EvUart (reg c (rs1_of insn) mod 256)] else [])
           ++ [EvWrite a (reg c (rs1_of insn) mod 256);
               EvRead (wrap16 (PC c1 + 1)); EvRead (PC c1);
               EvRead (wrap16 (PC c + 1)); EvRead (PC c)])).
      * f_equal. now destruct (a =? 65280).
      * cbn [cmem set_cmem]. rewrite trace_tick, trace_write8, T2.
        rewrite <- app_assoc. reflexivity.
    + cpu_simpl. exact R2.
    + cpu_simpl. rewrite mem_tick.
      rewrite write8_mmio by exact Ha. rewrite mem_mmio_write. cbn [mem log].
      split; [exact M2|exact P2].
  - pose proof (mmio_read_u8 (cmem c) a) as Hu8.
    assert (Hreg : reg (set_cmem
                (tick (cmem (load_reg (rd_of insn) (mmio_read (cmem c) a)
                   (set_cmem (log (EvRead a) (cmem c2)) c2))))
                (load_reg (rd_of insn) (mmio_read (cmem c) a)
                   (set_cmem (log (EvRead a) (cmem c2)) c2))) (rd_of insn)
              = mmio_read (cmem c) a).
    { change (reg (set_reg (rd_of insn) (mmio_read (cmem c) a) c2) (rd_of insn)
              = mmio_read (cmem c) a).
      apply reg_set_reg_eq. rewrite R2, HL. lia. }
    rewrite Hreg. split; [split; [reflexivity|split; [unfold u8 in Hu8; lia|split]]|].
    + intros j Hj Hjr.
      change (reg (set_reg (rd_of insn) (mmio_read (cmem c) a) c2) j = reg c j).
      rewrite reg_set_reg by (rewrite ?R2; assumption || lia).
      case_decide; [lia|]. apply Hr.
    + rewrite (uart_output_app c _
        [EvRead a; EvRead (wrap16 (PC c1 + 1)); EvRead (PC c1);
         EvRead (wrap16 (PC c + 1)); EvRead (PC c)]).
      * cbn. apply app_nil_r.
      * cpu_simpl. rewrite trace_tick, T2. reflexivity.
    + cpu_simpl. rewrite mem_tick. cbn [mem log].
      split; [exact M2|exact P2].
Qed.

Lemma in_and_out_move_one_byte_witness :
  uart_output (exec (cpu_at 0xE820 0xFF00 [0; 0x0148; 0; 0; 0; 0; 0; 0x7FFC])) = [0x48].
Proof.
  assert (Hwf : wf_CPU (cpu_at 0xE820 0xFF00 [0; 0x0148; 0; 0; 0; 0; 0; 0x7FFC])).
  { apply wf_cpu_at; [unfold u16; lia|unfold u16; lia|reflexivity|].
    repeat constructor; unfold u16; lia. }
  destruct (in_and_out_move_one_byte _ Hwf) as (H & _);
    [reflexivity|right; reflexivity|vm_compute; discriminate|].
  exact (proj1 H).
Defined.

(** *** The register an instruction writes *)

Lemma R_pop16 c : R (snd (pop16 c)) = <[7%nat := wrap16 (reg c 7 + 2)]> (R c).
Proof. unfold pop16. destruct (read16 _ _). reflexivity. Qed.

(** Splits the pairs that [dispatch] binds, keeping what each leaves of
    the register file. *)
Ltac split_R :=
  match goal with
  | |- context [let '(_, _) := fetch16 ?c in _] =>
      let F := fresh "F" in
      pose proof (fetch16_fields c) as (_ & F & _ & _);
      destruct (fetch16 c); cbn [snd] in F
  | |- context [let '(_, _) := add16 ?a ?b ?c in _] =>
      let F := fresh "F" in
      pose proof (add16_frame a b c) as (F & _);
      destruct (add16 a b c); cbn [snd] in F
  | |- context [let '(_, _) := sub16 ?a ?b ?c in _] =>
      let F := fresh "F" in
      pose proof (sub16_frame a b c) as (F & _);
      destruct (sub16 a b c); cbn [snd] in F
  | |- context [let '(_, _) := pop16 ?c in _] =>
      let F := fresh "F" in
      pose proof (R_pop16 c) as F;
      destruct (pop16 c); cbn [snd] in F
  | |- context [let '(_, _) := ?e in _] => destruct e
  end.

Lemma dispatch_writes_one_register insn c j :
  0 <= j -> Some j <> written_reg insn ->
  reg (dispatch insn (opcode_of insn) (rd_of insn) (rs1_of insn)
                (imm3_of insn) (simm8_of insn) c) j = reg c j.
Proof.
  intros Hj. unfold written_reg.
  pose proof (opcode_of_bound insn) as Hop. pose proof (rd_of_bound insn) as Hrd.
  remember (opcode_of insn) as opcode eqn:Eop. clear Eop.
  assert (Hcases : opcode = 0 \/ opcode = 1 \/ opcode = 2 \/ opcode = 3 \/
    opcode = 4 \/ opcode = 5 \/ opcode = 6 \/ opcode = 7 \/ opcode = 8 \/
    opcode = 9 \/ opcode = 10 \/ opcode = 11 \/ opcode = 12 \/ opcode = 13 \/
    opcode = 14 \/ opcode = 15 \/ opcode = 16 \/ opcode = 17 \/ opcode = 18 \/
    opcode = 19 \/ opcode = 20 \/ opcode = 21 \/ opcode = 22 \/ opcode = 23 \/
    opcode = 24 \/ opcode = 25 \/ opcode = 26 \/ opcode = 27 \/ opcode = 28 \/
    opcode = 29 \/ opcode = 30 \/ opcode = 31) by lia.
  clear Hop.
  repeat (destruct Hcases as [->|Hcases]); [..|subst opcode];
    cbn [dispatch]; intros Hne; unfold jump_if, push16;
    repeat split_R;
    repeat match goal with
           | |- context [if ?b then _ else _] => destruct b
           end;
    cpu_simpl;
    repeat match goal with
           | F : R _ = _ |- _ => rewrite F
           end;
    rewrite ?list_lookup_insert_ne by
      (let E := fresh in intros E; apply Hne; f_equal; lia);
    reflexivity.
Qed.

(** X12: an instruction writes at most one register: [rd] when it
    computes or loads a value, R7 when it is CALL or RET, and none
    otherwise (stores, compares, jumps, NOP, HALT and the opcodes without a
    meaning).  Every other register is the same after [exec]. *)
Theorem instruction_writes_one_register (c : CPU) (j : Z) :
  halted c = false -> 0 <= j ->
  Some j <> written_reg (fst (fetch16 c)) ->
  reg (exec c) j = reg c j.
Proof.
  intros Hrun Hj Hne. rewrite exec_decode by exact Hrun. cbv zeta.
  change (reg (dispatch (fst (fetch16 c)) (opcode_of (fst (fetch16 c)))
                 (rd_of (fst (fetch16 c))) (rs1_of (fst (fetch16 c)))
                 (imm3_of (fst (fetch16 c))) (simm8_of (fst (fetch16 c)))
                 (snd (fetch16 c))) j = reg c j).
  rewrite dispatch_writes_one_register by assumption.
  apply reg_same_R. apply fetch16_fields.
Qed.

Lemma instruction_writes_one_register_witness :
  reg (exec (cpu_at 0x62FF 0 [0; 0; 5; 0; 0; 0; 0; 0x7FFC])) 7 = 0x7FFC.
Proof.
  apply (instruction_writes_one_register
           (cpu_at 0x62FF 0 [0; 0; 5; 0; 0; 0; 0; 0x7FFC]) 7);
    [reflexivity|lia|vm_compute; discriminate].
Defined.

(** *** The loop of the emulator *)

Lemma iter_exec_halted n c : halted c = true -> Nat.iter n exec c = c.
Proof.
  intros H. induction n as [|n IH]; [reflexivity|].
  change (Nat.iter (S n) exec c) with (exec (Nat.iter n exec c)).
  rewrite IH. now apply exec_halted.
Qed.

Lemma run_halted n c : halted c = true -> run n c = c.
Proof. intros H. destruct n; cbn [run]; [reflexivity|now rewrite H]. Qed.

Lemma run_iter n : forall c, run n c = Nat.iter n exec c.
Proof.
  induction n as [|n IH]; intros c; [reflexivity|].
  cbn [run]. destruct (halted c) eqn:H.
  - symmetry. now apply iter_exec_halted.
  - rewrite IH. symmetry. apply Nat.iter_succ_r.
Qed.

(** X13: [while (!cpu.halted) cpu.exec();], cut off after a number of
    rounds, is [exec] iterated that many times: a halted CPU is a fixed
    point of [exec].  Runs compose, a run that has halted is not changed by
    more rounds, and HALT is an instruction that halts the run. *)
Theorem run_is_iterated_exec (n m : nat) (c : CPU) :
  run n c = Nat.iter n exec c /\
  run (n + m) c = run m (run n c) /\
  (halted (run n c) = true -> run (n + m) c = run n c) /\
  (halted c = false -> opcode_of (fst (fetch16 c)) = 0x01 ->
   halted (exec c) = true /\ run (S n) c = exec c).
Proof.
  assert (Hadd : run (n + m) c = run m (run n c)).
  { rewrite !run_iter. rewrite (Nat.add_comm n m). apply Nat.iter_add. }
  split; [apply run_iter|]. split; [exact Hadd|split].
  - intros H. rewrite Hadd. now apply run_halted.
  - intros Hrun Hop.
    assert (Hh : halted (exec c) = true).
    { rewrite exec_decode by exact Hrun. cbv zeta. rewrite Hop. reflexivity. }
    split; [exact Hh|]. cbn [run]. rewrite Hrun. now apply run_halted.
Qed.

(** ** From the source text to the fields [exec] decodes *)

Lemma emit16_bytes w st :
  emit16 w st = Ok (tt, set_bytes (bytes st ++ [w mod 256; w / 256 mod 256]) st).
Proof.
  unfold emit16, bind, emit8. cbn [bytes set_bytes].
  rewrite lo_byte, hi_byte, <- app_assoc. reflexivity.
Qed.

(** The word with the fields [op], [rd], [rs1] and the low bits [lo]. *)
Lemma field_word op rd rs1 lo :
  0 <= op < 32 -> 0 <= rd < 8 -> 0 <= rs1 < 8 -> 0 <= lo < 32 ->
  wrap16 (Z.lor (Z.lor (Z.lor (Z.shiftl op 11) (Z.shiftl rd 8)) (Z.shiftl rs1 5)) lo)
    = op * 2048 + rd * 256 + rs1 * 32 + lo /\
  opcode_of (op * 2048 + rd * 256 + rs1 * 32 + lo) = op /\
  rd_of (op * 2048 + rd * 256 + rs1 * 32 + lo) = rd /\
  rs1_of (op * 2048 + rd * 256 + rs1 * 32 + lo) = rs1 /\
  Z.land (op * 2048 + rd * 256 + rs1 * 32 + lo) 0x1F = lo.
Proof.
  intros Hop Hrd Hrs Hlo.
  pose (P := fun op rd rs1 lo =>
    bool_decide (
      wrap16 (Z.lor (Z.lor (Z.lor (Z.shiftl op 11) (Z.shiftl rd 8)) (Z.shiftl rs1 5)) lo)
        = op * 2048 + rd * 256 + rs1 * 32 + lo /\
      opcode_of (op * 2048 + rd * 256 + rs1 * 32 + lo) = op /\
      rd_of (op * 2048 + rd * 256 + rs1 * 32 + lo) = rd /\
      rs1_of (op * 2048 + rd * 256 + rs1 * 32 + lo) = rs1 /\
      Z.land (op * 2048 + rd * 256 + rs1 * 32 + lo) 0x1F = lo)).
  assert (H : forallb (fun op => forallb (fun rd => forallb (fun rs1 =>
                forallb (P op rd rs1) (seqZ 0 32)) (seqZ 0 8)) (seqZ 0 8))
              (seqZ 0 32) = true) by (vm_compute; reflexivity).
  pose proof (forall_range _ _ H op Hop) as H1. cbv beta in H1.
  pose proof (forall_range _ _ H1 rd Hrd) as H2. cbv beta in H2.
  pose proof (forall_range _ _ H2 rs1 Hrs) as H3. cbv beta in H3.
  pose proof (forall_range _ _ H3 lo Hlo) as H4.
  unfold P in H4. now apply bool_decide_eq_true_1 in H4.
Qed.

(** The word with the fields [op] and [rd] and the low byte [lo]. *)
Lemma imm8_word op rd lo :
  0 <= op < 32 -> 0 <= rd < 8 -> 0 <= lo < 256 ->
  wrap16 (Z.lor (Z.lor (Z.shiftl op 11) (Z.shiftl rd 8)) lo)
    = op * 2048 + rd * 256 + lo /\
  opcode_of (op * 2048 + rd * 256 + lo) = op /\
  rd_of (op * 2048 + rd * 256 + lo) = rd /\
  imm8_of (op * 2048 + rd * 256 + lo) = lo.
Proof.
  intros Hop Hrd Hlo.
  pose (P := fun op rd lo =>
    bool_decide (
      wrap16 (Z.lor (Z.lor (Z.shiftl op 11) (Z.shiftl rd 8)) lo)
        = op * 2048 + rd * 256 + lo /\
      opcode_of (op * 2048 + rd * 256 + lo) = op /\
      rd_of (op * 2048 + rd * 256 + lo) = rd /\
      imm8_of (op * 2048 + rd * 256 + lo) = lo)).
  assert (H : forallb (fun op => forallb (fun rd =>
                forallb (P op rd) (seqZ 0 256)) (seqZ 0 8))
              (seqZ 0 32) = true) by (vm_compute; reflexivity).
  pose proof (forall_range _ _ H op Hop) as H1. cbv beta in H1.
  pose proof (forall_range _ _ H1 rd Hrd) as H2. cbv beta in H2.
  pose proof (forall_range _ _ H2 lo Hlo) as H3.
  unfold P in H3. now apply bool_decide_eq_true_1 in H3.
Qed.

Lemma land_7_mod imm : Z.land imm 0x07 = imm mod 8.
Proof. change 7 with (Z.ones 3). now rewrite Z.land_ones by lia. Qed.

Lemma sext8_mod imm : -128 <= imm <= 127 -> sext8 (imm mod 256) = imm.
Proof.
  intros H. unfold sext8.
  destruct (Z.lt_ge_cases imm 0).
  - replace (imm mod 256) with (imm + 256)
      by (apply Z.mod_unique with (-1); lia).
    destruct (Z.ltb_spec (imm + 256) 128); lia.
  - rewrite Z.mod_small by lia. destruct (Z.ltb_spec imm 128); lia.
Qed.

(** X14: the four encoders of [pass2] and the decoder of [exec] agree.
    For an opcode below 32 and registers below 8, the word that [emitRRI],
    [emitR], [emitRI8] or [emitW] emits has the opcode in bits 15..11, rd in
    bits 10..8, rs1 in bits 7..5 and the three-bit immediate in bits 2..0,
    or the low byte of the immediate in bits 7..0: [exec] reads the same
    fields back, and an immediate from -128 to 127 comes back
    sign-extended.  The word is appended to the image low byte first. *)
Theorem emitted_word_decodes (op rd rs1 imm : Z) (st : Assembler) :
  0 <= op < 32 -> 0 <= rd < 8 -> 0 <= rs1 < 8 ->
  let word := fun lo => op * 2048 + rd * 256 + rs1 * 32 + lo in
  let word8 := op * 2048 + rd * 256 + imm mod 256 in
  emitRRI op rd rs1 imm st = emit16 (word (imm mod 8)) st /\
  emitR op rd rs1 st = emit16 (word 0) st /\
  emitRI8 op rd imm st = emit16 word8 st /\
  emitW op rd st = emit16 (op * 2048 + rd * 256) st /\
  (forall lo, 0 <= lo < 8 ->
     opcode_of (word lo) = op /\ rd_of (word lo) = rd /\
     rs1_of (word lo) = rs1 /\ imm3_of (word lo) = lo) /\
  (opcode_of word8 = op /\ rd_of word8 = rd /\ imm8_of word8 = imm mod 256 /\
   (-128 <= imm <= 127 -> simm8_of word8 = imm)) /\
  (forall w, u16 w ->
     emit16 w st = Ok (tt, set_bytes (bytes st ++ [w mod 256; w / 256]) st)).
Proof.
  intros Hop Hrd Hrs. cbv zeta.
  pose proof (Z.mod_pos_bound imm 8 ltac:(lia)) as H8.
  pose proof (Z.mod_pos_bound imm 256 ltac:(lia)) as H256.
  destruct (field_word op rd rs1 (imm mod 8) Hop Hrd Hrs ltac:(lia)) as (W3 & _).
  destruct (field_word op rd rs1 0 Hop Hrd Hrs ltac:(lia)) as (W2 & _).
  destruct (field_word op rd 0 0 Hop Hrd ltac:(lia) ltac:(lia)) as (W1 & _).
  destruct (imm8_word op rd (imm mod 256) Hop Hrd H256) as (W8 & D1 & D2 & D3).
  split; [|split; [|split; [|split; [|split; [|split]]]]].
  - unfold emitRRI. rewrite land_7_mod. now rewrite W3.
  - unfold emitR. rewrite <- (Z.lor_0_r (Z.lor _ (Z.shiftl rs1 5))). now rewrite W2.
  - unfold emitRI8. unfold wrap8 at 1. now rewrite W8.
  - unfold emitW. change (Z.shiftl 0 5) with 0 in W1.
    rewrite !Z.lor_0_r in W1. rewrite W1. f_equal. lia.
  - intros lo Hlo.
    destruct (field_word op rd rs1 lo Hop Hrd Hrs ltac:(lia)) as (_ & E1 & E2 & E3 & E4).
    repeat split; try assumption.
    unfold imm3_of. change 7 with (Z.land 31 7). rewrite Z.land_assoc, E4.
    change 7 with (Z.ones 3). rewrite Z.land_ones by lia. apply Z.mod_small. lia.
  - repeat split; try assumption.
    intros Hi. unfold simm8_of. rewrite D3. now apply sext8_mod.
  - intros w Hw. rewrite emit16_bytes.
    now rewrite (Z.mod_small (w / 256)) by (apply div_256_u8; exact Hw).
Qed.

Lemma emitted_word_decodes_witness :
  emitRI8 0x0C 2 (-1) new_Assembler = Ok (tt, set_bytes [0xFF; 0x62] new_Assembler) /\
  simm8_of 0x62FF = -1.
Proof.
  destruct (emitted_word_decodes 0x0C 2 0 (-1) new_Assembler)
    as (_ & _ & H3 & _ & _ & (_ & _ & _ & H6) & H7); try lia.
  split.
  - rewrite H3. apply (H7 0x62FF). unfold u16. lia.
  - apply H6. lia.
Defined.

(** *** Instructions assembled from their text *)

Ltac in_table H :=
  repeat (apply elem_of_cons in H as [H|H]; [injection H as -> ->|]);
  [..|inversion H].

Lemma reg_reg_checked M op :
  (M, op) ∈ reg_reg_mnemonics ->
  forallb (fun d => forallb (fun s => bool_decide (decodes_reg_reg M op d s))
                            (seqZ 0 8)) (seqZ 0 8) = true.
Proof. intros H. unfold reg_reg_mnemonics in H. in_table H; vm_compute; reflexivity. Qed.

Lemma imm8_checked M op :
  (M, op) ∈ [("addi", 0x0C); ("cmpi", 0x0D)] ->
  forallb (fun d => forallb (fun v => bool_decide (decodes_imm8 M op d v))
                            (seqZ (-128) 256)) (seqZ 0 8) = true.
Proof. intros H. in_table H; vm_compute; reflexivity. Qed.

Lemma shift_checked M op :
  (M, op) ∈ [("shl", 0x0A); ("shr", 0x0B)] ->
  forallb (fun d => forallb (fun n => bool_decide (decodes_shift M op d n))
                            (seqZ 0 8)) (seqZ 0 8) = true.
Proof. intros H. in_table H; vm_compute; reflexivity. Qed.

(** X15: the assembler and the emulator agree on the one-word
    instructions.  For all registers rd and rs, the source line [M rd, rs]
    with M one of MOV, ADD, SUB, AND, OR, XOR and CMP assembles to one word,
    stored low byte first, that [exec] decodes as the opcode of M with the
    same two registers; [ADDI rd, #v] and [CMPI rd, #v] with v from -128 to
    127 give a word whose sign-extended immediate is v; and [SHL rd, n] and
    [SHR rd, n] with n from 0 to 7 give a word whose shift count is n. *)
Theorem assembled_instruction_decodes (d s : Z) :
  0 <= d < 8 -> 0 <= s < 8 ->
  (forall M op, (M, op) ∈ reg_reg_mnemonics -> decodes_reg_reg M op d s) /\
  (forall M op v, (M, op) ∈ [("addi", 0x0C); ("cmpi", 0x0D)] ->
     -128 <= v <= 127 -> decodes_imm8 M op d v) /\
  (forall M op n, (M, op) ∈ [("shl", 0x0A); ("shr", 0x0B)] ->
     0 <= n <= 7 -> decodes_shift M op d n).
Proof.
  intros Hd Hs. split; [|split].
  - intros M op H. pose proof (reg_reg_checked M op H) as C.
    pose proof (forall_range _ _ C d Hd) as C1. cbv beta in C1.
    pose proof (forall_range _ _ C1 s Hs) as C2.
    cbv beta in C2. now apply bool_decide_eq_true_1 in C2.
  - intros M op v H Hv. pose proof (imm8_checked M op H) as C.
    pose proof (forall_range _ _ C d Hd) as C1. cbv beta in C1.
    pose proof (forall_range_from _ _ _ C1 v ltac:(lia)) as C2.
    cbv beta in C2. now apply bool_decide_eq_true_1 in C2.
  - intros M op n H Hn. pose proof (shift_checked M op H) as C.
    pose proof (forall_range _ _ C d Hd) as C1. cbv beta in C1.
    pose proof (forall_range _ _ C1 n ltac:(lia)) as C2.
    cbv beta in C2. now apply bool_decide_eq_true_1 in C2.
Qed.

Lemma assembled_instruction_decodes_witness :
  assemble "add r3, r5" = Ok [0xA0; 0x23] /\
  assemble "addi r3, #-2" = Ok [0xFE; 0x63] /\ simm8_of 0x63FE = -2.
Proof.
  destruct (assembled_instruction_decodes 3 5) as (H1 & H2 & _); try lia.
  destruct (H1 "add" 0x04) as (A1 & _).
  { apply elem_of_cons. right. apply elem_of_cons. now left. }
  destruct (H2 "addi" 0x0C (-2)) as (A2 & _ & _ & A3); try lia.
  { apply elem_of_cons. now left. }
  split; [exact A1|split; [exact A2|exact A3]].
Defined.

Lemma short_checked :
  forallb (fun r => forallb (fun rb => forallb (fun v =>
             bool_decide (decodes_short_ld r rb v) &&
             bool_decide (decodes_short_st r rb v))
           (seqZ (-16) 32)) (seqZ 0 8)) (seqZ 0 8) = true.
Proof. vm_compute. reflexivity. Qed.

(** X16: the short forms.  For all registers r and rb and every
    displacement v from -16 to 15, [LD r, [rb+v]] and [ST r, [rb+v]]
    assemble to one word each, with the displacement in the low five bits;
    [exec] decodes opcode 0x13 or 0x14, finds rb where it takes the base
    register from (rs1 for LD, rd for ST) and r in the other field, and
    sign-extends the five bits back to v. *)
Theorem short_forms_decode (r rb v : Z) :
  0 <= r < 8 -> 0 <= rb < 8 -> -16 <= v <= 15 ->
  decodes_short_ld r rb v /\ decodes_short_st r rb v.
Proof.
  intros Hr Hrb Hv. pose proof short_checked as C.
  pose proof (forall_range _ _ C r Hr) as C1. cbv beta in C1.
  pose proof (forall_range _ _ C1 rb Hrb) as C2. cbv beta in C2.
  pose proof (forall_range_from _ _ _ C2 v ltac:(lia)) as C3. cbv beta in C3.
  apply andb_true_iff in C3 as [L S].
  apply bool_decide_eq_true_1 in L. apply bool_decide_eq_true_1 in S.
  split; assumption.
Qed.

Lemma short_forms_decode_witness :
  assemble "st r0, [r1+-2]" = Ok [0x1E; 0xA1] /\ simm5_of 0xA11E = -2.
Proof.
  destruct (short_forms_decode 0 1 (-2)) as (_ & (A1 & _ & _ & _ & A2)); try lia.
  split; [exact A1|exact A2].
Defined.

(** ** [loadImage] *)

Lemma loadImage_from_ram base : forall bin m i,
  0 <= base + i -> base + i + Z.of_nat (length bin) <= 0xFF00 ->
  (forall k b, bin !! k = Some b ->
     cell (loadImage_from m bin base i) (base + i + Z.of_nat k) = b) /\
  (forall a, ~ (base + i <= a < base + i + Z.of_nat (length bin)) ->
     cell (loadImage_from m bin base i) a = cell m a) /\
  timer (loadImage_from m bin base i) = timer m /\
  timercmp (loadImage_from m bin base i) = timercmp m /\
  irq_pending (loadImage_from m bin base i) = irq_pending m /\
  trace (loadImage_from m bin base i) =
    rev (imap (fun k b => EvWrite (base + i + Z.of_nat k) b) bin) ++ trace m.
Proof.
  induction bin as [|b bin IH]; intros m i Hlo Hhi.
  - cbn. repeat split. intros k b H. inversion H.
  - cbn [loadImage_from]. cbn [length] in Hhi.
    rewrite wrap16_id by (unfold u16; lia).
    rewrite write8_ram by lia.
    destruct (IH (set_mem (base + i) b (log (EvWrite (base + i) b) m)) (i + 1))
      as (C & O & T & TC & I & Tr); [lia|lia|].
    split; [|split; [|split; [|split; [|split]]]].
    + intros [|k] b' Hk.
      * cbn in Hk. injection Hk as <-. rewrite O by lia. cells.
        rewrite Z.add_0_r. now case_decide.
      * cbn in Hk. rewrite <- (C k b' Hk). f_equal. lia.
    + intros a Ha. cbn [length] in Ha. rewrite O by lia. cells.
      case_decide; [lia|reflexivity].
    + exact T.
    + exact TC.
    + exact I.
    + rewrite Tr. cbn [imap rev trace log set_mem].
      rewrite <- app_assoc. cbn [app]. rewrite Z.add_0_r. f_equal. f_equal.
      apply imap_ext. intros k x _. cbn. f_equal. lia.
Qed.

(** X17: [loadImage] with an image that ends at or below 0xFF00 puts
    byte k of the image into the cell base + k, in this order, and changes
    nothing else: no other cell, no device register, no output.  A word the
    image holds at offset k, low byte first, is the word a 16-bit read at
    base + k gives -- the word [fetch16] decodes when the PC is there. *)
Theorem loadImage_places_the_image (m : Memory) (bin : list Z) (base : Z) :
  0 <= base -> base + Z.of_nat (length bin) <= 0xFF00 ->
  (forall k b, bin !! k = Some b ->
     cell (loadImage m bin base) (base + Z.of_nat k) = b) /\
  (forall a, ~ (base <= a < base + Z.of_nat (length bin)) ->
     cell (loadImage m bin base) a = cell m a) /\
  timer (loadImage m bin base) = timer m /\
  timercmp (loadImage m bin base) = timercmp m /\
  irq_pending (loadImage m bin base) = irq_pending m /\
  trace (loadImage m bin base) =
    rev (imap (fun k b => EvWrite (base + Z.of_nat k) b) bin) ++ trace m /\
  (forall k lo hi, bin !! k = Some lo -> bin !! S k = Some hi -> u8 lo -> u8 hi ->
     fst (read16 (loadImage m bin base) (base + Z.of_nat k)) = hi * 256 + lo).
Proof.
  intros Hlo Hhi. unfold loadImage.
  destruct (loadImage_from_ram base bin m 0) as (C & O & T & TC & I & Tr);
    [lia|lia|].
  rewrite Z.add_0_r in *.
  assert (C' : forall k b, bin !! k = Some b ->
            cell (loadImage_from m bin base 0) (base + Z.of_nat k) = b).
  { exact C. }
  split; [exact C'|]. split; [exact O|]. split; [exact T|]. split; [exact TC|].
  split; [exact I|]. split.
  - exact Tr.
  - intros k lo hi Hk0 Hk1 Ulo Uhi.
    pose proof (lookup_lt_Some _ _ _ Hk1) as Hlen.
    rewrite read16_ram by lia.
    rewrite (C' k lo Hk0).
    replace (base + Z.of_nat k + 1) with (base + Z.of_nat (S k)) by lia.
    rewrite (C' (S k) hi) by exact Hk1.
    rewrite lor_shiftl_bytes by exact Ulo.
    apply wrap16_id. now apply word_le_u16.
Qed.

Lemma loadImage_places_the_image_witness :
  cell (loadImage fresh_Memory [0xA0; 0x23] 0x0100) 0x0101 = 0x23 /\
  fst (read16 (loadImage fresh_Memory [0xA0; 0x23] 0x0100) 0x0100) = 0x23A0.
Proof.
  destruct (loadImage_places_the_image fresh_Memory [0xA0; 0x23] 0x0100)
    as (H1 & _ & _ & _ & _ & _ & H2); [lia|cbn; lia|].
  split.
  - exact (H1 1%nat 0x23 eq_refl).
  - apply (H2 0%nat 0xA0 0x23); [reflexivity|reflexivity|unfold u8; lia|unfold u8; lia].
Defined.

(** ** The string helpers of the assembler *)

Lemma drop_while_split p s :
  exists a, s = a +:+ Str.drop_while p s /\
            forallb p (list_ascii_of_string a) = true.
Proof.
  induction s as [|c s IH]; cbn [Str.drop_while].
  - exists EmptyString. now split.
  - destruct (p c) eqn:E.
    + destruct IH as (a & Ha & Hb). exists (String c a). split.
      * change (String c s = String c (a +:+ Str.drop_while p s)). now f_equal.
      * cbn. now rewrite E, Hb.
    + exists EmptyString. now split.
Qed.

Lemma drop_while_front p s c :
  Str.front (Str.drop_while p s) = Some c -> p c = false.
Proof.
  induction s as [|d s IH]; cbn [Str.drop_while]; [discriminate|].
  destruct (p d) eqn:E; [exact IH|]. cbn. now intros [= <-].
Qed.

Lemma drop_while_id p s :
  (forall c, Str.front s = Some c -> p c = false) -> Str.drop_while p s = s.
Proof.
  destruct s as [|c s]; [reflexivity|]. intros H. cbn.
  now rewrite (H c eq_refl).
Qed.

Lemma drop_while_end_split p s :
  exists b, s = Str.drop_while_end p s +:+ b /\
            forallb p (list_ascii_of_string b) = true.
Proof.
  induction s as [|c s IH]; cbn [Str.drop_while_end].
  - exists EmptyString. now split.
  - destruct IH as (b & Hb & Hp).
    destruct (p c && Str.empty (Str.drop_while_end p s)) eqn:E.
    + apply andb_true_iff in E as [Ec Ee].
      destruct (Str.drop_while_end p s); [|discriminate].
      exists (String c b). change (EmptyString +:+ b) with b in Hb.
      split; [now subst s|]. cbn. now rewrite Ec, Hp.
    + exists b. split; [|exact Hp].
      change (String c s = String c (Str.drop_while_end p s +:+ b)). now f_equal.
Qed.

Lemma drop_while_end_back p s c :
  Str.back (Str.drop_while_end p s) = Some c -> p c = false.
Proof.
  induction s as [|d s IH]; cbn [Str.drop_while_end]; [discriminate|].
  destruct (p d && Str.empty (Str.drop_while_end p s)) eqn:E; [discriminate|].
  cbn [Str.back]. destruct (Str.drop_while_end p s) as [|e r] eqn:Er.
  - intros [= <-]. cbn in E. now rewrite andb_true_r in E.
  - exact IH.
Qed.

Lemma drop_while_end_front p s c :
  Str.front (Str.drop_while_end p s) = Some c -> Str.front s = Some c.
Proof.
  destruct s as [|d s]; cbn [Str.drop_while_end]; [discriminate|].
  destruct (p d && _); [discriminate|]. exact id.
Qed.

Lemma drop_while_end_id p s :
  (forall c, Str.back s = Some c -> p c = false) -> Str.drop_while_end p s = s.
Proof.
  induction s as [|d s IH]; [reflexivity|]. intros H. cbn [Str.drop_while_end].
  rewrite IH.
  - destruct s as [|e s].
    + cbn. now rewrite (H d eq_refl).
    + cbn. now rewrite andb_false_r.
  - intros c Hc. apply H. destruct s; [discriminate|exact Hc].
Qed.

Lemma drop_while_blank p s :
  forallb p (list_ascii_of_string s) = true -> Str.drop_while p s = EmptyString.
Proof.
  induction s as [|c s IH]; [reflexivity|]. cbn. intros H.
  apply andb_true_iff in H as [Hc Hs]. rewrite Hc. now apply IH.
Qed.

Lemma trim_front s c : Str.front (trim s) = Some c -> is_space c = false.
Proof.
  unfold trim. intros H. apply drop_while_end_front in H.
  now apply drop_while_front in H.
Qed.

Lemma trim_back s c : Str.back (trim s) = Some c -> is_space c = false.
Proof. unfold trim. apply drop_while_end_back. Qed.

Lemma trim_idempotent s : trim (trim s) = trim s.
Proof.
  unfold trim at 1. rewrite drop_while_id by apply trim_front.
  apply drop_while_end_id. apply trim_back.
Qed.

(** X18: [trim] cuts the blanks -- space, tab, carriage return and line
    feed -- off both ends of a string and nothing else: the string is a run
    of blanks, the result, and a run of blanks again; the result neither
    starts nor ends with a blank; trimming twice is trimming once, and a
    string of blanks gives the empty string. *)
Theorem trim_cuts_the_blanks_at_both_ends (s : string) :
  (exists a b, s = a +:+ (trim s +:+ b) /\ blank a = true /\ blank b = true) /\
  (forall c, Str.front (trim s) = Some c -> is_space c = false) /\
  (forall c, Str.back (trim s) = Some c -> is_space c = false) /\
  trim (trim s) = trim s /\
  (blank s = true -> trim s = EmptyString).
Proof.
  split; [|split; [|split; [|split]]].
  - destruct (drop_while_split is_space s) as (a & Ha & Hpa).
    destruct (drop_while_end_split is_space (Str.drop_while is_space s))
      as (b & Hb & Hpb).
    exists a, b. unfold trim, blank. split; [|split]; try assumption.
    now rewrite <- Hb.
  - apply trim_front.
  - apply trim_back.
  - apply trim_idempotent.
  - intros H. unfold trim. now rewrite drop_while_blank.
Qed.

(** *** [splitComma] *)

Lemma splitComma_scan_trimmed s : forall cur par inStr p,
  p ∈ splitComma_scan s cur par inStr -> trim p = p.
Proof.
  induction s as [|c s IH]; intros cur par inStr p; cbn [splitComma_scan].
  - destruct (Str.empty cur); intros H; [inversion H|].
    apply elem_of_cons in H as [->|H]; [apply trim_idempotent|inversion H].
  - cbv zeta. destruct (_ && _ && _).
    + intros H. apply elem_of_cons in H as [->|H]; [apply trim_idempotent|].
      now apply IH in H.
    + apply IH.
Qed.

Lemma splitComma_scan_length s : forall cur par inStr,
  (length (splitComma_scan s cur par inStr)
   <= S (count_occ ascii_dec (list_ascii_of_string s) ","%char))%nat.
Proof.
  induction s as [|c s IH]; intros cur par inStr; cbn [splitComma_scan].
  - destruct (Str.empty cur); cbn; lia.
  - cbv zeta. cbn [list_ascii_of_string count_occ].
    destruct (ascii_dec c ","%char) as [->|N].
    + destruct (_ && _ && _); cbn [length].
      * specialize (IH EmptyString). pose proof (IH par inStr). 
        match goal with |- (S (length (splitComma_scan s EmptyString ?a ?b)) <= _)%nat =>
          specialize (IH a b) end. lia.
      * match goal with |- (length (splitComma_scan s ?x ?a ?b) <= _)%nat =>
          specialize (IH x a b) end. lia.
    + replace (ascii_eqb c ","%char) with false.
      * rewrite andb_false_r.
        match goal with |- (length (splitComma_scan s ?x ?a ?b) <= _)%nat =>
          specialize (IH x a b) end. lia.
      * symmetry. unfold ascii_eqb. now apply Ascii.eqb_neq.
Qed.

Lemma append_assoc_char cur c s :
  (cur +:+ String c EmptyString) +:+ s = cur +:+ String c s.
Proof.
  induction cur as [|d cur IH]; [reflexivity|].
  change (String d ((cur +:+ String c EmptyString) +:+ s)
          = String d (cur +:+ String c s)).
  now f_equal.
Qed.

Lemma append_empty_r s : s +:+ EmptyString = s.
Proof.
  induction s as [|d s IH]; [reflexivity|].
  change (String d (s +:+ EmptyString) = String d s). now f_equal.
Qed.

Lemma empty_append cur s :
  Str.empty (cur +:+ s) = Str.empty cur && Str.empty s.
Proof. destruct cur; [now destruct s|reflexivity]. Qed.

Lemma splitComma_scan_no_comma s : forall cur par inStr,
  Str.find ","%char s = None ->
  splitComma_scan s cur par inStr =
    if Str.empty (cur +:+ s) then [] else [trim (cur +:+ s)].
Proof.
  induction s as [|c s IH]; intros cur par inStr; cbn [splitComma_scan Str.find].
  - intros _. now rewrite append_empty_r.
  - cbv zeta. destruct (ascii_eqb c ","%char) eqn:E; [discriminate|].
    intros H. rewrite andb_false_r.
    rewrite IH by (now destruct (Str.find ","%char s)).
    now rewrite append_assoc_char.
Qed.

(** X19: [splitComma].  Every part it returns is trimmed; there is at
    most one part more than the string has commas; and a string without a
    comma is one part -- the string trimmed -- or none when the string is
    empty. *)
Theorem splitComma_parts_are_trimmed (s : string) :
  (forall p, p ∈ splitComma s -> trim p = p) /\
  (length (splitComma s)
   <= S (count_occ ascii_dec (list_ascii_of_string s) ","%char))%nat /\
  (Str.find ","%char s = None ->
   splitComma s = if Str.empty s then [] else [trim s]).
Proof.
  split; [|split].
  - intros p. apply splitComma_scan_trimmed.
  - apply splitComma_scan_length.
  - intros H. unfold splitComma. now rewrite splitComma_scan_no_comma.
Qed.

(** *** The lines of [load] *)

Lemma getlines_nil text : getlines text = [] -> text = EmptyString.
Proof.
  destruct text as [|c t]; [reflexivity|]. cbn [getlines].
  destruct (ascii_eqb c ch_nl); [discriminate|].
  destruct (getlines t); discriminate.
Qed.

Lemma concat_cons_cons sep x y ys :
  String.concat sep (x :: y :: ys) = x +:+ (sep +:+ String.concat sep (y :: ys)).
Proof. reflexivity. Qed.

Lemma concat_nl_cons x y ys :
  String.concat (String ch_nl EmptyString) (x :: y :: ys) =
    x +:+ String ch_nl (String.concat (String ch_nl EmptyString) (y :: ys)).
Proof. reflexivity. Qed.

Lemma getlines_no_newline text l :
  l ∈ getlines text -> Str.find ch_nl l = None.
Proof.
  revert l. induction text as [|c t IH]; intros l; cbn [getlines].
  - intros H. inversion H.
  - destruct (ascii_eqb c ch_nl) eqn:E.
    + intros H. apply elem_of_cons in H as [->|H]; [reflexivity|now apply IH].
    + destruct (getlines t) as [|x xs].
      * intros H. apply elem_of_cons in H as [->|H]; [|inversion H].
        cbn. now rewrite E.
      * intros H. apply elem_of_cons in H as [->|H].
        -- cbn. rewrite E. rewrite (IH x); [reflexivity|now left].
        -- apply IH. now right.
Qed.

Lemma getlines_joined text :
  text = String.concat (String ch_nl EmptyString) (getlines text) \/
  text = String.concat (String ch_nl EmptyString) (getlines text)
           +:+ String ch_nl EmptyString.
Proof.
  induction text as [|c t IH]; [now left|]. cbn [getlines].
  destruct (ascii_eqb c ch_nl) eqn:E.
  - apply Ascii.eqb_eq in E. subst c.
    destruct (getlines t) as [|x xs] eqn:G.
    + apply getlines_nil in G. subst t. now right.
    + rewrite concat_cons_cons. cbn [append].
      destruct IH as [IH|IH]; [left|right]; now rewrite IH at 1.
  - destruct (getlines t) as [|x xs] eqn:G.
    + apply getlines_nil in G. subst t. now left.
    + destruct xs as [|y ys].
      * cbn [String.concat append] in *.
        destruct IH as [IH|IH]; [left|right]; now rewrite IH at 1.
      * rewrite !concat_cons_cons in *. cbn [append].
        destruct IH as [IH|IH]; [left|right]; now rewrite IH at 1.
Qed.

Lemma getlines_app_newline l r :
  Str.find ch_nl l = None ->
  getlines (l +:+ String ch_nl r) = l :: getlines r.
Proof.
  induction l as [|c l IH]; [reflexivity|].
  change (String c l +:+ String ch_nl r) with (String c (l +:+ String ch_nl r)).
  cbn [getlines Str.find].
  destruct (ascii_eqb c ch_nl) eqn:E; [discriminate|].
  intros H. rewrite IH by (now destruct (Str.find ch_nl l)). reflexivity.
Qed.

Lemma getlines_one_line l :
  Str.find ch_nl l = None -> l <> EmptyString -> getlines l = [l].
Proof.
  induction l as [|c l IH]; [congruence|]. cbn [getlines Str.find].
  destruct (ascii_eqb c ch_nl) eqn:E; [discriminate|].
  intros H _. destruct l as [|d l]; [reflexivity|].
  rewrite IH; [reflexivity|now destruct (Str.find ch_nl (String d l))|discriminate].
Qed.

(** X20: the lines of [load].  The text is cut at every line feed: no
    line contains one, and the lines joined by line feeds are the text
    again, up to one line feed at its very end.  In the other direction, a
    list of lines without line feeds whose last line is not empty, joined
    by line feeds, is cut into the same lines. *)
Theorem getlines_round_trip (text : string) (ls : list string) :
  (forall l, l ∈ getlines text -> Str.find ch_nl l = None) /\
  (text = String.concat (String ch_nl EmptyString) (getlines text) \/
   text = String.concat (String ch_nl EmptyString) (getlines text)
            +:+ String ch_nl EmptyString) /\
  ((forall l, l ∈ ls -> Str.find ch_nl l = None) ->
   last ls <> Some EmptyString ->
   getlines (String.concat (String ch_nl EmptyString) ls) = ls).
Proof.
  split; [apply getlines_no_newline|]. split; [apply getlines_joined|].
  induction ls as [|x ls IH]; intros Hnl Hlast; [reflexivity|].
  destruct ls as [|y ys].
  - cbn [String.concat]. apply getlines_one_line.
    + apply Hnl. now left.
    + intros ->. now apply Hlast.
  - rewrite concat_nl_cons.
    rewrite getlines_app_newline by (apply Hnl; now left).
    f_equal. apply IH.
    + intros l Hl. apply Hnl. now right.
    + exact Hlast.
Qed.

(** *** C strings *)

Lemma c_str_id s : Str.find ch_nul s = None -> c_str s = s.
Proof.
  unfold c_str. induction s as [|c s IH]; [reflexivity|].
  cbn [Str.find Str.take_while]. destruct (ascii_eqb c ch_nul); [discriminate|].
  cbn [negb]. destruct (Str.find ch_nul s); [discriminate|].
  intros _. now rewrite IH.
Qed.

Lemma c_str_no_nul s : Str.find ch_nul (c_str s) = None.
Proof.
  unfold c_str. induction s as [|c s IH]; [reflexivity|].
  cbn [Str.take_while]. destruct (ascii_eqb c ch_nul) eqn:E; [reflexivity|].
  cbn [negb Str.find]. now rewrite E, IH.
Qed.

Lemma c_str_app a b : Str.find ch_nul a = None -> c_str (a +:+ b) = a +:+ c_str b.
Proof.
  unfold c_str. induction a as [|c a IH]; [reflexivity|].
  cbn [Str.find]. destruct (ascii_eqb c ch_nul) eqn:E; [discriminate|].
  destruct (Str.find ch_nul a); [discriminate|]. intros _.
  change (String c a +:+ b) with (String c (a +:+ b)).
  cbn [Str.take_while]. rewrite E. cbn [negb]. now rewrite IH.
Qed.

Lemma c_str_cut a b : Str.find ch_nul a = None -> c_str (a +:+ String ch_nul b) = a.
Proof.
  intros H. rewrite c_str_app by exact H. unfold c_str. cbn.
  apply append_empty_r.
Qed.

(** *** Tokens between brackets *)

Lemma back_app_char a c : Str.back (a +:+ String c EmptyString) = Some c.
Proof.
  induction a as [|d a IH]; [reflexivity|].
  change (String d a +:+ String c EmptyString)
    with (String d (a +:+ String c EmptyString)).
  cbn [Str.back]. rewrite IH.
  destruct (a +:+ String c EmptyString) eqn:E; [|reflexivity].
  destruct a; discriminate E.
Qed.

Lemma back_split s c : Str.back s = Some c -> exists a, s = a +:+ String c EmptyString.
Proof.
  induction s as [|d s IH]; [discriminate|]. cbn [Str.back].
  destruct s as [|e s].
  - intros [= ->]. now exists EmptyString.
  - intros H. destruct (IH H) as [a Ha]. exists (String d a).
    change (String d a +:+ String c EmptyString)
      with (String d (a +:+ String c EmptyString)).
    now rewrite <- Ha.
Qed.

(** The tests of [parse_addr_token] on a token between brackets, and the
    text it takes from between them; the size of a [string] fits [size_t]. *)
Lemma bracket_inside inner :
  inner <> EmptyString -> Z.of_nat (Str.size inner) < 18446744073709551616 ->
  let t := "[" +:+ inner +:+ "]" in
  (Str.size t <? 3)%nat = false /\
  is_char (Str.front t) "["%char = true /\
  is_char (Str.back t) "]"%char = true /\
  Str.substr 1 (wrap64 (Z.of_nat (Str.size t) - 2)) t = inner.
Proof.
  intros Hne Hsz. cbv zeta.
  change ("[" +:+ inner +:+ "]") with (String "["%char (inner +:+ "]")).
  assert (Hs : Str.size (String "["%char (inner +:+ "]")) = S (Str.size inner + 1)).
  { change (S (Str.size (inner +:+ "]")) = S (Str.size inner + 1)). now rewrite size_app. }
  rewrite Hs. split; [|split; [reflexivity|split]].
  - apply Nat.ltb_ge. destruct inner; [congruence|]. cbn. lia.
  - cbn [Str.back]. destruct (inner +:+ "]") eqn:E.
    + destruct inner; discriminate E.
    + rewrite <- E, back_app_char. reflexivity.
  - unfold Str.substr. cbn [Str.substr_from]. rewrite Hs.
    replace (Z.of_nat (S (Str.size inner + 1)) - 2) with (Z.of_nat (Str.size inner)) by lia.
    unfold wrap64. rewrite Z.mod_small by lia.
    replace (Z.to_nat (Z.min (Z.of_nat (Str.size inner))
                             (Z.of_nat (S (Str.size inner + 1)))))
      with (Str.size inner) by lia.
    apply take_app_size.
Qed.

(** A token that passes the three tests has the form of a non-empty text
    between brackets. *)
Lemma bracket_form t :
  (Str.size t <? 3)%nat = false ->
  is_char (Str.front t) "["%char = true -> is_char (Str.back t) "]"%char = true ->
  exists inner, inner <> EmptyString /\ t = "[" +:+ inner +:+ "]".
Proof.
  intros Hs Hf Hb. apply Nat.ltb_ge in Hs.
  destruct t as [|c t]; [discriminate Hf|]. cbn in Hf.
  unfold ascii_eqb in Hf. apply Ascii.eqb_eq in Hf. subst c.
  destruct (Str.back (String "["%char t)) as [d|] eqn:E; [|discriminate Hb].
  cbn in Hb. unfold ascii_eqb in Hb. apply Ascii.eqb_eq in Hb. subst d.
  destruct t as [|c t]; [unfold Str.size in Hs; cbn in Hs; lia|].
  assert (E' : Str.back (String c t) = Some "]"%char) by exact E.
  destruct (back_split _ _ E') as [a Ha].
  exists a. split.
  - intros ->. unfold Str.size in Hs. rewrite Ha in Hs. compute in Hs. lia.
  - change ("[" +:+ a +:+ "]") with (String "["%char (a +:+ "]")). now rewrite Ha.
Qed.

(** ** The operand parsers *)

Lemma to_int32_id v : -2147483648 <= v < 2147483648 -> to_int32 v = v.
Proof. intros H. unfold to_int32. rewrite Z.mod_small; lia. Qed.

Lemma to_int32_range v : -2147483648 <= to_int32 v < 2147483648.
Proof.
  unfold to_int32.
  pose proof (Z.mod_pos_bound (v + 2147483648) 4294967296 ltac:(lia)). lia.
Qed.

Lemma tolower_r c : tolower c = "r"%char -> c = "r"%char \/ c = "R"%char.
Proof.
  destruct c as [[] [] [] [] [] [] [] []]; vm_compute; intros H;
    (discriminate H || (left; reflexivity) || (right; reflexivity)).
Qed.

Lemma parse_reg_names :
  forallb (fun n => bool_decide (parse_reg (reg_name n) = Some n) &&
                    bool_decide (parse_reg ("R" +:+ dec n) = Some n))
          (seqZ 0 8) = true.
Proof. vm_compute. reflexivity. Qed.

(** X21: [parse_reg] and [reg_of].  A register that is accepted has a
    number from 0 to 7 and a name that starts with r or R; the names r0 to
    r7 and R0 to R7 are accepted with their numbers; r8, a lone r and the
    empty string are not.  [reg_of] gives the number of an accepted name
    and leaves the assembler as it is, and otherwise throws [bad register:]
    followed by the token as the C string of the message shows it: up to
    its first NUL byte, which is all of it when it holds none. *)
Theorem parse_reg_gives_0_to_7 (s : string) :
  (forall r, parse_reg s = Some r ->
     0 <= r <= 7 /\
     (Str.front s = Some "r"%char \/ Str.front s = Some "R"%char) /\
     forall st, reg_of s st = Ok (r, st)) /\
  (parse_reg s = None ->
     forall st, reg_of s st = Err (RuntimeError ("bad register: " +:+ c_str s))) /\
  (Str.find ch_nul s = None -> c_str s = s) /\
  (forall a b, Str.find ch_nul a = None -> c_str (a +:+ String ch_nul b) = a) /\
  (forall n, 0 <= n <= 7 ->
     parse_reg (reg_name n) = Some n /\ parse_reg ("R" +:+ dec n) = Some n) /\
  parse_reg "r8" = None /\ parse_reg "r" = None /\ parse_reg "" = None.
Proof.
  split; [|split; [|split; [|split; [|split; [|repeat split]]]]].
  - intros r H. assert (Hreg : forall st, reg_of s st = Ok (r, st) \/ ~ 0 <= r <= 7).
    { intros st. unfold reg_of. rewrite H.
      destruct (Z_le_dec 0 r), (Z_le_dec r 7); try (right; lia).
      left. unfold ret. f_equal. f_equal. apply wrap16_id. unfold u16. lia. }
    unfold parse_reg in H.
    destruct ((Str.size (lower s) <? 2)%nat || _) eqn:E1; [discriminate|].
    apply orb_false_iff in E1 as [_ E1]. apply negb_false_iff in E1.
    destruct (strtol _ 10) as [v rest].
    destruct (negb (Str.empty rest)); [discriminate|].
    destruct ((v <? 0) || (7 <? v)) eqn:E2; [discriminate|].
    apply orb_false_iff in E2 as [E2 E3].
    apply Z.ltb_ge in E2. apply Z.ltb_ge in E3.
    injection H as <-. rewrite to_int32_id in * by lia.
    split; [lia|]. split.
    + destruct s as [|c s]; [discriminate|]. cbn in E1 |- *.
      unfold ascii_eqb in E1. apply Ascii.eqb_eq in E1.
      destruct (tolower_r c E1) as [-> | ->]; auto.
    + intros st. destruct (Hreg st) as [H|H]; [exact H|lia].
  - intros H st. unfold reg_of. rewrite H. unfold throw, runtime_error.
    now rewrite (c_str_app "bad register: " s).
  - apply c_str_id.
  - apply c_str_cut.
  - intros n Hn.
    pose proof (forall_range _ _ parse_reg_names n ltac:(lia)) as C. cbv beta in C.
    apply andb_true_iff in C as [C1 C2].
    apply bool_decide_eq_true_1 in C1. apply bool_decide_eq_true_1 in C2.
    now split.
Qed.

(** *** Numbers in decimal notation *)

Lemma uint_val_acc u : forall acc : positive,
  uint_val u (Z.pos acc) = Z.pos (Pos.of_uint_acc u acc).
Proof.
  induction u; intros acc; cbn [uint_val Pos.of_uint_acc];
    try reflexivity; rewrite <- IHu; f_equal; lia.
Qed.

Lemma uint_val_0 u : uint_val u 0 = Z.of_N (Pos.of_uint u).
Proof.
  induction u; cbn [uint_val Pos.of_uint]; try reflexivity;
    try exact IHu;
    change (0 * 10 + ?k) with k; rewrite uint_val_acc; reflexivity.
Qed.

Lemma uint_val_to_uint p : uint_val (Pos.to_uint p) 0 = Z.pos p.
Proof. now rewrite uint_val_0, DecimalPos.Unsigned.of_to. Qed.

Lemma read_digits_more u : forall acc,
  read_digits 10 (NilEmpty.string_of_uint u) acc true =
    (uint_val u acc, true, EmptyString).
Proof.
  induction u; intros acc; cbn [NilEmpty.string_of_uint uint_val];
    try reflexivity; cbn [read_digits];
    match goal with
    | |- context [digit_of 10 ?c] =>
        let d := eval vm_compute in (digit_of 10 c) in
        change (digit_of 10 c) with d
    end; cbv iota beta; apply IHu.
Qed.

Lemma read_digits_uint u acc any :
  u <> Decimal.Nil ->
  read_digits 10 (NilEmpty.string_of_uint u) acc any =
    (uint_val u acc, true, EmptyString).
Proof.
  intros Hu. destruct u; [congruence|..];
    cbn [NilEmpty.string_of_uint uint_val read_digits];
    match goal with
    | |- context [digit_of 10 ?c] =>
        let d := eval vm_compute in (digit_of 10 c) in
        change (digit_of 10 c) with d
    end; cbv iota beta; apply read_digits_more.
Qed.

(** The digits of a decimal numeral: what the tests of [parse_int] and
    [strtol] see of them. *)
Lemma digit_facts c :
  is_digit c = true ->
  isspace c = false /\ ascii_eqb c ch_nul = false /\
  ascii_eqb c "#"%char = false /\ ascii_eqb c ch_squote = false /\
  ascii_eqb c "x"%char = false /\ ascii_eqb c "X"%char = false /\
  c <> "-"%char /\ c <> "+"%char.
Proof.
  destruct c as [[] [] [] [] [] [] [] []]; vm_compute; intros H;
    try discriminate H; repeat split; discriminate.
Qed.

Lemma uint_digits u :
  forallb is_digit (list_ascii_of_string (NilEmpty.string_of_uint u)) = true.
Proof.
  induction u; cbn [NilEmpty.string_of_uint list_ascii_of_string forallb];
    try reflexivity; rewrite IHu; reflexivity.
Qed.

Lemma c_str_digits s :
  forallb is_digit (list_ascii_of_string s) = true -> c_str s = s.
Proof.
  unfold c_str. induction s as [|c s IH]; [reflexivity|].
  cbn [list_ascii_of_string forallb Str.take_while]. intros H.
  apply andb_true_iff in H as [Hc Hs].
  destruct (digit_facts c Hc) as (_ & -> & _). cbn [negb].
  now rewrite IH.
Qed.

Lemma read_digits_true base s : forall acc,
  snd (fst (read_digits base s acc true)) = true.
Proof.
  induction s as [|c s IH]; intros acc; cbn [read_digits]; [reflexivity|].
  destruct (digit_of base c); [apply IH|reflexivity].
Qed.

(** [strtol] in base 10 on a string that starts with a digit, or with a
    minus sign and a digit. *)
Lemma strtol_digit c s :
  is_digit c = true ->
  strtol (String c s) 10 =
    (clamp_long (fst (fst (read_digits 10 (String c s) 0 false))),
     snd (read_digits 10 (String c s) 0 false)).
Proof.
  intros H.
  destruct c as [[] [] [] [] [] [] [] []]; vm_compute in H; try discriminate H;
    clear H; unfold strtol; cbn [Str.drop_while];
    match goal with
    | |- context [isspace ?c] =>
        let b := eval vm_compute in (isspace c) in change (isspace c) with b
    end; cbv iota beta.
  all: destruct s as [|x s']; [reflexivity|].
  all: try change (10 =? 16) with false; cbn [andb]; cbv iota beta.
  all: cbn [read_digits];
    match goal with
    | |- context [digit_of 10 ?c] =>
        let d := eval vm_compute in (digit_of 10 c) in
        change (digit_of 10 c) with d
    end; cbv iota beta.
  all: destruct (digit_of 10 x); [|reflexivity].
  all: match goal with
       | |- context [read_digits 10 ?t ?a true] =>
           pose proof (read_digits_true 10 t a) as Hany;
           destruct (read_digits 10 t a true) as [[v any] rest]
       end; cbn [fst snd] in *; subst any; reflexivity.
Qed.

Lemma strtol_minus_digit c s :
  is_digit c = true ->
  strtol (String "-"%char (String c s)) 10 =
    (clamp_long (- fst (fst (read_digits 10 (String c s) 0 false))),
     snd (read_digits 10 (String c s) 0 false)).
Proof.
  intros H.
  destruct c as [[] [] [] [] [] [] [] []]; vm_compute in H; try discriminate H;
    clear H; unfold strtol; cbn [Str.drop_while];
    match goal with
    | |- context [isspace ?c] =>
        let b := eval vm_compute in (isspace c) in change (isspace c) with b
    end; cbv iota beta.
  all: destruct s as [|x s']; [reflexivity|].
  all: try change (10 =? 16) with false; cbn [andb]; cbv iota beta.
  all: cbn [read_digits];
    match goal with
    | |- context [digit_of 10 ?c] =>
        let d := eval vm_compute in (digit_of 10 c) in
        change (digit_of 10 c) with d
    end; cbv iota beta.
  all: destruct (digit_of 10 x); [|reflexivity].
  all: match goal with
       | |- context [read_digits 10 ?t ?a true] =>
           pose proof (read_digits_true 10 t a) as Hany;
           destruct (read_digits 10 t a true) as [[v any] rest]
       end; cbn [fst snd] in *; subst any; reflexivity.
Qed.

Lemma to_uint_not_nil p : Pos.to_uint p <> Decimal.Nil.
Proof.
  intros E. pose proof (uint_val_to_uint p) as H. rewrite E in H. discriminate H.
Qed.

(** [parse_int] on a string of digits, and on a minus sign before one. *)
Lemma parse_int_digits c s :
  forallb is_digit (list_ascii_of_string (String c s)) = true ->
  parse_int (String c s) =
    (let '(v, _, rest) := read_digits 10 (String c s) 0 false in
     if Str.empty rest then Some (to_int32 (clamp_long v)) else None).
Proof.
  intros H. pose proof (c_str_digits _ H) as Hc.
  cbn [list_ascii_of_string forallb] in H. apply andb_true_iff in H as [Hd Hs].
  destruct (digit_facts c Hd) as (_ & _ & F1 & F2 & _).
  unfold parse_int. cbn [Str.front is_char]. rewrite F1. cbn [Str.front is_char].
  rewrite F2, andb_false_r. cbn [andb].
  assert (Hb : (2 <? Str.size (String c s))%nat &&
               is_char (Str.char_at 0 (String c s)) "0"%char &&
               (is_char (Str.char_at 1 (String c s)) "x"%char
                || is_char (Str.char_at 1 (String c s)) "X"%char) = false).
  { destruct s as [|x s']; [now rewrite andb_false_r|].
    cbn [list_ascii_of_string forallb] in Hs. apply andb_true_iff in Hs as [Hx _].
    destruct (digit_facts x Hx) as (_ & _ & _ & _ & F3 & F4 & _).
    cbn [Str.char_at String.get is_char]. rewrite F3, F4. apply andb_false_r. }
  rewrite Hb, Hc. rewrite strtol_digit by exact Hd.
  destruct (read_digits 10 (String c s) 0 false) as [[v any] rest]. reflexivity.
Qed.

Lemma parse_int_minus_digits c s :
  forallb is_digit (list_ascii_of_string (String c s)) = true ->
  parse_int (String "-"%char (String c s)) =
    (let '(v, _, rest) := read_digits 10 (String c s) 0 false in
     if Str.empty rest then Some (to_int32 (clamp_long (- v))) else None).
Proof.
  intros H. pose proof (c_str_digits _ H) as Hc.
  cbn [list_ascii_of_string forallb] in H. apply andb_true_iff in H as [Hd Hs].
  unfold parse_int. cbn [Str.front is_char].
  change (ascii_eqb "-" "#") with false. cbv iota. cbn [Str.front is_char].
  change (ascii_eqb "-" ch_squote) with false. rewrite andb_false_r. cbn [andb].
  change (is_char (Str.char_at 0 (String "-" (String c s))) "0"%char) with false.
  rewrite andb_false_r. cbn [andb].
  assert (Hc' : c_str (String "-"%char (String c s)) = String "-"%char (String c s)).
  { unfold c_str in *. cbn [Str.take_while].
    change (ascii_eqb "-" ch_nul) with false. cbn [negb]. cbv iota.
    f_equal. exact Hc. }
  rewrite Hc'. rewrite strtol_minus_digit by exact Hd.
  destruct (read_digits 10 (String c s) 0 false) as [[v any] rest]. reflexivity.
Qed.

Lemma uint_string_cons u :
  u <> Decimal.Nil ->
  exists c s, NilEmpty.string_of_uint u = String c s.
Proof. destruct u; [congruence|..]; intros _; cbn; eauto. Qed.

Lemma parse_int_uint u :
  u <> Decimal.Nil ->
  parse_int (NilEmpty.string_of_uint u) = Some (to_int32 (clamp_long (uint_val u 0))) /\
  parse_int (String "-"%char (NilEmpty.string_of_uint u))
    = Some (to_int32 (clamp_long (- uint_val u 0))).
Proof.
  intros Hu. pose proof (uint_digits u) as Hd.
  pose proof (read_digits_uint u 0 false Hu) as Hr.
  destruct (uint_string_cons u Hu) as (c & s & E). rewrite E in *.
  rewrite parse_int_digits, parse_int_minus_digits by exact Hd.
  rewrite Hr. split; reflexivity.
Qed.

Lemma parse_int_hash s :
  is_char (Str.front s) "#"%char = false ->
  parse_int (String "#"%char s) = parse_int s.
Proof.
  intros H. unfold parse_int. rewrite H. reflexivity.
Qed.

Lemma dec_front v : is_char (Str.front (dec v)) "#"%char = false.
Proof.
  unfold dec. destruct v as [|p|p]; [reflexivity|..]; cbn [Z.to_int NilZero.string_of_int].
  - unfold NilZero.string_of_uint.
    pose proof (to_uint_not_nil p) as Hn. pose proof (uint_digits (Pos.to_uint p)) as Hd.
    destruct (uint_string_cons _ Hn) as (c & s & E).
    destruct (Pos.to_uint p); [congruence|..]; reflexivity.
  - reflexivity.
Qed.

(** X22: [parse_int] reads decimal notation.  The decimal numeral of any
    integer v, with or without the # in front, is accepted, and the value
    is v clamped to the range of [long] (as [strtol] does) and then
    converted to [int]: it is v itself whenever v is an [int]. *)
Theorem parse_int_reads_decimal (v : Z) :
  parse_int (dec v) = Some (to_int32 (clamp_long v)) /\
  parse_int ("#" +:+ dec v) = Some (to_int32 (clamp_long v)) /\
  (-2147483648 <= v <= 2147483647 -> parse_int (dec v) = Some v).
Proof.
  assert (H : parse_int (dec v) = Some (to_int32 (clamp_long v))).
  { unfold dec. destruct v as [|p|p]; [reflexivity|..];
      cbn [Z.to_int NilZero.string_of_int]; unfold NilZero.string_of_uint;
      pose proof (to_uint_not_nil p) as Hn;
      destruct (parse_int_uint _ Hn) as [H1 H2];
      rewrite uint_val_to_uint in H1, H2.
    - destruct (Pos.to_uint p); [congruence|..]; exact H1.
    - destruct (Pos.to_uint p); [congruence|..]; exact H2. }
  split; [exact H|]. split.
  - change ("#" +:+ dec v) with (String "#"%char (dec v)).
    rewrite parse_int_hash by apply dec_front. exact H.
  - intros Hv. rewrite H. f_equal.
    unfold clamp_long. rewrite Z.min_r, Z.max_r by lia. apply to_int32_id. lia.
Qed.

(** *** Character literals, and the range of the values *)

Lemma code_range c : 0 <= code c <= 255.
Proof.
  destruct c as [[] [] [] [] [] [] [] []]; vm_compute; split; discriminate.
Qed.

Lemma parse_int_char c :
  parse_int (char_literal c) = Some (code c) /\
  parse_int (escape_literal c) =
    Some (if ascii_eqb c "n"%char then 10
          else if ascii_eqb c "t"%char then 9
          else if ascii_eqb c "0"%char then 0 else code c).
Proof.
  destruct c as [[] [] [] [] [] [] [] []]; vm_compute; split; reflexivity.
Qed.

(** X23: the other operands [parse_int] accepts, and the range of what it
    returns.  A character between single quotes is its character code,
    from 0 to 255, and the escapes \n, \t and \0 between single quotes are
    10, 9 and 0 (any other escaped character is itself).  Every value
    returned is an [int].  The empty string, and a lone #, are accepted as
    the number 0; digits followed by a blank, or 0x without a digit, are
    not accepted. *)
Theorem parse_int_literals_and_range (s : string) (c : ascii) :
  parse_int (char_literal c) = Some (code c) /\
  0 <= code c <= 255 /\
  parse_int (escape_literal c) =
    Some (if ascii_eqb c "n"%char then 10
          else if ascii_eqb c "t"%char then 9
          else if ascii_eqb c "0"%char then 0 else code c) /\
  (forall v, parse_int s = Some v -> -2147483648 <= v <= 2147483647) /\
  parse_int "" = Some 0 /\ parse_int "#" = Some 0 /\
  parse_int "12 " = None /\ parse_int "0x" = None.
Proof.
  destruct (parse_int_char c) as [H1 H2].
  split; [exact H1|]. split; [apply code_range|]. split; [exact H2|].
  split; [|repeat split].
  intros v. unfold parse_int.
  set (t := if is_char (Str.front s) "#"%char then Str.substr_from 1 s else s).
  destruct (_ && _ && is_char (Str.back t) ch_squote).
  - destruct (Str.size t =? 3)%nat.
    + destruct (Str.char_at 1 t) as [d|]; cbn [fmap option_fmap option_map].
      * intros [= <-]. pose proof (code_range d). lia.
      * destruct (strtol _ _) as [L rest].
        destruct (Str.empty rest); [|discriminate].
        intros [= <-]. pose proof (to_int32_range L). lia.
    + destruct (_ && _).
      * destruct (Str.char_at 2 t) as [d|].
        -- repeat (destruct (ascii_eqb d _); [intros [= <-]; lia|]).
           intros [= <-]. pose proof (code_range d). lia.
        -- destruct (strtol _ _) as [L rest].
           destruct (Str.empty rest); [|discriminate].
           intros [= <-]. pose proof (to_int32_range L). lia.
      * destruct (strtol _ _) as [L rest].
        destruct (Str.empty rest); [|discriminate].
        intros [= <-]. pose proof (to_int32_range L). lia.
  - destruct (strtol _ _) as [L rest].
    destruct (Str.empty rest); [|discriminate].
    intros [= <-]. pose proof (to_int32_range L). lia.
Qed.

(** *** Address operands *)

Lemma tolower_idempotent c : tolower (tolower c) = tolower c.
Proof. destruct c as [[] [] [] [] [] [] [] []]; reflexivity. Qed.

Lemma lower_idempotent s : lower (lower s) = lower s.
Proof.
  induction s as [|c s IH]; [reflexivity|]. cbn [lower].
  now rewrite tolower_idempotent, IH.
Qed.

Lemma lower_empty s : Str.empty (lower s) = Str.empty s.
Proof. now destruct s. Qed.

Lemma emit_fixup16_run name st :
  emit_fixup16 name st =
    Ok (tt, set_bytes (bytes st ++ [0; 0])
              (set_fixups (fixups st ++ [(to_int32 (Z.of_nat (length (bytes st))), name)])
                          st)).
Proof.
  unfold emit_fixup16, bind. rewrite emit16_bytes. reflexivity.
Qed.

Lemma wrap16_low_byte v : wrap16 v mod 256 = v mod 256.
Proof.
  unfold wrap16. apply Z.mod_mod_divide. exists 256. reflexivity.
Qed.

Lemma wrap16_high_byte v : wrap16 v / 256 mod 256 = v / 256 mod 256.
Proof.
  unfold wrap16. change 65536 with (256 * 256).
  rewrite Z.rem_mul_r by lia.
  rewrite (Z.mul_comm 256), Z.div_add by lia.
  rewrite (Z.div_small (v mod 256)) by (apply Z.mod_pos_bound; lia).
  cbn [Z.add]. apply Z.mod_mod. lia.
Qed.

(** X24: an address operand.  A token that, trimmed, is a non-empty text
    between brackets becomes a word or a fixup, according to what stands
    between the brackets: when [parse_int] accepts that text (trimmed), the
    low 16 bits of its value are appended, low byte first; when it does
    not, two zero bytes are appended and a fixup is recorded at their
    offset under that text in lower case, which is never empty -- the
    address that [parse_addr_token] leaves unset in that case is never
    read.  Every other token -- shorter than three characters, or without
    a bracket at one of its ends -- makes [emit_addr] throw the message of
    its instruction. *)
Theorem address_operand_is_word_or_fixup (tok what inner : string) (st : Assembler) :
  Z.of_nat (Str.size inner) < 18446744073709551616 ->
  (trim tok = "[" +:+ inner +:+ "]" -> inner <> EmptyString ->
     parse_addr_token tok =
       match parse_int (trim inner) with
       | Some v => Some (Some (v mod 65536), EmptyString)
       | None => Some (None, lower (trim inner))
       end /\
     emit_addr tok what st =
       match parse_int (trim inner) with
       | Some v => Ok (tt, set_bytes (bytes st ++ [v mod 256; v / 256 mod 256]) st)
       | None =>
           Ok (tt, set_bytes (bytes st ++ [0; 0])
                     (set_fixups
                        (fixups st ++
                           [(to_int32 (Z.of_nat (length (bytes st))), lower (trim inner))])
                        st))
       end /\
     (parse_int (trim inner) = None -> lower (trim inner) <> EmptyString)) /\
  ((forall i, i <> EmptyString -> trim tok <> "[" +:+ i +:+ "]") ->
     parse_addr_token tok = None /\
     emit_addr tok what st = Err (runtime_error what)).
Proof.
  intros Hsz. split.
  - intros Ht Hne.
    destruct (bracket_inside inner Hne Hsz) as (T1 & T2 & T3 & T4). cbv zeta in *.
    assert (Hp : parse_addr_token tok =
                 match parse_int (trim inner) with
                 | Some v => Some (Some (v mod 65536), EmptyString)
                 | None => Some (None, lower (trim inner))
                 end).
    { unfold parse_addr_token. cbv zeta. rewrite Ht, T1, T2, T3, T4. reflexivity. }
    assert (Hn : parse_int (trim inner) = None -> lower (trim inner) <> EmptyString).
    { intros E H. assert (Hi : trim inner = EmptyString).
      { destruct (trim inner); [reflexivity|discriminate H]. }
      rewrite Hi in E. discriminate E. }
    split; [exact Hp|]. split; [|exact Hn].
    unfold emit_addr. rewrite Hp.
    destruct (parse_int (trim inner)) as [v|] eqn:E.
    + cbn [Str.empty]. fold (wrap16 v).
      now rewrite emit16_bytes, wrap16_low_byte, wrap16_high_byte.
    + specialize (Hn eq_refl).
      destruct (lower (trim inner)) as [|c l] eqn:El; [congruence|].
      cbn [Str.empty]. apply emit_fixup16_run.
  - intros Hno.
    assert (Hp : parse_addr_token tok = None).
    { unfold parse_addr_token. cbv zeta.
      destruct (Str.size (trim tok) <? 3)%nat eqn:E1; [reflexivity|].
      destruct (is_char (Str.front (trim tok)) "["%char) eqn:E2; [|reflexivity].
      destruct (is_char (Str.back (trim tok)) "]"%char) eqn:E3; [|reflexivity].
      destruct (bracket_form _ E1 E2 E3) as (i & Hi & Ht).
      exfalso. exact (Hno i Hi Ht). }
    split; [exact Hp|]. unfold emit_addr. now rewrite Hp.
Qed.

Lemma address_operand_is_word_or_fixup_witness :
  emit_addr " [0xFF00] " "IN rd, [addr16]" new_Assembler =
    Ok (tt, set_bytes [0; 255] new_Assembler) /\
  emit_addr "[ Buf ]" "LDB rd, [addr16]" new_Assembler =
    Ok (tt, set_bytes [0; 0] (set_fixups [(0, "buf")] new_Assembler)) /\
  emit_addr "[]" "LDB rd, [addr16]" new_Assembler =
    Err (RuntimeError "LDB rd, [addr16]").
Proof.
  assert (H4 : Z.of_nat (Str.size "0xFF00") < 18446744073709551616) by (cbn; lia).
  assert (H5 : Z.of_nat (Str.size " Buf ") < 18446744073709551616) by (cbn; lia).
  destruct (address_operand_is_word_or_fixup
              " [0xFF00] " "IN rd, [addr16]" "0xFF00" new_Assembler H4) as [A1 _].
  destruct (address_operand_is_word_or_fixup
              "[ Buf ]" "LDB rd, [addr16]" " Buf " new_Assembler H5) as [B1 _].
  destruct (address_operand_is_word_or_fixup
              "[]" "LDB rd, [addr16]" " Buf " new_Assembler H5) as [_ C1].
  split; [|split].
  - destruct A1 as (_ & E & _); [reflexivity|discriminate|]. exact E.
  - destruct B1 as (_ & E & _); [reflexivity|discriminate|]. exact E.
  - destruct C1 as (_ & E).
    + intros i Hi H. destruct i as [|c i]; [congruence|].
      destruct i; vm_compute in H; discriminate H.
    + exact E.
Defined.

(** ** What the two passes accept *)

Lemma label_of_lower raw l : label_of raw = Some l -> lower l = l.
Proof.
  unfold label_of. destruct (Str.empty _); [discriminate|].
  destruct (is_char _ _).
  - intros [= <-]. apply lower_idempotent.
  - destruct (Str.find _ _); [|discriminate].
    intros [= <-]. apply lower_idempotent.
Qed.

Lemma fold_pc_u16 {A} (parts : list A) : forall pc,
  u16 pc -> u16 (fold_left (fun pc _ => wrap16 (pc + 2)) parts pc).
Proof.
  induction parts as [|p parts IH]; intros pc H; cbn [fold_left]; [exact H|].
  apply IH, wrap16_u16.
Qed.

Lemma pass1_stmt_outcome s pc sy :
  u16 pc ->
  match pass1_stmt s pc sy with
  | Ok (pc', sy') => u16 pc' /\ sy' = sy
  | Err e => e = RuntimeError ".org expects value" \/
             e = RuntimeError ".stringz expects string"
  end.
Proof.
  intros Hpc. unfold pass1_stmt.
  repeat match goal with
         | |- context [if ?b then _ else _] => destruct b
         | |- context [match parse_int ?x with _ => _ end] => destruct (parse_int x)
         | |- context [let '(_, _) := ?e in _] => destruct e
         end;
    try (split; [|reflexivity]);
    try apply wrap16_u16; try (now apply fold_pc_u16); auto.
Qed.

Lemma pass1_line_outcome raw pc sy :
  u16 pc ->
  (forall k a, sy !! k = Some a -> u16 a /\ lower k = k) ->
  match pass1_line raw pc sy with
  | Ok (pc', sy') =>
      u16 pc' /\
      (forall k a, sy' !! k = Some a -> u16 a /\ lower k = k) /\
      (forall k, is_Some (sy !! k) -> is_Some (sy' !! k))
  | Err e => e = RuntimeError ".org expects value" \/
             e = RuntimeError ".stringz expects string"
  end.
Proof.
  intros Hpc Hsy. rewrite pass1_line_stmt. cbv zeta.
  set (sy1 := match label_of raw with Some l => <[l := pc]> sy | None => sy end).
  assert (H1 : (forall k a, sy1 !! k = Some a -> u16 a /\ lower k = k) /\
               (forall k, is_Some (sy !! k) -> is_Some (sy1 !! k))).
  { unfold sy1. destruct (label_of raw) as [l|] eqn:El; [|now split].
    split.
    - intros k a. rewrite lookup_insert. case_decide as E.
      + intros [= <-]. subst k. split; [exact Hpc|]. now apply label_of_lower in El.
      + apply Hsy.
    - intros k Hk. rewrite lookup_insert. case_decide; [eauto|exact Hk]. }
  destruct H1 as [H1 H2].
  destruct (statement_of raw) as [s|];
    [|split; [exact Hpc|split; [exact H1|exact H2]]].
  pose proof (pass1_stmt_outcome s pc sy1 Hpc) as H.
  destruct (pass1_stmt s pc sy1) as [[pc' sy']|e]; [|exact H].
  destruct H as [Hp ->]. split; [exact Hp|split; [exact H1|exact H2]].
Qed.

(** X25: pass 1 and its symbol table.  Started with a 16-bit location
    counter and a table whose keys are in lower case and whose values are
    16-bit addresses, the loop of pass 1 either ends with such a counter and
    such a table, in which every symbol that was defined still is, or
    throws one of two errors: [.org expects value] or
    [.stringz expects string].  It throws nothing else -- an unknown
    mnemonic or a missing operand is not noticed before pass 2. *)
Theorem pass1_keeps_its_table_well_formed
    (ls : list string) (pc : Z) (sy : gmap string Z) :
  u16 pc ->
  (forall k a, sy !! k = Some a -> u16 a /\ lower k = k) ->
  match pass1_loop ls pc sy with
  | Ok (pc', sy') =>
      u16 pc' /\
      (forall k a, sy' !! k = Some a -> u16 a /\ lower k = k) /\
      (forall k, is_Some (sy !! k) -> is_Some (sy' !! k))
  | Err e => e = RuntimeError ".org expects value" \/
             e = RuntimeError ".stringz expects string"
  end.
Proof.
  revert pc sy. induction ls as [|raw ls IH]; intros pc sy Hpc Hsy.
  - cbn. split; [exact Hpc|split; [exact Hsy|auto]].
  - cbn [pass1_loop].
    pose proof (pass1_line_outcome raw pc sy Hpc Hsy) as H.
    destruct (pass1_line raw pc sy) as [[pc1 sy1]|e]; [|exact H].
    destruct H as (Hp1 & Hs1 & Hk1).
    specialize (IH pc1 sy1 Hp1 Hs1).
    destruct (pass1_loop ls pc1 sy1) as [[pc' sy']|e]; [|exact IH].
    destruct IH as (Hp & Hs & Hk). split; [exact Hp|split; [exact Hs|]].
    intros k Hkk. apply Hk, Hk1, Hkk.
Qed.

Lemma pass1_keeps_its_table_well_formed_witness :
  pass1_loop src_labels 0 ∅ = Ok (8, {[ "start" := 0; "data" := 4; "end" := 8 ]}) /\
  match pass1_loop src_labels 0 ∅ with
  | Ok (pc', sy') => forall k a, sy' !! k = Some a -> u16 a /\ lower k = k
  | Err _ => False
  end.
Proof.
  split; [vm_compute; reflexivity|].
  assert (H0 : u16 0) by (unfold u16; lia).
  assert (He : forall k a, (∅ : gmap string Z) !! k = Some a -> u16 a /\ lower k = k).
  { intros k a H. rewrite lookup_empty in H. discriminate H. }
  pose proof (pass1_keeps_its_table_well_formed src_labels 0 ∅ H0 He) as H.
  destruct (pass1_loop src_labels 0 ∅) as [[pc' sy']|e] eqn:E.
  - apply H.
  - vm_compute in E. discriminate E.
Defined.

(** *** The cases of pass 2 *)

Lemma part_missing (parts : list string) i st :
  (length parts <= i)%nat ->
  part parts i st = Err (Undefined "parts[i] past the end").
Proof.
  intros H. unfold part. now rewrite (lookup_ge_None_2 parts i) by exact H.
Qed.

(** X26: the mnemonic and the number of operands in pass 2.  A mnemonic
    without a case ends the assembly with [Unknown mnemonic:] and the
    mnemonic in lower case -- after pass 1 has counted two bytes for it.
    LDI, MOV, NOT, LD, ST, LDB, STB, IN and OUT check the number of their
    operands and throw their usage line when it is wrong.  ADD, SUB, AND,
    OR, XOR, SHL, SHR, ADDI, CMPI and CMP do not: with no operand, or with
    one register as the only operand, they read [parts[0]] or [parts[1]]
    past the end of the vector, which C++ leaves undefined; with one
    operand that is no register they throw [bad register:] and the
    operand.  A mnemonic or an operand in a message is shown as the C
    string of the message shows it: up to its first NUL byte, which is all
    of it when it holds none. *)
Theorem operand_counts_in_pass2 (M : string) (parts : list string) (st : Assembler) :
  (M ∉ known_mnemonics ->
     encode_insn M parts st = Err (RuntimeError ("Unknown mnemonic: " +:+ c_str M)) /\
     insn_size M parts = 2%nat) /\
  (forall n what, (M, n, what) ∈ counted_mnemonics -> length parts <> n ->
     encode_insn M parts st = Err (RuntimeError what)) /\
  (M ∈ uncounted_mnemonics ->
     (parts = [] ->
        encode_insn M parts st = Err (Undefined "parts[i] past the end")) /\
     (forall p0, parts = [p0] ->
        encode_insn M parts st =
          match parse_reg p0 with
          | Some _ => Err (Undefined "parts[i] past the end")
          | None => Err (RuntimeError ("bad register: " +:+ c_str p0))
          end)) /\
  (forall s, Str.find ch_nul s = None -> c_str s = s) /\
  (forall a b, Str.find ch_nul a = None -> c_str (a +:+ String ch_nul b) = a).
Proof.
  split; [|split; [|split; [|split; [apply c_str_id|apply c_str_cut]]]].
  - intros H. split.
    + unfold encode_insn.
      repeat (let E := fresh "E" in
              case_bool_decide as E;
              [exfalso; apply H; rewrite E; unfold known_mnemonics;
               repeat constructor|]).
      unfold throw, runtime_error.
      now rewrite (c_str_app "Unknown mnemonic: " M).
    + unfold insn_size, needWide.
      case_bool_decide as E1;
        [exfalso; apply H; rewrite E1; unfold known_mnemonics; repeat constructor|].
      case_bool_decide as E2;
        [exfalso; apply H; rewrite E2; unfold known_mnemonics; repeat constructor|].
      case_bool_decide as E3; [|reflexivity].
      exfalso. apply H. unfold known_mnemonics. set_unfold in E3. clear -E3.
      repeat (destruct E3 as [E3| ->]; [|repeat constructor]).
      subst M. repeat constructor.
  - intros n what H Hn. unfold counted_mnemonics in H.
    repeat (apply elem_of_cons in H as [H|H];
            [injection H as -> -> ->|]); [..|inversion H];
      unfold encode_insn;
      repeat (let E := fresh "E" in
              case_bool_decide as E; [try discriminate E|try congruence]);
      (replace (length parts =? _)%nat with false
         by (symmetry; apply Nat.eqb_neq; exact Hn));
      reflexivity.
  - intros H. unfold uncounted_mnemonics in H.
    repeat (apply elem_of_cons in H as [->|H]); [..|inversion H];
      (split; [intros ->|intros p0 ->]);
      unfold encode_insn;
      repeat (let E := fresh "E" in
              case_bool_decide as E; [try discriminate E|try congruence]);
      unfold emit_reg_reg, emit_shift, emit_reg_imm8, bind;
      rewrite ?part_missing by (cbn; lia); try reflexivity;
      cbn [part lookup list_lookup ret]; unfold reg_of;
      destruct (parse_reg p0); cbn [ret];
      try reflexivity;
      unfold throw, runtime_error;
      now rewrite (c_str_app "bad register: " p0).
Qed.

Lemma emit_imm_or_fixup_run tok name st :
  emit_imm_or_fixup tok name st =
    match parse_int tok with
    | Some v => Ok (tt, set_bytes (bytes st ++ [v mod 256; v / 256 mod 256]) st)
    | None =>
        Ok (tt, set_bytes (bytes st ++ [0; 0])
                  (set_fixups
                     (fixups st ++ [(to_int32 (Z.of_nat (length (bytes st))), name)])
                     st))
    end.
Proof.
  unfold emit_imm_or_fixup. destruct (parse_int tok) as [v|].
  - now rewrite emit16_bytes, wrap16_low_byte, wrap16_high_byte.
  - apply emit_fixup16_run.
Qed.

(** X27: the operand of a jump and of CALL is a number or a label.  After the instruction word (the opcode in its high byte), a
    token that [parse_int] accepts is appended as its low 16 bits, low byte
    first; any other token leaves two zero bytes and a fixup at their
    offset under the token in lower case.  Operands behind the first one of
    a jump are ignored. *)
Theorem jump_operand_is_word_or_fixup
    (M : string) (op : Z) (tok : string) (more : list string) (st : Assembler) :
  (M, op) ∈ jump_mnemonics ->
  encode_insn M (tok :: more) st =
    match parse_int tok with
    | Some v =>
        Ok (tt, set_bytes (bytes st ++ [0; op * 8; v mod 256; v / 256 mod 256]) st)
    | None =>
        Ok (tt, set_bytes (bytes st ++ [0; op * 8; 0; 0])
                  (set_fixups
                     (fixups st ++
                        [(to_int32 (Z.of_nat (length (bytes st ++ [0; op * 8]))),
                          lower tok)])
                     st))
    end.
Proof.
  intros H. unfold jump_mnemonics in H.
  repeat (apply elem_of_cons in H as [H|H]; [injection H as -> ->|]);
    [..|inversion H];
    unfold encode_insn;
    repeat (let E := fresh "E" in
            case_bool_decide as E; [try discriminate E|try congruence]);
    cbn [orb]; unfold emitW, bind; rewrite emit16_bytes;
    cbn [part lookup list_lookup ret];
    rewrite emit_imm_or_fixup_run; cbn [bytes set_bytes fixups set_fixups];
    destruct (parse_int tok); rewrite <- app_assoc; reflexivity.
Qed.

Lemma jump_operand_is_word_or_fixup_witness :
  encode_insn "jmp" ["0x1234"] new_Assembler
    = Ok (tt, set_bytes [0; 0xA8; 0x34; 0x12] new_Assembler) /\
  encode_insn "call" ["Loop"] new_Assembler
    = Ok (tt, set_bytes [0; 0xD0; 0; 0] (set_fixups [(2, "loop")] new_Assembler)).
Proof.
  split.
  - rewrite (jump_operand_is_word_or_fixup "jmp" 0x15 "0x1234" [] new_Assembler).
    + reflexivity.
    + apply elem_of_cons. now left.
  - rewrite (jump_operand_is_word_or_fixup "call" 0x1A "Loop" [] new_Assembler).
    + reflexivity.
    + do 5 (apply elem_of_cons; right). apply elem_of_cons. now left.
Defined.
(** ** The operands that become fixups *)

(** *** No part of a line is longer than the line *)

Lemma size_drop_while p s : (Str.size (Str.drop_while p s) <= Str.size s)%nat.
Proof.
  unfold Str.size. induction s as [|c s IH]; [reflexivity|].
  cbn [Str.drop_while]. destruct (p c); cbn [String.length]; lia.
Qed.

Lemma size_take_while p s : (Str.size (Str.take_while p s) <= Str.size s)%nat.
Proof.
  unfold Str.size. induction s as [|c s IH]; [reflexivity|].
  cbn [Str.take_while]. destruct (p c); cbn [String.length]; lia.
Qed.

Lemma size_drop_while_end p s : (Str.size (Str.drop_while_end p s) <= Str.size s)%nat.
Proof.
  unfold Str.size. induction s as [|c s IH]; [reflexivity|].
  cbn [Str.drop_while_end]. destruct (p c && _); cbn [String.length]; lia.
Qed.

Lemma size_trim s : (Str.size (trim s) <= Str.size s)%nat.
Proof.
  unfold trim. etransitivity; [apply size_drop_while_end|apply size_drop_while].
Qed.

Lemma size_substr_from k : forall s, (Str.size (Str.substr_from k s) <= Str.size s)%nat.
Proof.
  unfold Str.size. induction k as [|k IH]; intros s; [reflexivity|].
  destruct s as [|c s]; cbn [Str.substr_from String.length]; [lia|].
  specialize (IH s). lia.
Qed.

Lemma size_take n : forall s, (Str.size (Str.take n s) <= Str.size s)%nat.
Proof.
  unfold Str.size. induction n as [|n IH]; intros s; cbn [Str.take String.length]; [lia|].
  destruct s as [|c s]; cbn [String.length]; [lia|]. specialize (IH s). lia.
Qed.

Lemma size_substr pos n s : (Str.size (Str.substr pos n s) <= Str.size s)%nat.
Proof.
  unfold Str.substr. etransitivity; [apply size_take|apply size_substr_from].
Qed.

Lemma size_getlines text : forall l, l ∈ getlines text -> (Str.size l <= Str.size text)%nat.
Proof.
  unfold Str.size. induction text as [|c t IH]; intros l; cbn [getlines].
  - intros H. inversion H.
  - destruct (ascii_eqb c ch_nl).
    + intros H. apply elem_of_cons in H as [->|H]; cbn [String.length]; [lia|].
      specialize (IH l H). lia.
    + destruct (getlines t) as [|l0 ls].
      * intros H. apply elem_of_cons in H as [->|H]; [|inversion H].
        cbn [String.length]. lia.
      * intros H. apply elem_of_cons in H as [->|H]; cbn [String.length].
        -- specialize (IH l0 ltac:(left)). lia.
        -- specialize (IH l ltac:(now right)). lia.
Qed.

Lemma size_strip_comment raw : (Str.size (strip_comment raw) <= Str.size raw)%nat.
Proof.
  unfold strip_comment. etransitivity; [apply size_trim|].
  destruct (Str.find _ raw); [apply size_substr|reflexivity].
Qed.

Lemma size_statement_of raw s :
  statement_of raw = Some s -> (Str.size s <= Str.size raw)%nat.
Proof.
  unfold statement_of. pose proof (size_strip_comment raw) as H0.
  destruct (Str.empty _); [discriminate|].
  destruct (is_char _ _); [discriminate|].
  destruct (Str.find ":"%char (strip_comment raw)).
  - destruct (Str.empty _); [discriminate|]. intros [= <-].
    etransitivity; [apply size_trim|].
    etransitivity; [apply size_substr_from|exact H0].
  - destruct (Str.empty _); [discriminate|]. now intros [= <-].
Qed.

Lemma size_split_mnemonic s :
  (Str.size (snd (split_mnemonic s)) <= Str.size s)%nat.
Proof.
  unfold split_mnemonic. cbn [snd].
  etransitivity; [apply size_take_while|].
  etransitivity; [apply size_drop_while|apply size_drop_while].
Qed.

Lemma size_app_char cur c :
  Str.size (cur +:+ String c EmptyString) = S (Str.size cur).
Proof. rewrite size_app. unfold Str.size. cbn. lia. Qed.

Lemma size_splitComma_scan s : forall cur par inStr p,
  p ∈ splitComma_scan s cur par inStr ->
  (Str.size p <= Str.size cur + Str.size s)%nat.
Proof.
  induction s as [|c s IH]; intros cur par inStr p; cbn [splitComma_scan].
  - destruct (Str.empty cur); intros H; [inversion H|].
    apply elem_of_cons in H as [->|H]; [|inversion H].
    pose proof (size_trim cur). lia.
  - change (Str.size (String c s)) with (S (Str.size s)).
    destruct (_ && _ && _).
    + intros H. apply elem_of_cons in H as [->|H].
      * pose proof (size_trim cur). lia.
      * apply IH in H. unfold Str.size in *. cbn in H. lia.
    + intros H. apply IH in H. rewrite size_app_char in H. lia.
Qed.

Lemma size_splitComma s p : p ∈ splitComma s -> (Str.size p <= Str.size s)%nat.
Proof. intros H. apply size_splitComma_scan in H. unfold Str.size in *. cbn in H. lia. Qed.

Lemma size_insn_of raw M parts tok :
  insn_of raw = Some (M, parts) -> tok ∈ parts -> (Str.size tok <= Str.size raw)%nat.
Proof.
  unfold insn_of. destruct (statement_of raw) as [s|] eqn:E; [|discriminate].
  apply size_statement_of in E. cbv zeta. destruct (_ || _ || _); [discriminate|].
  pose proof (size_split_mnemonic s) as H1.
  destruct (split_mnemonic s) as [m rest]. cbn [snd] in H1.
  intros [= <- <-] H. apply size_splitComma in H.
  pose proof (size_trim rest). lia.
Qed.

(** *** Code that records no fixup *)

Lemma keeps_ret {A} (a : A) : keeps_fixups (ret a).
Proof. now intros st b st' [= _ <-]. Qed.

Lemma keeps_throw {A} what : keeps_fixups (@throw A what).
Proof. intros st a st' H. discriminate H. Qed.

Lemma keeps_undefined {A} what : keeps_fixups (@undefined A what).
Proof. intros st a st' H. discriminate H. Qed.

Lemma keeps_bind {A B} (m : asm A) (k : A -> asm B) :
  keeps_fixups m -> (forall a, keeps_fixups (k a)) -> keeps_fixups (bind m k).
Proof.
  intros Hm Hk st b st' H. unfold bind in H.
  destruct (m st) as [[a st1]|e] eqn:E; [|discriminate].
  rewrite (Hk a _ _ _ H). exact (Hm _ _ _ E).
Qed.

Lemma keeps_emit8 b : keeps_fixups (emit8 b).
Proof. now intros st a st' [= _ <-]. Qed.

Lemma keeps_emit16 w : keeps_fixups (emit16 w).
Proof. intros st a st'. rewrite emit16_bytes. now intros [= _ <-]. Qed.

Lemma keeps_reg_of tok : keeps_fixups (reg_of tok).
Proof. unfold reg_of. destruct (parse_reg tok); [apply keeps_ret|apply keeps_throw]. Qed.

Lemma keeps_part parts i : keeps_fixups (part parts i).
Proof. unfold part. destruct (parts !! i); [apply keeps_ret|apply keeps_undefined]. Qed.

Lemma keeps_pad_to pc : keeps_fixups (pad_to pc).
Proof. now intros st a st' [= _ <-]. Qed.

Lemma keeps_for_each {A} (f : A -> asm unit) l :
  (forall a, keeps_fixups (f a)) -> keeps_fixups (for_each f l).
Proof.
  intros Hf. induction l as [|a l IH]; cbn [for_each]; [apply keeps_ret|].
  apply keeps_bind; [apply Hf|intros _; exact IH].
Qed.

Create HintDb keeps.
#[global] Hint Resolve keeps_ret keeps_emit8 keeps_emit16 keeps_reg_of keeps_part
  keeps_pad_to : keeps.
#[global] Hint Extern 1 (keeps_fixups (throw _)) => apply keeps_throw : keeps.
#[global] Hint Extern 1 (keeps_fixups (undefined _)) => apply keeps_undefined : keeps.

Ltac keeps_step :=
  match goal with
  | |- keeps_fixups (bind _ _) => apply keeps_bind; [|intros ?]
  | |- keeps_fixups (if ?b then _ else _) => destruct b
  | |- keeps_fixups (match ?x with _ => _ end) => destruct x
  | |- _ => solve [auto with keeps]
  end.

Ltac keeps_auto :=
  unfold emit_reg_reg, emit_shift, emit_reg_imm8, emit_short,
    emitRRI, emitR, emitRI8, emitW;
  repeat keeps_step.

(** *** Operands that record a fixup *)

Lemma bracket_inj a b : "[" +:+ a +:+ "]" = "[" +:+ b +:+ "]" -> a = b.
Proof.
  change ("[" +:+ a +:+ "]") with (String "["%char (a +:+ "]")).
  change ("[" +:+ b +:+ "]") with (String "["%char (b +:+ "]")).
  intros [= H]. revert b H. induction a as [|x a IH]; intros [|y b] H.
  - reflexivity.
  - change ("]" = String y (b +:+ "]")) in H. destruct b; discriminate H.
  - change (String x (a +:+ "]") = "]") in H. destruct a; discriminate H.
  - change (String x (a +:+ "]") = String y (b +:+ "]")) in H.
    injection H as -> H. now rewrite (IH b H).
Qed.

Lemma fixups_name_nil (P : string -> Prop) :
  (forall name, ~ P name) -> fixups_name [] P.
Proof.
  intros H name. split; [intros [off Hin]; inversion Hin|intros HP; now apply H in HP].
Qed.

Lemma fixups_name_one off name (P : string -> Prop) :
  (forall n, P n <-> n = name) -> fixups_name [(off, name)] P.
Proof.
  intros H n. rewrite H. split.
  - intros [o Hin]. apply elem_of_cons in Hin as [[= _ ->]|Hin]; [reflexivity|inversion Hin].
  - intros ->. exists off. left.
Qed.

Lemma fixups_name_iff fx (P Q : string -> Prop) :
  (forall n, P n <-> Q n) -> fixups_name fx P -> fixups_name fx Q.
Proof. intros H HP n. rewrite <- H. apply HP. Qed.

(** What [parse_addr_token] gives for a token, by the form of the token. *)
Lemma parse_addr_token_form tok :
  Z.of_nat (Str.size tok) < 18446744073709551616 ->
  (parse_addr_token tok = None /\
   forall i, i <> EmptyString -> trim tok <> "[" +:+ i +:+ "]") \/
  (exists inner,
     inner <> EmptyString /\ trim tok = "[" +:+ inner +:+ "]" /\
     parse_addr_token tok =
       match parse_int (trim inner) with
       | Some v => Some (Some (wrap16 v), EmptyString)
       | None => Some (None, lower (trim inner))
       end).
Proof.
  intros Hsz.
  destruct (Str.size (trim tok) <? 3)%nat eqn:E1.
  { left. split; [unfold parse_addr_token; cbv zeta; now rewrite E1|].
    intros i Hi Ht. rewrite Ht in E1. apply Nat.ltb_lt in E1.
    change ("[" +:+ i +:+ "]") with (String "["%char (i +:+ "]")) in E1.
    unfold Str.size in E1. cbn [String.length] in E1.
    pose proof (size_app i "]") as Hs. unfold Str.size in Hs. rewrite Hs in E1.
    destruct i; [congruence|]. cbn in E1. lia. }
  destruct (is_char (Str.front (trim tok)) "["%char) eqn:E2.
  2:{ left. split; [unfold parse_addr_token; cbv zeta; now rewrite E1, E2|].
      intros i Hi Ht. rewrite Ht in E2. discriminate E2. }
  destruct (is_char (Str.back (trim tok)) "]"%char) eqn:E3.
  2:{ left. split; [unfold parse_addr_token; cbv zeta; now rewrite E1, E2, E3|].
      intros i Hi Ht. rewrite Ht in E3.
      assert (Z.of_nat (Str.size i) < 18446744073709551616).
      { pose proof (size_trim tok) as Hle. rewrite Ht in Hle.
        change ("[" +:+ i +:+ "]") with (String "["%char (i +:+ "]")) in Hle.
        unfold Str.size in Hle. cbn [String.length] in Hle.
        pose proof (size_app i "]") as Hs. unfold Str.size in Hs, Hsz |- *.
        rewrite Hs in Hle. lia. }
      destruct (bracket_inside i Hi) as (_ & _ & T3 & _); [assumption|].
      cbv zeta in T3. rewrite T3 in E3. discriminate E3. }
  right. destruct (bracket_form _ E1 E2 E3) as (inner & Hne & Ht).
  exists inner. split; [exact Hne|]. split; [exact Ht|].
  assert (Z.of_nat (Str.size inner) < 18446744073709551616).
  { pose proof (size_trim tok) as Hle. rewrite Ht in Hle.
    change ("[" +:+ inner +:+ "]") with (String "["%char (inner +:+ "]")) in Hle.
    unfold Str.size in Hle. cbn [String.length] in Hle.
    pose proof (size_app inner "]") as Hs. unfold Str.size in Hs, Hsz |- *.
    rewrite Hs in Hle. lia. }
  destruct (bracket_inside inner Hne) as (T1 & T2 & T3 & T4); [assumption|].
  cbv zeta in *. unfold parse_addr_token. cbv zeta.
  rewrite Ht, T1, T2, T3, T4. reflexivity.
Qed.

Lemma emit_addr_fixups tok what st st' :
  Z.of_nat (Str.size tok) < 18446744073709551616 ->
  emit_addr tok what st = Ok (tt, st') ->
  exists fx,
    fixups st' = fixups st ++ fx /\
    fixups_name fx (fun name =>
      exists inner, trim tok = "[" +:+ inner +:+ "]" /\
                    parse_int (trim inner) = None /\ name = lower (trim inner)).
Proof.
  intros Hsz. unfold emit_addr.
  destruct (parse_addr_token_form tok Hsz) as [[-> _]|(inner & Hne & Ht & ->)];
    [discriminate|].
  destruct (parse_int (trim inner)) as [v|] eqn:E.
  - cbn [Str.empty]. rewrite emit16_bytes. intros [= <-].
    exists []. split; [now rewrite app_nil_r|].
    apply fixups_name_nil. intros name (i & Hi & Hp & _).
    rewrite Ht in Hi. apply bracket_inj in Hi. subst i. congruence.
  - assert (Hl : Str.empty (lower (trim inner)) = false).
    { rewrite lower_empty. destruct (trim inner); [discriminate E|reflexivity]. }
    rewrite Hl, emit_fixup16_run. intros [= <-].
    eexists. split; [reflexivity|].
    apply fixups_name_one. intros n. split.
    + intros (i & Hi & _ & ->). rewrite Ht in Hi. apply bracket_inj in Hi. now subst i.
    + intros ->. exists inner. auto.
Qed.

Lemma emit_imm_or_fixup_fixups tok name st st' :
  emit_imm_or_fixup tok name st = Ok (tt, st') ->
  exists fx,
    fixups st' = fixups st ++ fx /\
    fixups_name fx (fun n => parse_int tok = None /\ n = name).
Proof.
  rewrite emit_imm_or_fixup_run. destruct (parse_int tok) as [v|]; intros [= <-].
  - exists []. split; [now rewrite app_nil_r|].
    apply fixups_name_nil. now intros n [H _].
  - eexists. split; [reflexivity|].
    apply fixups_name_one. intros n. split; [now intros [_ ->]|now intros ->].
Qed.
(** *** The fixups of an instruction *)

Lemma operand_symbol_mnemonic M parts name :
  operand_symbol M parts name -> M ∈ symbol_mnemonics.
Proof.
  intros [op tok more H _ _ _ | p0 tok -> _ _ _ | p0 tok inner H _ _ _ _ _].
  - unfold jump_mnemonics in H.
    repeat (apply elem_of_cons in H as [H|H]; [injection H as -> ->|]);
      [..|inversion H]; unfold symbol_mnemonics; repeat constructor.
  - unfold symbol_mnemonics; repeat constructor.
  - unfold address_mnemonics in H.
    repeat (apply elem_of_cons in H as [->|H]);
      [..|inversion H]; unfold symbol_mnemonics; repeat constructor.
Qed.

Lemma jump_not_address M op : (M, op) ∈ jump_mnemonics -> (M ∉ address_mnemonics) /\ M <> "ldi".
Proof.
  unfold jump_mnemonics. intros H.
  repeat (apply elem_of_cons in H as [H|H]; [injection H as -> ->|]);
    [..|inversion H]; (split; [|discriminate]); unfold address_mnemonics; intros H;
    repeat (apply elem_of_cons in H as [H|H]; [discriminate H|]); inversion H.
Qed.

Lemma operand_symbol_jump M op tok more n :
  (M, op) ∈ jump_mnemonics ->
  operand_symbol M (tok :: more) n <-> parse_int tok = None /\ n = lower tok.
Proof.
  intros HM. destruct (jump_not_address M op HM) as [Ha Hl]. split.
  - intros [op' tok' more' _ [= <- <-] Hp Hn | p0 tok' HM' _ _ _
           | p0 tok' inner HM' _ _ _ _ _]; [now split|congruence|contradiction].
  - intros [Hp Hn]. now apply (jump_target M (tok :: more) n op tok more).
Qed.

Lemma operand_symbol_ldi p0 tok n :
  operand_symbol "ldi" [p0; tok] n <-> parse_int tok = None /\ n = lower tok.
Proof.
  split.
  - intros [op tok' more' HM _ _ _ | p0' tok' _ [= <- <-] Hp Hn
           | p0' tok' inner HM' _ _ _ _ _].
    + destruct (jump_not_address _ _ HM) as [_ H]. congruence.
    + now split.
    + unfold address_mnemonics in HM'.
      repeat (apply elem_of_cons in HM' as [HM'|HM']; [discriminate HM'|]). inversion HM'.
  - intros [Hp Hn]. now apply (ldi_immediate "ldi" [p0; tok] n p0 tok).
Qed.

Lemma operand_symbol_addr M p0 tok n :
  M ∈ address_mnemonics ->
  operand_symbol M [p0; tok] n <->
  (M = "ld" \/ M = "st" -> has_plus tok = false) /\
  exists inner, trim tok = "[" +:+ inner +:+ "]" /\
                parse_int (trim inner) = None /\ n = lower (trim inner).
Proof.
  intros HM. split.
  - intros [op tok' more' HM' _ _ _ | p0' tok' HM' _ _ _
           | p0' tok' inner _ [= <- <-] Hplus Ht Hp Hn].
    + destruct (jump_not_address _ _ HM') as [H _]. contradiction.
    + subst M. unfold address_mnemonics in HM.
      repeat (apply elem_of_cons in HM as [HM|HM]; [discriminate HM|]). inversion HM.
    + split; [exact Hplus|]. now exists inner.
  - intros [Hplus (inner & Ht & Hp & Hn)].
    now apply (absolute_address M [p0; tok] n p0 tok inner).
Qed.

Lemma reg_of_state tok st r st1 : reg_of tok st = Ok (r, st1) -> st1 = st.
Proof.
  unfold reg_of. destruct (parse_reg tok); [|discriminate]. now intros [= _ <-].
Qed.

Lemma keeps_encode_insn M parts :
  M ∉ symbol_mnemonics -> keeps_fixups (encode_insn M parts).
Proof.
  intros Hnot. unfold encode_insn.
  repeat (let E := fresh "E" in
          case_bool_decide as E;
          [first [solve [exfalso; apply Hnot; rewrite E; unfold symbol_mnemonics;
                         repeat constructor]
                 |solve [keeps_auto]]
          |cbn [orb]]).
  apply keeps_throw.
Qed.

(** The instruction word and the operand word of the instructions with an
    absolute address. *)
Lemma word_then_addr {A} (w : A -> Z) (r : asm A) tok what st st' :
  Z.of_nat (Str.size tok) < 18446744073709551616 ->
  (let* rd := r in emit16 (w rd) ;;; emit_addr tok what) st = Ok (tt, st') ->
  keeps_fixups r ->
  exists fx,
    fixups st' = fixups st ++ fx /\
    fixups_name fx (fun name =>
      exists inner, trim tok = "[" +:+ inner +:+ "]" /\
                    parse_int (trim inner) = None /\ name = lower (trim inner)).
Proof.
  intros Hsz H Hr. unfold bind in H.
  destruct (r st) as [[rd st1]|] eqn:R; [|discriminate].
  apply Hr in R. rewrite emit16_bytes in H.
  apply emit_addr_fixups in H; [|exact Hsz].
  destruct H as (fx & Hfx & Hn). exists fx. split; [|exact Hn].
  rewrite Hfx. cbn [fixups set_bytes]. now rewrite R.
Qed.

Lemma word_then_imm {A} (w : A -> Z) (r : asm A) tok name st st' :
  (let* rd := r in emit16 (w rd) ;;; emit_imm_or_fixup tok name) st = Ok (tt, st') ->
  keeps_fixups r ->
  exists fx,
    fixups st' = fixups st ++ fx /\
    fixups_name fx (fun n => parse_int tok = None /\ n = name).
Proof.
  intros H Hr. unfold bind in H.
  destruct (r st) as [[rd st1]|] eqn:R; [|discriminate].
  apply Hr in R. rewrite emit16_bytes in H.
  apply emit_imm_or_fixup_fixups in H.
  destruct H as (fx & Hfx & Hn). exists fx. split; [|exact Hn].
  rewrite Hfx. cbn [fixups set_bytes]. now rewrite R.
Qed.

Lemma encode_insn_fixups M parts st st' :
  (forall tok, tok ∈ parts -> Z.of_nat (Str.size tok) < 18446744073709551616) ->
  encode_insn M parts st = Ok (tt, st') ->
  exists fx,
    fixups st' = fixups st ++ fx /\ fixups_name fx (operand_symbol M parts).
Proof.
  intros Hsz H.
  destruct (decide (M ∈ symbol_mnemonics)) as [Hin|Hnot].
  2:{ exists []. split.
      - rewrite app_nil_r. exact (keeps_encode_insn M parts Hnot _ _ _ H).
      - apply fixups_name_nil. intros n Hn. now apply operand_symbol_mnemonic in Hn. }
  unfold symbol_mnemonics in Hin.
  repeat (apply elem_of_cons in Hin as [->|Hin]); [..|inversion Hin];
    unfold encode_insn in H;
    repeat (let E := fresh "E" in
            case_bool_decide as E; [try discriminate E|try congruence]);
    cbn [orb] in H.
  all: try (destruct parts as [|tok more];
            [discriminate H|];
            apply (word_then_imm (fun _ => _) (ret tt)) in H; [|apply keeps_ret];
            destruct H as (fx & Hfx & Hn); exists fx; split; [exact Hfx|];
            eapply fixups_name_iff; [|exact Hn];
            intros n; symmetry; eapply operand_symbol_jump;
            unfold jump_mnemonics; repeat constructor).
  all: destruct parts as [|p0 [|p1 [|p2 ps]]];
    cbn [length Nat.eqb negb] in H; try discriminate H;
    assert (Hp1 : Z.of_nat (Str.size p1) < 18446744073709551616)
      by (apply Hsz; right; left).
  - (* ldi *)
    apply (word_then_imm (fun rd => wrap16 (Z.lor (Z.shiftl 2 11) (Z.shiftl (wrap8 rd) 8)))
             (reg_of p0) p1 (lower p1)) in H; [|apply keeps_reg_of].
    destruct H as (fx & Hfx & Hn). exists fx. split; [exact Hfx|].
    eapply fixups_name_iff; [|exact Hn].
    intros n. symmetry. apply operand_symbol_ldi.
  - (* ld *)
    destruct (has_plus p1) eqn:Eplus.
    + assert (K : keeps_fixups (let* rd := reg_of p0 in
                   emit_short false rd p1 "LD short expects [rb+imm]"
                              "LD short imm must be int")) by keeps_auto.
      exists []. split.
      * rewrite app_nil_r. apply (K st tt st'). unfold bind in *.
        cbn [part lookup list_lookup ret] in H. now rewrite Eplus in H.
      * apply fixups_name_nil. intros n Hn.
        apply operand_symbol_addr in Hn; [|unfold address_mnemonics; repeat constructor].
        destruct Hn as [Hn _]. rewrite Hn in Eplus; [discriminate|now left].
    + assert (H' : (let* rd := reg_of p0 in
                    emit16 (wrap16 (Z.lor (Z.shiftl 15 11) (Z.shiftl (wrap8 rd) 8))) ;;;
                    emit_addr p1 "LD rd, [addr16]") st = Ok (tt, st')).
      { unfold bind in *. cbn [part lookup list_lookup ret] in H.
        now rewrite Eplus in H. }
      apply (word_then_addr _ (reg_of p0)) in H'; [|exact Hp1|apply keeps_reg_of].
      destruct H' as (fx & Hfx & Hn). exists fx. split; [exact Hfx|].
      eapply fixups_name_iff; [|exact Hn].
      intros n. rewrite operand_symbol_addr
        by (unfold address_mnemonics; repeat constructor).
      split; [intros (inner & Hi); split; [now intros _|now exists inner]|now intros [_ Hi]].
  - (* st *)
    destruct (has_plus p1) eqn:Eplus.
    + assert (K : keeps_fixups (let* rs := reg_of p0 in
                   emit_short true rs p1 "ST short expects [rb+imm]"
                              "ST short imm must be int")) by keeps_auto.
      exists []. split.
      * rewrite app_nil_r. apply (K st tt st'). unfold bind in *.
        cbn [part lookup list_lookup ret] in H. now rewrite Eplus in H.
      * apply fixups_name_nil. intros n Hn.
        apply operand_symbol_addr in Hn; [|unfold address_mnemonics; repeat constructor].
        destruct Hn as [Hn _]. rewrite Hn in Eplus; [discriminate|now right].
    + assert (H' : (let* rs := reg_of p0 in
                    emit16 (wrap16 (Z.lor (Z.shiftl 16 11) (Z.shiftl (wrap8 rs) 8))) ;;;
                    emit_addr p1 "ST rs, [addr16]") st = Ok (tt, st')).
      { unfold bind in *. cbn [part lookup list_lookup ret] in H.
        now rewrite Eplus in H. }
      apply (word_then_addr _ (reg_of p0)) in H'; [|exact Hp1|apply keeps_reg_of].
      destruct H' as (fx & Hfx & Hn). exists fx. split; [exact Hfx|].
      eapply fixups_name_iff; [|exact Hn].
      intros n. rewrite operand_symbol_addr
        by (unfold address_mnemonics; repeat constructor).
      split; [intros (inner & Hi); split; [now intros _|now exists inner]|now intros [_ Hi]].
  - (* ldb *)
    apply (word_then_addr
             (fun rd => wrap16 (Z.lor (Z.shiftl 17 11) (Z.shiftl (wrap8 rd) 8)))
             (reg_of p0)) in H; [|exact Hp1|apply keeps_reg_of].
    destruct H as (fx & Hfx & Hn). exists fx. split; [exact Hfx|].
    eapply fixups_name_iff; [|exact Hn].
    intros n. rewrite operand_symbol_addr
      by (unfold address_mnemonics; repeat constructor).
    split; [intros (inner & Hi); split; [intros [C|C]; discriminate C|now exists inner]
           |now intros [_ Hi]].
  - (* stb *)
    apply (word_then_addr
             (fun rd => wrap16 (Z.lor (Z.shiftl 18 11) (Z.shiftl (wrap8 rd) 8)))
             (reg_of p0)) in H; [|exact Hp1|apply keeps_reg_of].
    destruct H as (fx & Hfx & Hn). exists fx. split; [exact Hfx|].
    eapply fixups_name_iff; [|exact Hn].
    intros n. rewrite operand_symbol_addr
      by (unfold address_mnemonics; repeat constructor).
    split; [intros (inner & Hi); split; [intros [C|C]; discriminate C|now exists inner]
           |now intros [_ Hi]].
  - (* in *)
    apply (word_then_addr
             (fun rd => wrap16 (Z.lor (Z.shiftl 28 11) (Z.shiftl (wrap8 rd) 8)))
             (reg_of p0)) in H; [|exact Hp1|apply keeps_reg_of].
    destruct H as (fx & Hfx & Hn). exists fx. split; [exact Hfx|].
    eapply fixups_name_iff; [|exact Hn].
    intros n. rewrite operand_symbol_addr
      by (unfold address_mnemonics; repeat constructor).
    split; [intros (inner & Hi); split; [intros [C|C]; discriminate C|now exists inner]
           |now intros [_ Hi]].
  - (* out *)
    apply (word_then_addr
             (fun rs => wrap16 (Z.lor (Z.lor (Z.shiftl 29 11) (Z.shiftl 0 8)) (Z.shiftl rs 5)))
             (reg_of p0)) in H; [|exact Hp1|apply keeps_reg_of].
    destruct H as (fx & Hfx & Hn). exists fx. split; [exact Hfx|].
    eapply fixups_name_iff; [|exact Hn].
    intros n. rewrite operand_symbol_addr
      by (unfold address_mnemonics; repeat constructor).
    split; [intros (inner & Hi); split; [intros [C|C]; discriminate C|now exists inner]
           |now intros [_ Hi]].
Qed.
(** *** The fixups of a source *)

Lemma fixups_name_app fx1 fx2 (P Q : string -> Prop) :
  fixups_name fx1 P -> fixups_name fx2 Q ->
  fixups_name (fx1 ++ fx2) (fun n => P n \/ Q n).
Proof.
  intros H1 H2 n. rewrite <- (H1 n), <- (H2 n). split.
  - intros [off Hin]. apply elem_of_app in Hin as [Hin|Hin]; [left|right]; eauto.
  - intros [[off Hin]|[off Hin]]; exists off; apply elem_of_app; auto.
Qed.

Lemma word_operands_fixups parts : forall st st',
  for_each (fun p => emit_imm_or_fixup p (lower (trim p))) parts st = Ok (tt, st') ->
  exists fx,
    fixups st' = fixups st ++ fx /\
    fixups_name fx (fun n =>
      exists tok, tok ∈ parts /\ parse_int tok = None /\ n = lower (trim tok)).
Proof.
  induction parts as [|p parts IH]; intros st st'; cbn [for_each].
  - intros [= <-]. exists []. split; [now rewrite app_nil_r|].
    apply fixups_name_nil. intros n (tok & Hin & _). inversion Hin.
  - unfold bind. destruct (emit_imm_or_fixup p (lower (trim p)) st) as [[[] st1]|] eqn:E;
      [|discriminate].
    intros H. apply emit_imm_or_fixup_fixups in E. destruct E as (fx1 & F1 & N1).
    destruct (IH _ _ H) as (fx2 & F2 & N2).
    exists (fx1 ++ fx2). split; [now rewrite F2, F1, app_assoc|].
    eapply fixups_name_iff; [|exact (fixups_name_app _ _ _ _ N1 N2)].
    intros n. cbv beta. split.
    + intros [[Hp ->]|(tok & Hin & Hp & ->)].
      * exists p. split; [left|now split].
      * exists tok. split; [now right|now split].
    + intros (tok & Hin & Hp & ->). apply elem_of_cons in Hin as [->|Hin].
      * left. now split.
      * right. now exists tok.
Qed.

Lemma pass2_line_fixups raw pc st pc' st' :
  Z.of_nat (Str.size raw) < 18446744073709551616 ->
  pass2_line raw pc st = Ok (pc', st') ->
  exists fx, fixups st' = fixups st ++ fx /\ fixups_name fx (names_symbol raw).
Proof.
  intros Hsz. rewrite pass2_line_stmt. unfold names_symbol.
  pose proof (size_insn_of raw) as Hparts.
  unfold insn_of, word_operands in *.
  destruct (statement_of raw) as [s|].
  2:{ intros [= _ <-]. exists []. split; [now rewrite app_nil_r|].
      apply fixups_name_nil.
      intros n [(M & parts & H & _)|(parts & tok & H & _)]; discriminate H. }
  unfold pass2_stmt. cbv zeta in *.
  destruct (Str.starts_with ".org" (lower s)).
  { cbn [orb] in *. destruct (parse_int _); [|discriminate].
    unfold bind. rewrite pad_to_run. intros [= _ <-].
    exists []. split; [now rewrite app_nil_r|].
    apply fixups_name_nil.
    intros n [(M & parts & H & _)|(parts & tok & H & _)]; discriminate H. }
  destruct (Str.starts_with ".word" (lower s)).
  { cbn [orb] in *. unfold bind.
    destruct (for_each _ _ st) as [[[] st1]|] eqn:E; [|discriminate].
    intros [= _ <-]. apply word_operands_fixups in E.
    destruct E as (fx & Hfx & Hn). exists fx. split; [exact Hfx|].
    eapply fixups_name_iff; [|exact Hn]. intros n. cbv beta. split.
    - intros (tok & Hin & Hp & ->). right. eexists _, tok. now repeat split.
    - intros [(M & parts & H & _)|(parts & tok & [= <-] & Hin & Hp & ->)];
        [discriminate H|]. now exists tok. }
  destruct (Str.starts_with ".stringz" (lower s)).
  { cbn [orb] in *. unfold bind.
    destruct (for_each _ _ st) as [[[] st1]|] eqn:E; [|discriminate].
    intros [= _ <-].
    apply (keeps_for_each (fun c => emit8 (code c))) in E;
      [|intros; apply keeps_emit8].
    exists []. split; [rewrite app_nil_r; exact E|].
    apply fixups_name_nil.
    intros n [(M & parts & H & _)|(parts & tok & H & _)]; discriminate H. }
  cbn [orb] in *. destruct (split_mnemonic s) as [mnemRaw rest].
  unfold bind.
  destruct (encode_insn _ _ st) as [[[] st1]|] eqn:E; [|discriminate].
  intros [= _ <-]. apply encode_insn_fixups in E.
  - destruct E as (fx & Hfx & Hn). exists fx. split; [exact Hfx|].
    eapply fixups_name_iff; [|exact Hn]. intros n. split.
    + intros H. left. eexists _, _. split; [reflexivity|exact H].
    + intros [(M & parts & [= <- <-] & H)|(parts & tok & H & _)];
        [exact H|discriminate H].
  - intros tok Hin. specialize (Hparts _ _ tok eq_refl Hin). lia.
Qed.

Lemma pass2_loop_fixups ls : forall pc st pc' st',
  (forall raw, raw ∈ ls -> Z.of_nat (Str.size raw) < 18446744073709551616) ->
  pass2_loop ls pc st = Ok (pc', st') ->
  exists fx,
    fixups st' = fixups st ++ fx /\
    fixups_name fx (fun n => exists raw, raw ∈ ls /\ names_symbol raw n).
Proof.
  induction ls as [|raw ls IH]; intros pc st pc' st' Hsz; cbn [pass2_loop].
  - intros [= _ <-]. exists []. split; [now rewrite app_nil_r|].
    apply fixups_name_nil. intros n (raw & Hin & _). inversion Hin.
  - unfold bind. destruct (pass2_line raw pc st) as [[pc1 st1]|] eqn:E; [|discriminate].
    intros H. apply pass2_line_fixups in E; [|apply Hsz; left].
    destruct E as (fx1 & F1 & N1).
    destruct (IH _ _ _ _ (fun r Hr => Hsz r (proj2 (elem_of_cons ls r raw) (or_intror Hr))) H)
      as (fx2 & F2 & N2).
    exists (fx1 ++ fx2). split; [now rewrite F2, F1, app_assoc|].
    eapply fixups_name_iff; [|exact (fixups_name_app _ _ _ _ N1 N2)].
    intros n. cbv beta. split.
    + intros [Hn|(r & Hin & Hn)].
      * exists raw. split; [left|exact Hn].
      * exists r. split; [now right|exact Hn].
    + intros (r & Hin & Hn). apply elem_of_cons in Hin as [->|Hin].
      * now left.
      * right. now exists r.
Qed.

(** *** The symbols of a source are its labels *)

Lemma pass1_stmt_sym s pc sy pc' sy' :
  pass1_stmt s pc sy = Ok (pc', sy') -> sy' = sy.
Proof.
  unfold pass1_stmt. intros H.
  repeat match type of H with
         | (if ?b then _ else _) = _ => destruct b
         | match ?x with _ => _ end = _ => destruct x
         end; try discriminate; now injection H as _ <-.
Qed.

Lemma pass1_line_sym raw pc sy pc' sy' :
  pass1_line raw pc sy = Ok (pc', sy') ->
  sy' = match label_of raw with Some l => <[l := pc]> sy | None => sy end.
Proof.
  rewrite pass1_line_stmt. cbv zeta.
  destruct (statement_of raw) as [s|]; [apply pass1_stmt_sym|now intros [= _ <-]].
Qed.

Lemma pass1_loop_labels ls : forall pc sy pc' sy',
  pass1_loop ls pc sy = Ok (pc', sy') ->
  forall k, is_Some (sy' !! k) <->
            is_Some (sy !! k) \/ exists raw, raw ∈ ls /\ label_of raw = Some k.
Proof.
  induction ls as [|raw ls IH]; intros pc sy pc' sy'; cbn [pass1_loop].
  - intros [= _ <-] k. split; [now left|].
    intros [H|(raw & Hin & _)]; [exact H|inversion Hin].
  - destruct (pass1_line raw pc sy) as [[pc1 sy1]|] eqn:E; [|discriminate].
    intros H k. rewrite (IH _ _ _ _ H k). apply pass1_line_sym in E. subst sy1.
    split.
    + intros [Hk|(r & Hin & Hl)].
      * destruct (label_of raw) as [l|] eqn:El; [|now left].
        rewrite lookup_insert in Hk. case_decide as Ek.
        -- subst l. right. exists raw. split; [left|exact El].
        -- now left.
      * right. exists r. split; [now right|exact Hl].
    + intros [Hk|(r & Hin & Hl)].
      * left. destruct (label_of raw) as [l|]; [|exact Hk].
        rewrite lookup_insert. case_decide; [eauto|exact Hk].
      * apply elem_of_cons in Hin as [->|Hin].
        -- left. rewrite Hl. rewrite lookup_insert. case_decide; [eauto|congruence].
        -- right. now exists r.
Qed.

(** After both loops: the table holds the labels of the source, and the
    fixups name the symbols its operands name. *)
Lemma source_symbols text A1 pc st :
  Z.of_nat (Str.size text) < 18446744073709551616 ->
  pass1 (load text new_Assembler) = Ok (tt, A1) ->
  pass2_loop (lines A1) (org A1) (set_bytes [] A1) = Ok (pc, st) ->
  sym st = sym A1 /\
  (forall name, is_Some (sym A1 !! name) <->
                exists l, l ∈ getlines text /\ label_of l = Some name) /\
  (forall name, (exists off, (off, name) ∈ fixups st) <->
                exists raw, raw ∈ getlines text /\ names_symbol raw name).
Proof.
  intros Hsz P1 P2.
  destruct (pass1_fields _ _ P1) as (_ & HF & _ & HL). cbn [load fixups lines] in HF, HL.
  pose proof (pass2_loop_grows _ _ _ _ _ P2) as (HS & _). cbn [sym set_bytes] in HS.
  split; [exact HS|]. split.
  - unfold pass1 in P1. cbn [load lines org sym] in P1.
    destruct (pass1_loop (getlines text) 0 ∅) as [[pc1 sy]|] eqn:E; [|discriminate].
    injection P1 as <-. cbn [sym set_sym]. intros name.
    rewrite (pass1_loop_labels _ _ _ _ _ E name). rewrite lookup_empty. split.
    + intros [H|H]; [destruct H as [a Ha]; discriminate Ha|exact H].
    + intros H. now right.
  - rewrite HL in P2. apply pass2_loop_fixups in P2.
    + destruct P2 as (fx & Hfx & Hn). cbn [fixups set_bytes] in Hfx.
      rewrite HF in Hfx. cbn [app] in Hfx. rewrite Hfx. exact Hn.
    + intros raw Hin. apply size_getlines in Hin. lia.
Qed.



(** ** Offsets and addresses *)

(** The resolution changes no byte outside the words of the fixups. *)
Lemma resolve_other fx : forall st st',
  for_each resolve_fixup fx st = Ok (tt, st') ->
  forall i : nat,
    (forall off name, (off, name) ∈ fx -> i <> Z.to_nat off /\ i <> Z.to_nat (off + 1)) ->
    bytes st' !! i = bytes st !! i.
Proof.
  induction fx as [|[off name] fx IH]; intros st st'; cbn [for_each].
  - now intros [= <-].
  - unfold bind. destruct (resolve_fixup (off, name) st) as [[[] st1]|] eqn:E;
      [|discriminate].
    intros H i Hi. rewrite (IH _ _ H i).
    + unfold resolve_fixup in E. destruct (sym st !! name); [|discriminate].
      destruct (_ && _); [|discriminate]. injection E as <-.
      assert (Hhere : (off, name) ∈ (off, name) :: fx) by left.
      destruct (Hi off name Hhere) as [H0 H1]. cbn [bytes set_bytes].
      now rewrite !list_lookup_insert_ne by congruence.
    + intros off' name' Hin. apply (Hi off' name'). now right.
Qed.

Lemma pass1_loop_keeps_label ls lab : forall pc sy pc' sy',
  pass1_loop ls pc sy = Ok (pc', sy') ->
  (forall l, l ∈ ls -> label_of l <> Some lab) ->
  sy' !! lab = sy !! lab.
Proof.
  induction ls as [|raw ls IH]; intros pc sy pc' sy'; cbn [pass1_loop].
  - now intros [= _ <-].
  - destruct (pass1_line raw pc sy) as [[pc1 sy1]|] eqn:E; [|discriminate].
    intros H Hno. rewrite (IH _ _ _ _ H) by (intros l Hl; apply Hno; now right).
    apply pass1_line_sym in E. subst sy1.
    assert (Hhere : raw ∈ raw :: ls) by left.
    pose proof (Hno raw Hhere) as Hraw.
    destruct (label_of raw) as [l|]; [|reflexivity].
    rewrite lookup_insert. case_decide; [congruence|reflexivity].
Qed.

Lemma pass1_line_org_pc raw pc sy pc' sy' v :
  org_value raw = Some v -> pass1_line raw pc sy = Ok (pc', sy') -> pc' = wrap16 v.
Proof.
  unfold org_value. rewrite pass1_line_stmt. cbv zeta.
  destruct (statement_of raw) as [s|]; [|discriminate].
  destruct (Str.starts_with ".org" (lower s)) eqn:E; [|discriminate].
  intros Hv. unfold pass1_stmt. rewrite E, Hv. now intros [= <- _].
Qed.

(** The two passes on the lines before a line and on the line itself. *)
Lemma two_pass_prefix pre raw post pc1 sy pc2 st st0 :
  org st0 = 0 -> bytes st0 = [] ->
  pass1_loop (pre ++ raw :: post) 0 ∅ = Ok (pc1, sy) ->
  pass2_loop (pre ++ raw :: post) 0 st0 = Ok (pc2, st) ->
  orgs_forward (pre ++ raw :: post) 0 st0 = true ->
  Z.of_nat (length (bytes st)) < 65536 ->
  exists pcp syp pc2p stp pcr syr pc2r str,
    pass1_loop pre 0 ∅ = Ok (pcp, syp) /\
    pass2_loop pre 0 st0 = Ok (pc2p, stp) /\
    pass1_line raw pcp syp = Ok (pcr, syr) /\
    pass2_line raw pc2p stp = Ok (pc2r, str) /\
    pass1_loop post pcr syr = Ok (pc1, sy) /\
    pass2_loop post pc2r str = Ok (pc2, st) /\
    org stp = 0 /\
    pcp = Z.of_nat (length (bytes stp)) /\
    pcr = Z.of_nat (length (bytes str)) /\
    (exists bs rest, bytes str = bytes stp ++ bs /\ bytes st = bytes str ++ rest).
Proof.
  intros Ho Hb P1 P2 F Hlen.
  assert (H0 : 0 = wrap16 (Z.of_nat (length (bytes st0)) + org st0))
    by (rewrite Hb, Ho; reflexivity).
  assert (Hu : u16 (org st0)) by (rewrite Ho; unfold u16; lia).
  pose proof P1 as Q1. pose proof P2 as Q2. pose proof F as G.
  rewrite pass1_loop_app in Q1. rewrite pass2_loop_app in Q2.
  apply orgs_forward_app in G.
  destruct (pass1_loop pre 0 ∅) as [[pcp syp]|] eqn:E1; [|discriminate].
  destruct (pass2_loop pre 0 st0) as [[pc2p stp]|] eqn:E2; [|discriminate].
  cbn [pass1_loop pass2_loop] in Q1, Q2. unfold bind in Q2.
  destruct (pass1_line raw pcp syp) as [[pcr syr]|] eqn:E3; [|discriminate].
  destruct (pass2_line raw pc2p stp) as [[pc2r str]|] eqn:E4; [|discriminate].
  exists pcp, syp, pc2p, stp, pcr, syr, pc2r, str.
  destruct (two_pass_loop pre 0 ∅ 0 st0 pcp syp pc2p stp Hu H0 E1 E2 G) as [Hp Hop].
  assert (F' : orgs_forward (pre ++ [raw]) 0 st0 = true).
  { apply (orgs_forward_app _ post). now rewrite <- app_assoc. }
  assert (R1 : pass1_loop (pre ++ [raw]) 0 ∅ = Ok (pcr, syr)).
  { rewrite pass1_loop_app, E1. cbn [pass1_loop]. now rewrite E3. }
  assert (R2 : pass2_loop (pre ++ [raw]) 0 st0 = Ok (pc2r, str)).
  { rewrite pass2_loop_app, E2. cbn [pass2_loop]. unfold bind. now rewrite E4. }
  destruct (two_pass_loop (pre ++ [raw]) 0 ∅ 0 st0 pcr syr pc2r str Hu H0 R1 R2 F')
    as [Hr Hor].
  pose proof (pass2_line_grows _ _ _ _ _ E4) as (_ & _ & _ & bs & fx & HB & _).
  pose proof (pass2_loop_grows _ _ _ _ _ Q2) as (_ & _ & _ & rest & fx' & HB' & _).
  assert (L1 : Z.of_nat (length (bytes str)) < 65536)
    by (rewrite HB', length_app in Hlen; lia).
  assert (L0 : Z.of_nat (length (bytes stp)) < 65536)
    by (rewrite HB, length_app in L1; lia).
  repeat (split; [first [reflexivity|assumption|congruence]|]).
  split.
  - rewrite Hp, Hop, Ho, Z.add_0_r. apply wrap16_id. unfold u16. lia.
  - split.
    + rewrite Hr, Hor, Ho, Z.add_0_r. apply wrap16_id. unfold u16. lia.
    + now exists bs, rest.
Qed.

(** C10 (amended): [load] sets the origin to 0 and neither pass changes it.
    For a source that both loops accept, in which no [.org] asks for an
    address behind the bytes already emitted and whose image is smaller
    than 2^16 bytes, an offset in the image is an address: pass 2 reaches
    every line with exactly as many bytes emitted as the address pass 1 has
    for the line, and leaves it with as many as the address pass 1 has
    behind it; the bytes of the line stay at these offsets; a label of the
    line, if no later line defines it again, has the offset of the line as
    its address; an [.org V] line pads the image with zero bytes up to the
    offset V itself; and the resolution writes the address of the symbol,
    low byte first, at the offset of each fixup and changes no other
    byte. *)
Theorem C10_offset_is_address (text : string) (A1 : Assembler) (pc : Z) (st : Assembler) :
  pass1 (load text new_Assembler) = Ok (tt, A1) ->
  pass2_loop (lines A1) (org A1) (set_bytes [] A1) = Ok (pc, st) ->
  orgs_forward (lines A1) (org A1) (set_bytes [] A1) = true ->
  Z.of_nat (length (bytes st)) < 65536 ->
  (org (load text new_Assembler) = 0 /\ org A1 = 0 /\ org st = 0) /\
  (forall pre raw post,
     getlines text = pre ++ raw :: post ->
     exists pcp syp pc2p stp pcr syr pc2r str,
       pass1_loop pre 0 ∅ = Ok (pcp, syp) /\
       pass2_loop pre 0 (set_bytes [] A1) = Ok (pc2p, stp) /\
       pass1_line raw pcp syp = Ok (pcr, syr) /\
       pass2_line raw pc2p stp = Ok (pc2r, str) /\
       pcp = Z.of_nat (length (bytes stp)) /\
       pcr = Z.of_nat (length (bytes str)) /\
       (exists bs rest,
          bytes str = bytes stp ++ bs /\ bytes st = bytes stp ++ bs ++ rest) /\
       (forall lab,
          label_of raw = Some lab ->
          (forall l, l ∈ post -> label_of l <> Some lab) ->
          sym A1 !! lab = Some (Z.of_nat (length (bytes stp)))) /\
       (forall v,
          org_value raw = Some v ->
          bytes str = bytes stp ++
            replicate (Z.to_nat (wrap16 v - Z.of_nat (length (bytes stp)))) 0 /\
          Z.of_nat (length (bytes str)) = wrap16 v)) /\
  (forall bin,
     assemble text = Ok bin ->
     length bin = length (bytes st) /\
     (forall off name,
        (off, name) ∈ fixups st ->
        exists a, sym A1 !! name = Some a /\
                  bin !! Z.to_nat off = Some (a mod 256) /\
                  bin !! Z.to_nat (off + 1) = Some (a / 256 mod 256)) /\
     (forall i : nat,
        (forall off name, (off, name) ∈ fixups st ->
                          i <> Z.to_nat off /\ i <> Z.to_nat (off + 1)) ->
        bin !! i = bytes st !! i)).
Proof.
  intros P1 P2 F Hlen.
  destruct (pass1_fields _ _ P1) as (HB1 & HF1 & HO1 & HL1).
  cbn [load bytes fixups org lines] in HB1, HF1, HO1, HL1.
  pose proof (pass2_loop_grows _ _ _ _ _ P2) as (HS & HO & _ & bs0 & fx0 & HB & HFx & K).
  cbn [sym org bytes fixups set_bytes] in HS, HO, HB, HFx, K.
  rewrite HF1 in HFx. cbn [app] in HB, HFx.
  split; [split; [reflexivity|split; [exact HO1|now rewrite HO]]|].
  assert (Q1 : exists pc1, pass1_loop (getlines text) 0 ∅ = Ok (pc1, sym A1)).
  { unfold pass1 in P1. cbn [load lines org sym] in P1.
    destruct (pass1_loop (getlines text) 0 ∅) as [[pc1 sy]|]; [|discriminate].
    injection P1 as <-. now exists pc1. }
  destruct Q1 as [pc1 Q1]. rewrite HL1, HO1 in P2, F.
  split.
  - intros pre raw post Hsplit. rewrite Hsplit in Q1, P2, F.
    destruct (two_pass_prefix pre raw post pc1 (sym A1) pc st (set_bytes [] A1)
                HO1 eq_refl Q1 P2 F Hlen)
      as (pcp & syp & pc2p & stp & pcr & syr & pc2r & str &
          E1 & E2 & E3 & E4 & E5 & E6 & Hop & Hp & Hr & bs & rest & Hbs & Hrest).
    exists pcp, syp, pc2p, stp, pcr, syr, pc2r, str.
    split; [exact E1|]. split; [exact E2|]. split; [exact E3|]. split; [exact E4|].
    split; [exact Hp|]. split; [exact Hr|]. split; [|split].
    + exists bs, rest. split; [exact Hbs|]. now rewrite Hrest, Hbs, <- app_assoc.
    + intros lab Hlab Hlater.
      rewrite (pass1_loop_keeps_label post lab _ _ _ _ E5 Hlater).
      rewrite <- Hp. exact (pass1_line_label _ _ _ _ _ _ E3 Hlab).
    + intros v Hv.
      rewrite (pass2_line_org_run raw pc2p stp v Hv Hop) in E4.
      injection E4 as _ <-. cbn [bytes set_bytes]. split; [reflexivity|].
      transitivity pcr; [symmetry; exact Hr|].
      exact (pass1_line_org_pc _ _ _ _ _ v Hv E3).
  - intros bin Hbin. unfold assemble, bind in Hbin. rewrite P1 in Hbin.
    unfold pass2, bind in Hbin. cbn [lines org set_bytes] in Hbin.
    rewrite HL1, HO1, P2 in Hbin.
    destruct (for_each resolve_fixup (fixups st) st) as [[[] st']|] eqn:R;
      [|discriminate].
    injection Hbin as <-.
    assert (Hok : fix_ok 0 (fixups st) (Z.of_nat (length (bytes st))))
      by (rewrite HFx; apply K; lia).
    assert (Hdef : first_undefined (sym st) (fixups st) = None).
    { apply first_undefined_None. intros off name Hin.
      exact (resolve_ok_defined _ _ _ R off name Hin). }
    destruct (resolve_all _ st 0 ltac:(lia) Hok Hdef)
      as (st2 & R2 & _ & _ & _ & L & _ & Patched).
    rewrite R in R2. injection R2 as <-.
    split; [exact L|]. split.
    + intros off name Hin. destruct (Patched off name Hin) as (a & Ha & B1 & B2).
      exists a. rewrite <- HS. auto.
    + intros i Hi. exact (resolve_other _ _ _ R i Hi).
Qed.

(** C10 (witness): in the source with a forward [.org 8] the label [end]
    has the address 8, the offset at which pass 2 reaches its line, and the
    fixup of [end] at offset 2 holds that address. *)
Lemma C10_witness :
  org (after_pass1 src_org_forward) = 0 /\
  sym (after_pass1 src_org_forward) !! "end" = Some 8 /\
  (exists stp pc2p,
     pass2_loop ["start: LDI r0, end"; ".org 8"] 0
                (set_bytes [] (after_pass1 src_org_forward)) = Ok (pc2p, stp) /\
     Z.of_nat (length (bytes stp)) = 8) /\
  assemble src_org_forward = Ok [0; 16; 8; 0; 0; 0; 0; 0; 0; 8].
Proof.
  assert (P1 : pass1 (load src_org_forward new_Assembler)
               = Ok (tt, after_pass1 src_org_forward)) by (vm_compute; reflexivity).
  assert (P2 : pass2_loop (lines (after_pass1 src_org_forward))
                 (org (after_pass1 src_org_forward))
                 (set_bytes [] (after_pass1 src_org_forward))
               = Ok (fst (after_loop src_org_forward), snd (after_loop src_org_forward)))
    by (vm_compute; reflexivity).
  assert (F : orgs_forward (lines (after_pass1 src_org_forward))
                (org (after_pass1 src_org_forward))
                (set_bytes [] (after_pass1 src_org_forward)) = true)
    by (vm_compute; reflexivity).
  assert (L : Z.of_nat (length (bytes (snd (after_loop src_org_forward)))) < 65536)
    by (vm_compute; reflexivity).
  destruct (C10_offset_is_address src_org_forward _ _ _ P1 P2 F L)
    as ((_ & H1 & _) & H2 & _).
  destruct (H2 ["start: LDI r0, end"; ".org 8"] "end: HALT" [])
    as (pcp & syp & pc2p & stp & pcr & syr & pc2r & str &
        _ & E2 & _ & _ & Hp & _ & _ & Hlab & _); [vm_compute; reflexivity|].
  assert (Hend : sym (after_pass1 src_org_forward) !! "end"
                 = Some (Z.of_nat (length (bytes stp)))).
  { apply Hlab; [vm_compute; reflexivity|]. intros l Hl. inversion Hl. }
  assert (H8 : Z.of_nat (length (bytes stp)) = 8).
  { assert (E : sym (after_pass1 src_org_forward) !! "end" = Some 8)
      by (vm_compute; reflexivity).
    rewrite E in Hend. now injection Hend as <-. }
  split; [exact H1|]. split; [now rewrite Hend, H8|].
  split; [exists stp, pc2p; split; [exact E2|exact H8]|].
  vm_compute. reflexivity.
Defined.

(** C10 (counterexample): after two [nop]s an [.org 0] sets the address of
    pass 1 back to 0, while the image keeps its four bytes.  The label [x]
    of the next line has the address 0, but pass 2 reaches the line with
    four bytes emitted: the jump stands at offset 4 of the image, and its
    operand, the address of [x], is 0. *)
Lemma C10_counterexample_org_backward :
  getlines src_org_back_label = ["nop"; "nop"; ".org 0"] ++ ["x: jmp x"] /\
  pass1 (load src_org_back_label new_Assembler)
    = Ok (tt, after_pass1 src_org_back_label) /\
  sym (after_pass1 src_org_back_label) !! "x" = Some 0 /\
  (exists stp,
     pass2_loop ["nop"; "nop"; ".org 0"] 0
                (set_bytes [] (after_pass1 src_org_back_label)) = Ok (0, stp) /\
     Z.of_nat (length (bytes stp)) = 4) /\
  assemble src_org_back_label = Ok [0; 0; 0; 0; 0; 168; 0; 0].
Proof.
  split; [vm_compute; reflexivity|]. split; [vm_compute; reflexivity|].
  split; [vm_compute; reflexivity|]. split; [|vm_compute; reflexivity].
  eexists. split; [vm_compute; reflexivity|]. vm_compute. reflexivity.
Qed.

(** ** [factorial.c] *)

Lemma factorial_S d n :
  factorial (S d) n =
    if (n =? 0) || (n =? 1) then Some (Ok 1)
    else if negb (in_int (n - 1))
    then Some (Err (Undefined "n - 1 overflows int"))
    else match factorial d (n - 1) with
         | Some (Ok r) =>
             if in_long_long (n * r) then Some (Ok (n * r))
             else Some (Err (Undefined "n * factorial(n - 1) overflows long long"))
         | Some (Err e) => Some (Err e)
         | None => None
         end.
Proof. reflexivity. Qed.

Lemma factorial_more_depth d : forall n r,
  factorial d n = Some r -> factorial (S d) n = Some r.
Proof.
  induction d as [|d IH]; intros n r; [discriminate|].
  intros H. rewrite (factorial_S (S d)). rewrite factorial_S in H.
  destruct ((n =? 0) || (n =? 1)); [exact H|].
  destruct (negb (in_int (n - 1))); [exact H|].
  destruct (factorial d (n - 1)) as [r1|] eqn:E; [|discriminate].
  rewrite (IH _ _ E). exact H.
Qed.

Lemma factorial_depth_le d d' n r :
  (d <= d')%nat -> factorial d n = Some r -> factorial d' n = Some r.
Proof.
  intros Hle H. induction Hle as [|d' _ IH]; [exact H|].
  now apply factorial_more_depth.
Qed.

Lemma factorial_small_checked :
  forallb (fun n => bool_decide (factorial (S (Z.to_nat n)) n
                                 = Some (Ok (zfact (Z.to_nat n)))))
          (seqZ 0 21) = true.
Proof. vm_compute. reflexivity. Qed.

Lemma factorial_overflows (k : nat) : forall d,
  (21 + k < d)%nat -> 21 + Z.of_nat k <= 2147483647 ->
  factorial d (21 + Z.of_nat k) =
    Some (Err (Undefined "n * factorial(n - 1) overflows long long")).
Proof.
  induction k as [|k IH]; intros d Hd Hmax.
  - apply (factorial_depth_le 22); [lia|]. vm_compute. reflexivity.
  - destruct d as [|d]; [lia|]. rewrite factorial_S.
    replace ((21 + Z.of_nat (S k) =? 0) || (21 + Z.of_nat (S k) =? 1)) with false
      by (symmetry; apply orb_false_iff; split; apply Z.eqb_neq; lia).
    replace (in_int (21 + Z.of_nat (S k) - 1)) with true
      by (symmetry; unfold in_int; apply andb_true_iff; split; apply Z.leb_le; lia).
    cbn [negb].
    replace (21 + Z.of_nat (S k) - 1) with (21 + Z.of_nat k) by lia.
    rewrite IH by lia. reflexivity.
Qed.

Lemma factorial_negative d : forall n r, n < 0 -> factorial d n <> Some (Ok r).
Proof.
  induction d as [|d IH]; intros n r Hn; [discriminate|]. rewrite factorial_S.
  replace ((n =? 0) || (n =? 1)) with false
    by (symmetry; apply orb_false_iff; split; apply Z.eqb_neq; lia).
  destruct (negb (in_int (n - 1))); [discriminate|].
  destruct (factorial d (n - 1)) as [[r1|e]|] eqn:E; try discriminate.
  exfalso. apply (IH (n - 1) r1); [lia|exact E].
Qed.

(** X28: [factorial].  For n from 0 to 20 the function returns n!, the
    nesting of its calls being n deep at most.  For an [int] n above 20 the
    product overflows [long long], which C leaves undefined.  For a
    negative n the function never returns a value: the calls go on until
    the stack, or the range of [int], ends. *)
Theorem factorial_value_and_overflow (n : Z) (depth : nat) :
  (0 <= n <= 20 -> (Z.to_nat n < depth)%nat ->
     factorial depth n = Some (Ok (zfact (Z.to_nat n)))) /\
  (21 <= n <= 2147483647 -> (Z.to_nat n < depth)%nat ->
     factorial depth n =
       Some (Err (Undefined "n * factorial(n - 1) overflows long long"))) /\
  (n < 0 -> forall r, factorial depth n <> Some (Ok r)).
Proof.
  split; [|split].
  - intros Hn Hd.
    pose proof (forall_range _ _ factorial_small_checked n ltac:(lia)) as C.
    cbv beta in C. apply bool_decide_eq_true_1 in C.
    apply (factorial_depth_le (S (Z.to_nat n))); [lia|exact C].
  - intros Hn Hd.
    replace n with (21 + Z.of_nat (Z.to_nat (n - 21))) by lia.
    apply factorial_overflows; lia.
  - intros Hn r. now apply factorial_negative.
Qed.

(** X29: [main] of [factorial.c].  For a negative number the program
    prints that the factorial is not defined and does not call
    [factorial]; for a number n from 0 to 20 it prints n and n! in decimal;
    above 20 its behaviour is undefined, and so it is when [scanf] has
    stored no number. *)
Theorem factorial_main_prints (num : Z) (depth : nat) :
  (num < 0 ->
     factorial_main depth (Some num) =
       Some (Ok ("Enter a number: Factorial is not defined for negative numbers."
                   +:+ String ch_nl EmptyString))) /\
  (0 <= num <= 20 -> (Z.to_nat num < depth)%nat ->
     factorial_main depth (Some num) =
       Some (Ok (((("Enter a number: Factorial of " +:+ dec num) +:+ " = ")
                    +:+ dec (zfact (Z.to_nat num))) +:+ String ch_nl EmptyString))) /\
  (21 <= num <= 2147483647 -> (Z.to_nat num < depth)%nat ->
     factorial_main depth (Some num) =
       Some (Err (Undefined "n * factorial(n - 1) overflows long long"))) /\
  factorial_main depth None = Some (Err (Undefined "num read before it is set")).
Proof.
  split; [|split; [|split]].
  - intros H. unfold factorial_main.
    now replace (num <? 0) with true by (symmetry; apply Z.ltb_lt; lia).
  - intros Hn Hd. unfold factorial_main.
    replace (num <? 0) with false by (symmetry; apply Z.ltb_ge; lia).
    pose proof (forall_range _ _ factorial_small_checked num ltac:(lia)) as C.
    cbv beta in C. apply bool_decide_eq_true_1 in C.
    rewrite (factorial_depth_le (S (Z.to_nat num)) depth _ _ ltac:(lia) C).
    reflexivity.
  - intros Hn Hd. unfold factorial_main.
    replace (num <? 0) with false by (symmetry; apply Z.ltb_ge; lia).
    replace num with (21 + Z.of_nat (Z.to_nat (num - 21))) at 1 by lia.
    rewrite factorial_overflows by lia. reflexivity.
  - reflexivity.
Qed.

Lemma factorial_main_prints_witness :
  factorial_main 6 (Some 5) =
    Some (Ok ("Enter a number: Factorial of 5 = 120" +:+ String ch_nl EmptyString)) /\
  factorial_main 0 (Some (-1)) =
    Some (Ok ("Enter a number: Factorial is not defined for negative numbers."
                +:+ String ch_nl EmptyString)).
Proof.
  destruct (factorial_main_prints 5 6) as (_ & H1 & _).
  destruct (factorial_main_prints (-1) 0) as (H2 & _).
  split; [apply H1; [lia|cbn; lia]|apply H2; lia].
Defined.

(** ** [dumpMemory] *)

Lemma log_reads_app m bs cs : log_reads m (bs ++ cs) = log_reads (log_reads m bs) cs.
Proof. unfold log_reads. apply fold_left_app. Qed.

Lemma log_reads_fields m bs :
  mem (log_reads m bs) = mem m /\ timer (log_reads m bs) = timer m /\
  timercmp (log_reads m bs) = timercmp m /\
  irq_pending (log_reads m bs) = irq_pending m /\
  trace (log_reads m bs) = rev (map EvRead bs) ++ trace m.
Proof.
  revert m. induction bs as [|b bs IH]; intros m; [repeat split|].
  cbn [log_reads fold_left]. fold (log_reads (log (EvRead b) m) bs).
  destruct (IH (log (EvRead b) m)) as (M & T & TC & I & Tr).
  rewrite M, T, TC, I, Tr. repeat split.
  cbn [map rev trace log]. now rewrite <- app_assoc.
Qed.

(** What a read returns does not depend on the reads before it. *)
Lemma read8_value_same m m' b :
  mem m' = mem m -> timer m' = timer m -> timercmp m' = timercmp m ->
  irq_pending m' = irq_pending m -> fst (read8 m' b) = fst (read8 m b).
Proof.
  destruct m, m'. cbn. intros -> -> -> ->. unfold read8.
  destruct (0xFF00 <=? b); reflexivity.
Qed.

Lemma cells_text_same m m' bs :
  mem m' = mem m -> timer m' = timer m -> timercmp m' = timercmp m ->
  irq_pending m' = irq_pending m -> cells_text m' bs = cells_text m bs.
Proof.
  intros M T TC I. induction bs as [|b bs IH]; [reflexivity|].
  cbn [cells_text fold_right]. fold (cells_text m' bs). fold (cells_text m bs).
  now rewrite IH, (read8_value_same m m' b).
Qed.

Lemma dump_cells_row a a1 : forall k i m,
  0 <= a <= 0xFFFF -> 0 <= a1 <= 0xFFFF -> 0 <= i -> Z.of_nat k = 16 - i ->
  dump_cells k m a a1 i =
    (cells_text m (seqZ (a + i) (Z.min (16 - i) (a1 - (a + i) + 1))),
     log_reads m (seqZ (a + i) (Z.min (16 - i) (a1 - (a + i) + 1)))).
Proof.
  induction k as [|k IH]; intros i m Ha Ha1 Hi Hk.
  - cbn [dump_cells]. rewrite (seqZ_nil (a + i)) by lia. reflexivity.
  - cbn [dump_cells].
    replace (i <? 16) with true by (symmetry; apply Z.ltb_lt; lia).
    cbn [andb]. unfold wrap32 at 1. rewrite (Z.mod_small (a + i)) by lia.
    destruct (Z.leb_spec (a + i) a1) as [Hle|Hgt].
    + unfold wrap32. rewrite (Z.mod_small (a + i)) by lia.
      rewrite wrap16_id by (unfold u16; lia).
      pose proof (read8_cmem m (a + i)) as Hm.
      destruct (read8 m (a + i)) as [v m1] eqn:E. cbn [snd] in Hm. subst m1.
      rewrite IH by lia.
      rewrite (seqZ_cons (a + i)) by lia.
      replace (Z.succ (a + i)) with (a + (i + 1)) by lia.
      replace (Z.pred (Z.min (16 - i) (a1 - (a + i) + 1)))
        with (Z.min (16 - (i + 1)) (a1 - (a + (i + 1)) + 1)) by lia.
      cbn [cells_text fold_right log_reads fold_left]. rewrite E. cbn [fst].
      f_equal. f_equal. apply cells_text_same; reflexivity.
    + rewrite (seqZ_nil (a + i)) by lia. reflexivity.
Qed.

Lemma dump_rows_spec a1 : forall fuel a m,
  0 <= a <= 0xFFFF + 16 -> 0 <= a1 <= 0xFFFF ->
  (a1 - a + 16) / 16 <= Z.of_nat fuel ->
  dump_rows fuel m a a1 =
    (map (fun k => dump_row_text m (a + 16 * k) a1) (seqZ 0 ((a1 - a + 16) / 16)),
     log_reads m (seqZ a (a1 - a + 1))).
Proof.
  induction fuel as [|fuel IH]; intros a m Ha Ha1 Hf.
  - cbn [dump_rows]. rewrite (seqZ_nil 0) by lia.
    assert (a1 - a + 16 < 16).
    { destruct (Z.lt_ge_cases (a1 - a + 16) 16) as [H|H]; [exact H|].
      assert (1 <= (a1 - a + 16) / 16) by (apply Z.div_le_lower_bound; lia). lia. }
    rewrite (seqZ_nil a) by lia. reflexivity.
  - cbn [dump_rows]. destruct (Z.leb_spec a a1) as [Hle|Hgt].
    + rewrite dump_cells_row by lia. rewrite !Z.add_0_r, Z.sub_0_r.
      set (n := Z.min 16 (a1 - a + 1)).
      unfold wrap32. rewrite (Z.mod_small (a + 16)) by lia.
      assert (Hdiv : (a1 - a + 16) / 16 = 1 + (a1 - (a + 16) + 16) / 16).
      { replace (a1 - a + 16) with (1 * 16 + (a1 - (a + 16) + 16)) by lia.
        rewrite Z.div_add_l by lia. reflexivity. }
      assert (Hq : 0 <= (a1 - (a + 16) + 16) / 16) by (apply Z.div_pos; lia).
      rewrite IH by lia.
      rewrite Hdiv. rewrite (seqZ_cons 0 (1 + (a1 - (a + 16) + 16) / 16)) by lia.
      replace (Z.pred (1 + (a1 - (a + 16) + 16) / 16))
        with ((a1 - (a + 16) + 16) / 16) by lia.
      cbn [map]. f_equal.
      * f_equal.
        -- unfold dump_row_text. now rewrite Z.mul_0_r, Z.add_0_r.
        -- replace (seqZ (Z.succ 0) ((a1 - (a + 16) + 16) / 16))
             with (Z.add 1 <$> seqZ 0 ((a1 - (a + 16) + 16) / 16))
             by apply (fmap_add_seqZ 1 0).
           change (map ?f ?l) with (f <$> l).
           rewrite <- list_fmap_compose. apply list_fmap_ext. intros _ k _.
           cbn [compose]. unfold dump_row_text.
           replace (a + 16 + 16 * k) with (a + 16 * (1 + k)) by lia.
           f_equal. apply cells_text_same; apply log_reads_fields.
      * rewrite <- log_reads_app. f_equal.
        destruct (Z.le_gt_cases 16 (a1 - a + 1)) as [H16|H16].
        -- unfold n. rewrite Z.min_l by lia.
           replace (a1 - a + 1) with (16 + (a1 - (a + 16) + 1)) by lia.
           rewrite (seqZ_app a 16 (a1 - (a + 16) + 1)) by lia. reflexivity.
        -- unfold n. rewrite Z.min_r by lia.
           rewrite (seqZ_nil (a + 16)) by lia. now rewrite app_nil_r.
    + assert (Hz : (a1 - a + 16) / 16 <= 0).
      { destruct (Z.le_gt_cases ((a1 - a + 16) / 16) 0) as [H|H]; [exact H|].
        assert (16 * 1 <= a1 - a + 16); [|lia].
        apply Z.le_trans with (16 * ((a1 - a + 16) / 16)); [lia|].
        apply Z.mul_div_le. lia. }
      rewrite (seqZ_nil 0) by lia. rewrite (seqZ_nil a) by lia. reflexivity.
Qed.

Lemma hex_widths :
  forallb (fun h => forallb (fun l => (Str.size (hex 4 (256 * h + l)) =? 4)%nat)
                            (seqZ 0 256)) (seqZ 0 256) = true /\
  forallb (fun b => (Str.size (hex 2 b) =? 2)%nat) (seqZ 0 256) = true.
Proof. split; vm_compute; reflexivity. Qed.

Lemma hex_4_size a : u16 a -> Str.size (hex 4 a) = 4%nat.
Proof.
  unfold u16. intros Ha.
  pose proof (forall_range _ _ (proj1 hex_widths) (a / 256)) as C. cbv beta in C.
  assert (Hh : 0 <= a / 256 < 256).
  { split; [apply Z.div_pos; lia|apply Z.div_lt_upper_bound; lia]. }
  specialize (C Hh).
  pose proof (forall_range _ _ C (a mod 256) (Z.mod_pos_bound a 256 eq_refl)) as D.
  cbv beta in D. rewrite <- Z.div_mod in D by lia.
  now apply Nat.eqb_eq in D.
Qed.

(** X30: [dumpMemory] from a0 to a1.  It reads the addresses a0, a0 + 1,
    ..., a1, each once and in this order, and nothing when a1 is below a0;
    the reads change neither the memory nor the device registers.  The text
    has one row for every sixteen addresses: the address of the row in four
    hexadecimal digits, a colon, and the bytes read, in two hexadecimal
    digits and a space each.  The loop ends by its own test. *)
Theorem dumpMemory_prints_the_range (m : Memory) (a0 a1 : Z) :
  u16 a0 -> u16 a1 ->
  fst (dumpMemory m a0 a1) =
    map (fun k => dump_row_text m (a0 + 16 * k) a1) (seqZ 0 ((a1 - a0 + 16) / 16)) /\
  trace (snd (dumpMemory m a0 a1)) =
    rev (map EvRead (seqZ a0 (a1 - a0 + 1))) ++ trace m /\
  mem (snd (dumpMemory m a0 a1)) = mem m /\
  timer (snd (dumpMemory m a0 a1)) = timer m /\
  timercmp (snd (dumpMemory m a0 a1)) = timercmp m /\
  irq_pending (snd (dumpMemory m a0 a1)) = irq_pending m /\
  (a1 < a0 -> dumpMemory m a0 a1 = ([], m)) /\
  (forall fuel, (4097 <= fuel)%nat -> dump_rows fuel m a0 a1 = dumpMemory m a0 a1) /\
  (forall a, u16 a -> Str.size (hex 4 a) = 4%nat) /\
  (forall b, u8 b -> Str.size (hex 2 b) = 2%nat).
Proof.
  unfold u16. intros H0 H1.
  assert (Hrows : (a1 - a0 + 16) / 16 < 4097).
  { apply Z.div_lt_upper_bound; lia. }
  assert (Hspec : forall fuel, (4097 <= fuel)%nat ->
            dump_rows fuel m a0 a1 =
              (map (fun k => dump_row_text m (a0 + 16 * k) a1)
                   (seqZ 0 ((a1 - a0 + 16) / 16)),
               log_reads m (seqZ a0 (a1 - a0 + 1)))).
  { intros fuel Hf. apply dump_rows_spec; lia. }
  unfold dumpMemory. rewrite (Hspec 4097%nat) by lia. cbn [fst snd].
  destruct (log_reads_fields m (seqZ a0 (a1 - a0 + 1))) as (M & T & TC & I & Tr).
  split; [reflexivity|]. split; [exact Tr|]. split; [exact M|].
  split; [exact T|]. split; [exact TC|]. split; [exact I|].
  split; [|split; [|split]].
  - intros Hlt. rewrite (seqZ_nil a0) by lia.
    assert ((a1 - a0 + 16) / 16 <= 0).
    { destruct (Z.le_gt_cases ((a1 - a0 + 16) / 16) 0) as [H|H]; [exact H|].
      assert (16 * 1 <= a1 - a0 + 16); [|lia].
      apply Z.le_trans with (16 * ((a1 - a0 + 16) / 16)); [lia|].
      apply Z.mul_div_le. lia. }
    rewrite (seqZ_nil 0) by lia. reflexivity.
  - intros fuel Hf. now apply Hspec.
  - exact hex_4_size.
  - intros b Hb.
    pose proof (forall_range _ _ (proj2 hex_widths) b Hb) as C. cbv beta in C.
    now apply Nat.eqb_eq in C.
Qed.

Lemma dumpMemory_prints_the_range_witness :
  fst (dumpMemory mem_sample 0x1FFE 0x2011) =
    ["1ffe: 00 00 34 12 00 00 00 00 00 00 00 00 00 00 00 00 "; "200e: 00 00 00 00 "] /\
  mem (snd (dumpMemory mem_sample 0x1FFE 0x2011)) = mem mem_sample.
Proof.
  destruct (dumpMemory_prints_the_range mem_sample 0x1FFE 0x2011)
    as (H1 & _ & H2 & _); [unfold u16; lia|unfold u16; lia|].
  split; [rewrite H1; vm_compute; reflexivity|exact H2].
Defined.
